(* ===== verification/_CoqProject ===== *)
-Q . S2P
Prelude.v
Strings.v
Tables.v
Money.v
Models.v
JsonValues.v
EsimModels.v
World.v
Effects.v
Credit.v
Reconcile.v
VoucherCodes.v
Vouchers.v
VoucherAdmin.v
Settlement.v
Margin.v
Subscription.v
Grants.v
Invites.v
Attribution.v
Memberships.v
Devices.v
Pricing.v
Spend.v
Lifecycle.v
Orders.v
Topups.v
AutoTopup.v
Addresses.v
Polygon.v
Observations.v
Shadow.v
Deposits.v
