(* ===== verification/Prelude.v ===== *)
(** * RoamKit API: verification development (root)

    RoamKit sells prepaid eSIM data.  A customer's account holds credits; an
    append-only ledger records every movement of them.  Credits arrive by USDT
    deposits, vouchers and partners; they leave by orders, top-ups and
    subscription renewals, which are fulfilled by an external eSIM provider.
    This library models the services under [src/src/apps] that keep that state
    and proves what they promise.

    ** The program's parts and the files that model them

    [Prelude] holds record update, automation and text; [Strings] lemmas on
    stripping, slicing and numbers in text; [Tables] finite maps as database
    tables, with the queryset methods; [Money] decimal amounts as micro-units.
    The rows of every table are Records in [Models] (billing, partner channel,
    organizations, wallet) and [EsimModels] (catalog, pricing, orders, eSIMs),
    one Record per Django model and one Inductive per [TextChoices] class;
    [JsonValues] reads decoded JSON.  [World] has the exceptions, the domain
    events, the settings, the database (a Record of tables) and the monad [M] in
    which a service method runs; [Effects] the rules to reason about it.

    - [Credit] ([billing/services/credit.py]): the only mutator of a balance.
      [Reconcile] ([reconcile.py]): comparing and rebuilding balances.
    - [VoucherCodes], [Vouchers], [VoucherAdmin] ([voucher_codes.py],
      [voucher_redeem.py], [voucher_admin.py]): codes, redemption, issuing and
      revoking.
    - [Settlement], [Margin], [Grants] ([partner_settlement.py],
      [partner_margin.py], [partner_grant.py]): the account of a partner, the
      commission on a sale, gifts of credits; [Invites], [Attribution]
      ([partner_invite.py], [partner_invite_visit.py], [partner_attribution.py],
      [partner_pending.py], [partner_self_referral.py]): how a customer comes
      to belong to a partner.
    - [Subscription] ([subscription.py]): the thirty-day renewal of a plan.
    - [Pricing] ([apps/pricing]): the price of a package for an account.
    - [Spend], [Orders], [Topups], [AutoTopup] ([order_service.py],
      [product_snapshot.py], [topup_service.py], [inventory_transfer.py],
      [auto_topup_service.py]): reserve and debit, call the provider, persist or
      refund; and the policies that buy by themselves.  [Lifecycle]
      ([lifecycle_service.py], [usage_service.py], [initial_credit.py]): the
      states of an eSIM.
    - [Addresses], [Polygon], [Observations], [Shadow], [Deposits]
      ([apps/wallet], [apps/integrations/polygon],
      [deposit_verification.py]): deposit addresses, the chain, observed
      transfers and their conversion to credits, and the two deposit paths.
    - [Memberships], [Devices] ([apps/organizations/services],
      [apps/integrations/blackberry_uem]): teams, their members and invites, and
      what each role may do; the devices bound to a team's eSIMs, the secrets of
      devices and fleets, and finding a device in the inventory.

    The parts meet in the database and through calls: orders, top-ups,
    renewals, vouchers, grants, bonuses and deposits post to [Credit]; orders,
    top-ups and renewals report to [Margin]; [AutoTopup] drives [Lifecycle]'s
    usage refresh and [Topups]' purchase; an order or a top-up asks [Memberships]
    whose account it spends from, and [Devices] who may bind.

    ** How state and operations are modelled

    A method is a function in [M]: it takes the environment (settings, clock,
    entropy) and the world (database, published events, metrics, fresh
    identifiers, transaction state), and returns a value or raises, leaving a
    world either way.  [atomic] is [transaction.atomic()]: an exception restores
    the database it started from, not the events or the clock.  A database error
    inside a block marks the connection aborted, after which every query fails
    until the block ends, as PostgreSQL does; [select_for_update] outside a block
    raises.  [save_fields] is [save(update_fields=...)], in place; [create] an
    insert; each takes the verdict of the table's constraints.  A method that
    mutates a model instance takes the in-memory row and returns the one it
    leaves, which may differ from the stored row.

    An interface is a Class: [OrderProvider], [TopupProvider] and
    [BlockchainProvider] for the external services, whose law is that a call
    does not touch our database; [Spend] for the tables of prepaid purchases,
    proved once and instantiated for orders and top-ups.  Other third-party
    code is a parameter of the definitions that use it: SHA-256, Django's
    [slugify] and [parse_datetime], HD key derivation, the HTTP exchange, the
    text of a JSON value, cookie signing.

    ** What the theorems show

    - Invariants: the credit service keeps every balance equal to its ledger sum
      and never negative; the prepaid books balance (a failed purchase costs
      nothing, any other its price, once), also under auto top-up; vouchers stay
      within their limits; deposits are credited exactly once; grants conserve
      money; one attribution per user; one address per account and no index
      reused; a team has one active owner and no stale invite, an eSIM one active
      device, under any history of calls, however each ends.
    - Outcomes: for each entry point, everything a call can do to its result and
      to the database, errors included: fulfilment, top-up purchase, credit and
      debit, renewal, margin, attribution, lifecycle events, deposit
      verification, transfers.  A specification names what the provider answered
      ([asked]) and what the database could not take ([account_fits]), so that
      neither a delivery nor a refund can be left out unnoticed.
    - Refinement: observations follow their state machine, deposit verification
      its specification, an evaluation of an auto top-up policy its own; histories
      of team calls take only the steps of the team contract.
    - Equivalence: whose account is charged, and with which error a purchase is
      denied, is decided by a declarative rule; the price of a package is the one
      due to the profile in effect; and authenticating a device answers exactly
      the active binding with that secret.
    - Safety: an auto top-up spends only when due and purchases are a cooldown
      apart; optimistic edits are compare-and-swap; terminal voucher rows are
      final; the shadow comparison is isolated; only an owner gives a team away;
      a device's secret is its only key, unbinding is final, and a rotated fleet
      secret lives exactly as long as its grace.
    - Also: the round trips of a price snapshot and of a team invite, the answers
      of a search by serial number, termination of the RPC retry loop, liveness of a confirmed deposit, the
      shape of a normalized coverage.

    ** Bounds and fuel

    Every loop of the program runs over a list or a retry counter, so the model
    is structurally recursive and has no fuel.  Balances and amounts are checked
    against the numeric columns' widths, counters and prices of the eSIM tables
    against 32-bit and decimal bounds.

    ** Abstractions

    Keys (UUIDs and integers) are numbers drawn from one supply, printed in
    decimal; of the print only injectivity and the absence of colons and spaces
    matter.
    Instants are microseconds and dates ordinals, their texts injective.  Text is
    ASCII, where NFKC is the identity and casefold is lower case.  Money is in
    micro-units, price columns rounded to cents as stored, percentages in
    hundredths.  A call runs to its end before the next: concurrent calls are
    sequences of transactions, with row locks as the requirement that a locking
    read happens in a transaction.  A table checks its unique and check
    constraints and column widths of numbers; widths of texts and the existence
    of foreign rows are not checked.

    ** Not modelled

    HTTP views, serializers and admin screens (request and response shapes around
    the services); migrations and settings parsing; the HTTP clients of Airalo,
    Binance, MEXC and UEM (reached through the interfaces above, the client
    errors of UEM carrying a text that the transport chooses), and the inventory
    lookup that follows a device's authentication; e-mail handlers
    of events; registration and sign-in (Django's authentication); read-only
    reports, metrics and dashboards, the public status, package history and device
    snapshots among them; the catalog import; management commands and
    tasks that call a service in a loop.  Of the modelled services: logging,
    event payloads that nothing reads, [updated_at] stamps beyond eSIMs and
    top-ups. *)

From stdpp Require Export prelude gmap strings pretty list sorting.
From Stdlib Require Export ZArith Lia Ascii.

(** ** Record update

    [r <| field := v |>] is the record [r] with one field replaced: the
    attribute assignment of a Python model instance.  A record opts in with
    one [Eta] instance; the setter of a field is derived from it. *)

Class Eta (R : Type) := eta : R → R.

Class Update {R T : Type} (proj : R → T) := update : (T → T) → R → R.
Arguments update {R T} proj {_} f r.

Ltac derive_update :=
  lazymatch goal with
  | |- @Update ?R ?T ?proj =>
      let f := fresh "f" in
      let r := fresh "r" in
      unfold Update; intros f r;
      let inst := constr:(_ : Eta R) in
      let body := eval hnf in (@eta R inst r) in
      let prj := constr:(proj r) in
      let abs := eval pattern prj in body in
      lazymatch abs with
      | ?g _ => let res := eval cbv beta in (g (f (proj r))) in exact res
      end
  end.

#[export] Hint Extern 1 (Update _) => derive_update : typeclass_instances.

Declare Scope roamkit_scope.
Delimit Scope roamkit_scope with rk.
Open Scope roamkit_scope.

Notation "r <| p := v |>" := (update p (λ _, v) r)
  (at level 1, p at level 0, v at level 200, left associativity) : roamkit_scope.

(** ** Hint databases and tactics of the development *)

(** [roamkit]: resolution lemmas used by [eauto]; [effects]: the rules that
    push a state relation through an effectful program; [rkrw]: rewriting
    rules of tables and ledger sums. *)
Create HintDb roamkit discriminated.
Create HintDb effects discriminated.
#[export] Hint Variables Transparent : roamkit effects.
#[export] Hint Constants Transparent : roamkit.
#[export] Hint Constants Opaque : effects.

(** Split every [match]/[if] of the goal, keeping the equations, and drop the
    branches that contradict the context. *)
Ltac split_cases :=
  repeat (case_match; simplify_eq/=; try done).

(** Turn boolean tests of the code into propositions. *)
Ltac bool_to_prop :=
  repeat match goal with
  | H : _ && _ = true |- _ => apply andb_true_iff in H as [? ?]
  | H : _ && _ = false |- _ => apply andb_false_iff in H
  | H : _ || _ = true |- _ => apply orb_true_iff in H
  | H : _ || _ = false |- _ => apply orb_false_iff in H as [? ?]
  | H : negb _ = true |- _ => apply negb_true_iff in H
  | H : negb _ = false |- _ => apply negb_false_iff in H
  | H : bool_decide _ = true |- _ => apply bool_decide_eq_true in H
  | H : bool_decide _ = false |- _ => apply bool_decide_eq_false in H
  | H : (_ =? _)%Z = true |- _ => apply Z.eqb_eq in H
  | H : (_ =? _)%Z = false |- _ => apply Z.eqb_neq in H
  | H : (_ <? _)%Z = true |- _ => apply Z.ltb_lt in H
  | H : (_ <? _)%Z = false |- _ => apply Z.ltb_ge in H
  | H : (_ <=? _)%Z = true |- _ => apply Z.leb_le in H
  | H : (_ <=? _)%Z = false |- _ => apply Z.leb_gt in H
  | H : (_ =? _)%N = true |- _ => apply N.eqb_eq in H
  | H : (_ =? _)%N = false |- _ => apply N.eqb_neq in H
  | H : (_ <? _)%N = true |- _ => apply N.ltb_lt in H
  | H : (_ <? _)%N = false |- _ => apply N.ltb_ge in H
  | H : (_ <=? _)%N = true |- _ => apply N.leb_le in H
  | H : (_ <=? _)%N = false |- _ => apply N.leb_gt in H
  end.

(** ** Strings

    Python text restricted to ASCII. *)

Section Strings.

(** [str.isspace] on ASCII. *)
Definition is_space (c : ascii) : bool :=
  let n := N_of_ascii c in
  ((9 <=? n) && (n <=? 13) || (28 <=? n) && (n <=? 32))%N.

Definition to_lower (c : ascii) : ascii :=
  let n := N_of_ascii c in
  if ((65 <=? n) && (n <=? 90))%N then ascii_of_N (n + 32) else c.

Definition to_upper (c : ascii) : ascii :=
  let n := N_of_ascii c in
  if ((97 <=? n) && (n <=? 122))%N then ascii_of_N (n - 32) else c.

Fixpoint smap (f : ascii → ascii) (s : string) : string :=
  match s with
  | EmptyString => EmptyString
  | String c s => String (f c) (smap f s)
  end.

Definition lower : string → string := smap to_lower.
Definition upper : string → string := smap to_upper.

Fixpoint lstrip (s : string) : string :=
  match s with
  | EmptyString => EmptyString
  | String c s' => if is_space c then lstrip s' else s
  end.

Definition srev (s : string) : string := String.rev s.

(** [str.strip()] *)
Definition strip (s : string) : string := srev (lstrip (srev (lstrip s))).

(** [str.rstrip(c)] *)
Fixpoint lstrip_char (c : ascii) (s : string) : string :=
  match s with
  | String d s' => if bool_decide (c = d) then lstrip_char c s' else s
  | EmptyString => EmptyString
  end.
Definition rstrip_char (c : ascii) (s : string) : string := srev (lstrip_char c (srev s)).

Definition startswith (p s : string) : bool := String.prefix p s.

(** [text[n:]] and [text[:n]] *)
Fixpoint sdrop (n : nat) (s : string) : string :=
  match n, s with
  | S n, String _ s => sdrop n s
  | _, _ => s
  end.
Fixpoint stake (n : nat) (s : string) : string :=
  match n, s with
  | S n, String c s => String c (stake n s)
  | _, _ => EmptyString
  end.

Fixpoint has_char (c : ascii) (s : string) : bool :=
  match s with
  | EmptyString => false
  | String d s => bool_decide (c = d) || has_char c s
  end.

End Strings.

#[global] Arguments stake : simpl never.
#[global] Arguments sdrop : simpl never.

Abbreviation no_colon s := (has_char ":"%char s = false).

Lemma smap_idem f s : (∀ c, f (f c) = f c) → smap f (smap f s) = smap f s.
Proof. intros Hf. induction s as [|c s IH]; simpl; [done|]. by rewrite Hf, IH. Qed.

Lemma to_lower_idem c : to_lower (to_lower c) = to_lower c.
Proof. destruct c as [[] [] [] [] [] [] [] []]; vm_compute; reflexivity. Qed.

Lemma to_upper_idem c : to_upper (to_upper c) = to_upper c.
Proof. destruct c as [[] [] [] [] [] [] [] []]; vm_compute; reflexivity. Qed.

Lemma is_space_upper c : is_space (to_upper c) = is_space c.
Proof. destruct c as [[] [] [] [] [] [] [] []]; vm_compute; reflexivity. Qed.

Lemma has_char_app c s t : has_char c (s +:+ t) = has_char c s || has_char c t.
Proof. induction s as [|d s IH]; simpl; [done|]. by rewrite IH, orb_assoc. Qed.

(** A key [a:b] determines [a] and [b] when [a] has no colon. *)
Lemma colon_split (a a' b b' : string) :
  no_colon a → no_colon a' →
  a +:+ ":" +:+ b = a' +:+ ":" +:+ b' → a = a' ∧ b = b'.
Proof.
  revert a'. induction a as [|c a IH]; intros [|c' a']; simpl.
  - intros _ _ E. by injection E.
  - by intros _ Ha' [= <- _].
  - by intros Ha _ [= -> _].
  - intros Ha Ha' [= -> E].
    apply orb_false_iff in Ha as [_ Ha], Ha' as [_ Ha'].
    by destruct (IH a' Ha Ha' E) as [-> ->].
Qed.

(** ** Identifiers

    Primary keys (UUIDs, bigints) are numbers; [str(pk)] is their text.  The
    model prints the number in decimal, of which only injectivity and the
    absence of [":"] matter. *)
Abbreviation pk := N (only parsing).
Definition str (k : pk) : string := pretty k.

#[export] Instance str_inj : Inj (=) (=) str.
Proof. unfold str. apply _. Qed.

Lemma pretty_N_go_no_colon x s : no_colon s → no_colon (pretty_N_go x s).
Proof.
  revert s. induction (N.lt_wf_0 x) as [x _ IH]; intros s Hs.
  destruct (decide (0 < x)%N) as [Hx|Hx].
  - rewrite pretty_N_go_step by done. apply IH; [by apply N.div_lt|].
    simpl. rewrite Hs, orb_false_r, bool_decide_eq_false.
    unfold pretty_N_char. by repeat case_match.
  - by replace x with 0%N by lia.
Qed.

Lemma str_no_colon k : no_colon (str k).
Proof.
  unfold str, pretty, pretty_N. case_decide; [done|]. by apply pretty_N_go_no_colon.
Qed.
#[export] Hint Resolve str_no_colon : roamkit.

Lemma append_empty_inv (s t : string) : s +:+ t = "" → s = "" ∧ t = "".
Proof. by destruct s, t. Qed.
