(* ===== verification/Strings.v ===== *)
(** * String lemmas

    Stripping, case mapping, slices and padding of ASCII texts. *)

From S2P Require Import Prelude.

(** ** Reversal and stripping *)

Lemma smap_rev f s : srev (smap f s) = smap f (srev s).
Proof.
  unfold srev. assert (H : ∀ s t, String.rev_app (smap f s) (smap f t) = smap f (String.rev_app s t)).
  { clear s. induction s as [|c s IH]; intros t; simpl; [done|]. by rewrite <- (IH (String c t)). }
  apply (H s "").
Qed.

Lemma lstrip_upper s : lstrip (upper s) = upper (lstrip s).
Proof.
  induction s as [|c s IH]; simpl; [done|]. rewrite is_space_upper. by case_match.
Qed.

Lemma strip_upper s : strip (upper s) = upper (strip s).
Proof.
  unfold strip. rewrite lstrip_upper. unfold upper. rewrite !smap_rev.
  fold (upper (srev (lstrip s))). rewrite lstrip_upper. unfold upper. by rewrite smap_rev.
Qed.

(** [strip] leaves no space at either end, hence is idempotent. *)
Definition no_head_space (s : string) : Prop :=
  match s with String c _ => is_space c = false | EmptyString => True end.

Lemma lstrip_head s : no_head_space (lstrip s).
Proof. induction s as [|c s IH]; simpl; [done|]. by case_match. Qed.

Lemma lstrip_id s : no_head_space s → lstrip s = s.
Proof. destruct s as [|c s]; simpl; [done|]. by intros ->. Qed.

Lemma lstrip_suffix s : ∃ p, s = p +:+ lstrip s.
Proof.
  induction s as [|c s [p IH]]; simpl; [by exists ""|]. case_match.
  - exists (String c p). simpl. exact (f_equal (String c) IH).
  - by exists "".
Qed.

Lemma append_assoc' (a b c : string) : a +:+ (b +:+ c) = (a +:+ b) +:+ c.
Proof. induction a as [|x a IH]; [done|]. exact (f_equal (String x) IH). Qed.

Lemma append_nil_r (a : string) : a +:+ "" = a.
Proof. induction a as [|x a IH]; [done|]. exact (f_equal (String x) IH). Qed.

Lemma rev_app_spec s t : String.rev_app s t = srev s +:+ t.
Proof.
  unfold srev, String.rev. revert t. induction s as [|c s IH]; intros t; simpl; [done|].
  rewrite (IH (String c t)), (IH (String c "")), <- append_assoc'. done.
Qed.

Lemma srev_cons c s : srev (String c s) = srev s +:+ String c "".
Proof. unfold srev at 1, String.rev. simpl. apply rev_app_spec. Qed.

Lemma srev_append s t : srev (s +:+ t) = srev t +:+ srev s.
Proof.
  induction s as [|c s IH]; [by rewrite append_nil_r|].
  change (String c s +:+ t) with (String c (s +:+ t)).
  by rewrite !srev_cons, IH, append_assoc'.
Qed.

Lemma srev_involutive s : srev (srev s) = s.
Proof. induction s as [|c s IH]; [done|]. by rewrite srev_cons, srev_append, IH. Qed.

Lemma no_head_space_prefix s t : no_head_space (s +:+ t) → no_head_space s.
Proof. by destruct s. Qed.

Lemma strip_idem s : strip (strip s) = strip s.
Proof.
  unfold strip. set (u := lstrip s). set (v := lstrip (srev u)).
  assert (Hv : lstrip (srev v) = srev v).
  { apply lstrip_id. destruct (lstrip_suffix (srev u)) as [p Hp].
    apply (f_equal srev) in Hp. rewrite srev_involutive, srev_append in Hp. fold v in Hp.
    apply (no_head_space_prefix _ (srev p)). rewrite <- Hp. apply lstrip_head. }
  rewrite Hv, srev_involutive. f_equal. apply lstrip_id, lstrip_head.
Qed.

(** ** Lengths, slices and padding *)

Fixpoint zeros (n : nat) : string :=
  match n with O => "" | S n => String "0" (zeros n) end.

(** [text.zfill(width)]: the zeros go after a leading sign. *)
Definition zfill (width : nat) (s : string) : string :=
  let pad := zeros (width - String.length s) in
  match s with
  | String c s' =>
      if bool_decide (c = "+"%char) || bool_decide (c = "-"%char)
      then String c (pad +:+ s') else pad +:+ s
  | EmptyString => pad
  end.

(** [text[-n:]] *)
Definition slast (n : nat) (s : string) : string := sdrop (String.length s - n) s.

Lemma length_append (s t : string) : String.length (s +:+ t) = String.length s + String.length t.
Proof. induction s as [|c s IH]; [done|]. exact (f_equal S IH). Qed.

Lemma length_zeros n : String.length (zeros n) = n.
Proof. induction n as [|n IH]; simpl; [done|]. by rewrite IH. Qed.

Lemma length_zfill n s : String.length (zfill n s) = n `max` String.length s.
Proof.
  unfold zfill. destruct s as [|c s]; [rewrite length_zeros; simpl; lia|].
  case_match; simpl; rewrite length_append, length_zeros; simpl; lia.
Qed.

Lemma zfill_long n s : n ≤ String.length s → zfill n s = s.
Proof.
  intros Hn. unfold zfill. replace (n - String.length s) with 0 by lia.
  destruct s as [|c s]; [done|]. by case_match.
Qed.

Lemma sdrop_suffix n s : ∃ p, s = p +:+ sdrop n s.
Proof.
  revert s. induction n as [|n IH]; intros s; [by exists ""|].
  destruct s as [|c s]; [by exists ""|]. destruct (IH s) as [p Hp].
  exists (String c p). exact (f_equal (String c) Hp).
Qed.

Lemma length_sdrop n s : String.length (sdrop n s) = String.length s - n.
Proof.
  revert s. induction n as [|n IH]; intros [|c s]; [done..|]. unfold sdrop. fold sdrop. apply IH.
Qed.

Lemma slast_exact n s : String.length s = n → slast n s = s.
Proof. intros <-. unfold slast. by rewrite Nat.sub_diag. Qed.

Lemma length_slast n s : n ≤ String.length s → String.length (slast n s) = n.
Proof. intros Hn. unfold slast. rewrite length_sdrop. lia. Qed.

Lemma smap_append f s t : smap f (s +:+ t) = smap f s +:+ smap f t.
Proof. induction s as [|c s IH]; [done|]. exact (f_equal (String (f c)) IH). Qed.

Lemma smap_sdrop f n s : smap f (sdrop n s) = sdrop n (smap f s).
Proof. revert s. induction n as [|n IH]; intros [|c s]; [done..|]. apply IH. Qed.

Lemma lower_idem s : lower (lower s) = lower s.
Proof. apply smap_idem, to_lower_idem. Qed.

Lemma lower_zeros n : lower (zeros n) = zeros n.
Proof. induction n as [|n IH]; [done|]. exact (f_equal (String "0") IH). Qed.

Lemma lower_zfill n s : lower s = s → lower (zfill n s) = zfill n s.
Proof.
  intros H. unfold zfill. destruct s as [|c s]; [apply lower_zeros|].
  injection H as Hc Hs. case_match; unfold lower in *; simpl.
  - rewrite Hc, smap_append, Hs. f_equal. f_equal. apply lower_zeros.
  - rewrite smap_append. simpl. rewrite Hc, Hs. f_equal. apply lower_zeros.
Qed.

(** No space at the end. *)
Definition no_tail_space (s : string) : Prop := no_head_space (srev s).

Lemma no_tail_append s t : t ≠ "" → no_tail_space (s +:+ t) ↔ no_tail_space t.
Proof.
  intros Ht. unfold no_tail_space. rewrite srev_append.
  assert (srev t ≠ "") by (intros H; apply Ht; by rewrite <- (srev_involutive t), H).
  by destruct (srev t).
Qed.

Lemma no_tail_sdrop n s : no_tail_space s → no_tail_space (sdrop n s).
Proof.
  destruct (sdrop_suffix n s) as [p Hp]. rewrite Hp at 1.
  destruct (decide (sdrop n s = "")) as [->|Hne]; [done|]. by apply no_tail_append.
Qed.

Lemma no_tail_zeros n : no_tail_space (zeros n).
Proof.
  induction n as [|n IH]; [done|].
  change (zeros (S n)) with ("0" +:+ zeros n).
  destruct (decide (zeros n = "")) as [->|Hne]; [done|]. by apply no_tail_append.
Qed.

Lemma no_tail_zfill n s : no_tail_space s → no_tail_space (zfill n s).
Proof.
  intros H. unfold zfill. destruct s as [|c s]; [apply no_tail_zeros|]. case_match.
  - change (String c (?p +:+ s)) with (String c "" +:+ (p +:+ s)).
    destruct (decide (s = "")) as [->|Hne].
    + rewrite append_nil_r. destruct (decide (zeros (n - String.length (String c "")) = "")) as [->|Hz];
        [done|]. apply no_tail_append; [done|apply no_tail_zeros].
    + change (String c s) with (String c "" +:+ s) in H. rewrite no_tail_append in H by done.
      rewrite append_assoc'. by apply no_tail_append.
  - by apply no_tail_append.
Qed.

Lemma strip_id s : no_head_space s → no_tail_space s → strip s = s.
Proof.
  intros Hh Ht. unfold strip. rewrite (lstrip_id s Hh), lstrip_id by done. apply srev_involutive.
Qed.

Lemma no_tail_strip s : no_tail_space (strip s).
Proof. unfold no_tail_space, strip. rewrite srev_involutive. apply lstrip_head. Qed.

(** A text without spaces. *)
Fixpoint spaceless (s : string) : bool :=
  match s with
  | EmptyString => true
  | String c s => negb (is_space c) && spaceless s
  end.

Lemma spaceless_app s t : spaceless (s +:+ t) = spaceless s && spaceless t.
Proof. induction s as [|c s IH]; simpl; [done|]. by rewrite IH, andb_assoc. Qed.

Lemma spaceless_rev s : spaceless (srev s) = spaceless s.
Proof.
  induction s as [|c s IH]; [done|]. rewrite srev_cons, spaceless_app, IH. simpl.
  by rewrite andb_true_r, andb_comm.
Qed.

Lemma spaceless_head s : spaceless s = true → no_head_space s.
Proof. destruct s; simpl; [done|]. by intros [?%negb_true_iff _]%andb_true_iff. Qed.

Lemma strip_spaceless s : spaceless s = true → strip s = s.
Proof.
  intros H. apply strip_id; [by apply spaceless_head|].
  unfold no_tail_space. apply spaceless_head. by rewrite spaceless_rev.
Qed.

(** Printed identifiers. *)
Lemma pretty_N_go_spaceless x s : spaceless s = true → spaceless (pretty_N_go x s) = true.
Proof.
  revert s. induction (N.lt_wf_0 x) as [x _ IH]; intros s Hs.
  destruct (decide (0 < x)%N) as [Hx|Hx].
  - rewrite pretty_N_go_step by done. apply IH; [by apply N.div_lt|].
    simpl. rewrite Hs, andb_true_r. unfold pretty_N_char. by repeat case_match.
  - by replace x with 0%N by lia.
Qed.

(** The text starts with a digit other than zero. *)
Definition leading_nonzero (s : string) : Prop :=
  match s with String c _ => c ≠ "0"%char ∧ is_space c = false | EmptyString => False end.

Lemma pretty_N_go_leading x s : (0 < x)%N → leading_nonzero (pretty_N_go x s).
Proof.
  revert s. induction (N.lt_wf_0 x) as [x _ IH]; intros s Hx. rewrite pretty_N_go_step by done.
  destruct (decide (0 < x `div` 10)%N) as [Hd|Hd].
  - apply IH; [by apply N.div_lt|done].
  - apply N.nlt_ge, N.le_0_r in Hd. rewrite Hd. simpl.
    assert (x < 10)%N by (by apply N.div_small_iff).
    rewrite N.mod_small by done. unfold pretty_N_char. repeat case_match; subst; try done; lia.
Qed.

Lemma str_spaceless k : spaceless (str k) = true.
Proof. unfold str, pretty, pretty_N. case_decide; [done|]. by apply pretty_N_go_spaceless. Qed.

Lemma str_nonempty k : str k ≠ "".
Proof.
  unfold str, pretty, pretty_N. case_decide; [done|]. intros E.
  pose proof (pretty_N_go_leading k "" ltac:(lia)) as Hl. by rewrite E in Hl.
Qed.
#[export] Hint Resolve str_spaceless str_nonempty : roamkit.

Lemma is_space_lower c : is_space (to_lower c) = is_space c.
Proof. destruct c as [[] [] [] [] [] [] [] []]; vm_compute; reflexivity. Qed.

Lemma no_tail_lower s : no_tail_space s → no_tail_space (lower s).
Proof.
  unfold no_tail_space, lower. rewrite smap_rev. destruct (srev s); [done|]. simpl.
  by rewrite is_space_lower.
Qed.

(** ** Integers written as text *)

#[local] Open Scope Z_scope.

Definition digit_value (base : Z) (c : ascii) : option Z :=
  let n := Z.of_N (N_of_ascii c) in
  let v := if (48 <=? n) && (n <=? 57) then n - 48
           else if (97 <=? n) && (n <=? 102) then n - 87
           else if (65 <=? n) && (n <=? 70) then n - 55 else base in
  if v <? base then Some v else None.

(** Digits with single underscores between them; [after] tells whether an
    underscore may come next. *)
Fixpoint digits (base : Z) (after : bool) (acc : Z) (s : string) : option Z :=
  match s with
  | EmptyString => if after then Some acc else None
  | String c s =>
      if bool_decide (c = "_"%char) then (if after then digits base false acc s else None)
      else match digit_value base c with
           | Some v => digits base true (base * acc + v) s
           | None => None
           end
  end.

(** [int(text, 16)] on a stripped text that starts with ["0x"]. *)
Definition int_base16 (text : string) : option Z :=
  match sdrop 2 text with
  | EmptyString => None
  | body => match body with
            | String "_" rest => digits 16 false 0 rest
            | _ => digits 16 true 0 body
            end
  end.

(** [int(text)] on a stripped text. *)
Definition int_base10 (text : string) : option Z :=
  match text with
  | String "-" body => Z.opp <$> digits 10 false 0 body
  | String "+" body => digits 10 false 0 body
  | _ => digits 10 false 0 text
  end.

(** The text of a number has no colon. *)
Lemma digits_no_colon base after acc s v :
  base ≤ 16 → digits base after acc s = Some v → no_colon s.
Proof.
  intros Hb. revert after acc. induction s as [|c s IH]; intros after acc; simpl; [done|].
  case_bool_decide as Hu; [subst c; case_match; [|done]; simpl; by eauto|].
  destruct (digit_value base c) as [n|] eqn:E; [|done]. intros H. rewrite (IH _ _ H), orb_false_r.
  apply bool_decide_eq_false. intros <-. unfold digit_value in E. simpl in E.
  case_match; [bool_to_prop; lia|done].
Qed.

Lemma int_base16_no_colon s v : startswith "0x" s = true → int_base16 s = Some v → no_colon s.
Proof.
  unfold startswith. destruct s as [|c1 [|c2 s]]; [done|simpl; by case_match|].
  intros Hp H. simpl in Hp. repeat (case_match; [|done]). subst c1 c2.
  simpl. unfold int_base16 in H. unfold sdrop in H.
  destruct s as [|c s]; [done|].
  assert (Hd : ∀ after acc, digits 16 after acc s = Some v → no_colon s)
    by (intros; by eapply digits_no_colon; [|done]).
  destruct (decide (c = "_"%char)) as [->|Hne]; [simpl; by eapply Hd|].
  enough (no_colon (String c s)) by done.
  apply (digits_no_colon 16 true 0 _ v); [done|]. revert H.
  destruct c as [[] [] [] [] [] [] [] []]; try done.
Qed.


(** The text of a transaction hash, [None] where the three [_normalize_tx_hash]
    of the program raise. *)
Definition tx_hash_text (value : string) : option string :=
  let text := lower (strip value) in
  let text := if startswith "0x" text then text else "0x" +:+ text in
  if negb (String.length text =? 66)%nat then None
  else match int_base16 text with None => None | Some _ => Some text end.

Lemma tx_hash_no_colon s t : tx_hash_text s = Some t → no_colon t.
Proof.
  unfold tx_hash_text. set (text := if startswith _ _ then _ else _).
  assert (Ht : startswith "0x" text = true).
  { subst text. case_match; [done|]. unfold startswith. simpl. by destruct (lower _). }
  clearbody text. intros H. split_cases. by eapply int_base16_no_colon.
Qed.

(** Reading back the decimal digits of a positive number. *)
Lemma digits_pretty_go x after s :
  (0 < x)%N → digits 10 after 0 (pretty_N_go x s) = digits 10 true (Z.of_N x) s.
Proof.
  revert after s. induction (N.lt_wf_0 x) as [x _ IH]; intros after s Hx.
  assert (Hc : bool_decide (pretty_N_char (x `mod` 10) = "_"%char) = false ∧
    digit_value 10 (pretty_N_char (x `mod` 10)) = Some (Z.of_N (x `mod` 10))).
  { pose proof (N.mod_lt x 10 ltac:(done)) as Hm. clear IH. revert Hm. generalize (x `mod` 10)%N as d.
    intros d Hd. assert (d = 0 ∨ d = 1 ∨ d = 2 ∨ d = 3 ∨ d = 4 ∨ d = 5 ∨ d = 6 ∨ d = 7 ∨ d = 8 ∨ d = 9)%N
      as Hcases by lia. by destruct_or! Hcases; subst d. }
  rewrite pretty_N_go_step by done.
  assert (Hstep : ∀ b acc, digits 10 b acc (String (pretty_N_char (x `mod` 10)) s) =
    digits 10 true (10 * acc + Z.of_N (x `mod` 10)) s).
  { intros b acc. simpl. by destruct Hc as [-> ->]. }
  destruct (decide (0 < x `div` 10)%N) as [Hq|Hq].
  - rewrite IH by (done || by apply N.div_lt). rewrite Hstep. f_equal.
    pose proof (N.div_mod x 10 ltac:(done)). lia.
  - assert (x `div` 10 = 0)%N as Hq0 by by apply N.le_0_r, N.nlt_ge.
    rewrite Hq0, pretty_N_go_0, Hstep. f_equal.
    pose proof (N.div_mod x 10 ltac:(done)). lia.
Qed.

Lemma int_base10_pretty (t : Z) : int_base10 (pretty t) = Some t.
Proof.
  assert (Hp : ∀ p b, digits 10 b 0 (pretty (N.pos p)) = Some (Z.pos p)).
  { intros p b. unfold pretty, pretty_N. rewrite decide_False by done. by apply digits_pretty_go. }
  destruct t as [|p|p]; [done| |].
  - change (int_base10 (pretty (N.pos p)) = Some (Z.pos p)). specialize (Hp p false).
    unfold int_base10. destruct (pretty (N.pos p)) as [|c s] eqn:E; [done|].
    destruct c as [[] [] [] [] [] [] [] []]; first [exact Hp|vm_compute in Hp; discriminate Hp].
  - change (Z.opp <$> digits 10 false 0 (pretty (N.pos p)) = Some (Z.neg p)). by rewrite Hp.
Qed.

(** *** Prefixes *)

Lemma startswith_app p s : startswith p (p +:+ s) = true.
Proof.
  unfold startswith. induction p as [|c p IH]; simpl; [by destruct s|].
  by destruct (ascii_dec c c).
Qed.

Lemma sdrop_app p s : sdrop (String.length p) (p +:+ s) = s.
Proof. induction p as [|c p IH]; [done|exact IH]. Qed.
