(* ===== verification/Tables.v ===== *)
(** * Database tables and queries

    A table is a finite map from primary keys to rows.  A queryset method is a
    function on its rows; [.first()] with no [order_by] returns some matching
    row, which row only mattering when several match. *)

From S2P Require Import Prelude.

(** Rows in primary-key order. *)
Definition key_le {V : Type} (x y : pk * V) : Prop := (x.1 ≤ y.1)%N.

#[export] Instance key_le_dec {V : Type} : RelDecision (@key_le V).
Proof. intros x y. unfold key_le. apply _. Defined.

Section Queries.
Context {V : Type}.
Implicit Types (m : gmap pk V) (P : V → bool).

Definition rows m : list V := (map_to_list m).*2.

(** [objects.filter(P)] *)
Definition qall P m : list V := List.filter P (rows m).
(** [objects.filter(P).first()] *)
Definition qfirst P m : option V := List.find P (rows m).
(** [objects.filter(P).exists()] *)
Definition qexists P m : bool := existsb P (rows m).
(** [objects.filter(P).count()] *)
Definition qcount P m : nat := length (qall P m).
(** [objects.order_by("pk")] *)
Definition rows_by_pk m : list V :=
  (merge_sort key_le (map_to_list m)).*2.

(** [.order_by(key).first()]: the earliest row of a list. *)
Fixpoint first_by (key : V → Z) (l : list V) : option V :=
  match l with
  | [] => None
  | v :: l =>
      match first_by key l with
      | None => Some v
      | Some u => if (key u <? key v)%Z then Some u else Some v
      end
  end.
End Queries.

Definition sumZ (l : list Z) : Z := foldr Z.add 0%Z l.

(** [aggregate(Sum(f))] over the rows of a table. *)
Definition sum_rows {V} (f : V → Z) (m : gmap pk V) : Z := sumZ (f <$> rows m).

Section QueryLemmas.
Context {V : Type}.
Implicit Types (m : gmap pk V) (P : V → bool).

Lemma elem_of_rows m v : v ∈ rows m ↔ ∃ k, m !! k = Some v.
Proof.
  unfold rows. rewrite list_elem_of_fmap. split.
  - intros [[k u] [-> H]]. exists k. by apply elem_of_map_to_list.
  - intros [k H]. exists (k, v). by rewrite elem_of_map_to_list.
Qed.

Lemma elem_of_rows_by_pk m v : v ∈ rows_by_pk m ↔ ∃ k, m !! k = Some v.
Proof.
  unfold rows_by_pk. rewrite <- elem_of_rows. unfold rows.
  by rewrite merge_sort_Permutation.
Qed.

Lemma length_rows_by_pk m : length (rows_by_pk m) = size m.
Proof.
  unfold rows_by_pk.
  by rewrite length_fmap, merge_sort_Permutation, length_map_to_list.
Qed.

Lemma qfirst_Some P m v : qfirst P m = Some v → ∃ k, m !! k = Some v ∧ P v = true.
Proof.
  intros H. apply List.find_some in H as [Hin HP].
  apply list_elem_of_In, elem_of_rows in Hin as [k Hk]. eauto.
Qed.

Lemma qfirst_None P m : qfirst P m = None ↔ ∀ k v, m !! k = Some v → P v = false.
Proof.
  split.
  - intros H k v Hk. eapply List.find_none; [exact H|].
    apply list_elem_of_In, elem_of_rows. eauto.
  - intros H. destruct (qfirst P m) as [v|] eqn:E; [|done].
    apply qfirst_Some in E as (k & Hk & HP). by rewrite (H k v Hk) in HP.
Qed.

(** A key-like predicate finds the one row it describes. *)
Lemma qfirst_unique P m k v :
  m !! k = Some v → P v = true →
  (∀ k' v', m !! k' = Some v' → P v' = true → v' = v) →
  qfirst P m = Some v.
Proof.
  intros Hk HP Huniq. destruct (qfirst P m) as [u|] eqn:E.
  - apply qfirst_Some in E as (k' & Hk' & HP'). f_equal. eauto.
  - rewrite qfirst_None in E. by rewrite (E k v Hk) in HP.
Qed.

Lemma qexists_true P m : qexists P m = true ↔ ∃ k v, m !! k = Some v ∧ P v = true.
Proof.
  unfold qexists. rewrite existsb_exists. split.
  - intros (v & Hin & HP). apply list_elem_of_In, elem_of_rows in Hin as [k Hk]. eauto.
  - intros (k & v & Hk & HP). exists v. split; [|done].
    apply list_elem_of_In, elem_of_rows. eauto.
Qed.

Lemma qexists_false P m : qexists P m = false ↔ ∀ k v, m !! k = Some v → P v = false.
Proof.
  rewrite <- not_true_iff_false, qexists_true. split.
  - intros H k v Hk. destruct (P v) eqn:E; [|done]. exfalso; eauto 6.
  - intros H (k & v & Hk & HP). by rewrite (H k v Hk) in HP.
Qed.

Lemma rows_insert_fresh m k v : m !! k = None → rows (<[k:=v]> m) ≡ₚ v :: rows m.
Proof. intros H. unfold rows. by rewrite map_to_list_insert. Qed.

Lemma rows_insert_old m k v u :
  m !! k = Some u → ∃ l, rows m ≡ₚ u :: l ∧ rows (<[k:=v]> m) ≡ₚ v :: l.
Proof.
  intros H. exists (rows (delete k m)). split.
  - rewrite <- (insert_delete_id m k u H) at 1.
    apply rows_insert_fresh. by rewrite lookup_delete_eq.
  - rewrite <- insert_delete_eq. apply rows_insert_fresh. by rewrite lookup_delete_eq.
Qed.

Lemma length_filter_Permutation P (l l' : list V) :
  l ≡ₚ l' → length (List.filter P l) = length (List.filter P l').
Proof.
  induction 1 as [|x l l' _ IH|x y l|l1 l2 l3 _ IH1 _ IH2]; simpl;
    repeat case_match; simpl; congruence.
Qed.

Lemma qcount_insert_fresh P m k v :
  m !! k = None → qcount P (<[k:=v]> m) = (if P v then 1 else 0) + qcount P m.
Proof.
  intros H. unfold qcount, qall.
  rewrite (length_filter_Permutation P _ _ (rows_insert_fresh m k v H)).
  simpl. by case_match.
Qed.

Lemma qcount_insert_same P m k v u :
  m !! k = Some u → P v = P u → qcount P (<[k:=v]> m) = qcount P m.
Proof.
  intros H HP. destruct (rows_insert_old m k v u H) as (l & H1 & H2).
  unfold qcount, qall.
  rewrite (length_filter_Permutation P _ _ H1), (length_filter_Permutation P _ _ H2).
  simpl. rewrite HP. by case_match.
Qed.

Lemma qcount_pos P m k v : m !! k = Some v → P v = true → 0 < qcount P m.
Proof.
  intros H HP. destruct (rows_insert_old m k v v H) as (l & H1 & _).
  unfold qcount, qall. rewrite (length_filter_Permutation P _ _ H1). simpl.
  rewrite HP. simpl. lia.
Qed.

Lemma qcount_zero P m : (∀ k v, m !! k = Some v → P v = false) → qcount P m = 0.
Proof.
  intros H. unfold qcount, qall. destruct (List.filter P (rows m)) as [|v l] eqn:E; [done|].
  assert (Hin : In v (List.filter P (rows m))) by (rewrite E; by left).
  apply List.filter_In in Hin as [Hin HP].
  apply list_elem_of_In, elem_of_rows in Hin as [k Hk]. by rewrite (H k v Hk) in HP.
Qed.

Lemma qcount_at_most_one P m k :
  (∀ j v, m !! j = Some v → P v = true → j = k) → qcount P m ≤ 1.
Proof.
  intros H. assert (H0 : qcount P (delete k m) = 0).
  { apply qcount_zero. intros j v [Hne Hj]%lookup_delete_Some.
    destruct (P v) eqn:E; [|done]. by destruct Hne; rewrite (H _ _ Hj E). }
  destruct (m !! k) as [v|] eqn:Hk; [|rewrite delete_id in H0 by done; lia].
  rewrite <- (insert_delete_id m k v Hk), qcount_insert_fresh, H0 by apply lookup_delete_eq.
  case_match; lia.
Qed.

Lemma first_by_Some key (l : list V) v :
  first_by key l = Some v → v ∈ l ∧ Forall (λ u, key v ≤ key u)%Z l.
Proof.
  revert v. induction l as [|x l IH]; intros v; simpl; [done|].
  destruct (first_by key l) as [u|] eqn:E.
  - destruct (IH u eq_refl) as [Hin Hle]. case_match; intros [= <-]; bool_to_prop.
    + split; [by right|]. constructor; [lia|done].
    + split; [by left|]. constructor; [lia|].
      eapply Forall_impl; [exact Hle|]. simpl. lia.
  - intros [= <-]. split; [by left|]. constructor; [lia|].
    destruct l as [|y l]; [constructor|]. simpl in E. by repeat case_match.
Qed.

Lemma first_by_None key (l : list V) : first_by key l = None → l = [].
Proof. destruct l; simpl; [done|]. by repeat case_match. Qed.
End QueryLemmas.

Section Sums.
Lemma sumZ_app l l' : sumZ (l ++ l') = (sumZ l + sumZ l')%Z.
Proof. unfold sumZ. induction l as [|x l IH]; simpl in *; lia. Qed.

Lemma sumZ_Permutation l l' : l ≡ₚ l' → sumZ l = sumZ l'.
Proof. unfold sumZ. induction 1; simpl; lia. Qed.

Context {V : Type} (f : V → Z).
Implicit Types m : gmap pk V.

Lemma sum_rows_insert_fresh m k v :
  m !! k = None → sum_rows f (<[k:=v]> m) = (f v + sum_rows f m)%Z.
Proof.
  intros H. unfold sum_rows.
  by rewrite (sumZ_Permutation _ _ (fmap_Permutation f _ _ (rows_insert_fresh m k v H))).
Qed.

Lemma sum_rows_insert_old m k v u :
  m !! k = Some u → sum_rows f (<[k:=v]> m) = (sum_rows f m + (f v - f u))%Z.
Proof.
  intros H. destruct (rows_insert_old m k v u H) as (l & H1 & H2). unfold sum_rows.
  rewrite (sumZ_Permutation _ _ (fmap_Permutation f _ _ H1)),
    (sumZ_Permutation _ _ (fmap_Permutation f _ _ H2)).
  simpl. lia.
Qed.
End Sums.

#[export] Hint Resolve elem_of_rows_by_pk : roamkit.
