(* ===== verification/Money.v ===== *)
(** * Decimal money

    A money column is [DecimalField(max_digits=20, decimal_places=6)]: the
    model stores it as the integer number of micro-units.  Amounts that reach
    a service from outside are Python [Decimal]s, an integer coefficient with
    a power-of-ten exponent, or not finite. *)

From S2P Require Import Prelude.
#[local] Open Scope Z_scope.

(** A money value, in units of [MONEY_QUANT = Decimal("0.000001")]. *)
Abbreviation money := Z (only parsing).

(** [DFin c e] is [c * 10 ** e]; infinities and NaNs are [DNonFinite]. *)
Inductive Decimal :=
  | DFin (coef exp : Z)
  | DNonFinite.

(** The argument of a service typed [Decimal | int | str]: a [Decimal], or a
    value [Decimal(str(value))] rejects with [InvalidOperation]. *)
Inductive Amount :=
  | ADecimal (d : Decimal)
  | AMalformed.

(** [Decimal(str(n))] for an [int], and a stored money value read back. *)
Definition AInt (n : Z) : Amount := ADecimal (DFin n 0).
Definition AMoney (m : money) : Amount := ADecimal (DFin m (-6)).

(** [n / d] rounded [ROUND_HALF_UP]: ties go away from zero. *)
Definition half_up (n d : Z) : Z :=
  Z.sgn n * ((2 * Z.abs n + d) / (2 * d)).

(** Significant digits of the default decimal context. *)
Definition context_prec : Z := 28.

(** [value.quantize(MONEY_QUANT, rounding=ROUND_HALF_UP)]; [None] is
    [decimal.InvalidOperation], raised when the result has more digits than
    the context allows. *)
Definition quantize (c e : Z) : option money :=
  let r := if 0 <=? e + 6 then c * 10 ^ (e + 6) else half_up c (10 ^ (- (e + 6))) in
  if Z.abs r <? 10 ^ context_prec then Some r else None.

(** The numeric column admits fewer than fourteen digits before the point. *)
Definition money_bound : money := 100000000000000 * 10 ^ 6.
Definition fits_numeric (m : money) : bool := Z.abs m <? money_bound.

(** The bound of an [integer] column. *)
Definition max_int32 : Z := 2147483647.

(** A revenue share, [DecimalField(max_digits=5, decimal_places=2)], in
    hundredths of a percent. *)
Abbreviation percent := Z (only parsing).

(** [(margin * percent / Decimal("100")).quantize(MONEY_QUANT,
    rounding=ROUND_HALF_UP)]. *)
Definition share_of (margin : money) (p : percent) : money := half_up (margin * p) 10000.

(** ** Rounding *)

Lemma half_up_exact n d : 0 < d → half_up (n * d) d = n.
Proof.
  intros Hd. unfold half_up.
  replace (Z.sgn (n * d)) with (Z.sgn n) by (rewrite Z.sgn_mul, (Z.sgn_pos d); lia).
  rewrite Z.abs_mul, (Z.abs_eq d) by lia.
  replace (2 * (Z.abs n * d) + d) with (d + Z.abs n * (2 * d)) by lia.
  rewrite Z.div_add, Z.div_small by lia. lia.
Qed.

Lemma half_up_nonneg n d : 0 < d → 0 ≤ n → half_up n d = (2 * n + d) / (2 * d).
Proof.
  intros Hd Hn. unfold half_up. rewrite Z.abs_eq by lia.
  destruct (decide (n = 0)) as [->|]; [|rewrite Z.sgn_pos; lia].
  simpl. rewrite Z.div_small; lia.
Qed.

(** The rounded quotient is within half a unit of the exact one. *)
Lemma half_up_error n d : 0 < d → 2 * Z.abs (half_up n d * d - n) ≤ d.
Proof.
  intros Hd. unfold half_up.
  set (q := (2 * Z.abs n + d) / (2 * d)).
  assert (H1 : 2 * d * q ≤ 2 * Z.abs n + d) by (apply Z.mul_div_le; lia).
  assert (H2 : 2 * Z.abs n + d < 2 * d * (q + 1))
    by (replace (q + 1) with (Z.succ q) by lia; apply Z.mul_succ_div_gt; lia).
  destruct (Z.sgn_spec n) as [[Hn ->]|[[Hn ->]|[Hn ->]]]; nia.
Qed.

Lemma half_up_mono n m d : 0 < d → 0 ≤ n ≤ m → half_up n d ≤ half_up m d.
Proof.
  intros Hd [Hn Hm]. rewrite !half_up_nonneg by lia. apply Z.div_le_mono; lia.
Qed.

Lemma quantize_money m : Z.abs m < 10 ^ context_prec → quantize m (-6) = Some m.
Proof.
  intros H. unfold quantize. replace (-6 + 6) with 0 by lia.
  rewrite Z.leb_refl, Z.pow_0_r, Z.mul_1_r.
  apply Z.ltb_lt in H. by rewrite H.
Qed.

Lemma money_bound_pos : 0 < money_bound.
Proof. reflexivity. Qed.

Lemma fits_numeric_spec m : fits_numeric m = true ↔ Z.abs m < money_bound.
Proof. unfold fits_numeric. apply Z.ltb_lt. Qed.

(** A share never exceeds the margin it is taken from. *)
Lemma share_of_bounds margin p :
  0 ≤ margin → 0 ≤ p ≤ 10000 → 0 ≤ share_of margin p ≤ margin.
Proof.
  intros Hm [Hp Hp']. unfold share_of. split.
  - rewrite half_up_nonneg by nia. apply Z.div_pos; nia.
  - rewrite <- (half_up_exact margin 10000) at 2 by lia.
    apply half_up_mono; nia.
Qed.

(** The product and quotient behind a share stay within the 28 digits of the
    context, so no rounding happens before [quantize]. *)
Lemma share_of_in_context margin p :
  Z.abs margin < money_bound → 0 ≤ p ≤ 10000 → Z.abs (margin * p) < 10 ^ context_prec.
Proof.
  unfold money_bound, context_prec. intros Hm Hp. rewrite Z.abs_mul.
  assert (Z.abs p ≤ 10000) by lia.
  assert (0 ≤ Z.abs margin) by lia. nia.
Qed.
