(* ===== verification/Models.v ===== *)
(** * Data model

    The rows of the billing, partner-channel, organization and wallet tables,
    one [Record] per Django model and one [Inductive] per [TextChoices] class.
    [created_at]/[updated_at] stamps the modelled code never reads are left
    out.  Instants are microseconds since the epoch ([Z]); dates are ordinals
    ([N]). *)

From S2P Require Import Prelude Money.

Abbreviation instant := Z (only parsing).
Abbreviation date := N (only parsing).

(** [date.isoformat()]: as for primary keys, an injective text without
    [":"]. *)
Definition isoformat (d : date) : string := pretty d.

(** ** apps.billing.models *)

Inductive LedgerReferenceType :=
  | DEPOSIT | ORDER | TOPUP | SUBSCRIPTION | REFUND | ADMIN_ADJUSTMENT | VOUCHER
  | PARTNER_MARGIN | PARTNER_GRANT_OUT | PARTNER_GRANT_IN | PARTNER_INVITE_BONUS.

#[export] Instance LedgerReferenceType_eq_dec : EqDecision LedgerReferenceType.
Proof. solve_decision. Defined.

Definition LedgerReferenceType_all : list LedgerReferenceType :=
  [DEPOSIT; ORDER; TOPUP; SUBSCRIPTION; REFUND; ADMIN_ADJUSTMENT; VOUCHER;
   PARTNER_MARGIN; PARTNER_GRANT_OUT; PARTNER_GRANT_IN; PARTNER_INVITE_BONUS].

Definition reference_value (t : LedgerReferenceType) : string :=
  match t with
  | DEPOSIT => "deposit"
  | ORDER => "order"
  | TOPUP => "topup"
  | SUBSCRIPTION => "subscription"
  | REFUND => "refund"
  | ADMIN_ADJUSTMENT => "admin_adjustment"
  | VOUCHER => "voucher"
  | PARTNER_MARGIN => "partner_margin"
  | PARTNER_GRANT_OUT => "partner_grant_out"
  | PARTNER_GRANT_IN => "partner_grant_in"
  | PARTNER_INVITE_BONUS => "partner_invite_bonus"
  end.

Inductive RewardType := FIXED_CREDIT | PERCENT_BONUS | FREE_SUBSCRIPTION | FREE_TOPUP.
Inductive VoucherType := PROMO | GIFT | VT_ADMIN | VT_PARTNER.
Inductive RedemptionMode := SHARED | UNIQUE.
Inductive VoucherIssuerType := ISSUER_SYSTEM | ISSUER_ADMIN | ISSUER_PARTNER | ISSUER_API.
Inductive VoucherRevokeReason :=
  FRAUD | EXPIRED_CAMPAIGN | MANUAL_REVOKE | DUPLICATE_ISSUE.
Inductive AccountKind := PERSONAL | ORGANIZATION.

#[export] Instance RewardType_eq_dec : EqDecision RewardType.
Proof. solve_decision. Defined.
#[export] Instance RedemptionMode_eq_dec : EqDecision RedemptionMode.
Proof. solve_decision. Defined.
#[export] Instance AccountKind_eq_dec : EqDecision AccountKind.
Proof. solve_decision. Defined.

Record Account := mkAccount {
  acc_id : pk;
  acc_user : option pk;
  acc_kind : AccountKind;
  acc_balance : money;
  acc_version : Z;
  acc_pricing_profile : option pk;
}.

#[export] Instance Account_eta : Eta Account := λ a,
  mkAccount (acc_id a) (acc_user a) (acc_kind a) (acc_balance a) (acc_version a)
    (acc_pricing_profile a).

(** The check constraints and column ranges of [Account.Meta]. *)
Definition account_checks (a : Account) : bool :=
  (0 <=? acc_balance a)%Z && (0 <=? acc_version a)%Z &&
  match acc_kind a, acc_user a with
  | PERSONAL, Some _ => true
  | ORGANIZATION, None => true
  | _, _ => false
  end.
Definition account_fits (a : Account) : bool :=
  fits_numeric (acc_balance a) && (acc_version a <=? max_int32)%Z.

Inductive PaymentMethod := WALLET_CONNECT | CEX_MANUAL.
Inductive DepositStatus := DEP_PENDING | DEP_COMPLETED | DEP_FAILED.

#[export] Instance DepositStatus_eq_dec : EqDecision DepositStatus.
Proof. solve_decision. Defined.

(** The texts the service writes into [failure_reason]. *)
Inductive FailureReason :=
  | FR_none
  | FR_missing_tx_hash
  | FR_provider (msg : string)
  | FR_rpc (msg : string)
  | FR_tx_status (status : string)
  | FR_amount_mismatch (on_chain requested : money)
  | FR_already_credited (tx_hash : string).

(** The part of a JSON value the code inspects. *)
Inductive Json :=
  | JNull
  | JBool (b : bool)
  | JInt (n : Z)
  | JStr (s : string)
  | JArr (items : list Json)
  | JObj (fields : list (string * Json)).

Record DepositRequest := mkDeposit {
  dep_id : pk;
  dep_account : pk;
  dep_amount_requested : money;
  dep_amount_credited : option money;
  dep_payment_method : PaymentMethod;
  dep_tx_hash : option string;
  dep_idempotency_key : string;
  dep_status : DepositStatus;
  dep_failure_reason : FailureReason;
  dep_verified_at : option instant;
  dep_raw_rpc_response : option Json;
}.

#[export] Instance DepositRequest_eta : Eta DepositRequest := λ d,
  mkDeposit (dep_id d) (dep_account d) (dep_amount_requested d) (dep_amount_credited d)
    (dep_payment_method d) (dep_tx_hash d) (dep_idempotency_key d) (dep_status d)
    (dep_failure_reason d) (dep_verified_at d) (dep_raw_rpc_response d).

Record CreditLedgerEntry := mkEntry {
  le_id : pk;
  le_account : pk;
  le_delta : money;
  le_balance_after : money;
  le_reference_type : LedgerReferenceType;
  le_reference_id : string;
  le_idempotency_key : string;
  le_created_at : instant;
}.

Inductive SubscriptionStatus := SUB_ACTIVE | SUB_PAUSED | SUB_EXPIRED.

#[export] Instance SubscriptionStatus_eq_dec : EqDecision SubscriptionStatus.
Proof. solve_decision. Defined.

Record Subscription := mkSubscription {
  sub_id : pk;
  sub_account : pk;
  sub_esim : pk;
  sub_price_per_period : money;
  sub_next_billing_date : date;
  sub_status : SubscriptionStatus;
}.

#[export] Instance Subscription_eta : Eta Subscription := λ s,
  mkSubscription (sub_id s) (sub_account s) (sub_esim s) (sub_price_per_period s)
    (sub_next_billing_date s) (sub_status s).

Inductive CampaignStatus := CAMP_DRAFT | CAMP_ACTIVE | CAMP_EXPIRED | CAMP_REVOKED.

#[export] Instance CampaignStatus_eq_dec : EqDecision CampaignStatus.
Proof. solve_decision. Defined.

Record VoucherCampaign := mkCampaign {
  camp_id : pk;
  camp_code : option string;
  camp_redemption_mode : RedemptionMode;
  camp_voucher_type : VoucherType;
  camp_reward_type : RewardType;
  camp_credit_amount : money;
  camp_max_redemptions_total : option N;
  camp_max_redemptions_per_account : option N;
  camp_starts_at : option instant;
  camp_expires_at : option instant;
  camp_status : CampaignStatus;
  camp_revoke_reason : option VoucherRevokeReason;
  camp_issued_by_type : VoucherIssuerType;
  camp_issued_by_id : string;
  camp_revoked_at : option instant;
  camp_revoked_by_id : string;
  camp_updated_at : instant;
}.

#[export] Instance VoucherCampaign_eta : Eta VoucherCampaign := λ c,
  mkCampaign (camp_id c) (camp_code c) (camp_redemption_mode c) (camp_voucher_type c)
    (camp_reward_type c) (camp_credit_amount c) (camp_max_redemptions_total c)
    (camp_max_redemptions_per_account c) (camp_starts_at c) (camp_expires_at c)
    (camp_status c) (camp_revoke_reason c) (camp_issued_by_type c) (camp_issued_by_id c)
    (camp_revoked_at c) (camp_revoked_by_id c) (camp_updated_at c).

Inductive BatchStatus := BATCH_CREATED | BATCH_ACTIVE | BATCH_REVOKED.

#[export] Instance BatchStatus_eq_dec : EqDecision BatchStatus.
Proof. solve_decision. Defined.

Record VoucherBatch := mkBatch {
  batch_id : pk;
  batch_campaign : option pk;
  batch_size : Z;
  batch_status : BatchStatus;
  batch_issued_by_type : VoucherIssuerType;
  batch_issued_by_id : string;
  batch_generated_at : option instant;
  batch_generated_by_version : string;
  batch_updated_at : instant;
}.

#[export] Instance VoucherBatch_eta : Eta VoucherBatch := λ b,
  mkBatch (batch_id b) (batch_campaign b) (batch_size b) (batch_status b)
    (batch_issued_by_type b) (batch_issued_by_id b) (batch_generated_at b)
    (batch_generated_by_version b) (batch_updated_at b).

Inductive VoucherStatus :=
  VOU_CREATED | VOU_ACTIVE | VOU_REDEEMED | VOU_EXPIRED | VOU_REVOKED.

#[export] Instance VoucherStatus_eq_dec : EqDecision VoucherStatus.
Proof. solve_decision. Defined.

Record Voucher := mkVoucher {
  vou_id : pk;
  vou_code : string;
  vou_redemption_mode : RedemptionMode;
  vou_voucher_type : VoucherType;
  vou_reward_type : RewardType;
  vou_credit_amount : money;
  vou_campaign : option pk;
  vou_batch : option pk;
  vou_status : VoucherStatus;
  vou_revoke_reason : option VoucherRevokeReason;
  vou_issued_by_type : VoucherIssuerType;
  vou_issued_by_id : string;
  vou_revoked_at : option instant;
  vou_revoked_by_id : string;
  vou_expires_at : option instant;
  vou_updated_at : instant;
}.

#[export] Instance Voucher_eta : Eta Voucher := λ v,
  mkVoucher (vou_id v) (vou_code v) (vou_redemption_mode v) (vou_voucher_type v)
    (vou_reward_type v) (vou_credit_amount v) (vou_campaign v) (vou_batch v)
    (vou_status v) (vou_revoke_reason v) (vou_issued_by_type v) (vou_issued_by_id v)
    (vou_revoked_at v) (vou_revoked_by_id v) (vou_expires_at v) (vou_updated_at v).

Record VoucherRedemption := mkRedemption {
  red_id : pk;
  red_account : pk;
  red_voucher : option pk;
  red_campaign : option pk;
  red_amount : money;
  red_ledger_entry_id : option pk;
  red_request_id : string;
  red_redeemed_at : instant;
  red_redeemed_ip : string;
  red_redeemed_user_agent : string;
}.

#[export] Instance VoucherRedemption_eta : Eta VoucherRedemption := λ r,
  mkRedemption (red_id r) (red_account r) (red_voucher r) (red_campaign r) (red_amount r)
    (red_ledger_entry_id r) (red_request_id r) (red_redeemed_at r) (red_redeemed_ip r)
    (red_redeemed_user_agent r).

(** The check constraints of the voucher tables. *)
Definition null_or_positive (n : option N) : bool :=
  match n with Some n => (0 <? n)%N | None => true end.
Definition campaign_checks (c : VoucherCampaign) : bool :=
  (0 <? camp_credit_amount c)%Z && null_or_positive (camp_max_redemptions_total c) &&
  null_or_positive (camp_max_redemptions_per_account c).
Definition batch_checks (b : VoucherBatch) : bool := (0 <? batch_size b)%Z.
Definition voucher_checks (v : Voucher) : bool := (0 <? vou_credit_amount v)%Z.

(** [billing_voucher_redemption_amount_gt_0] and [.._exactly_one_source]. *)
Definition redemption_checks (r : VoucherRedemption) : bool :=
  (0 <? red_amount r)%Z &&
  match red_voucher r, red_campaign r with
  | Some _, None | None, Some _ => true
  | _, _ => false
  end.

(** ** apps.organizations.models, apps.accounts.models *)

Inductive OrganizationStatus := ORG_ACTIVE | ORG_SUSPENDED | ORG_ARCHIVED.
Inductive MembershipRole := OWNER | ADMIN | MEMBER | VIEWER.
Inductive MembershipStatus := MEM_ACTIVE | MEM_SUSPENDED | MEM_REVOKED.

#[export] Instance MembershipRole_eq_dec : EqDecision MembershipRole.
Proof. solve_decision. Defined.
#[export] Instance MembershipStatus_eq_dec : EqDecision MembershipStatus.
Proof. solve_decision. Defined.

Record User := mkUser {
  user_id : pk;
  user_is_active : bool;
  user_email : string;
  user_is_staff : bool;
}.

Record Organization := mkOrganization {
  org_id : pk;
  org_name : string;
  org_status : OrganizationStatus;
  org_account : pk;
}.

Record Membership := mkMembership {
  mem_id : pk;
  mem_organization : pk;
  mem_user : pk;
  mem_role : MembershipRole;
  mem_status : MembershipStatus;
}.

#[export] Instance Organization_eta : Eta Organization := λ o,
  mkOrganization (org_id o) (org_name o) (org_status o) (org_account o).
#[export] Instance Membership_eta : Eta Membership := λ m,
  mkMembership (mem_id m) (mem_organization m) (mem_user m) (mem_role m) (mem_status m).

Inductive InviteStatus := INV_PENDING | INV_ACCEPTED | INV_REVOKED | INV_EXPIRED.

#[export] Instance OrganizationStatus_eq_dec : EqDecision OrganizationStatus.
Proof. solve_decision. Defined.
#[export] Instance InviteStatus_eq_dec : EqDecision InviteStatus.
Proof. solve_decision. Defined.

(** [role] is an [InviteRole]: never the owner. *)
Record OrganizationInvite := mkInvite {
  inv_id : pk;
  inv_organization : pk;
  inv_email : string;
  inv_email_normalized : string;
  inv_role : MembershipRole;
  inv_status : InviteStatus;
  inv_token_hash : string;
  inv_expires_at : instant;
  inv_invited_by : pk;
  inv_accepted_by : option pk;
  inv_accepted_at : option instant;
  inv_revoked_at : option instant;
}.

#[export] Instance OrganizationInvite_eta : Eta OrganizationInvite := λ i,
  mkInvite (inv_id i) (inv_organization i) (inv_email i) (inv_email_normalized i)
    (inv_role i) (inv_status i) (inv_token_hash i) (inv_expires_at i) (inv_invited_by i)
    (inv_accepted_by i) (inv_accepted_at i) (inv_revoked_at i).

Inductive DeviceBindingStatus := BINDING_ACTIVE | BINDING_UNBOUND | BINDING_REPLACED.

#[export] Instance DeviceBindingStatus_eq_dec : EqDecision DeviceBindingStatus.
Proof. solve_decision. Defined.

Record DeviceBinding := mkBinding {
  bnd_id : pk;
  bnd_organization : pk;
  bnd_esim : pk;
  bnd_device_external_id : string;
  bnd_uem_serial_number : string;
  bnd_uem_device_guid : string;
  bnd_credential_hash : string;
  bnd_credential_issued_at : option instant;
  bnd_status : DeviceBindingStatus;
  bnd_bound_by : option pk;
  bnd_unbound_by : option pk;
  bnd_unbound_at : option instant;
  bnd_replaced_by : option pk;
}.

#[export] Instance DeviceBinding_eta : Eta DeviceBinding := λ b,
  mkBinding (bnd_id b) (bnd_organization b) (bnd_esim b) (bnd_device_external_id b)
    (bnd_uem_serial_number b) (bnd_uem_device_guid b) (bnd_credential_hash b)
    (bnd_credential_issued_at b) (bnd_status b) (bnd_bound_by b) (bnd_unbound_by b)
    (bnd_unbound_at b) (bnd_replaced_by b).

Inductive DeviceBindingEventAction := BIND | UNBIND | REBIND | CREDENTIAL_ISSUE | CREDENTIAL_ROTATE.

Record DeviceBindingEvent := mkBindingEvent {
  bev_id : pk;
  bev_organization : pk;
  bev_binding : pk;
  bev_esim : pk;
  bev_action : DeviceBindingEventAction;
  bev_actor : option pk;
  bev_device_external_id : string;
  bev_previous_binding : option pk;
}.

Record OrganizationFleetCredential := mkFleet {
  flt_id : pk;
  flt_organization : pk;
  flt_fleet_external_id : string;
  flt_current_credential_hash : string;
  flt_current_issued_at : instant;
  flt_previous_credential_hash : string;
  flt_previous_valid_until : option instant;
}.

#[export] Instance OrganizationFleetCredential_eta : Eta OrganizationFleetCredential := λ f,
  mkFleet (flt_id f) (flt_organization f) (flt_fleet_external_id f)
    (flt_current_credential_hash f) (flt_current_issued_at f) (flt_previous_credential_hash f)
    (flt_previous_valid_until f).

Inductive FleetCredentialEventAction := FLEET_ISSUE | FLEET_ROTATE.

Record FleetCredentialEvent := mkFleetEvent {
  fev_id : pk;
  fev_organization : pk;
  fev_fleet_credential : pk;
  fev_action : FleetCredentialEventAction;
  fev_actor : option pk;
  fev_fleet_external_id : string;
  fev_previous_valid_until : option instant;
}.

(** ** apps.billing.partner_channel *)

Inductive ChannelKind := INDIVIDUAL | TEAM.

#[export] Instance ChannelKind_eq_dec : EqDecision ChannelKind.
Proof. solve_decision. Defined.

Record PartnerChannel := mkChannel {
  ch_id : pk;
  ch_kind : ChannelKind;
  ch_owner_user : option pk;
  ch_organization : option pk;
  ch_revenue_share_percent : percent;
  ch_is_active : bool;
}.

#[export] Instance PartnerChannel_eta : Eta PartnerChannel := λ c,
  mkChannel (ch_id c) (ch_kind c) (ch_owner_user c) (ch_organization c)
    (ch_revenue_share_percent c) (ch_is_active c).

(** [billing_partner_channel_share_range] and [.._owner_xor]. *)
Definition channel_checks (c : PartnerChannel) : bool :=
  (0 <=? ch_revenue_share_percent c)%Z && (ch_revenue_share_percent c <=? 10000)%Z &&
  match ch_kind c, ch_owner_user c, ch_organization c with
  | INDIVIDUAL, Some _, None => true
  | TEAM, None, Some _ => true
  | _, _, _ => false
  end.

Record PartnerInviteLink := mkInviteLink {
  link_id : pk;
  link_partner_channel : pk;
  link_token : string;
  link_name : string;
  link_bonus_amount : money;
  link_source : string;
  link_campaign : string;
  link_content : string;
  link_is_active : bool;
  link_created_at : instant;
  link_regenerated_at : option instant;
}.

#[export] Instance PartnerInviteLink_eta : Eta PartnerInviteLink := λ l,
  mkInviteLink (link_id l) (link_partner_channel l) (link_token l) (link_name l)
    (link_bonus_amount l) (link_source l) (link_campaign l) (link_content l)
    (link_is_active l) (link_created_at l) (link_regenerated_at l).

Record InviteVisit := mkVisit {
  vis_id : pk;
  vis_invite_link : pk;
  vis_utm_source : string;
  vis_utm_medium : string;
  vis_utm_campaign : string;
  vis_utm_content : string;
  vis_created_at : instant;
}.

Inductive AttributionSource := INVITE_LINK | SOURCE_ADMIN.

(** The invite columns copied when an attribution is inserted. *)
Record InviteSnapshot := mkSnapshot {
  snap_invite_visit : option pk;
  snap_invite_token : option string;
  snap_invite_name : string;
  snap_invite_source : string;
  snap_invite_campaign : string;
  snap_invite_content : string;
  snap_utm_source : string;
  snap_utm_medium : string;
  snap_utm_campaign : string;
  snap_utm_content : string;
}.

#[export] Instance InviteSnapshot_eta : Eta InviteSnapshot := λ s,
  mkSnapshot (snap_invite_visit s) (snap_invite_token s) (snap_invite_name s)
    (snap_invite_source s) (snap_invite_campaign s) (snap_invite_content s) (snap_utm_source s)
    (snap_utm_medium s) (snap_utm_campaign s) (snap_utm_content s).

Definition empty_snapshot : InviteSnapshot := mkSnapshot None None "" "" "" "" "" "" "" "".

Record CustomerAttribution := mkAttribution {
  attr_id : pk;
  attr_user : pk;
  attr_partner_channel : pk;
  attr_source : AttributionSource;
  attr_invite_link : option pk;
  attr_registered_via_invite : bool;
  attr_snapshot : InviteSnapshot;
  attr_bonus_amount_snapshot : option money;
  attr_attributed_at : instant;
}.

#[export] Instance CustomerAttribution_eta : Eta CustomerAttribution := λ a,
  mkAttribution (attr_id a) (attr_user a) (attr_partner_channel a) (attr_source a)
    (attr_invite_link a) (attr_registered_via_invite a) (attr_snapshot a)
    (attr_bonus_amount_snapshot a) (attr_attributed_at a).

Record PendingPartnerAttribution := mkPending {
  pend_id : pk;
  pend_user : pk;
  pend_partner_channel : pk;
  pend_invite_token_snapshot : string;
  pend_invite_visit : option pk;
  pend_expires_at : instant;
}.

Inductive SourceType := SRC_ORDER | SRC_TOPUP | SRC_SUBSCRIPTION.

#[export] Instance SourceType_eq_dec : EqDecision SourceType.
Proof. solve_decision. Defined.

Definition source_value (t : SourceType) : string :=
  match t with
  | SRC_ORDER => "order"
  | SRC_TOPUP => "topup"
  | SRC_SUBSCRIPTION => "subscription"
  end.

Record PartnerMarginAccrual := mkAccrual {
  accr_id : pk;
  accr_partner_channel : pk;
  accr_customer_user : option pk;
  accr_customer_user_id_snapshot : pk;
  accr_customer_attribution : option pk;
  accr_source_type : SourceType;
  accr_source_id : string;
  accr_list_price : money;
  accr_net_price : money;
  accr_margin : money;
  accr_revenue_share_percent : percent;
  accr_partner_share : money;
  accr_ledger_entry : pk;
}.

Record PartnerCreditGrant := mkGrant {
  grant_id : pk;
  grant_partner_channel : pk;
  grant_customer_user : option pk;
  grant_customer_user_id_snapshot : pk;
  grant_customer_attribution : pk;
  grant_granted_by : option pk;
  grant_granted_by_user_id_snapshot : pk;
  grant_amount : money;
  grant_idempotency_key : string;
  grant_debit_ledger_entry : pk;
  grant_credit_ledger_entry : pk;
}.

Inductive CycleStatus := CYC_PENDING | CYC_RENEWED | CYC_PAUSED | CYC_FAILED.

#[export] Instance CycleStatus_eq_dec : EqDecision CycleStatus.
Proof. solve_decision. Defined.

Record SubscriptionRenewalCycle := mkCycle {
  cyc_id : pk;
  cyc_subscription : pk;
  cyc_billing_date : date;
  cyc_renewal_list_price_usd : money;
  cyc_renewal_net_price_usd : option money;
  cyc_status : CycleStatus;
}.

#[export] Instance SubscriptionRenewalCycle_eta : Eta SubscriptionRenewalCycle := λ c,
  mkCycle (cyc_id c) (cyc_subscription c) (cyc_billing_date c)
    (cyc_renewal_list_price_usd c) (cyc_renewal_net_price_usd c) (cyc_status c).

(** ** apps.wallet.models *)

(** A chain name; [POLYGON] is the only supported one. *)
Definition POLYGON : string := "polygon".

Inductive WalletAddressStatus := WA_ACTIVE | WA_RETIRED.

#[export] Instance WalletAddressStatus_eq_dec : EqDecision WalletAddressStatus.
Proof. solve_decision. Defined.

Record WalletIdentity := mkIdentity { wid_id : pk; wid_account : pk }.

Record WalletAddress := mkWalletAddress {
  wa_id : pk;
  wa_wallet_identity : pk;
  wa_chain : string;
  wa_address : string;
  wa_derivation_index : Z;
  wa_status : WalletAddressStatus;
  wa_created_at : instant;
  wa_retired_at : option instant;
}.

#[export] Instance WalletAddress_eta : Eta WalletAddress := λ a,
  mkWalletAddress (wa_id a) (wa_wallet_identity a) (wa_chain a) (wa_address a)
    (wa_derivation_index a) (wa_status a) (wa_created_at a) (wa_retired_at a).

Inductive ObservationStatus :=
  OBSERVED | PENDING_CONFIRMATION | CONFIRMED | CONVERSION_STARTED | CREDITED
  | REJECTED | EXPIRED.

#[export] Instance ObservationStatus_eq_dec : EqDecision ObservationStatus.
Proof. solve_decision. Defined.

(** [status_reason] texts: empty, the policy's two reasons, the window
    timeout. *)
Inductive StatusReason :=
  | SR_none
  | SR_unaccepted_asset
  | SR_insufficient_confirmations (have required : Z)
  | SR_window_timeout.

#[export] Instance StatusReason_eq_dec : EqDecision StatusReason.
Proof. solve_decision. Defined.

Record DepositObservation := mkObservation {
  obs_id : pk;
  obs_wallet_address : pk;
  obs_chain : string;
  obs_tx_hash : string;
  obs_log_index : Z;
  obs_status : ObservationStatus;
  obs_amount : money;
  obs_token_contract : string;
  obs_from_address : string;
  obs_confirmations : Z;
  obs_block_number : option Z;
  obs_status_reason : StatusReason;
  obs_shadow_only : bool;
  obs_pending_at : option instant;
  obs_confirmed_at : option instant;
  obs_conversion_started_at : option instant;
  obs_credited_at : option instant;
  obs_rejected_at : option instant;
  obs_expired_at : option instant;
  obs_observed_at : instant;
}.

#[export] Instance DepositObservation_eta : Eta DepositObservation := λ o,
  mkObservation (obs_id o) (obs_wallet_address o) (obs_chain o) (obs_tx_hash o)
    (obs_log_index o) (obs_status o) (obs_amount o) (obs_token_contract o)
    (obs_from_address o) (obs_confirmations o) (obs_block_number o) (obs_status_reason o)
    (obs_shadow_only o) (obs_pending_at o) (obs_confirmed_at o)
    (obs_conversion_started_at o) (obs_credited_at o) (obs_rejected_at o)
    (obs_expired_at o) (obs_observed_at o).

(** The check constraints of [DepositObservation.Meta]. *)
Definition observation_checks (o : DepositObservation) : bool :=
  (0 <? obs_amount o)%Z && (0 <=? obs_log_index o)%Z && (0 <=? obs_confirmations o)%Z.

Inductive ShadowDecisionOutcome := SHADOW_EQUAL | SHADOW_DIFFERENT | SHADOW_ERROR.
Inductive ShadowDecisionSeverity := SEVERITY_NONE | SEVERITY_WARNING | SEVERITY_CRITICAL.

#[export] Instance ShadowDecisionOutcome_eq_dec : EqDecision ShadowDecisionOutcome.
Proof. solve_decision. Defined.
#[export] Instance ShadowDecisionSeverity_eq_dec : EqDecision ShadowDecisionSeverity.
Proof. solve_decision. Defined.

(** The texts the shadow comparison writes into [reason]. *)
Inductive ShadowReason :=
  | SHR_missing_wallet_address
  | SHR_duplicate_credit
  | SHR_rejected (r : StatusReason)
  | SHR_pending_confirmation
  | SHR_expired
  | SHR_account_mismatch
  | SHR_amount_mismatch
  | SHR_not_confirmed (s : ObservationStatus)
  | SHR_match
  | SHR_pipeline_error.

Record ShadowDecision := mkShadow {
  shd_id : pk;
  shd_deposit_request : pk;
  shd_observation : option pk;
  shd_legacy_amount : money;
  shd_legacy_account_id : pk;
  shd_legacy_tx_hash : string;
  shd_shadow_amount : option money;
  shd_shadow_account_id : option pk;
  shd_shadow_observation_status : option ObservationStatus;
  shd_shadow_would_credit : bool;
  shd_outcome : ShadowDecisionOutcome;
  shd_severity : ShadowDecisionSeverity;
  shd_reason : ShadowReason;
}.
