(* ===== verification/JsonValues.v ===== *)
(** * JSON values

    Reading decoded JSON: attribute access, truth, text. *)

From S2P Require Import Prelude Models.
#[local] Open Scope Z_scope.

(** [fields.get(k)] *)
Definition jget (k : string) (fields : list (string * Json)) : option Json :=
  snd <$> List.find (λ kv, bool_decide (kv.1 = k)) fields.

(** [bool(value)] *)
Definition truthy (j : Json) : bool :=
  match j with
  | JNull => false
  | JBool b => b
  | JInt n => negb (n =? 0)
  | JStr s => negb (bool_decide (s = ""))
  | JArr l => match l with [] => false | _ => true end
  | JObj l => match l with [] => false | _ => true end
  end.

(** [sub in text] *)
Fixpoint contains (sub s : string) : bool :=
  startswith sub s || match s with EmptyString => false | String _ s => contains sub s end.

(** [str(value)]; [str_json] prints what is not a text. *)
Definition text_of (str_json : Json → string) (j : Json) : string :=
  match j with JStr s => s | _ => str_json j end.
