(* ===== verification/EsimModels.v ===== *)
(** * Data model: catalog, pricing, orders and eSIMs

    The rows of [apps/catalog], [apps/pricing], [apps/orders] and
    [apps/esims], and the values the eSIM provider returns
    ([shared/providers/esim.py]).  Prices have two decimals in these tables;
    they are stored in micro-units like every other money value. *)

From S2P Require Import Prelude Money Models.

(** ** apps.catalog.models *)

Inductive CoverageType := COVERAGE_LOCAL | COVERAGE_REGIONAL | COVERAGE_GLOBAL.

Record Location := mkLocation {
  loc_id : pk;
  loc_title : string;
  loc_country_code : string;
  loc_coverage_type : CoverageType;
  loc_coverages : Json;
}.

Inductive ActivationPolicy := FIRST_USAGE | INSTALLATION | POLICY_UNKNOWN.

#[export] Instance ActivationPolicy_eq_dec : EqDecision ActivationPolicy.
Proof. solve_decision. Defined.

Record Package := mkPackage {
  pkg_id : pk;
  pkg_external_id : string;
  pkg_title : string;
  pkg_operator_title : string;
  pkg_country_code : string;
  pkg_location : option pk;
  pkg_data_allowance : string;
  pkg_validity_days : Z;
  pkg_price_usd : money;
  pkg_net_price_usd : option money;
  pkg_activation_policy : string;
}.

(** ** apps.pricing.models, apps.pricing.types *)

Inductive FloorPolicy := FLOOR_NONE | FLOOR_WHOLESALE.

#[export] Instance FloorPolicy_eq_dec : EqDecision FloorPolicy.
Proof. solve_decision. Defined.

Record PricingProfile := mkProfile {
  prof_id : pk;
  prof_name : string;
  prof_slug : string;
  prof_discount_percent : percent;
  prof_floor_policy : FloorPolicy;
  prof_version : Z;
  prof_is_active : bool;
  prof_effective_from : option instant;
  prof_effective_until : option instant;
  prof_archived_at : option instant;
}.

#[export] Instance PricingProfile_eta : Eta PricingProfile := λ p,
  mkProfile (prof_id p) (prof_name p) (prof_slug p) (prof_discount_percent p)
    (prof_floor_policy p) (prof_version p) (prof_is_active p) (prof_effective_from p)
    (prof_effective_until p) (prof_archived_at p).

(** [pricing_profile_discount_percent_0_100] and [.._version_gte_1]. *)
Definition profile_checks (p : PricingProfile) : bool :=
  (0 <=? prof_discount_percent p)%Z && (prof_discount_percent p <=? 10000)%Z &&
  (1 <=? prof_version p)%Z.

Inductive PricingReason := RETAIL | PRICING_PROFILE | INVALID_MARGIN.
Inductive FloorReason := REASON_NONE | REASON_DISCOUNT | REASON_WHOLESALE_FLOOR.
Inductive OrderType := OT_PACKAGE | OT_TOPUP.

(** The pricing columns of an order or top-up; an empty text is [None]. *)
Record PricingSnapshot := mkPricing {
  ps_discount_percent : option percent;
  ps_pricing_reason : option PricingReason;
  ps_floor_reason : option FloorReason;
  ps_profile_id : option pk;
  ps_profile_version : option Z;
  ps_profile_slug : string;
  ps_profile_name : string;
  ps_context_hash : string;
  ps_schema_version : option Z;
}.

Definition no_pricing : PricingSnapshot := mkPricing None None None None None "" "" "" None.

(** ** apps.orders.models *)

Inductive OrderStatus :=
  ORD_DRAFT | ORD_PENDING_PAYMENT | ORD_PAID | ORD_FULFILLING | ORD_FULFILLED
  | ORD_FAILED | ORD_CANCELLED.

#[export] Instance OrderStatus_eq_dec : EqDecision OrderStatus.
Proof. solve_decision. Defined.

(** One country of a coverage snapshot. *)
Record CountryCoverage := mkCountry {
  cc_country_code : string;
  cc_country_name : option string;
  cc_operators : list string;
}.

(** The purchase-time product columns of an order. *)
Record ProductSnapshot := mkProduct {
  prd_package_external_id : string;
  prd_package_title : string;
  prd_operator_title : string;
  prd_location_title : string;
  prd_country_code : string;
  prd_coverage_type : option CoverageType;
  prd_coverage_snapshot : option (list CountryCoverage);
  prd_data_allowance : string;
  prd_validity_days : option Z;
  prd_currency : string;
}.

#[export] Instance ProductSnapshot_eta : Eta ProductSnapshot := λ p,
  mkProduct (prd_package_external_id p) (prd_package_title p) (prd_operator_title p)
    (prd_location_title p) (prd_country_code p) (prd_coverage_type p) (prd_coverage_snapshot p)
    (prd_data_allowance p) (prd_validity_days p) (prd_currency p).

Definition no_product : ProductSnapshot := mkProduct "" "" "" "" "" None None "" None "".

Record Order := mkOrder {
  ord_id : pk;
  ord_account : pk;
  ord_package : pk;
  ord_status : OrderStatus;
  ord_external_order_id : string;
  ord_customer_ref : string;
  ord_idempotency_key : option string;
  ord_product : ProductSnapshot;
  ord_retail_price_usd : option money;
  ord_list_price_usd : option money;
  ord_net_price_usd : option money;
  ord_pricing : PricingSnapshot;
  ord_created_at : instant;
}.

#[export] Instance Order_eta : Eta Order := λ o,
  mkOrder (ord_id o) (ord_account o) (ord_package o) (ord_status o) (ord_external_order_id o)
    (ord_customer_ref o) (ord_idempotency_key o) (ord_product o) (ord_retail_price_usd o)
    (ord_list_price_usd o) (ord_net_price_usd o) (ord_pricing o) (ord_created_at o).

(** ** apps.esims.models *)

Inductive EsimStatus :=
  PURCHASED | INSTALLATION_STARTED | INSTALLED | ACTIVATED | IN_USE | EXHAUSTED
  | ESIM_EXPIRED | ESIM_UNKNOWN.

#[export] Instance EsimStatus_eq_dec : EqDecision EsimStatus.
Proof. solve_decision. Defined.

Definition esim_status_value (s : EsimStatus) : string :=
  match s with
  | PURCHASED => "purchased"
  | INSTALLATION_STARTED => "installation_started"
  | INSTALLED => "installed"
  | ACTIVATED => "activated"
  | IN_USE => "in_use"
  | EXHAUSTED => "exhausted"
  | ESIM_EXPIRED => "expired"
  | ESIM_UNKNOWN => "unknown"
  end.

(** The installation texts, stored as the provider returned them. *)
Record InstallTexts := mkInstall {
  ins_lpa : string;
  ins_qrcode : string;
  ins_qrcode_url : string;
  ins_direct_apple_installation_url : string;
  ins_manual_installation : string;
  ins_qrcode_installation : string;
  ins_installation_guide_url : string;
}.

(** The usage cache columns. *)
Record UsageCache := mkUsage {
  us_remaining_mb : option Z;
  us_total_mb : option Z;
  us_status : string;
  us_is_unlimited : option bool;
  us_expired_at : option instant;
  us_synced_at : option instant;
}.

Definition no_install : InstallTexts := mkInstall "" "" "" "" "" "" "".
Definition no_usage : UsageCache := mkUsage None None "" None None None.

Record Esim := mkEsim {
  esim_id : pk;
  esim_account : pk;
  esim_user : pk;
  esim_assigned_user : option pk;
  esim_order : pk;
  esim_iccid : string;
  esim_matching_id : string;
  esim_install : InstallTexts;
  esim_status : EsimStatus;
  esim_activation_policy : ActivationPolicy;
  esim_operator_title : string;
  esim_setup_version : string;
  esim_setup_resume_step : option Z;
  esim_setup_completed_at : option instant;
  esim_setup_skipped_at : option instant;
  esim_usage : UsageCache;
  esim_created_at : instant;
  esim_updated_at : instant;
}.

#[export] Instance Esim_eta : Eta Esim := λ s,
  mkEsim (esim_id s) (esim_account s) (esim_user s) (esim_assigned_user s) (esim_order s)
    (esim_iccid s) (esim_matching_id s) (esim_install s) (esim_status s)
    (esim_activation_policy s) (esim_operator_title s) (esim_setup_version s)
    (esim_setup_resume_step s) (esim_setup_completed_at s) (esim_setup_skipped_at s)
    (esim_usage s) (esim_created_at s) (esim_updated_at s).

Inductive LifecycleSource := SOURCE_CLIENT | SOURCE_SYSTEM | SOURCE_PROVIDER.

Record EsimLifecycleEvent := mkLifecycleEvent {
  lev_id : pk;
  lev_esim : pk;
  lev_user : pk;
  lev_event_type : string;
  lev_source : LifecycleSource;
  lev_idempotency_key : string;
}.

Inductive TopupStatus := TOP_FULFILLING | TOP_FULFILLED | TOP_FAILED.

#[export] Instance TopupStatus_eq_dec : EqDecision TopupStatus.
Proof. solve_decision. Defined.

Record Topup := mkTopup {
  top_id : pk;
  top_account : pk;
  top_esim : pk;
  top_package_external_id : string;
  top_amount : money;
  top_list_price_usd : option money;
  top_net_price_usd : option money;
  top_pricing : PricingSnapshot;
  top_status : TopupStatus;
  top_sequence : option Z;
  top_external_order_id : string;
  top_idempotency_key : option string;
  top_created_at : instant;
  top_updated_at : instant;
}.

#[export] Instance Topup_eta : Eta Topup := λ t,
  mkTopup (top_id t) (top_account t) (top_esim t) (top_package_external_id t) (top_amount t)
    (top_list_price_usd t) (top_net_price_usd t) (top_pricing t) (top_status t)
    (top_sequence t) (top_external_order_id t) (top_idempotency_key t) (top_created_at t)
    (top_updated_at t).

Inductive PolicyStatus := POL_ACTIVE | POL_PAUSED | POL_BLOCKED | POL_DISABLED.
Inductive PolicyReason :=
  INSUFFICIENT_FUNDS | PACKAGE_UNAVAILABLE | USAGE_UNKNOWN | PROVIDER_ERROR | MANUAL_PAUSE
  | COUNT_EXHAUSTED | SCHEDULE_ENDED.
Inductive UsageMode := USAGE_DISABLED | USAGE_THRESHOLD | USAGE_ZERO.
Inductive RenewMode := UNTIL_FUNDS | FIXED_COUNT.

#[export] Instance PolicyStatus_eq_dec : EqDecision PolicyStatus.
Proof. solve_decision. Defined.
#[export] Instance PolicyReason_eq_dec : EqDecision PolicyReason.
Proof. solve_decision. Defined.
#[export] Instance UsageMode_eq_dec : EqDecision UsageMode.
Proof. solve_decision. Defined.
#[export] Instance RenewMode_eq_dec : EqDecision RenewMode.
Proof. solve_decision. Defined.

(** The [LEGACY_TRIGGER_*] constants: what made a policy fire. *)
Inductive FireReason := TRIGGER_EXPIRY | TRIGGER_USAGE_THRESHOLD | TRIGGER_USAGE_ZERO.

#[export] Instance FireReason_eq_dec : EqDecision FireReason.
Proof. solve_decision. Defined.

(** [reason] is blank ([None]) while the policy is active. *)
Record EsimAutoTopupPolicy := mkPolicy {
  pol_id : pk;
  pol_account : pk;
  pol_esim : pk;
  pol_package_id : string;
  pol_enabled : bool;
  pol_status : PolicyStatus;
  pol_reason : option PolicyReason;
  pol_expiry_enabled : bool;
  pol_usage_mode : UsageMode;
  pol_threshold_mb : option Z;
  pol_renew_mode : RenewMode;
  pol_remaining_count : option Z;
  pol_active_until : option instant;
  pol_cooldown_until : option instant;
  pol_last_triggered_at : option instant;
  pol_last_topup : option pk;
  pol_last_idempotency_key : string;
  pol_version : Z;
  pol_created_at : instant;
}.

#[export] Instance EsimAutoTopupPolicy_eta : Eta EsimAutoTopupPolicy := λ p,
  mkPolicy (pol_id p) (pol_account p) (pol_esim p) (pol_package_id p) (pol_enabled p)
    (pol_status p) (pol_reason p) (pol_expiry_enabled p) (pol_usage_mode p)
    (pol_threshold_mb p) (pol_renew_mode p) (pol_remaining_count p) (pol_active_until p)
    (pol_cooldown_until p) (pol_last_triggered_at p) (pol_last_topup p)
    (pol_last_idempotency_key p) (pol_version p) (pol_created_at p).

(** [esims_auto_topup_threshold_required] and [.._count_required]. *)
Definition policy_checks (p : EsimAutoTopupPolicy) : bool :=
  match pol_usage_mode p, pol_threshold_mb p with USAGE_THRESHOLD, None => false | _, _ => true end &&
  match pol_renew_mode p, pol_remaining_count p with FIXED_COUNT, None => false | _, _ => true end.

(** ** shared.providers.esim *)

Record OrderedSimDTO := mkSim {
  sim_iccid : string;
  sim_lpa : string;
  sim_matching_id : string;
  sim_qrcode : string;
  sim_qrcode_url : string;
  sim_direct_apple_installation_url : string;
}.

Record OrderResult := mkOrderResult {
  or_external_order_id : string;
  or_manual_installation : string;
  or_qrcode_installation : string;
  or_installation_guide_url : string;
  or_sims : list OrderedSimDTO;
}.

Record UsageDTO := mkUsageDTO {
  ud_remaining_mb : Z;
  ud_total_mb : Z;
  ud_expired_at : option string;
  ud_is_unlimited : option bool;
  ud_status : string;
}.

Record TopupPackage := mkTopupPackage {
  tp_external_id : string;
  tp_price_usd : money;
  tp_net_price_usd : option money;
  tp_is_unlimited : bool;
}.

Record TopupResult := mkTopupResult { tr_external_order_id : string }.
