(* ===== verification/World.v ===== *)
(** * The world and its effects

    A service method runs in a [World]: the database, the events published,
    the metrics, the supply of fresh identifiers, the clock reading, and the
    state of the connection.  It either returns a value or raises; the world
    it leaves behind is the same in both cases, as in Python, and only
    [transaction.atomic] undoes anything. *)

From S2P Require Import Prelude Tables Money Models EsimModels.

(** ** Exceptions *)

Inductive Exn :=
  (* Python and Django *)
  | ValueError (msg : string)
  | RuntimeError (msg : string)
  | TypeError
  | ConnectionError
  | AttributeError
  | AssertionError
  | InvalidOperation
  | DoesNotExist
  | IntegrityError
  | DataError
  | DatabaseError
  | TransactionManagementError
  | ValidationError
  | AppendOnlyViolation
  | SoftDeleteViolation
  (* apps.billing.exceptions *)
  | CreditServiceError
  | InsufficientFundsError (account_balance amount_required : money)
  | InvalidAmountError
  | InvalidReferenceTypeError
  | DepositVerificationError
  | BillingDisabledError
  | DuplicateTransactionError
  | InsufficientConfirmationsError (confirmations required : Z)
  | DepositVerificationFailedError
  | AmountMismatchError (on_chain_amount requested_amount : money)
  | SubscriptionsDisabledError
  | VouchersDisabledError
  | VoucherInvalidError
  | VoucherExpiredError
  | VoucherRevokedError
  | VoucherReservedError
  | VoucherLimitError
  | UnsupportedRewardType
  | VoucherAdminConflictError
  | VoucherBatchBusyError
  | VoucherAdminValidationError
  (* partner channel *)
  | PartnerChannelOwnershipInvalid
  | PartnerSettlementAccountMissing
  | PartnerGrantError
  | PartnerChannelDisabled
  | PartnerGrantForbidden
  | CustomerNotAttributed
  | CustomerAttributionChanged
  | PartnerGrantIdempotencyConflict
  | PartnerGrantNegativeBalance
  | PartnerGrantSameAccount
  | PartnerSelfReferralConflict
  | CustomerAttributionExists
  | PartnerInviteForbidden
  | PartnerInviteError
  | PartnerAccessDenied
  | PartnerContextAmbiguous
  (* apps.wallet.exceptions, shared.providers.blockchain *)
  | WalletSeedNotConfiguredError
  | WalletAllocationError
  | WalletAddressNotFoundError
  | ObservationAttributionError
  | ObservationTransitionError
  | BlockchainProviderError (msg : string)
  | BlockchainRPCError (msg : string)
  | TransferNotFoundError (msg : string)
  (* rest_framework.exceptions, apps.organizations.exceptions *)
  | NotFound
  | PermissionDenied
  | NotAllowedError
  | LastOwnerError
  | InviteConflictError
  | InviteInvalidError
  | DeviceBindingConflictError
  | DeviceBindingNotFoundError
  | UemInventoryUnavailableError
  | UemSerialMatchError (msg : string)
  | DeviceNotFoundError
  | DeviceAmbiguousError
  | FleetCredentialConflictError
  | FleetCredentialInvalidError
  | BlackberryUemClientError (msg : string)
  (* apps.orders.exceptions, apps.esims.exceptions *)
  | SpendInProgressError
  | IdempotencyKeyRequiredError
  | ProviderFulfillmentError
  | TopupPackageNotFoundError
  | EsimOwnershipChanged
  | EsimTransferDestinationError
  | EsimTransferInProgressError
  | InvalidLifecycleTransitionError (current target : EsimStatus)
  | UnknownLifecycleEventTypeError (event_type : string)
  | TopupNetPriceImmutable
  (* auto top-up: Python's own exceptions *)
  | PermissionError
  | LookupError (msg : string)
  (** Whatever a third-party eSIM provider raises. *)
  | ProviderError (msg : string).

(** [isinstance(exc, VoucherError)] and [exc.code]. *)
Definition voucher_error_code (x : Exn) : option string :=
  match x with
  | VouchersDisabledError => Some "vouchers_disabled"
  | VoucherInvalidError => Some "voucher_invalid"
  | VoucherExpiredError => Some "voucher_expired"
  | VoucherRevokedError => Some "voucher_revoked"
  | VoucherReservedError => Some "voucher_reserved"
  | VoucherLimitError => Some "voucher_limit"
  | UnsupportedRewardType => Some "voucher_unsupported_reward"
  | _ => None
  end.

Inductive Res (A : Type) := Ok (a : A) | Raise (x : Exn).
Arguments Ok {A} a.
Arguments Raise {A} x.

(** ** Domain events (shared.events.billing_events) *)

Inductive Event :=
  | DepositVerified (deposit_id account_id : pk) (amount balance_after : money)
      (tx_hash : string) (payment_method : PaymentMethod) (ledger_entry_id : pk)
      (verified_at : instant)
  | CreditGranted (account_id : pk) (amount balance_after : money)
      (reference_type : LedgerReferenceType) (reference_id : string)
      (ledger_entry_id : pk) (created_at : instant)
  | CreditDebited (account_id : pk) (amount balance_after : money)
      (reference_type : LedgerReferenceType) (reference_id : string)
      (ledger_entry_id : pk) (created_at : instant)
  | SubscriptionRenewed (subscription_id account_id esim_id : pk)
      (amount balance_after : money) (next_billing_date : date)
      (ledger_entry_id : pk) (created_at : instant)
  | SubscriptionPaused (subscription_id account_id esim_id : pk)
      (amount_required balance : money) (deposit_url : string)
      (next_billing_date : date) (created_at : instant)
  | BalanceDriftDetected (account_id : pk) (cached_balance ledger_sum drift : money)
      (detected_at : instant)
  | VoucherRedeemed (voucher_id campaign_id : option pk) (redemption_id account_id : pk)
      (amount balance_after : money) (ledger_entry_id : pk) (request_id : string)
      (redeemed_at : instant)
  | FulfillmentRefunded (account_id : pk) (amount balance_after : money)
      (reference_type : LedgerReferenceType) (reference_id : string) (ledger_entry_id : pk)
      (created_at : instant)
  (* shared.events.order_events *)
  | AiraloOrderCreated (order_id : pk) (iccid : string) (customer_id : pk)
  | TopupCompleted (topup_id esim_id account_id : pk) (package_id : string) (amount : money)
      (external_order_id : string) (balance_after : money) (ledger_entry_id : pk)
      (created_at : instant)
  (* shared.events.esim_events *)
  | EsimActivated (esim_id : pk) (iccid : string) (user_id : pk)
      (purchase_to_activation : Z)
  | EsimInstalled (esim_id : pk) (iccid : string) (user_id : pk)
  | EsimFirstUsageDetected (esim_id : pk) (iccid : string) (user_id : pk)
  | AutoTopupPolicyCreated (policy_id : option pk) (account_id esim_id : pk) (package_id : string)
      (enabled : bool) (status : PolicyStatus) (reason : option PolicyReason)
      (trigger_mode : FireReason) (renew_mode : RenewMode) (version : Z) (actor : string)
      (created_at : instant)
  | AutoTopupPolicyUpdated (policy_id : option pk) (account_id esim_id : pk) (package_id : string)
      (enabled : bool) (status : PolicyStatus) (reason : option PolicyReason)
      (trigger_mode : FireReason) (renew_mode : RenewMode) (version : Z) (actor : string)
      (created_at : instant)
  | AutoTopupConfigurationChanged (policy_id account_id esim_id : pk)
      (before after : bool * UsageMode * option Z) (version : Z) (actor : string)
      (created_at : instant)
  | AutoTopupSucceeded (policy_id topup_id : pk) (package_id : string) (amount : money)
      (remaining_count : option Z) (account_id esim_id : pk) (created_at : instant)
  | AutoTopupPausedFunds (policy_id account_id esim_id : pk) (package_id : string)
      (amount_required balance : money) (deposit_url : string) (created_at : instant).

(** ** Settings and environment *)

Record Settings := mkSettings {
  BILLING_ENABLED : bool;
  VOUCHERS_ENABLED : bool;
  SUBSCRIPTIONS_ENABLED : bool;
  PARTNER_CHANNEL_ENABLED : bool;
  WALLET_ADDRESS_ENABLED : bool;
  OBSERVATION_ENABLED : bool;
  CREDIT_CONVERSION_V2 : bool;
  (** [WALLET_CUTOVER_COHORT_ACCOUNT_IDS], parsed. *)
  COHORT_ACCOUNT_IDS : list pk;
  WALLET_HD_MNEMONIC : string;
  POLYGON_MIN_CONFIRMATIONS : Z;
  POLYGON_USDT_CONTRACT : string;
  FRONTEND_BASE_URL : string;
  PARTNER_JOIN_BASE_URL : string;
  ROAMKIT_GIT_SHA : string;
  ROAMKIT_IMAGE_TAG : string;
  SHADOW_MODE : bool;
  POLYGON_PLATFORM_WALLET : string;
  PRICING_PROFILES_ENABLED : bool;
  AUTO_TOPUP_ENABLED : bool;
  AUTO_TOPUP_COOLDOWN_SECONDS : Z;
  AUTO_TOPUP_USAGE_MAX_AGE_SECONDS : Z;
  AUTO_TOPUP_MINIMUM_AGE_SECONDS : Z;
  AUTO_TOPUP_ROLLOUT_MODE : string;
  AUTO_TOPUP_ALLOWLIST_ACCOUNT_IDS : list string;
  AUTO_TOPUP_ROLLOUT_PERCENT : Z;
  ORGANIZATION_INVITE_TTL_SECONDS : Z;
  FLEET_CREDENTIAL_GRACE_SECONDS : Z;
  BLACKBERRY_UEM_ENABLED : bool;
}.

#[export] Instance Settings_eta : Eta Settings := λ s,
  mkSettings (BILLING_ENABLED s) (VOUCHERS_ENABLED s) (SUBSCRIPTIONS_ENABLED s)
    (PARTNER_CHANNEL_ENABLED s) (WALLET_ADDRESS_ENABLED s) (OBSERVATION_ENABLED s)
    (CREDIT_CONVERSION_V2 s) (COHORT_ACCOUNT_IDS s) (WALLET_HD_MNEMONIC s)
    (POLYGON_MIN_CONFIRMATIONS s) (POLYGON_USDT_CONTRACT s) (FRONTEND_BASE_URL s)
    (PARTNER_JOIN_BASE_URL s) (ROAMKIT_GIT_SHA s) (ROAMKIT_IMAGE_TAG s) (SHADOW_MODE s)
    (POLYGON_PLATFORM_WALLET s) (PRICING_PROFILES_ENABLED s) (AUTO_TOPUP_ENABLED s)
    (AUTO_TOPUP_COOLDOWN_SECONDS s) (AUTO_TOPUP_USAGE_MAX_AGE_SECONDS s)
    (AUTO_TOPUP_MINIMUM_AGE_SECONDS s) (AUTO_TOPUP_ROLLOUT_MODE s)
    (AUTO_TOPUP_ALLOWLIST_ACCOUNT_IDS s) (AUTO_TOPUP_ROLLOUT_PERCENT s)
    (ORGANIZATION_INVITE_TTL_SECONDS s) (FLEET_CREDENTIAL_GRACE_SECONDS s)
    (BLACKBERRY_UEM_ENABLED s).

(** [clock n] is the [n]-th reading of [timezone.now()], [today] the value of
    [timezone.localdate()] and [entropy n] the [n]-th text drawn from
    [secrets]. *)
Record Env := mkEnv {
  settings : Settings;
  clock : nat → instant;
  today : date;
  entropy : nat → string;
}.

(** ** The database *)

Record Db := mkDb {
  users : gmap pk User;
  organizations : gmap pk Organization;
  memberships : gmap pk Membership;
  packages : gmap pk Package;
  orders : gmap pk Order;
  esims : gmap pk Esim;
  accounts : gmap pk Account;
  (** The credit ledger in insertion order, oldest first. *)
  ledger : list CreditLedgerEntry;
  deposits : gmap pk DepositRequest;
  subscriptions : gmap pk Subscription;
  cycles : gmap pk SubscriptionRenewalCycle;
  campaigns : gmap pk VoucherCampaign;
  batches : gmap pk VoucherBatch;
  vouchers : gmap pk Voucher;
  redemptions : gmap pk VoucherRedemption;
  channels : gmap pk PartnerChannel;
  invite_links : gmap pk PartnerInviteLink;
  visits : gmap pk InviteVisit;
  attributions : gmap pk CustomerAttribution;
  pendings : gmap pk PendingPartnerAttribution;
  accruals : gmap pk PartnerMarginAccrual;
  grants : gmap pk PartnerCreditGrant;
  wallet_identities : gmap pk WalletIdentity;
  wallet_addresses : gmap pk WalletAddress;
  observations : gmap pk DepositObservation;
  shadow_decisions : gmap pk ShadowDecision;
  organization_invites : gmap pk OrganizationInvite;
  locations : gmap pk Location;
  pricing_profiles : gmap pk PricingProfile;
  topups : gmap pk Topup;
  lifecycle_events : gmap pk EsimLifecycleEvent;
  policies : gmap pk EsimAutoTopupPolicy;
  device_bindings : gmap pk DeviceBinding;
  device_binding_events : gmap pk DeviceBindingEvent;
  fleet_credentials : gmap pk OrganizationFleetCredential;
  fleet_credential_events : gmap pk FleetCredentialEvent;
}.

#[export] Instance Db_eta : Eta Db := λ d,
  mkDb (users d) (organizations d) (memberships d) (packages d) (orders d) (esims d)
    (accounts d) (ledger d) (deposits d) (subscriptions d) (cycles d) (campaigns d)
    (batches d) (vouchers d) (redemptions d) (channels d) (invite_links d) (visits d)
    (attributions d) (pendings d) (accruals d) (grants d) (wallet_identities d)
    (wallet_addresses d) (observations d) (shadow_decisions d) (organization_invites d)
    (locations d) (pricing_profiles d) (topups d) (lifecycle_events d) (policies d)
    (device_bindings d) (device_binding_events d) (fleet_credentials d)
    (fleet_credential_events d).

Definition empty_db : Db :=
  mkDb ∅ ∅ ∅ ∅ ∅ ∅ ∅ [] ∅ ∅ ∅ ∅ ∅ ∅ ∅ ∅ ∅ ∅ ∅ ∅ ∅ ∅ ∅ ∅ ∅ ∅ ∅ ∅ ∅ ∅ ∅ ∅ ∅ ∅ ∅ ∅.

(** [depth] is the number of open [atomic] blocks; [aborted] is Django's
    [needs_rollback]: a database error inside a block leaves the connection
    unusable until that block ends. *)
Record World := mkWorld {
  db : Db;
  events : list Event;
  metrics : list string;
  next_uuid : pk;
  tick : nat;
  draws : nat;
  depth : nat;
  aborted : bool;
}.

#[export] Instance World_eta : Eta World := λ w,
  mkWorld (db w) (events w) (metrics w) (next_uuid w) (tick w) (draws w) (depth w) (aborted w).

(** ** The effect monad *)

Definition M (A : Type) : Type := Env → World → Res A * World.

Definition ret {A} (a : A) : M A := λ _ w, (Ok a, w).
Definition raise {A} (x : Exn) : M A := λ _ w, (Raise x, w).
Definition bind {A B} (m : M A) (f : A → M B) : M B := λ e w,
  match m e w with
  | (Ok a, w) => f a e w
  | (Raise x, w) => (Raise x, w)
  end.

Declare Scope effect_scope.
Delimit Scope effect_scope with eff.
Open Scope effect_scope.

Notation "'let!' x ':=' m 'in' k" := (bind m (λ x, k))
  (at level 10, x name, m at level 200, k at level 200) : effect_scope.
Notation "m ;;; k" := (bind m (λ _, k)) (at level 199, right associativity) : effect_scope.

(** [if c: raise x] *)
Definition raise_if (c : bool) (x : Exn) : M unit := if c then raise x else ret tt.

(** [try: m except ...: handler]; [handler x = None] re-raises. *)
Definition try_except {A} (m : M A) (handler : Exn → option (M A)) : M A := λ e w,
  match m e w with
  | (Ok a, w') => (Ok a, w')
  | (Raise x, w') =>
      match handler x with
      | Some h => h e w'
      | None => (Raise x, w')
      end
  end.

(** [except IntegrityError: handler] *)
Definition on_integrity_error {A} (h : M A) : Exn → option (M A) := λ x,
  match x with IntegrityError => Some h | _ => None end.

Definition asks {A} (f : Settings → A) : M A := λ e w, (Ok (f (settings e)), w).
Definition localdate : M date := λ e w, (Ok (today e), w).

(** [timezone.now()] and [uuid.uuid4()] *)
Definition now : M instant := λ e w,
  (Ok (clock e (tick w)), w <| tick := S (tick w) |>).
Definition uuid4 : M pk := λ _ w,
  (Ok (next_uuid w), w <| next_uuid := N.succ (next_uuid w) |>).

(** [secrets.token_hex(...)] and the like *)
Definition draw : M string := λ e w,
  (Ok (entropy e (draws w)), w <| draws := S (draws w) |>).

Definition publish (ev : Event) : M unit := λ _ w,
  (Ok tt, w <| events := events w ++ [ev] |>).
Definition incr (metric : string) : M unit := λ _ w,
  (Ok tt, w <| metrics := metrics w ++ [metric] |>).

Fixpoint for_each {A} (l : list A) (f : A → M unit) : M unit :=
  match l with
  | [] => ret tt
  | x :: l => f x;;; for_each l f
  end.

(** A loop with an accumulator. *)
Fixpoint fold_each {A B} (l : list A) (acc : B) (f : B → A → M B) : M B :=
  match l with
  | [] => ret acc
  | x :: l => let! acc' := f acc x in fold_each l acc' f
  end.

(** ** Transactions *)

(** [with transaction.atomic():] an exception, or an aborted connection,
    restores the database the block started from; identifiers, the clock and
    published events are not part of the transaction. *)
Definition atomic {A} (m : M A) : M A := λ e w,
  match m e (w <| depth := S (depth w) |>) with
  | (Ok a, w') =>
      if aborted w'
      then (Ok a, w' <| db := db w |> <| depth := depth w |> <| aborted := aborted w |>)
      else (Ok a, w' <| depth := depth w |>)
  | (Raise x, w') =>
      (Raise x, w' <| db := db w |> <| depth := depth w |> <| aborted := aborted w |>)
  end.

(** An error reported by the database. *)
Definition db_error {A} (x : Exn) : M A := λ _ w,
  (Raise x, if depth w is 0 then w else w <| aborted := true |>).

(** A query; refused on an aborted connection. *)
Definition query {A} (f : Db → A) : M A := λ _ w,
  if aborted w then (Raise TransactionManagementError, w) else (Ok (f (db w)), w).

(** [select_for_update()]: also refused outside a transaction. *)
Definition locked_query {A} (f : Db → A) : M A := λ e w,
  if decide (depth w = 0) then (Raise TransactionManagementError, w) else query f e w.

(** A write: [f] gives the new database or the error the database reports. *)
Definition write (f : Db → Res Db) : M unit := λ e w,
  if aborted w then (Raise TransactionManagementError, w)
  else match f (db w) with
       | Ok d => (Ok tt, w <| db := d |>)
       | Raise x => db_error x e w
       end.

(** [objects.get(...)] on an optional row *)
Definition found {A} (o : option A) : M A :=
  match o with Some a => ret a | None => raise DoesNotExist end.

(** Replace or add a row. *)
Definition put {V} (tbl : Db → gmap pk V) `{!Update tbl} (k : pk) (v : V) : Db → Db :=
  update tbl (insert k v).
Definition drop {V} (tbl : Db → gmap pk V) `{!Update tbl} (k : pk) : Db → Db :=
  update tbl (delete k).

(** [objects.get(pk=k)], [objects.select_for_update().get(pk=k)] *)
Definition get {V} (tbl : Db → gmap pk V) (k : pk) : M V :=
  let! o := query (λ d, tbl d !! k) in found o.
Definition get_locked {V} (tbl : Db → gmap pk V) (k : pk) : M V :=
  let! o := locked_query (λ d, tbl d !! k) in found o.

(** [obj.save(update_fields=...)]: the row is updated in place; [check] is
    the database's verdict on the new row. *)
Definition save_fields {V} (tbl : Db → gmap pk V) `{!Update tbl}
    (check : Db → V → option Exn) (k : pk) (f : V → V) : M unit :=
  write (λ d,
    match tbl d !! k with
    | None => Raise DatabaseError
    | Some v =>
        match check d (f v) with
        | Some x => Raise x
        | None => Ok (put tbl k (f v) d)
        end
    end).

(** [objects.create(...)] *)
Definition create {V} (tbl : Db → gmap pk V) `{!Update tbl}
    (check : Db → V → option Exn) (k : pk) (v : V) : M unit :=
  write (λ d,
    match tbl d !! k with
    | Some _ => Raise IntegrityError
    | None =>
        match check d v with
        | Some x => Raise x
        | None => Ok (put tbl k v d)
        end
    end).

(** No constraint beyond the primary key. *)
Definition unchecked {V} : Db → V → option Exn := λ _ _, None.

(** [obj.delete()] *)
Definition delete_row {V} (tbl : Db → gmap pk V) `{!Update tbl} (k : pk) : M unit :=
  write (λ d, Ok (drop tbl k d)).

(** [objects.filter(P).delete()] *)
Definition delete_where {V} (tbl : Db → gmap pk V) `{!Update tbl} (P : V → bool) : M unit :=
  write (λ d, Ok (update tbl (filter (λ kv, P kv.2 = false)) d)).

(** [obj.save()] of all columns: an update, or an insert when the row is
    missing. *)
Definition save_row {V} (tbl : Db → gmap pk V) `{!Update tbl}
    (check : Db → V → option Exn) (k : pk) (v : V) : M unit :=
  write (λ d, match check d v with Some x => Raise x | None => Ok (put tbl k v d) end).

(** ** Concrete worlds *)

Definition sample_settings : Settings :=
  mkSettings true true true true false false false [] "" 20 "" "https://roamkit.net"
    "https://roamkit.net" "" "" false "0xplatform" false true 900 600 600 "all" [] 0 604800 259200 true.
Definition sample_env : Env := mkEnv sample_settings (λ n, Z.of_nat n) 100 (λ n, pretty (N.of_nat n)).
(** A world outside any transaction, with fresh identifiers from 1000 on. *)
Definition world_of (d : Db) : World := mkWorld d [] [] 1000 0 0 0 false.
