(* ===== verification/Effects.v ===== *)
(** * Reasoning about effectful code

    Two styles.  [respects R m]: whatever [m] does, returning or raising, it
    moves the database along the preorder [R] (an invariant is the preorder
    [preserves I]); the rules follow the shape of the program and
    [solve_respects] applies them.  [inv_run]: from a run that returned, the
    facts about each of its steps. *)

From S2P Require Import Prelude Tables Money Models EsimModels World.

(** What a caller sees of a run: its result and the database it leaves. *)
Definition run {A} (m : M A) (e : Env) (w : World) : Res A * Db :=
  let '(r, w') := m e w in (r, db w').

(** ** State relations *)

Definition respects {A} (R : relation Db) (m : M A) : Prop :=
  ∀ e w r w', m e w = (r, w') → R (db w) (db w').

(** [m] leaves [f] of the database as it was. *)
Definition same {X} (f : Db → X) : relation Db := λ d d', f d' = f d.

(** [I] is an invariant of [m] exactly when [respects (preserves I) m]. *)
Definition preserves (I : Db → Prop) : relation Db := λ d d', I d → I d'.

#[export] Instance same_preorder {X} (f : Db → X) : PreOrder (same f).
Proof. split; [done|]. intros d1 d2 d3 H1 H2. unfold same in *. congruence. Qed.

#[export] Instance preserves_preorder I : PreOrder (preserves I).
Proof. split; [by intros d H|]. intros d1 d2 d3 H1 H2 H. auto. Qed.

#[export] Instance respects_proper {A} :
  Proper (subrelation ==> eq ==> impl) (@respects A).
Proof. intros R R' HR m ? <- H e w r w' E. eapply HR, H, E. Qed.

Section Rules.
Context (R : relation Db) `{!PreOrder R}.

Lemma respects_ret {A} (a : A) : respects R (ret a).
Proof. intros e w r w' [= <- <-]. reflexivity. Qed.

Lemma respects_raise {A} x : respects R (@raise A x).
Proof. intros e w r w' [= <- <-]. reflexivity. Qed.

Lemma respects_bind {A B} (m : M A) (f : A → M B) :
  respects R m → (∀ a, respects R (f a)) → respects R (bind m f).
Proof.
  intros Hm Hf e w r w'. unfold bind. destruct (m e w) as [[a|x] w1] eqn:E1.
  - intros E2. transitivity (db w1); [by eapply Hm|by eapply Hf].
  - intros [= <- <-]. by eapply Hm.
Qed.

Lemma respects_raise_if c x : respects R (raise_if c x).
Proof. unfold raise_if. case_match; [apply respects_raise|apply respects_ret]. Qed.

Lemma respects_try {A} (m : M A) h :
  respects R m → (∀ x k, h x = Some k → respects R k) → respects R (try_except m h).
Proof.
  intros Hm Hh e w r w'. unfold try_except. destruct (m e w) as [[a|x] w1] eqn:E1.
  - intros [= <- <-]. by eapply Hm.
  - destruct (h x) as [k|] eqn:E.
    + intros E2. transitivity (db w1); [by eapply Hm|by eapply Hh].
    + intros [= <- <-]. by eapply Hm.
Qed.

Lemma respects_integrity {A} (k : M A) :
  respects R k → ∀ x k', on_integrity_error k x = Some k' → respects R k'.
Proof. intros Hk [] k' [= <-]. done. Qed.

Lemma respects_asks {A} (f : Settings → A) : respects R (asks f).
Proof. intros e w r w' [= <- <-]. reflexivity. Qed.
Lemma respects_localdate : respects R localdate.
Proof. intros e w r w' [= <- <-]. reflexivity. Qed.
Lemma respects_now : respects R now.
Proof. intros e w r w' [= <- <-]. reflexivity. Qed.
Lemma respects_uuid4 : respects R uuid4.
Proof. intros e w r w' [= <- <-]. reflexivity. Qed.
Lemma respects_publish ev : respects R (publish ev).
Proof. intros e w r w' [= <- <-]. reflexivity. Qed.
Lemma respects_incr s : respects R (incr s).
Proof. intros e w r w' [= <- <-]. reflexivity. Qed.

Lemma respects_draw : respects R draw.
Proof. intros e w r w' [= <- <-]. reflexivity. Qed.

Lemma respects_fold_each {A B} (l : list A) (f : B → A → M B) :
  (∀ acc x, respects R (f acc x)) → ∀ acc, respects R (fold_each l acc f).
Proof.
  intros Hf. induction l as [|x l IH]; intros acc; simpl;
    [apply respects_ret|by apply respects_bind].
Qed.

Lemma respects_for_each {A} (l : list A) f :
  (∀ x, respects R (f x)) → respects R (for_each l f).
Proof.
  intros Hf. induction l as [|x l IH]; simpl;
    [apply respects_ret|by apply respects_bind].
Qed.

Lemma respects_atomic {A} (m : M A) : respects R m → respects R (atomic m).
Proof.
  intros Hm e w r w'. unfold atomic.
  destruct (m e _) as [[a|x] w1] eqn:E1; [case_match|]; intros [= <- <-]; simpl;
    [reflexivity|apply (Hm _ _ _ _ E1)|reflexivity].
Qed.

(** Only the runs of a transaction that return reach the database. *)
Lemma respects_atomic_Ok {A} (m : M A) :
  (∀ e w a w', m e w = (Ok a, w') → R (db w) (db w')) → respects R (atomic m).
Proof.
  intros Hm e w r w'. unfold atomic.
  destruct (m e _) as [[a|x] w1] eqn:E1; [case_match|]; intros [= <- <-]; simpl;
    [reflexivity|apply (Hm _ _ _ _ E1)|reflexivity].
Qed.

Lemma respects_db_error {A} x : respects R (@db_error A x).
Proof. intros e w r w' [= <- <-]. by destruct (depth w). Qed.

Lemma respects_query {A} (f : Db → A) : respects R (query f).
Proof. intros e w r w'. unfold query. by case_match; intros [= <- <-]. Qed.

Lemma respects_locked_query {A} (f : Db → A) : respects R (locked_query f).
Proof.
  intros e w r w'. unfold locked_query. case_match; [|apply respects_query].
  by intros [= <- <-].
Qed.

Lemma respects_found {A} (o : option A) : respects R (found o).
Proof. destruct o; [apply respects_ret|apply respects_raise]. Qed.

Lemma respects_get {V} (tbl : Db → gmap pk V) k : respects R (get tbl k).
Proof. apply respects_bind; [apply respects_query|apply respects_found]. Qed.

Lemma respects_get_locked {V} (tbl : Db → gmap pk V) k : respects R (get_locked tbl k).
Proof. apply respects_bind; [apply respects_locked_query|apply respects_found]. Qed.

Lemma respects_write f : (∀ d d', f d = Ok d' → R d d') → respects R (write f).
Proof.
  intros Hf e w r w'. unfold write. case_match; [by intros [= <- <-]|].
  destruct (f (db w)) as [d|x] eqn:E.
  - intros [= <- <-]. by apply Hf.
  - apply respects_db_error.
Qed.

Context {V : Type} (tbl : Db → gmap pk V) `{!Update tbl}.

Lemma respects_save_fields check k f :
  (∀ d v, tbl d !! k = Some v → check d (f v) = None → R d (put tbl k (f v) d)) →
  respects R (save_fields tbl check k f).
Proof.
  intros Hf. apply respects_write. intros d d'.
  destruct (tbl d !! k) as [v|] eqn:E1; [|done].
  destruct (check d (f v)) eqn:E2; [done|]. intros [= <-]. auto.
Qed.

Lemma respects_create check k v :
  (∀ d, tbl d !! k = None → check d v = None → R d (put tbl k v d)) →
  respects R (create tbl check k v).
Proof.
  intros Hf. apply respects_write. intros d d'.
  destruct (tbl d !! k) eqn:E1; [done|].
  destruct (check d v) eqn:E2; [done|]. intros [= <-]. auto.
Qed.

Lemma respects_delete_row k :
  (∀ d, R d (drop tbl k d)) → respects R (delete_row tbl k).
Proof. intros Hf. apply respects_write. intros d d' [= <-]. auto. Qed.

Lemma respects_delete_where P :
  (∀ d, R d (update tbl (filter (λ kv, P kv.2 = false)) d)) → respects R (delete_where tbl P).
Proof. intros Hf. apply respects_write. intros d d' [= <-]. auto. Qed.

Lemma respects_save_row check k v :
  (∀ d, check d v = None → R d (put tbl k v d)) → respects R (save_row tbl check k v).
Proof.
  intros Hf. apply respects_write. intros d d'.
  destruct (check d v) eqn:E; [done|]. intros [= <-]. auto.
Qed.
End Rules.

#[export] Hint Resolve respects_ret respects_raise respects_raise_if respects_asks
  respects_localdate respects_now respects_uuid4 respects_draw respects_publish respects_incr
  respects_db_error respects_query respects_locked_query respects_found respects_get
  respects_get_locked : effects.

(** Decompose a program along its shape.  What is left are the writes whose
    effect on [R] is not definitional. *)
Ltac respects_step :=
  first
    [ by auto with effects typeclass_instances
    | apply respects_bind; [typeclasses eauto|..|intros ?]
    | apply respects_try; [typeclasses eauto|..|intros ? ?]
    | apply respects_integrity
    | lazymatch goal with |- Some _ = Some _ → _ => intros [= <-] | |- None = Some _ → _ => intros [=] end
    | apply respects_atomic; [typeclasses eauto|]
    | apply respects_for_each; [typeclasses eauto|]; intros ?
    | apply respects_fold_each; [typeclasses eauto|]; intros ? ?
    | apply respects_save_fields; [typeclasses eauto|]; intros ? ? ? ?; first [reflexivity | by intros ?]
    | apply respects_create; [typeclasses eauto|]; intros ? ? ?; first [reflexivity | by intros ?]
    | apply respects_delete_row; [typeclasses eauto|]; intros ?; first [reflexivity | by intros ?]
    | apply respects_delete_where; [typeclasses eauto|]; intros ?; first [reflexivity | by intros ?]
    | apply respects_save_row; [typeclasses eauto|]; intros ? ?; first [reflexivity | by intros ?]
    | case_match
    | progress simplify_eq ].
Ltac solve_respects := repeat respects_step.

(** The same, stopping at the transactions. *)
Ltac outer_step :=
  first
    [ by auto with effects typeclass_instances
    | apply respects_bind; [typeclasses eauto|..|intros ?]
    | apply respects_try; [typeclasses eauto|..|intros ? ?]
    | apply respects_integrity
    | lazymatch goal with |- Some _ = Some _ → _ => intros [= <-] | |- None = Some _ → _ => intros [=] end
    | case_match
    | progress simplify_eq ].
Ltac solve_outer := repeat outer_step.

(** ** Relations from a known database

    [respects_at R d m]: a run of [m] that starts in [d] moves along [R]; the
    rules of the reading steps make what was read available. *)

Definition respects_at {A} (R : relation Db) (d : Db) (m : M A) : Prop :=
  ∀ e w r w', db w = d → m e w = (r, w') → R d (db w').

Lemma respects_at_ext {A} R d (m m' : M A) :
  (∀ e w, m e w = m' e w) → respects_at R d m' → respects_at R d m.
Proof. intros E H e w r w' Hd. rewrite E. by apply H. Qed.

Lemma bind_bind {A B C} (m : M A) (f : A → M B) (g : B → M C) e w :
  bind (bind m f) g e w = bind m (λ a, bind (f a) g) e w.
Proof. unfold bind. by destruct (m e w) as [[?|?] ?]. Qed.

Section RulesAt.
Context (R : relation Db) `{!PreOrder R} (d : Db).

Lemma respects_from_at {A} (m : M A) : (∀ d, respects_at R d m) → respects R m.
Proof. intros H e w r w'. by apply H. Qed.

Lemma at_respects {A} (m : M A) : respects R m → respects_at R d m.
Proof. intros H e w r w' <-. apply H. Qed.

Lemma at_query {A B} (f : Db → A) (k : A → M B) :
  respects_at R d (k (f d)) → respects_at R d (bind (query f) k).
Proof.
  intros H e w r w' Hd. unfold bind, query. destruct (aborted w); [intros [= _ <-]; by rewrite Hd|].
  rewrite Hd. by apply H.
Qed.

Lemma at_locked_query {A B} (f : Db → A) (k : A → M B) :
  respects_at R d (k (f d)) → respects_at R d (bind (locked_query f) k).
Proof.
  intros H e w r w' Hd. unfold bind, locked_query.
  destruct (decide (depth w = 0)); [intros [= _ <-]; by rewrite Hd|]. by apply (at_query f k).
Qed.

Lemma at_raise_if {B} c x (k : unit → M B) :
  (c = false → respects_at R d (k tt)) → respects_at R d (bind (raise_if c x) k).
Proof.
  intros H e w r w' Hd. unfold bind, raise_if. destruct c; [intros [= _ <-]; by rewrite Hd|].
  by apply H.
Qed.

Lemma at_write f : (∀ d', f d = Ok d' → R d d') → respects_at R d (write f).
Proof.
  intros H e w r w' Hd. unfold write. destruct (aborted w); [intros [= _ <-]; by rewrite Hd|].
  rewrite Hd. destruct (f d) as [d'|x]; [intros [= _ <-]; by apply H|].
  intros [= _ <-]. destruct (depth w); simpl; by rewrite Hd.
Qed.

Context {V : Type} (tbl : Db → gmap pk V) `{!Update tbl}.

Lemma at_get {B} k (f : V → M B) :
  (∀ v, tbl d !! k = Some v → respects_at R d (f v)) → respects_at R d (bind (get tbl k) f).
Proof.
  intros H e w r w' Hd. unfold get, bind at 2. unfold bind, query, found.
  destruct (aborted w); [intros [= _ <-]; by rewrite Hd|]. rewrite Hd.
  destruct (tbl d !! k) as [v|] eqn:E; simpl; [by apply H|]. intros [= _ <-]. by rewrite Hd.
Qed.

Lemma at_save_fields check k f :
  (∀ v, tbl d !! k = Some v → check d (f v) = None → R d (put tbl k (f v) d)) →
  respects_at R d (save_fields tbl check k f).
Proof.
  intros H. apply at_write. intros d'. destruct (tbl d !! k) as [v|] eqn:E; [|done].
  destruct (check d (f v)) eqn:E'; [done|]. intros [= <-]. auto.
Qed.

Lemma at_save_row check k v :
  (check d v = None → R d (put tbl k v d)) → respects_at R d (save_row tbl check k v).
Proof.
  intros H. apply at_write. intros d'. destruct (check d v); [done|]. intros [= <-]. auto.
Qed.
End RulesAt.

(** ** Silent code *)

(** [m] publishes nothing, and closes the transactions it opens. *)
Definition quiet {A} (m : M A) : Prop :=
  ∀ e w r w', m e w = (r, w') →
    depth w' = depth w ∧ events w' = events w ∧ metrics w' = metrics w.

Section Quiet.
Lemma quiet_ret {A} (a : A) : quiet (ret a).
Proof. by intros e w r w' [= <- <-]. Qed.
Lemma quiet_raise {A} x : quiet (@raise A x).
Proof. by intros e w r w' [= <- <-]. Qed.
Lemma quiet_raise_if c x : quiet (raise_if c x).
Proof. unfold raise_if. case_match; [apply quiet_raise|apply quiet_ret]. Qed.

Lemma quiet_bind {A B} (m : M A) (f : A → M B) :
  quiet m → (∀ a, quiet (f a)) → quiet (bind m f).
Proof.
  intros Hm Hf e w r w'. unfold bind. destruct (m e w) as [[a|x] w1] eqn:E1.
  - intros E2. apply Hm in E1 as (? & ? & ?). apply Hf in E2 as (? & ? & ?).
    naive_solver congruence.
  - intros [= <- <-]. by apply Hm in E1.
Qed.

Lemma quiet_try {A} (m : M A) h :
  quiet m → (∀ x k, h x = Some k → quiet k) → quiet (try_except m h).
Proof.
  intros Hm Hh e w r w'. unfold try_except. destruct (m e w) as [[a|x] w1] eqn:E1.
  - intros [= <- <-]. by apply Hm in E1.
  - destruct (h x) as [k|] eqn:E; [intros E2|intros [= <- <-]; by apply Hm in E1].
    apply Hm in E1 as (? & ? & ?). apply (Hh x k E) in E2 as (? & ? & ?).
    naive_solver congruence.
Qed.

Lemma quiet_integrity {A} (k : M A) :
  quiet k → ∀ x k', on_integrity_error k x = Some k' → quiet k'.
Proof. intros Hk [] k' [= <-]. done. Qed.

Lemma quiet_atomic {A} (m : M A) : quiet m → quiet (atomic m).
Proof.
  intros Hm e w r w'. unfold atomic.
  destruct (m e _) as [[a|x] w1] eqn:E1; apply Hm in E1 as (? & ? & ?);
    [case_match|]; by intros [= <- <-].
Qed.

Lemma quiet_asks {A} (f : Settings → A) : quiet (asks f).
Proof. by intros e w r w' [= <- <-]. Qed.
Lemma quiet_localdate : quiet localdate.
Proof. by intros e w r w' [= <- <-]. Qed.
Lemma quiet_now : quiet now.
Proof. by intros e w r w' [= <- <-]. Qed.
Lemma quiet_uuid4 : quiet uuid4.
Proof. by intros e w r w' [= <- <-]. Qed.
Lemma quiet_draw : quiet draw.
Proof. by intros e w r w' [= <- <-]. Qed.
Lemma quiet_query {A} (f : Db → A) : quiet (query f).
Proof. intros e w r w'. unfold query. by case_match; intros [= <- <-]. Qed.
Lemma quiet_locked_query {A} (f : Db → A) : quiet (locked_query f).
Proof.
  intros e w r w'. unfold locked_query. case_match; [by intros [= <- <-]|].
  apply quiet_query.
Qed.
Lemma quiet_found {A} (o : option A) : quiet (found o).
Proof. destruct o; [apply quiet_ret|apply quiet_raise]. Qed.
Lemma quiet_get {V} (tbl : Db → gmap pk V) k : quiet (get tbl k).
Proof. apply quiet_bind; [apply quiet_query|apply quiet_found]. Qed.
Lemma quiet_get_locked {V} (tbl : Db → gmap pk V) k : quiet (get_locked tbl k).
Proof. apply quiet_bind; [apply quiet_locked_query|apply quiet_found]. Qed.
Lemma quiet_write f : quiet (write f).
Proof.
  intros e w r w'. unfold write, db_error.
  repeat case_match; intros [= <- <-]; done.
Qed.
Lemma quiet_save_fields {V} (tbl : Db → gmap pk V) `{!Update tbl} check k f :
  quiet (save_fields tbl check k f).
Proof. apply quiet_write. Qed.
Lemma quiet_create {V} (tbl : Db → gmap pk V) `{!Update tbl} check k v :
  quiet (create tbl check k v).
Proof. apply quiet_write. Qed.
Lemma quiet_delete_row {V} (tbl : Db → gmap pk V) `{!Update tbl} k :
  quiet (delete_row tbl k).
Proof. apply quiet_write. Qed.
Lemma quiet_delete_where {V} (tbl : Db → gmap pk V) `{!Update tbl} P :
  quiet (delete_where tbl P).
Proof. apply quiet_write. Qed.
Lemma quiet_save_row {V} (tbl : Db → gmap pk V) `{!Update tbl} check k v :
  quiet (save_row tbl check k v).
Proof. apply quiet_write. Qed.
End Quiet.

#[export] Hint Resolve quiet_ret quiet_raise quiet_raise_if quiet_bind quiet_try
  quiet_integrity quiet_atomic quiet_asks quiet_localdate quiet_now quiet_uuid4 quiet_draw
  quiet_query quiet_locked_query quiet_found quiet_get quiet_get_locked quiet_write
  quiet_save_fields quiet_create quiet_delete_row quiet_delete_where quiet_save_row : effects.

Ltac quiet_step :=
  first
    [ by auto with effects
    | apply quiet_bind; [|intros ?]
    | apply quiet_try; [|intros ? ?]
    | apply quiet_integrity
    | lazymatch goal with |- Some _ = Some _ → _ => intros [= <-] | |- None = Some _ → _ => intros [=] end
    | apply quiet_atomic
    | case_match
    | progress simplify_eq ].
Ltac solve_quiet := repeat quiet_step.

(** ** Inversion of runs *)

Section Inversion.
Context {A B : Type}.
Implicit Types (e : Env) (w : World).

Lemma bind_Ok (m : M A) (f : A → M B) e w b w' :
  bind m f e w = (Ok b, w') →
  ∃ a w1, m e w = (Ok a, w1) ∧ f a e w1 = (Ok b, w').
Proof. unfold bind. destruct (m e w) as [[a|x] w1]; [eauto|done]. Qed.

Lemma ret_Ok (a b : A) e w w' : ret a e w = (Ok b, w') → b = a ∧ w' = w.
Proof. by intros [= <- <-]. Qed.

Lemma asks_Ok (f : Settings → A) e w b w' :
  asks f e w = (Ok b, w') → b = f (settings e) ∧ w' = w.
Proof. by intros [= <- <-]. Qed.

Lemma raise_if_Ok c x e w u w' : raise_if c x e w = (Ok u, w') → c = false ∧ w' = w.
Proof. unfold raise_if. case_match; by intros [= <-]. Qed.

Lemma raise_if_world c x e w r w' : raise_if c x e w = (r, w') → w' = w.
Proof. unfold raise_if. case_match; by intros [= _ <-]. Qed.

Lemma bind_run (m : M A) (f : A → M B) e w :
  bind m f e w = match m e w with (Ok a, w1) => f a e w1 | (Raise x, w1) => (Raise x, w1) end.
Proof. done. Qed.

Lemma query_Ok (f : Db → A) e w b w' :
  query f e w = (Ok b, w') → aborted w = false ∧ b = f (db w) ∧ w' = w.
Proof. unfold query. case_match; [done|]. by intros [= <- <-]. Qed.

Lemma locked_query_Ok (f : Db → A) e w b w' :
  locked_query f e w = (Ok b, w') → aborted w = false ∧ b = f (db w) ∧ w' = w.
Proof. unfold locked_query. case_match; [done|]. apply query_Ok. Qed.

Lemma found_Ok (o : option A) e w a w' : found o e w = (Ok a, w') → o = Some a ∧ w' = w.
Proof. destruct o; by intros [= <- <-]. Qed.

Lemma write_Ok f e w u w' :
  write f e w = (Ok u, w') →
  aborted w = false ∧ ∃ d, f (db w) = Ok d ∧ w' = w <| db := d |>.
Proof.
  unfold write. case_match; [done|]. destruct (f (db w)) eqn:E; [|done].
  intros [= <- <-]. eauto.
Qed.

Lemma try_Ok (m : M A) h e w a w' :
  try_except m h e w = (Ok a, w') →
  m e w = (Ok a, w') ∨
  ∃ x k w1, m e w = (Raise x, w1) ∧ h x = Some k ∧ k e w1 = (Ok a, w').
Proof.
  unfold try_except. destruct (m e w) as [[b|x] w1] eqn:E.
  - intros [= -> ->]. by left.
  - destruct (h x) as [k|] eqn:E'; [|done]. right. eauto 6.
Qed.

Lemma bind_Raise (m : M A) (f : A → M B) e w x w' :
  bind m f e w = (Raise x, w') →
  m e w = (Raise x, w') ∨ ∃ a w1, m e w = (Ok a, w1) ∧ f a e w1 = (Raise x, w').
Proof. unfold bind. destruct (m e w) as [[a|y] w1]; [eauto|]. intros [= -> ->]. by left. Qed.

Lemma write_Raise f e w x w' : write f e w = (Raise x, w') → db w' = db w.
Proof. unfold write, db_error. repeat case_match; by intros [= <- <-]. Qed.

(** The world inside a transaction. *)
Definition enter (w : World) : World := w <| depth := S (depth w) |>.

Lemma atomic_Ok (m : M A) e w a w' :
  atomic m e w = (Ok a, w') →
  ∃ w1, m e (enter w) = (Ok a, w1) ∧
    (aborted w1 = true ∧ db w' = db w ∧ aborted w' = aborted w ∨
     aborted w1 = false ∧ w' = w1 <| depth := depth w |>).
Proof.
  unfold atomic, enter. destruct (m e _) as [[b|x] w1] eqn:E; [|done].
  case_match; intros [= -> <-]; eauto 8.
Qed.

Lemma atomic_Raise (m : M A) e w x w' :
  atomic m e w = (Raise x, w') → db w' = db w ∧ aborted w' = aborted w.
Proof.
  unfold atomic. destruct (m e _) as [[b|y] w1]; [by case_match|]. by intros [= <- <-].
Qed.
End Inversion.

Section TableInversion.
Context {V : Type} (tbl : Db → gmap pk V).
Implicit Types (e : Env) (w : World).

Lemma get_Ok k e w v w' :
  get tbl k e w = (Ok v, w') → aborted w = false ∧ tbl (db w) !! k = Some v ∧ w' = w.
Proof.
  intros (o & w1 & (Ha & -> & ->)%query_Ok & (Ho & ->)%found_Ok)%bind_Ok. done.
Qed.

Lemma get_locked_Ok k e w v w' :
  get_locked tbl k e w = (Ok v, w') →
  aborted w = false ∧ tbl (db w) !! k = Some v ∧ w' = w.
Proof.
  intros (o & w1 & (Ha & -> & ->)%locked_query_Ok & (Ho & ->)%found_Ok)%bind_Ok. done.
Qed.

Lemma get_Raise k e w x w' :
  get tbl k e w = (Raise x, w') → x = TransactionManagementError ∨ x = DoesNotExist.
Proof.
  unfold get, query, found, bind, raise, ret. intros H. repeat case_match; simplify_eq; auto.
Qed.

Context `{!Update tbl}.

Lemma create_Raise check k v e w x w' :
  create tbl check k v e w = (Raise x, w') →
  x = TransactionManagementError ∨ x = IntegrityError ∨ check (db w) v = Some x.
Proof.
  unfold create, write, db_error. intros H. repeat case_match; simplify_eq; auto.
Qed.

Lemma save_fields_Ok check k f e w u w' :
  save_fields tbl check k f e w = (Ok u, w') →
  aborted w = false ∧
  ∃ v, tbl (db w) !! k = Some v ∧ check (db w) (f v) = None ∧
    w' = w <| db := put tbl k (f v) (db w) |>.
Proof.
  intros (Ha & d & Hd & ->)%write_Ok. split; [done|].
  destruct (tbl (db w) !! k) as [v|]; [|done]. exists v.
  destruct (check (db w) (f v)); [done|]. by injection Hd as <-.
Qed.

Lemma create_Ok check k v e w u w' :
  create tbl check k v e w = (Ok u, w') →
  aborted w = false ∧ tbl (db w) !! k = None ∧ check (db w) v = None ∧
    w' = w <| db := put tbl k v (db w) |>.
Proof.
  intros (Ha & d & Hd & ->)%write_Ok. split; [done|].
  destruct (tbl (db w) !! k); [done|].
  destruct (check (db w) v); [done|]. by injection Hd as <-.
Qed.

Lemma delete_where_Ok P e w u w' :
  delete_where tbl P e w = (Ok u, w') →
  aborted w = false ∧ w' = w <| db := update tbl (filter (λ kv, P kv.2 = false)) (db w) |>.
Proof. intros (Ha & d & [= <-] & ->)%write_Ok. done. Qed.

Lemma delete_row_Ok k e w u w' :
  delete_row tbl k e w = (Ok u, w') → aborted w = false ∧ w' = w <| db := drop tbl k (db w) |>.
Proof. intros (Ha & d & [= <-] & ->)%write_Ok. done. Qed.

Lemma save_row_Ok check k v e w u w' :
  save_row tbl check k v e w = (Ok u, w') →
  aborted w = false ∧ check (db w) v = None ∧ w' = w <| db := put tbl k v (db w) |>.
Proof.
  intros (Ha & d & Hd & ->)%write_Ok. split; [done|].
  destruct (check (db w) v); [done|]. by injection Hd as <-.
Qed.
End TableInversion.

(** Decompose a hypothesis [m e w = (Ok a, w')] into the facts of its steps. *)
Ltac inv_step H :=
  cbv zeta in H;
  lazymatch type of H with
  | bind _ _ _ _ = (Ok _, _) =>
      let a := fresh "a" in let w1 := fresh "w" in
      let H1 := fresh "Hrun" in let H2 := fresh "Hrun" in
      apply bind_Ok in H as (a & w1 & H1 & H2); inv_step H1; inv_step H2
  | ret _ _ _ = (Ok _, _) => apply ret_Ok in H as [? ?]; simplify_eq
  | raise _ _ _ = (Ok _, _) => discriminate H
  | asks _ _ _ = (Ok _, _) => apply asks_Ok in H as [? ?]; simplify_eq
  | raise_if _ _ _ _ = (Ok _, _) => apply raise_if_Ok in H as [? ?]; simplify_eq
  | query _ _ _ = (Ok _, _) => apply query_Ok in H as (? & ? & ?); simplify_eq
  | locked_query _ _ _ = (Ok _, _) => apply locked_query_Ok in H as (? & ? & ?); simplify_eq
  | found _ _ _ = (Ok _, _) => apply found_Ok in H as [? ?]; simplify_eq
  | get _ _ _ _ = (Ok _, _) => apply get_Ok in H as (? & ? & ?); simplify_eq
  | get_locked _ _ _ _ = (Ok _, _) => apply get_locked_Ok in H as (? & ? & ?); simplify_eq
  | save_fields _ _ _ _ _ _ = (Ok _, _) =>
      let v := fresh "v" in
      apply save_fields_Ok in H as (? & v & ? & ? & ?); simplify_eq
  | create _ _ _ _ _ _ = (Ok _, _) =>
      apply create_Ok in H as (? & ? & ? & ?); simplify_eq
  | delete_where _ _ _ _ = (Ok _, _) => apply delete_where_Ok in H as [? ?]; simplify_eq
  | delete_row _ _ _ _ = (Ok _, _) => apply delete_row_Ok in H as [? ?]; simplify_eq
  | save_row _ _ _ _ _ _ = (Ok _, _) => apply save_row_Ok in H as (? & ? & ?); simplify_eq
  | now _ _ = (Ok _, _) => injection H as ? ?; simplify_eq
  | uuid4 _ _ = (Ok _, _) => injection H as ? ?; simplify_eq
  | draw _ _ = (Ok _, _) => injection H as ? ?; simplify_eq
  | localdate _ _ = (Ok _, _) => injection H as ? ?; simplify_eq
  | publish _ _ _ = (Ok _, _) => injection H as ? ?; simplify_eq
  | incr _ _ _ = (Ok _, _) => injection H as ? ?; simplify_eq
  | (if ?c then _ else _) _ _ = (Ok _, _) =>
      let E := fresh "Hif" in destruct c eqn:E; inv_step H
  | (match ?c with _ => _ end) _ _ = (Ok _, _) =>
      let E := fresh "Hmatch" in destruct c eqn:E; inv_step H
  | _ => idtac
  end.
Ltac inv_run H := inv_step H; simplify_eq/=.

(** Apply a specification [m e w = (Ok a, w') → ..] to the run it describes. *)
Tactic Notation "inv_call" uconstr(lem) "as" simple_intropattern(p) :=
  match goal with
  | H : _ _ _ = (Ok _, _) |- _ => apply lem in H as p
  end.

(** ** The connection *)

(** A returning run never leaves the connection aborted. *)
Definition clean {A} (m : M A) : Prop :=
  ∀ e w a w', aborted w = false → m e w = (Ok a, w') → aborted w' = false.

Lemma clean_bind {A B} (m : M A) (f : A → M B) :
  clean m → (∀ a, clean (f a)) → clean (bind m f).
Proof. intros Hm Hf e w b w' Hw (a & w1 & H1 & H2)%bind_Ok. eapply Hf, H2. eauto. Qed.

Lemma clean_atomic {A} (m : M A) : clean (atomic m).
Proof. intros e w a w' Hw (w1 & _ & [(?&?&?)|[? ->]])%atomic_Ok; simpl; congruence. Qed.

(** Catching an error around a transaction finds the connection usable. *)
Lemma clean_try_atomic {A} (m : M A) h :
  (∀ x k, h x = Some k → clean k) → clean (try_except (atomic m) h).
Proof.
  intros Hh e w a w' Hw [H|(x & k & w1 & H1 & H2 & H3)]%try_Ok.
  - by apply clean_atomic in H.
  - eapply Hh; [done| |done]. apply atomic_Raise in H1 as [_ ->]. done.
Qed.

(** The same when the handler guards a transaction and a pure step. *)
Lemma clean_try_atomic_map {A B} (m : M A) (f : A → B) h :
  (∀ x k, h x = Some k → clean k) →
  clean (try_except (let! a := atomic m in ret (f a)) h).
Proof.
  intros Hh e w b w' Hw [(a & w1 & H & [_ ->]%ret_Ok)%bind_Ok|(x & k & w1 & H1 & H2 & H3)]%try_Ok.
  - by apply clean_atomic in H.
  - eapply Hh; [done| |done]. apply bind_Raise in H1 as [[_ ->]%atomic_Raise|(? & ? & _ & ?)]; done.
Qed.

Lemma clean_ret {A} (a : A) : clean (ret a).
Proof. by intros e w b w' Hw [-> ->]%ret_Ok. Qed.
Lemma clean_raise {A} x : clean (@raise A x).
Proof. by intros e w b w' Hw [=]. Qed.
Lemma clean_query {A} (f : Db → A) : clean (query f).
Proof. by intros e w b w' Hw (? & ? & ->)%query_Ok. Qed.
Lemma clean_write f : clean (write f).
Proof. by intros e w b w' Hw (? & d & ? & ->)%write_Ok. Qed.
Lemma clean_locked_query {A} (f : Db → A) : clean (locked_query f).
Proof. by intros e w b w' Hw (? & ? & ->)%locked_query_Ok. Qed.
Lemma clean_found {A} (o : option A) : clean (found o).
Proof. destruct o; [apply clean_ret|apply clean_raise]. Qed.
Lemma clean_get {V} (tbl : Db → gmap pk V) k : clean (get tbl k).
Proof. apply clean_bind; [apply clean_query|apply clean_found]. Qed.
Lemma clean_get_locked {V} (tbl : Db → gmap pk V) k : clean (get_locked tbl k).
Proof. apply clean_bind; [apply clean_locked_query|apply clean_found]. Qed.
Lemma clean_raise_if c x : clean (raise_if c x).
Proof. unfold raise_if. case_match; [apply clean_raise|apply clean_ret]. Qed.
Lemma clean_asks {A} (f : Settings → A) : clean (asks f).
Proof. by intros e w b w' Hw [-> ->]%asks_Ok. Qed.
Lemma clean_localdate : clean localdate.
Proof. by intros e w b w' Hw [= <- <-]. Qed.
Lemma clean_now : clean now.
Proof. by intros e w b w' Hw [= <- <-]. Qed.
Lemma clean_uuid4 : clean uuid4.
Proof. by intros e w b w' Hw [= <- <-]. Qed.
Lemma clean_draw : clean draw.
Proof. by intros e w b w' Hw [= <- <-]. Qed.
Lemma clean_publish ev : clean (publish ev).
Proof. by intros e w b w' Hw [= <- <-]. Qed.
Lemma clean_incr m : clean (incr m).
Proof. by intros e w b w' Hw [= <- <-]. Qed.
Lemma clean_save_fields {V} (tbl : Db → gmap pk V) `{!Update tbl} check k f :
  clean (save_fields tbl check k f).
Proof. apply clean_write. Qed.
Lemma clean_create {V} (tbl : Db → gmap pk V) `{!Update tbl} check k v :
  clean (create tbl check k v).
Proof. apply clean_write. Qed.
Lemma clean_delete_row {V} (tbl : Db → gmap pk V) `{!Update tbl} k : clean (delete_row tbl k).
Proof. apply clean_write. Qed.
Lemma clean_delete_where {V} (tbl : Db → gmap pk V) `{!Update tbl} P : clean (delete_where tbl P).
Proof. apply clean_write. Qed.
Lemma clean_save_row {V} (tbl : Db → gmap pk V) `{!Update tbl} check k v :
  clean (save_row tbl check k v).
Proof. apply clean_write. Qed.
Lemma clean_for_each {A} (l : list A) f : (∀ x, clean (f x)) → clean (for_each l f).
Proof. intros Hf. induction l; simpl; [apply clean_ret|by apply clean_bind]. Qed.
Lemma clean_integrity {A} (k : M A) :
  clean k → ∀ x k', on_integrity_error k x = Some k' → clean k'.
Proof. intros Hk [] k' [= <-]. done. Qed.

#[export] Hint Resolve clean_ret clean_raise clean_query clean_locked_query clean_write
  clean_found clean_get clean_get_locked clean_raise_if clean_asks clean_localdate clean_now
  clean_uuid4 clean_draw clean_publish clean_incr clean_save_fields clean_create
  clean_delete_row clean_delete_where clean_save_row clean_atomic : effects.

Ltac clean_step :=
  first
    [ by auto with effects
    | apply clean_bind; [|intros ?]
    | apply clean_try_atomic; intros ? ?
    | apply clean_try_atomic_map; intros ? ?
    | apply clean_integrity
    | apply clean_for_each; intros ?
    | lazymatch goal with |- Some _ = Some _ → _ => intros [= <-] | |- None = Some _ → _ => intros [=] end
    | case_match
    | progress simplify_eq ].
Ltac solve_clean := repeat clean_step.

(** A clean transaction that returns has committed. *)
Lemma atomic_clean_Ok {A} (m : M A) e w a w' :
  clean m → atomic m e w = (Ok a, w') → aborted w = false →
  ∃ w1, m e (enter w) = (Ok a, w1) ∧ w' = w1 <| depth := depth w |>.
Proof.
  intros Hm H Hw. apply atomic_Ok in H as (w1 & H & [(Hab & _)|[_ ->]]); [|eauto].
  apply Hm in H; [congruence|done].
Qed.

(** ** Refusals *)

(** A run of [m] that raises leaves the database as it was: its writes are its
    last step, or in a transaction of its own. *)
Definition refuses {A} (m : M A) : Prop :=
  ∀ e w x w', m e w = (Raise x, w') → db w' = db w.

Lemma refuses_bind {A B} (m : M A) (f : A → M B) :
  respects eq m → (∀ a, refuses (f a)) → refuses (bind m f).
Proof.
  intros Hm Hf e w x w' [H|(a & w1 & H1 & H2)]%bind_Raise.
  - symmetry. by eapply Hm.
  - apply Hf in H2. apply Hm in H1. congruence.
Qed.

Lemma refuses_last {A B} (m : M A) (g : A → B) : refuses m → refuses (bind m (λ a, ret (g a))).
Proof. intros Hm e w x w' [H|(a & w1 & H1 & H2)]%bind_Raise; [by eapply Hm|done]. Qed.

Lemma refuses_readonly {A} (m : M A) : respects eq m → refuses m.
Proof. intros Hm e w x w' H. symmetry. by eapply Hm. Qed.

Lemma refuses_atomic {A} (m : M A) : refuses (atomic m).
Proof. intros e w x w' [H _]%atomic_Raise. done. Qed.

Lemma refuses_write f : refuses (write f).
Proof. intros e w x w'. apply write_Raise. Qed.

Lemma refuses_try {A} (m : M A) h :
  refuses m → (∀ x k, h x = Some k → refuses k) → refuses (try_except m h).
Proof.
  intros Hm Hh e w x w'. unfold try_except. destruct (m e w) as [[a|y] w1] eqn:E; [done|].
  destruct (h y) as [k|] eqn:Ek; intros H.
  - apply (Hh y k Ek) in H. apply Hm in E. congruence.
  - simplify_eq. by eapply Hm.
Qed.

Lemma refuses_integrity {A} (k : M A) :
  refuses k → ∀ x k', on_integrity_error k x = Some k' → refuses k'.
Proof. intros Hk [] k' [= <-]. done. Qed.

Lemma refuses_save_fields {V} (tbl : Db → gmap pk V) `{!Update tbl} check k f :
  refuses (save_fields tbl check k f).
Proof. apply refuses_write. Qed.
Lemma refuses_create {V} (tbl : Db → gmap pk V) `{!Update tbl} check k v :
  refuses (create tbl check k v).
Proof. apply refuses_write. Qed.
Lemma refuses_delete_row {V} (tbl : Db → gmap pk V) `{!Update tbl} k : refuses (delete_row tbl k).
Proof. apply refuses_write. Qed.
#[export] Hint Resolve refuses_atomic refuses_write refuses_save_fields refuses_create
  refuses_delete_row : effects.

Ltac refuses_step :=
  first
    [ by auto with effects
    | apply refuses_readonly; by solve_respects
    | apply refuses_last
    | apply refuses_bind; [by solve_respects|intros ?]
    | apply refuses_try; [|intros ? ?]
    | apply refuses_integrity
    | lazymatch goal with |- Some _ = Some _ → _ => intros [= <-] | |- None = Some _ → _ => intros [=] end
    | case_match
    | progress simplify_eq ].
Ltac solve_refuses := repeat refuses_step.

(** ** Retrying *)

(** [for _ in range(n): try: return m() except IntegrityError: continue],
    followed by [k]. *)
Fixpoint retry_else {A} (n : nat) (m k : M A) : M A :=
  match n with
  | O => k
  | S n => try_except m (on_integrity_error (retry_else n m k))
  end.

(** The same, followed by [raise x]. *)
Definition retry_integrity {A} (n : nat) (m : M A) (x : Exn) : M A := retry_else n m (raise x).

Lemma respects_retry_else R `{!PreOrder R} {A} n (m k : M A) :
  respects R m → respects R k → respects R (retry_else n m k).
Proof.
  intros Hm Hk. induction n as [|n IH]; simpl; [done|].
  apply respects_try; [done..|]. by apply respects_integrity.
Qed.

Lemma refuses_retry {A} n (m : M A) x : refuses m → refuses (retry_integrity n m x).
Proof.
  intros Hm. unfold retry_integrity. induction n as [|n IH]; simpl; [by intros e w y w' [= _ <-]|].
  apply refuses_try; [done|]. by apply refuses_integrity.
Qed.

Lemma clean_retry_else {A} n (m k : M A) : clean k → clean (retry_else n (atomic m) k).
Proof.
  intros Hk. induction n as [|n IH]; simpl; [done|].
  apply clean_try_atomic. by apply clean_integrity.
Qed.

Lemma clean_retry {A} n (m : M A) x : clean (retry_integrity n (atomic m) x).
Proof. apply clean_retry_else, clean_raise. Qed.

Lemma quiet_retry_else {A} n (m k : M A) : quiet m → quiet k → quiet (retry_else n m k).
Proof.
  intros Hm Hk. induction n as [|n IH]; simpl; [done|].
  apply quiet_try; [done|]. by apply quiet_integrity.
Qed.

(** A returned value comes from one attempt, or from [k], the failed attempts
    having left the database alone. *)
Lemma retry_else_Ok {A} n (m k : M A) e w a w' :
  retry_else n (atomic m) k e w = (Ok a, w') →
  ∃ w1, db w1 = db w ∧ aborted w1 = aborted w ∧
    (atomic m e w1 = (Ok a, w') ∨ k e w1 = (Ok a, w')).
Proof.
  revert w. induction n as [|n IH]; intros w; simpl; [eauto|].
  intros [H|(y & h & w1 & H1 & Hk & H2)]%try_Ok; [eauto|].
  destruct y; simplify_eq/=. apply atomic_Raise in H1 as [Hd Ha].
  apply IH in H2 as (w2 & Hd2 & Ha2 & H2). exists w2. by rewrite Hd2, Ha2.
Qed.

Lemma retry_Ok {A} n (m : M A) x e w a w' :
  retry_integrity n (atomic m) x e w = (Ok a, w') →
  ∃ w1, db w1 = db w ∧ aborted w1 = aborted w ∧ atomic m e w1 = (Ok a, w').
Proof. intros (w1 & ? & ? & [?|?])%retry_else_Ok; [eauto|done]. Qed.

(** ** Reading only *)

(** [m] touches nothing but the clock. *)
Definition only_reads {A} (m : M A) : Prop :=
  ∀ e w r w', m e w = (r, w') →
    db w' = db w ∧ depth w' = depth w ∧ aborted w' = aborted w ∧ events w' = events w ∧
    next_uuid w' = next_uuid w.

Lemma only_reads_ret {A} (a : A) : only_reads (ret a).
Proof. by intros e w r w' [= _ <-]. Qed.
Lemma only_reads_raise {A} x : only_reads (@raise A x).
Proof. by intros e w r w' [= _ <-]. Qed.
Lemma only_reads_raise_if c x : only_reads (raise_if c x).
Proof. destruct c; [apply only_reads_raise|apply only_reads_ret]. Qed.
Lemma only_reads_now : only_reads now.
Proof. by intros e w r w' [= _ <-]. Qed.
Lemma only_reads_bind {A B} (m : M A) (f : A → M B) :
  only_reads m → (∀ a, only_reads (f a)) → only_reads (bind m f).
Proof.
  intros Hm Hf e w r w'. unfold bind. destruct (m e w) as [[a|x] w1] eqn:E.
  - intros H%Hf. apply Hm in E. destruct_and?. split_and!; congruence.
  - intros [= _ <-]. by apply Hm in E.
Qed.
#[export] Hint Resolve only_reads_ret only_reads_raise only_reads_raise_if only_reads_now : effects.

Lemma only_reads_respects {A} R `{!PreOrder R} (m : M A) : only_reads m → respects R m.
Proof. intros Hm e w r w' H. apply Hm in H as (-> & _). reflexivity. Qed.
Lemma only_reads_clean {A} (m : M A) : only_reads m → clean m.
Proof. intros Hm e w a w' Hw H. apply Hm in H as (_ & _ & -> & _). done. Qed.

(** ** Running forward *)

Section Forward.
Context {A B : Type}.
Implicit Types (e : Env) (w : World).

Lemma bind_step (m : M A) (f : A → M B) e w a w1 :
  m e w = (Ok a, w1) → bind m f e w = f a e w1.
Proof. unfold bind. by intros ->. Qed.

Lemma bind_raise (m : M A) (f : A → M B) e w x w1 :
  m e w = (Raise x, w1) → bind m f e w = (Raise x, w1).
Proof. unfold bind. by intros ->. Qed.

Lemma query_run (f : Db → A) e w : aborted w = false → query f e w = (Ok (f (db w)), w).
Proof. unfold query. by intros ->. Qed.

Lemma locked_query_run (f : Db → A) e w :
  aborted w = false → depth w ≠ 0 → locked_query f e w = (Ok (f (db w)), w).
Proof. intros Hw Hd. unfold locked_query. rewrite decide_False by done. by apply query_run. Qed.

Lemma try_run (m : M A) h e w a w1 :
  m e w = (Ok a, w1) → try_except m h e w = (Ok a, w1).
Proof. unfold try_except. by intros ->. Qed.

Lemma try_catch (m : M A) h e w x w1 k :
  m e w = (Raise x, w1) → h x = Some k → try_except m h e w = k e w1.
Proof. unfold try_except. by intros -> ->. Qed.

Lemma atomic_run (m : M A) e w a w1 :
  m e (enter w) = (Ok a, w1) → aborted w1 = false →
  atomic m e w = (Ok a, w1 <| depth := depth w |>).
Proof. unfold atomic, enter. by intros -> ->. Qed.
End Forward.

Section ForwardTables.
Context {V : Type} (tbl : Db → gmap pk V).
Implicit Types (e : Env) (w : World).

Lemma get_run k e w v : aborted w = false → tbl (db w) !! k = Some v → get tbl k e w = (Ok v, w).
Proof. intros Hw Hk. unfold get. erewrite bind_step by (by apply query_run). by rewrite Hk. Qed.

Lemma get_locked_run k e w v :
  aborted w = false → depth w ≠ 0 → tbl (db w) !! k = Some v →
  get_locked tbl k e w = (Ok v, w).
Proof.
  intros Hw Hd Hk. unfold get_locked. erewrite bind_step by (by apply locked_query_run).
  by rewrite Hk.
Qed.

Context `{!Update tbl}.

Lemma create_run check k v e w :
  aborted w = false → tbl (db w) !! k = None → check (db w) v = None →
  create tbl check k v e w = (Ok tt, w <| db := put tbl k v (db w) |>).
Proof. intros Hw Hk Hv. unfold create, write. by rewrite Hw, Hk, Hv. Qed.

Lemma save_fields_run check k f e w v :
  aborted w = false → tbl (db w) !! k = Some v → check (db w) (f v) = None →
  save_fields tbl check k f e w = (Ok tt, w <| db := put tbl k (f v) (db w) |>).
Proof. intros Hw Hk Hv. unfold save_fields, write. by rewrite Hw, Hk, Hv. Qed.
End ForwardTables.

(** ** Outside any transaction

    Where no [atomic] block is open, no error can leave the connection
    aborted: [m] moves the database along [R] and leaves the connection as
    it found it, however it ends. *)
Definition outside {A} (R : relation Db) (m : M A) : Prop :=
  ∀ e w r w', depth w = 0 → aborted w = false → m e w = (r, w') →
    R (db w) (db w') ∧ depth w' = 0 ∧ aborted w' = false.

Section Outside.
Context (R : relation Db) `{!PreOrder R}.

Lemma outside_bind {A B} (m : M A) (f : A → M B) :
  outside R m → (∀ a, outside R (f a)) → outside R (bind m f).
Proof.
  intros Hm Hf e w r w' Hd Ha. rewrite bind_run. destruct (m e w) as [[a|x] w1] eqn:E.
  - apply Hm in E as (HR & Hd1 & Ha1); [|done..]. intros H.
    apply Hf in H as (HR' & ? & ?); [|done..]. split_and!; [by etrans|done..].
  - intros [= <- <-]. by eapply Hm.
Qed.

Lemma outside_try {A} (m : M A) h :
  outside R m → (∀ x k, h x = Some k → outside R k) → outside R (try_except m h).
Proof.
  intros Hm Hh e w r w' Hd Ha. unfold try_except. destruct (m e w) as [[a|x] w1] eqn:E.
  - intros [= <- <-]. by eapply Hm.
  - apply Hm in E as (HR & Hd1 & Ha1); [|done..]. destruct (h x) as [k|] eqn:Ek.
    + intros H. apply (Hh x k Ek) in H as (HR' & ? & ?); [|done..]. split_and!; [by etrans|done..].
    + by intros [= <- <-].
Qed.

Lemma outside_integrity {A} (k : M A) :
  outside R k → ∀ x k', on_integrity_error k x = Some k' → outside R k'.
Proof. intros Hk [] k' [= <-]. done. Qed.

Lemma outside_fold_each {A B} (l : list A) (f : B → A → M B) :
  (∀ acc x, outside R (f acc x)) → ∀ acc, outside R (fold_each l acc f).
Proof.
  intros Hf. induction l as [|x l IH]; intros acc; simpl; [|by apply outside_bind].
  intros e w r w' ? ? [= <- <-]. done.
Qed.

Lemma outside_for_each {A} (l : list A) (f : A → M unit) :
  (∀ x, outside R (f x)) → outside R (for_each l f).
Proof.
  intros Hf. induction l as [|x l IH]; simpl; [|by apply outside_bind].
  by intros e w r w' ? ? [= <- <-].
Qed.

(** A transaction settles whatever its body did. *)
Lemma outside_atomic {A} (m : M A) : respects R (atomic m) → outside R (atomic m).
Proof.
  intros Hm e w r w' Hd Ha H. split; [by eapply Hm|]. unfold atomic in H.
  destruct (m e _) as [[a|x] w1]; [destruct (aborted w1) eqn:Ea|]; injection H as <- <-;
    simpl; by rewrite ?Hd.
Qed.

Lemma outside_reads {A} (m : M A) : only_reads m → outside R m.
Proof. intros Hm e w r w' Hd Ha H. apply Hm in H as (-> & -> & -> & _). done. Qed.

Lemma outside_query {A} (f : Db → A) : outside R (query f).
Proof. intros e w r w' Hd Ha. unfold query. rewrite Ha. by intros [= <- <-]. Qed.
Lemma outside_found {A} (o : option A) : outside R (found o).
Proof. intros e w r w' Hd Ha. by destruct o; intros [= <- <-]. Qed.
Lemma outside_get {V} (tbl : Db → gmap pk V) k : outside R (get tbl k).
Proof. apply outside_bind; [apply outside_query|apply outside_found]. Qed.
Lemma outside_locked_query {A} (f : Db → A) : outside R (locked_query f).
Proof.
  intros e w r w' Hd Ha. unfold locked_query, query. rewrite Ha. by case_match; intros [= <- <-].
Qed.
Lemma outside_write f : respects R (write f) → outside R (write f).
Proof.
  intros Hf e w r w' Hd Ha H. split; [by eapply Hf|]. unfold write, db_error in H.
  rewrite Ha, Hd in H. by repeat case_match; simplify_eq.
Qed.
Lemma outside_asks {A} (f : Settings → A) : outside R (asks f).
Proof. by intros e w r w' Hd Ha [= <- <-]. Qed.
Lemma outside_uuid4 : outside R uuid4.
Proof. by intros e w r w' Hd Ha [= <- <-]. Qed.
Lemma outside_publish ev : outside R (publish ev).
Proof. by intros e w r w' Hd Ha [= <- <-]. Qed.
Lemma outside_incr s : outside R (incr s).
Proof. by intros e w r w' Hd Ha [= <- <-]. Qed.
End Outside.

(** [m] keeps the invariant [I] outside any transaction. *)
Definition keeps {A} (I : Db → Prop) (m : M A) : Prop :=
  ∀ e w r w', I (db w) → depth w = 0 → aborted w = false → m e w = (r, w') →
    I (db w') ∧ depth w' = 0 ∧ aborted w' = false.

Section Keeps.
Context (I : Db → Prop).

Lemma keeps_outside {A} (m : M A) : outside (preserves I) m → keeps I m.
Proof. intros Hm e w r w' HI Hd Ha H. apply Hm in H as (HR & ? & ?); [|done..]. split; [by apply HR|done]. Qed.

Lemma keeps_bind {A B} (m : M A) (f : A → M B) :
  keeps I m → (∀ a, keeps I (f a)) → keeps I (bind m f).
Proof.
  intros Hm Hf e w r w' HI Hd Ha. rewrite bind_run. destruct (m e w) as [[a|x] w1] eqn:E;
    apply Hm in E as (?&?&?); try done.
  - intros E2. by apply Hf in E2.
  - by intros [= <- <-].
Qed.

Lemma keeps_fold_each {A B} (l : list A) (f : B → A → M B) :
  (∀ acc x, keeps I (f acc x)) → ∀ acc, keeps I (fold_each l acc f).
Proof.
  intros Hf. induction l as [|x l IH]; intros acc; simpl; [|by apply keeps_bind].
  by intros e w r w' ? ? ? [= <- <-].
Qed.
End Keeps.

#[export] Hint Resolve outside_reads outside_query outside_found outside_get outside_locked_query
  outside_asks outside_uuid4 outside_publish outside_incr : effects.

Ltac outside_step :=
  first
    [ by auto with effects typeclass_instances
    | apply outside_bind; [typeclasses eauto|..|intros ?]
    | apply outside_try; [typeclasses eauto|..|intros ? ?]
    | apply outside_integrity
    | lazymatch goal with |- Some _ = Some _ → _ => intros [= <-] | |- None = Some _ → _ => intros [=] end
    | apply outside_fold_each; [typeclasses eauto|]; intros ? ?
    | apply outside_for_each; [typeclasses eauto|]; intros ?
    | apply outside_atomic; by solve_respects
    | apply outside_write; by solve_respects
    | case_match
    | progress simplify_eq ].
Ltac solve_outside := repeat outside_step.

(** ** Identifiers

    The counter behind [uuid4] only moves forward, whatever a run does: an
    identifier drawn later is new even when the transaction that drew an
    earlier one was rolled back. *)
Definition grows {A} (m : M A) : Prop :=
  ∀ e w r w', m e w = (r, w') → (next_uuid w ≤ next_uuid w')%N.

Section Grows.
Lemma grows_still {A} (m : M A) :
  (∀ e w r w', m e w = (r, w') → next_uuid w' = next_uuid w) → grows m.
Proof. intros Hm e w r w' H. by rewrite (Hm _ _ _ _ H). Qed.

Lemma grows_reads {A} (m : M A) : only_reads m → grows m.
Proof. intros Hm. apply grows_still. intros e w r w' H. apply Hm in H. naive_solver. Qed.

Lemma grows_bind {A B} (m : M A) (f : A → M B) :
  grows m → (∀ a, grows (f a)) → grows (bind m f).
Proof.
  intros Hm Hf e w r w'. rewrite bind_run. destruct (m e w) as [[a|x] w1] eqn:E; intros H.
  - etrans; [by eapply Hm|by eapply Hf].
  - injection H as <- <-. by eapply Hm.
Qed.

Lemma grows_try {A} (m : M A) h :
  grows m → (∀ x k, h x = Some k → grows k) → grows (try_except m h).
Proof.
  intros Hm Hh e w r w'. unfold try_except. destruct (m e w) as [[a|x] w1] eqn:E;
    [|destruct (h x) as [k|] eqn:Ek]; intros H; try (injection H as <- <-; by eapply Hm).
  etrans; [by eapply Hm|by eapply Hh].
Qed.

Lemma grows_integrity {A} (k : M A) :
  grows k → ∀ x k', on_integrity_error k x = Some k' → grows k'.
Proof. intros Hk [] k' [= <-]. done. Qed.

Lemma grows_atomic {A} (m : M A) : grows m → grows (atomic m).
Proof.
  intros Hm e w r w'. unfold atomic. destruct (m e _) as [[a|x] w1] eqn:E;
    apply Hm in E; [case_match|]; by intros [= <- <-].
Qed.

Lemma grows_for_each {A} (l : list A) f : (∀ x, grows (f x)) → grows (for_each l f).
Proof.
  intros Hf. induction l as [|x l IH]; simpl; [by intros e w r w' [= _ <-]|by apply grows_bind].
Qed.

Lemma grows_uuid4 : grows uuid4.
Proof. intros e w r w' [= _ <-]. simpl. lia. Qed.
Lemma grows_asks {A} (f : Settings → A) : grows (asks f).
Proof. by intros e w r w' [= _ <-]. Qed.
Lemma grows_draw : grows draw.
Proof. by intros e w r w' [= _ <-]. Qed.
Lemma grows_query {A} (f : Db → A) : grows (query f).
Proof. intros e w r w'. unfold query. by case_match; intros [= _ <-]. Qed.
Lemma grows_locked_query {A} (f : Db → A) : grows (locked_query f).
Proof. intros e w r w'. unfold locked_query, query. by repeat case_match; intros [= _ <-]. Qed.
Lemma grows_found {A} (o : option A) : grows (found o).
Proof. by destruct o; intros e w r w' [= _ <-]. Qed.
Lemma grows_write f : grows (write f).
Proof.
  apply grows_still. intros e w r w'. unfold write, db_error. by repeat case_match; intros [= _ <-].
Qed.
Lemma grows_get {V} (tbl : Db → gmap pk V) k : grows (get tbl k).
Proof. apply grows_bind; [apply grows_query|apply grows_found]. Qed.
Lemma grows_get_locked {V} (tbl : Db → gmap pk V) k : grows (get_locked tbl k).
Proof. apply grows_bind; [apply grows_locked_query|apply grows_found]. Qed.
Lemma grows_save_fields {V} (tbl : Db → gmap pk V) `{!Update tbl} check k f :
  grows (save_fields tbl check k f).
Proof. apply grows_write. Qed.
Lemma grows_create {V} (tbl : Db → gmap pk V) `{!Update tbl} check k v :
  grows (create tbl check k v).
Proof. apply grows_write. Qed.
End Grows.

#[export] Hint Resolve grows_reads grows_uuid4 grows_asks grows_draw grows_query
  grows_locked_query grows_found grows_get grows_get_locked grows_save_fields grows_create : effects.

Ltac grows_step :=
  first
    [ by auto with effects
    | apply grows_bind; [|intros ?]
    | apply grows_try; [|intros ? ?]
    | apply grows_integrity
    | lazymatch goal with |- Some _ = Some _ → _ => intros [= <-] | |- None = Some _ → _ => intros [=] end
    | apply grows_atomic
    | apply grows_for_each; intros ?
    | case_match
    | progress simplify_eq ].
Ltac solve_grows := repeat grows_step.
