(* ===== verification/Credit.v ===== *)
(** * CreditService: the ledger and the balance cache

    [apps/billing/services/credit.py].  The service is the sole mutator of
    [Account.balance] and of the append-only ledger; an account argument is
    the primary key of its row, since the service re-reads the row under a
    lock. *)

From S2P Require Import Prelude Tables Money Models EsimModels World Effects.
#[local] Open Scope Z_scope.

(** ** Argument normalization *)

(** [CreditService._normalize_amount].  [quantize] runs outside the [try], so
    an [InvalidOperation] it raises is not translated. *)
Definition _normalize_amount (amount : Amount) : Res money :=
  match amount with
  | AMalformed => Raise InvalidAmountError
  | ADecimal DNonFinite => Raise InvalidAmountError
  | ADecimal (DFin c e) =>
      match quantize c e with
      | None => Raise InvalidOperation
      | Some quantized =>
          if quantized <=? 0 then Raise InvalidAmountError
          else if money_bound <=? quantized then Raise InvalidAmountError
          else Ok quantized
      end
  end.

(** [reference_type: str | LedgerReferenceType] *)
Inductive ReferenceArg := RefEnum (t : LedgerReferenceType) | RefText (s : string).

(** [CreditService._normalize_reference_type] *)
Definition _normalize_reference_type (reference_type : ReferenceArg)
    : Res LedgerReferenceType :=
  let value := match reference_type with RefEnum t => reference_value t | RefText s => s end in
  match List.find (λ t, bool_decide (reference_value t = value)) LedgerReferenceType_all with
  | Some t => Ok t
  | None => Raise InvalidReferenceTypeError
  end.

Definition lift {A} (r : Res A) : M A :=
  match r with Ok a => ret a | Raise x => raise x end.

(** ** Ledger rows *)

(** [CreditLedgerEntry.objects.filter(idempotency_key=key).first()] *)
Definition find_entry (key : string) (l : list CreditLedgerEntry) : option CreditLedgerEntry :=
  List.find (λ en, bool_decide (le_idempotency_key en = key)) l.

(** [CreditLedgerEntry.save]: append-only, then the database's unique key,
    non-zero delta and column range. *)
Definition ledger_entry_save (adding : bool) (en : CreditLedgerEntry) : M unit :=
  raise_if (negb adding) AppendOnlyViolation;;;
  write (λ d,
    match find_entry (le_idempotency_key en) (ledger d) with
    | Some _ => Raise IntegrityError
    | None =>
        if le_delta en =? 0 then Raise IntegrityError
        else if fits_numeric (le_delta en) && fits_numeric (le_balance_after en)
        then Ok (d <| ledger := ledger d ++ [en] |>)
        else Raise DataError
    end).

(** [CreditLedgerEntry.delete] *)
Definition ledger_entry_delete (en : CreditLedgerEntry) : M unit := raise AppendOnlyViolation.

(** The verdict of the account table on a row. *)
Definition account_verdict (_ : Db) (a : Account) : option Exn :=
  if negb (account_fits a) then Some DataError
  else if negb (account_checks a) then Some IntegrityError
  else None.

(** ** The service *)

(** The [with transaction.atomic()] block of [_apply]. *)
Definition _apply_locked (account : pk) (normalized delta : money)
    (ref_type : LedgerReferenceType) (reference_id idempotency_key : string)
    : M CreditLedgerEntry :=
  let! locked := get_locked accounts account in
  let! existing := query (λ d, find_entry idempotency_key (ledger d)) in
  match existing with
  | Some entry => ret entry
  | None =>
      let new_balance := acc_balance locked + delta in
      raise_if (new_balance <? 0) (InsufficientFundsError (acc_balance locked) normalized);;;
      let! entry_id := uuid4 in
      let! created_at := now in
      let entry := mkEntry entry_id account delta new_balance ref_type reference_id
                     idempotency_key created_at in
      ledger_entry_save true entry;;;
      save_fields accounts account_verdict account (λ row,
        row <| acc_balance := new_balance |> <| acc_version := acc_version locked + 1 |>);;;
      ret entry
  end.

(** [CreditService._apply] *)
Definition _apply (account : pk) (amount : Amount) (reference_type : ReferenceArg)
    (reference_id idempotency_key : string) (sign : Z) : M CreditLedgerEntry :=
  let! normalized := lift (_normalize_amount amount) in
  let! ref_type := lift (_normalize_reference_type reference_type) in
  raise_if (bool_decide (idempotency_key = "")) CreditServiceError;;;
  let delta := if 0 <? sign then normalized else - normalized in
  try_except
    (atomic (_apply_locked account normalized delta ref_type reference_id idempotency_key))
    (on_integrity_error (
      let! existing := query (λ d, find_entry idempotency_key (ledger d)) in
      match existing with
      | Some entry => ret entry
      | None => raise IntegrityError
      end)).

(** [CreditService.credit] *)
Definition credit account amount reference_type reference_id idempotency_key :=
  _apply account amount reference_type reference_id idempotency_key 1.

(** [CreditService.debit] *)
Definition debit account amount reference_type reference_id idempotency_key :=
  _apply account amount reference_type reference_id idempotency_key (-1).

(** [CreditService.admin_adjust]; [credit_flag] is the keyword [credit]. *)
Definition admin_adjust (account : pk) (amount : Amount) (credit_flag : bool)
    (reason : string) (actor_id : string) (idempotency_key : option string)
    : M CreditLedgerEntry :=
  raise_if (bool_decide (strip reason = "")) CreditServiceError;;;
  let! key :=
    match idempotency_key with
    | Some (String _ _ as k) => ret k
    | _ => let! u := uuid4 in ret ("admin-adjust:" +:+ str u)
    end in
  let! u := uuid4 in
  let ref_id := actor_id +:+ ":" +:+ str u in
  if credit_flag
  then credit account amount (RefEnum ADMIN_ADJUSTMENT) ref_id key
  else debit account amount (RefEnum ADMIN_ADJUSTMENT) ref_id key.

(** The sum of an account's deltas. *)
Definition account_sum (account : pk) (l : list CreditLedgerEntry) : money :=
  sumZ (le_delta <$> List.filter (λ en, (le_account en =? account)%N) l).

(** [CreditService.ledger_sum] *)
Definition ledger_sum (account : pk) : M money :=
  query (λ d, account_sum account (ledger d)).

(** [CreditService.rebuild_balance_from_ledger] *)
Definition rebuild_balance_from_ledger (account : pk) : M money :=
  atomic (
    let! locked := get_locked accounts account in
    let! expected := ledger_sum account in
    if acc_balance locked =? expected then ret expected
    else
      save_fields accounts account_verdict account (λ row,
        row <| acc_balance := expected |> <| acc_version := acc_version locked + 1 |>);;;
      ret expected).

(** ** The ledger invariant *)

(** The balance cached on an account is the sum of its ledger entries, every
    entry records the running balance of its account, keys are used once. *)
Record ledger_inv (d : Db) : Prop := {
  li_keys : NoDup (le_idempotency_key <$> ledger d);
  li_accounts : ∀ en, en ∈ ledger d → is_Some (accounts d !! le_account en);
  li_nonzero : ∀ en, en ∈ ledger d → le_delta en ≠ 0;
  li_rows : ∀ k a, accounts d !! k = Some a → acc_id a = k ∧ account_checks a = true;
  li_balance : ∀ k a, accounts d !! k = Some a → acc_balance a = account_sum k (ledger d);
  li_running : ∀ i en, ledger d !! i = Some en →
    le_balance_after en = account_sum (le_account en) (take (S i) (ledger d)) ∧
    0 ≤ le_balance_after en;
}.

(** ** Sums and lookups *)

Lemma account_sum_app k l l' : account_sum k (l ++ l') = account_sum k l + account_sum k l'.
Proof.
  unfold account_sum. rewrite List.filter_app, fmap_app. apply sumZ_app.
Qed.

Lemma account_sum_single k en :
  account_sum k [en] = if (le_account en =? k)%N then le_delta en else 0.
Proof. unfold account_sum. simpl. case_match; simpl; lia. Qed.

(** Once entered, no entry of an account leaves its sum at zero. *)
Lemma account_sum_none k l : (∀ en, en ∈ l → le_account en ≠ k) → account_sum k l = 0.
Proof.
  induction l as [|en l IH]; intros H; [done|].
  replace (en :: l) with ([en] ++ l) by done.
  rewrite account_sum_app, account_sum_single, IH.
  - rewrite (proj2 (N.eqb_neq _ _)); [lia|]. apply H. by left.
  - intros en' Hin. apply H. by right.
Qed.

Lemma find_entry_Some key l en :
  find_entry key l = Some en → en ∈ l ∧ le_idempotency_key en = key.
Proof.
  intros H. apply List.find_some in H as [Hin Hk]. bool_to_prop.
  by apply list_elem_of_In in Hin.
Qed.

Lemma find_entry_None key l :
  find_entry key l = None ↔ key ∉ (le_idempotency_key <$> l).
Proof.
  unfold find_entry. split.
  - intros H Hin. apply list_elem_of_fmap in Hin as (en & -> & Hin).
    apply list_elem_of_In in Hin. eapply List.find_none in H; [|exact Hin].
    simpl in H. by bool_to_prop.
  - intros H. destruct (List.find _ l) as [en|] eqn:E; [|done].
    apply find_entry_Some in E as [Hin <-]. destruct H. apply list_elem_of_fmap. eauto.
Qed.

Lemma find_entry_app_l key l l' en :
  find_entry key l = Some en → find_entry key (l ++ l') = Some en.
Proof.
  unfold find_entry. induction l as [|x l IH]; simpl; [done|]. by case_match.
Qed.

Lemma find_entry_snoc key l en :
  find_entry key l = None → le_idempotency_key en = key → find_entry key (l ++ [en]) = Some en.
Proof.
  unfold find_entry. intros H <-. induction l as [|x l IH]; simpl in *.
  - by rewrite bool_decide_true.
  - case_match; [done|auto].
Qed.

Lemma find_entry_other key l en :
  le_idempotency_key en ≠ key → find_entry key (l ++ [en]) = find_entry key l.
Proof.
  unfold find_entry. intros H. induction l as [|x l IH]; simpl.
  - by rewrite bool_decide_false.
  - by case_match.
Qed.

(** ** What a call does *)

(** The effect of a call that returned [en]: a replay of the entry already
    filed under the key, or one new entry together with the balance and
    version of its account. *)
Inductive applied (account : pk) (delta : money) (t : LedgerReferenceType)
    (rid key : string) (d d' : Db) (en : CreditLedgerEntry) : Prop :=
  | applied_replay :
      find_entry key (ledger d) = Some en → d' = d →
      applied account delta t rid key d d' en
  | applied_new (a a' : Account) :
      accounts d !! account = Some a →
      find_entry key (ledger d) = None →
      delta ≠ 0 → 0 ≤ acc_balance a + delta →
      le_account en = account → le_delta en = delta →
      le_balance_after en = acc_balance a + delta →
      le_reference_type en = t → le_reference_id en = rid → le_idempotency_key en = key →
      a' = a <| acc_balance := acc_balance a + delta |> <| acc_version := acc_version a + 1 |> →
      account_verdict d a' = None →
      d' = put accounts account a' (d <| ledger := ledger d ++ [en] |>) →
      applied account delta t rid key d d' en.

(** Two worlds that differ in the database and the supplies only. *)
Definition same_context (w w' : World) : Prop :=
  depth w' = depth w ∧ aborted w' = aborted w ∧ events w' = events w ∧
  metrics w' = metrics w.

Lemma lift_Ok {A} (r : Res A) e w a w' : lift r e w = (Ok a, w') → r = Ok a ∧ w' = w.
Proof. destruct r; by intros [= <- <-]. Qed.

Lemma ledger_entry_save_Ok en e w u w' :
  ledger_entry_save true en e w = (Ok u, w') →
  aborted w = false ∧ find_entry (le_idempotency_key en) (ledger (db w)) = None ∧
  le_delta en ≠ 0 ∧
  w' = w <| db := (db w) <| ledger := ledger (db w) ++ [en] |> |>.
Proof.
  unfold ledger_entry_save. intros H. inv_run H.
  apply write_Ok in Hrun0 as (Ha & d & Hd & ->). split_cases.
  bool_to_prop. done.
Qed.

Lemma lift_world {A} (r : Res A) e w x w' : lift r e w = (x, w') → w' = w.
Proof. destruct r; by intros [= _ <-]. Qed.

Lemma quiet_lift {A} (r : Res A) : quiet (lift r).
Proof. destruct r; [apply quiet_ret|apply quiet_raise]. Qed.
#[export] Hint Resolve quiet_lift : effects.

Lemma quiet_apply_locked account n delta t rid key :
  quiet (_apply_locked account n delta t rid key).
Proof. unfold _apply_locked, ledger_entry_save. solve_quiet. Qed.
#[export] Hint Resolve quiet_apply_locked : effects.

Lemma quiet_apply account amount rt rid key sign :
  quiet (_apply account amount rt rid key sign).
Proof. unfold _apply. solve_quiet. Qed.
#[export] Hint Resolve quiet_apply : effects.

Lemma apply_locked_Ok account n delta t rid key e w en w' :
  _apply_locked account n delta t rid key e w = (Ok en, w') →
  applied account delta t rid key (db w) (db w') en ∧ same_context w w' ∧ aborted w = false.
Proof.
  unfold _apply_locked. intros H. inv_run H.
  - split; [by apply applied_replay|done].
  - inv_call ledger_entry_save_Ok as (_ & Hk & Hd & ->). simpl in *.
    simplify_eq. bool_to_prop. split; [|done].
    eapply applied_new; eauto.
Qed.

Lemma apply_Ok account amount rt rid key sign e w en w' :
  _apply account amount rt rid key sign e w = (Ok en, w') → aborted w = false →
  ∃ n t, _normalize_amount amount = Ok n ∧ _normalize_reference_type rt = Ok t ∧
    applied account (if 0 <? sign then n else - n) t rid key (db w) (db w') en ∧
    same_context w w'.
Proof.
  unfold _apply. intros H Hw. inv_run H.
  do 2 inv_call lift_Ok as [? ->]. do 2 eexists. do 2 (split; [done|]).
  inv_call try_Ok as [Hrun|(x & k & w1 & Hrun & Hx & Hk)].
  - apply atomic_Ok in Hrun as (w1 & Hrun & [(Hab & _)|[Hab ->]]);
      apply apply_locked_Ok in Hrun as (Happ & (? & ? & ? & ?) & _); simpl in *.
    + congruence.
    + split; [done|]. unfold same_context. simpl. naive_solver congruence.
  - apply (quiet_atomic _ (quiet_apply_locked _ _ _ _ _ _)) in Hrun as Hq.
    apply atomic_Raise in Hrun as [Hdb Hab].
    destruct x; simplify_eq/=. inv_run Hk.
    split; [apply applied_replay; congruence|]. destruct_and!. by repeat split; congruence.
Qed.

(** ** Normalized amounts *)

Lemma normalize_amount_bounds amount n :
  _normalize_amount amount = Ok n → 0 < n < money_bound.
Proof. unfold _normalize_amount. intros H. split_cases. bool_to_prop. lia. Qed.

Lemma normalize_money n : 0 < n < money_bound → _normalize_amount (AMoney n) = Ok n.
Proof.
  intros Hn. unfold _normalize_amount, AMoney.
  rewrite quantize_money by (unfold money_bound, context_prec in *; lia).
  rewrite (proj2 (Z.leb_gt _ _)) by lia. rewrite (proj2 (Z.leb_gt _ _)) by lia. done.
Qed.

Lemma normalize_reference t : _normalize_reference_type (RefEnum t) = Ok t.
Proof. by destruct t. Qed.

(** ** Applied entries keep the invariant *)

Section Applied.
Context (account : pk) (delta : money) (t : LedgerReferenceType) (rid key : string).
Implicit Types (d : Db) (en : CreditLedgerEntry).

Lemma account_verdict_checks d a : account_verdict d a = None → account_checks a = true.
Proof. unfold account_verdict. intros H. split_cases. by bool_to_prop. Qed.

Lemma running_snoc d en a :
  ledger_inv d → accounts d !! le_account en = Some a →
  le_balance_after en = acc_balance a + le_delta en → 0 ≤ le_balance_after en →
  ∀ i en', (ledger d ++ [en]) !! i = Some en' →
    le_balance_after en' = account_sum (le_account en') (take (S i) (ledger d ++ [en])) ∧
    0 ≤ le_balance_after en'.
Proof.
  intros Hinv Ha Hb H0 i en' [Hi|[Hlen Hi]]%lookup_app_Some.
  - rewrite take_app_le by (apply lookup_lt_Some in Hi; lia). by apply (li_running d Hinv).
  - apply list_lookup_singleton_Some in Hi as [Hi <-].
    rewrite take_ge by (rewrite length_app; simpl; lia).
    rewrite account_sum_app, account_sum_single, N.eqb_refl.
    rewrite <- (li_balance d Hinv _ a Ha). done.
Qed.

Lemma ledger_inv_applied d d' en :
  applied account delta t rid key d d' en → ledger_inv d → ledger_inv d'.
Proof.
  intros [Hf ->|a a' Ha Hf Hd H0 Eacc Edelta Ebal Et Erid Ekey -> Hv ->] Hinv; [done|].
  pose proof (account_verdict_checks _ _ Hv) as Hc.
  destruct (li_rows d Hinv _ _ Ha) as [Hid _].
  split; simpl.
  - rewrite fmap_app. simpl. apply NoDup_app. split; [apply Hinv|]. split.
    + intros k Hk ->%list_elem_of_singleton. rewrite Ekey in Hk.
      by apply find_entry_None in Hf.
    + apply NoDup_singleton.
  - intros en'. rewrite elem_of_app, list_elem_of_singleton, lookup_insert_is_Some.
    intros [Hin| ->]; [|by left].
    destruct (decide (account = le_account en')); [by left|right].
    split; [done|]. by apply (li_accounts d Hinv).
  - intros en'. rewrite elem_of_app, list_elem_of_singleton.
    intros [Hin| ->]; [by apply (li_nonzero d Hinv)|congruence].
  - intros k b. rewrite lookup_insert_Some.
    intros [[<- <-]|[_ Hb]]; [done|by apply (li_rows d Hinv)].
  - intros k b. rewrite lookup_insert_Some, account_sum_app, account_sum_single, Eacc.
    intros [[<- <-]|[Hne Hb]]; rewrite ?(proj2 (N.eqb_neq _ _) Hne), ?N.eqb_refl; simpl.
    + by rewrite (li_balance d Hinv _ a Ha), Edelta.
    + rewrite (li_balance d Hinv _ b Hb). lia.
  - apply (running_snoc d en a); [done|by rewrite Eacc|congruence|lia].
Qed.

Lemma applied_prefix d d' en :
  applied account delta t rid key d d' en → ledger d `prefix_of` ledger d'.
Proof. intros [? ->|]; [done|]. subst. simpl. by apply prefix_app_r. Qed.

Lemma applied_filed d d' en :
  applied account delta t rid key d d' en → find_entry key (ledger d') = Some en.
Proof. intros [? ->|]; [done|]. subst. simpl. by apply find_entry_snoc. Qed.

Lemma applied_same {X} (f : Db → X) d d' en :
  (∀ a, f (put accounts account a (d <| ledger := ledger d ++ [en] |>)) = f d) →
  applied account delta t rid key d d' en → f d' = f d.
Proof. intros Hf [? ->|]; [done|]. subst. apply Hf. Qed.
End Applied.

(** Whatever the outcome, a call moves the database as [applied] says or not
    at all. *)
Lemma apply_run account amount rt rid key sign e w r w' :
  _apply account amount rt rid key sign e w = (r, w') →
  db w' = db w ∨ ∃ delta t en, applied account delta t rid key (db w) (db w') en.
Proof.
  unfold _apply. rewrite bind_run. destruct (lift _ e w) as [[n|x] w1] eqn:E1;
    apply lift_world in E1 as ->; [|intros [= <- <-]; by left].
  rewrite bind_run. destruct (lift _ e w) as [[t|x] w1] eqn:E2;
    apply lift_world in E2 as ->; [|intros [= <- <-]; by left].
  rewrite bind_run. destruct (raise_if _ _ e w) as [[u|x] w1] eqn:E3;
    apply raise_if_world in E3 as ->; [|intros [= <- <-]; by left].
  unfold try_except. destruct (atomic _ e w) as [[en|x] w1] eqn:E4.
  - intros [= <- <-].
    apply atomic_Ok in E4 as (w2 & Hrun & [(_ & -> & _)|[_ ->]]); [by left|right].
    apply apply_locked_Ok in Hrun as [Happ _]. simpl in *. eauto.
  - apply atomic_Raise in E4 as [Hdb Hab]. destruct x; simpl;
      intros H; try (injection H as <- <-; by left).
    left. rewrite <- Hdb. revert H. unfold bind, query, ret, raise.
    repeat case_match; intros; by simplify_eq.
Qed.

(** Any relation the two writes of an entry respect is respected by a call. *)
Lemma respects_apply (R : relation Db) `{!PreOrder R} account amount rt rid key sign :
  (∀ delta t d d' en, applied account delta t rid key d d' en → R d d') →
  respects R (_apply account amount rt rid key sign).
Proof.
  intros HR e w r w' [->|(delta & t & en & H)]%apply_run; [reflexivity|by eapply HR].
Qed.

Lemma apply_preserves account amount rt rid key sign :
  respects (preserves ledger_inv) (_apply account amount rt rid key sign).
Proof. apply respects_apply; [apply _|]. intros * H Hinv. by eapply ledger_inv_applied. Qed.

Definition ledger_grows : relation Db := λ d d', ledger d `prefix_of` ledger d'.

#[export] Instance ledger_grows_preorder : PreOrder ledger_grows.
Proof.
  unfold ledger_grows. split; [intros d; reflexivity|]. intros d1 d2 d3 H1 H2.
  by transitivity (ledger d2).
Qed.

Lemma apply_grows account amount rt rid key sign :
  respects ledger_grows (_apply account amount rt rid key sign).
Proof. apply respects_apply; [apply _|]. intros * H. by eapply applied_prefix. Qed.

(** [d'] differs from [d] in the ledger and the accounts only. *)
Definition only_money : relation Db := λ d d',
  d' = d <| accounts := accounts d' |> <| ledger := ledger d' |>.

#[export] Instance only_money_preorder : PreOrder only_money.
Proof.
  unfold only_money. split; [by intros []|]. intros d1 d2 d3 H1 H2.
  rewrite H2, H1. by destruct d1.
Qed.

Lemma apply_only_money account amount rt rid key sign :
  respects only_money (_apply account amount rt rid key sign).
Proof.
  apply respects_apply; [apply _|]. intros * [? ->|]; [reflexivity|]. subst. by destruct d.
Qed.

#[export] Hint Resolve apply_preserves apply_grows apply_only_money : effects.

Lemma applied_only_money account delta t rid key d d' en :
  applied account delta t rid key d d' en → only_money d d'.
Proof. intros [? ->|]; [reflexivity|]. subst. by destruct d. Qed.

Lemma normalize_money_inv m n :
  _normalize_amount (AMoney m) = Ok n → n = m ∧ 0 < m < money_bound.
Proof.
  intros H. pose proof (normalize_amount_bounds _ _ H) as Hb. revert H.
  unfold _normalize_amount, AMoney, quantize. replace (-6 + 6) with 0 by lia.
  rewrite Z.leb_refl, Z.pow_0_r, Z.mul_1_r. intros H. split_cases.
Qed.

(** A call that raises changes nothing. *)
Lemma apply_raise_db account amount rt rid key sign e w x w' :
  _apply account amount rt rid key sign e w = (Raise x, w') → db w' = db w.
Proof.
  unfold _apply. rewrite bind_run. destruct (lift _ e w) as [[n|y] w1] eqn:E1;
    apply lift_world in E1 as ->; [|by intros [= _ <-]].
  rewrite bind_run. destruct (lift _ e w) as [[t|y] w1] eqn:E2;
    apply lift_world in E2 as ->; [|by intros [= _ <-]].
  rewrite bind_run. destruct (raise_if _ _ e w) as [[u|y] w1] eqn:E3;
    apply raise_if_world in E3 as ->; [|by intros [= _ <-]].
  unfold try_except. destruct (atomic _ e w) as [[en|y] w1] eqn:E4; [done|].
  apply atomic_Raise in E4 as [Hdb _]. destruct y; simpl;
    intros H; try (by injection H as _ <-).
  rewrite <- Hdb. revert H. unfold bind, query, ret, raise. repeat case_match; intros; by simplify_eq.
Qed.

(** [InsufficientFundsError] is raised for a balance that is short. *)
Lemma apply_locked_short account n delta t rid key e w b m w' :
  _apply_locked account n delta t rid key e w = (Raise (InsufficientFundsError b m), w') →
  ∃ a, accounts (db w) !! account = Some a ∧ b = acc_balance a ∧ b + delta < 0.
Proof.
  unfold _apply_locked, get_locked, locked_query, query, found, raise_if, ledger_entry_save,
    save_fields, account_verdict, write, db_error, uuid4, now, ret, raise, bind.
  intros H. repeat (case_match; simplify_eq/=; try (eexists; split_and!; [done..|lia])).
Qed.

Lemma apply_short account amount rt rid key sign e w b m w' n :
  _apply account amount rt rid key sign e w = (Raise (InsufficientFundsError b m), w') →
  _normalize_amount amount = Ok n →
  ∃ a, accounts (db w) !! account = Some a ∧ b = acc_balance a ∧
    b + (if 0 <? sign then n else - n) < 0.
Proof.
  unfold _apply. intros H Hn. rewrite Hn in H. rewrite bind_run in H. simpl in H.
  rewrite bind_run in H. destruct (lift _ e w) as [[t|y] w1] eqn:E2.
  2:{ revert E2. unfold _normalize_reference_type, lift. repeat case_match; by intros; simplify_eq/=. }
  apply lift_world in E2 as ->. rewrite bind_run in H.
  destruct (raise_if _ _ e w) as [[u|y] w1] eqn:E3.
  2:{ revert E3. unfold raise_if. case_match; by intros; simplify_eq/=. }
  apply raise_if_world in E3 as ->. unfold try_except in H.
  destruct (atomic _ e w) as [[en|y] w1] eqn:E4; [done|].
  destruct y; simplify_eq/=.
  - exfalso. revert H. unfold bind, query, ret, raise. repeat case_match; intros; by simplify_eq.
  - unfold atomic in E4. destruct (_apply_locked _ _ _ _ _ _ e _) as [[x|x] w2] eqn:E5;
      [by destruct (aborted w2); simplify_eq|].
    simplify_eq. by apply apply_locked_short in E5.
Qed.

(** On an aborted connection no call returns. *)
Lemma apply_alive account amount rt rid key sign e w en w' :
  _apply account amount rt rid key sign e w = (Ok en, w') → aborted w = false.
Proof.
  unfold _apply. intros H. inv_run H. do 2 inv_call lift_Ok as [? ->].
  inv_call try_Ok as [Hrun|(x & k & w1 & Hrun & Hx & Hk)].
  - apply atomic_Ok in Hrun as (w1 & Hrun & _). by apply apply_locked_Ok in Hrun as (_ & _ & ?).
  - apply atomic_Raise in Hrun as [_ Hab]. destruct x; simplify_eq/=. inv_run Hk. congruence.
Qed.

Lemma clean_lift {A} (r : Res A) : clean (lift r).
Proof. destruct r; [apply clean_ret|apply clean_raise]. Qed.
#[export] Hint Resolve clean_lift : effects.

Lemma clean_apply account amount rt rid key sign : clean (_apply account amount rt rid key sign).
Proof. unfold _apply. solve_clean. Qed.

Lemma clean_credit account amount rt rid key : clean (credit account amount rt rid key).
Proof. apply clean_apply. Qed.
Lemma clean_debit account amount rt rid key : clean (debit account amount rt rid key).
Proof. apply clean_apply. Qed.
#[export] Hint Resolve clean_apply clean_credit clean_debit : effects.

(** Nor does a call that raises leave the connection aborted. *)
Lemma apply_raise_alive account amount rt rid key sign e w x w' :
  _apply account amount rt rid key sign e w = (Raise x, w') → aborted w' = aborted w.
Proof.
  unfold _apply. rewrite bind_run. destruct (lift _ e w) as [[n|y] w1] eqn:E1;
    apply lift_world in E1 as ->; [|by intros [= _ <-]].
  rewrite bind_run. destruct (lift _ e w) as [[t|y] w1] eqn:E2;
    apply lift_world in E2 as ->; [|by intros [= _ <-]].
  rewrite bind_run. destruct (raise_if _ _ e w) as [[u|y] w1] eqn:E3;
    apply raise_if_world in E3 as ->; [|by intros [= _ <-]].
  unfold try_except. destruct (atomic _ e w) as [[en|y] w1] eqn:E4; [done|].
  apply atomic_Raise in E4 as [_ Hab]. destruct y; simpl;
    intros H; try (by injection H as _ <-).
  rewrite <- Hab. revert H. unfold bind, query, ret, raise. repeat case_match; intros; by simplify_eq.
Qed.

(** The call other services make: a stored amount under an enum reference. *)
Lemma apply_money account n t rid key sign e w en w' :
  _apply account (AMoney n) (RefEnum t) rid key sign e w = (Ok en, w') →
  applied account (if 0 <? sign then n else - n) t rid key (db w) (db w') en ∧
  same_context w w' ∧ 0 < n < money_bound.
Proof.
  intros H. pose proof (apply_alive _ _ _ _ _ _ _ _ _ _ H) as Hw. apply apply_Ok in H as (n' & t' & Hn' & Ht' & H & Hs); [|done].
  apply normalize_money_inv in Hn' as [-> Hb]. rewrite normalize_reference in Ht'.
  by simplify_eq.
Qed.

Lemma respects_lift R `{!PreOrder R} {A} (r : Res A) : respects R (lift r).
Proof. destruct r; [by apply respects_ret|by apply respects_raise]. Qed.
#[export] Hint Resolve respects_lift : effects.

Lemma respects_admin_adjust R `{!PreOrder R} account amount flag reason actor key :
  (∀ rt rid k sign, respects R (_apply account amount rt rid k sign)) →
  respects R (admin_adjust account amount flag reason actor key).
Proof. intros H. unfold admin_adjust, credit, debit. solve_respects. Qed.

(** Rebuilding the cache keeps the invariant, and under it changes nothing. *)
Lemma rebuild_Ok account e w n w' :
  rebuild_balance_from_ledger account e w = (Ok n, w') →
  ∃ a, accounts (db w) !! account = Some a ∧ n = account_sum account (ledger (db w)) ∧
    (acc_balance a = n ∧ db w' = db w ∨
     acc_balance a ≠ n ∧ account_verdict (db w) (a <| acc_balance := n |> <| acc_version := acc_version a + 1 |>) = None ∧
     db w' = put accounts account (a <| acc_balance := n |> <| acc_version := acc_version a + 1 |>) (db w)).
Proof.
  unfold rebuild_balance_from_ledger, ledger_sum. intros H.
  apply atomic_Ok in H as (w1 & Hrun & Hw).
  inv_run Hrun; bool_to_prop; destruct Hw as [(Hab & _)|[_ ->]]; simpl in *; try congruence.
  - exists a. eauto.
  - exists a. eauto 10.
Qed.

Lemma rebuild_preserves account :
  respects (preserves ledger_inv) (rebuild_balance_from_ledger account).
Proof.
  intros e w [n|x] w' H Hinv.
  - apply rebuild_Ok in H as (a & Ha & -> & [[_ ->]|(Hne & _)]); [done|].
    destruct Hne. by apply (li_balance _ Hinv).
  - unfold rebuild_balance_from_ledger in H. by apply atomic_Raise in H as [-> _].
Qed.
#[export] Hint Resolve rebuild_preserves : effects.

(** ** The outcome of a call, branch by branch *)

Definition apply_outcome (e : Env) (w : World) (account : pk) (n delta : money)
    (t : LedgerReferenceType) (rid key : string) : Res CreditLedgerEntry * Db :=
  match accounts (db w) !! account with
  | None => (Raise DoesNotExist, db w)
  | Some a =>
      match find_entry key (ledger (db w)) with
      | Some en => (Ok en, db w)
      | None =>
          let b := acc_balance a + delta in
          if b <? 0 then (Raise (InsufficientFundsError (acc_balance a) n), db w)
          else if fits_numeric b && (acc_version a <? max_int32) then
            let en := mkEntry (next_uuid w) account delta b t rid key (clock e (tick w)) in
            (Ok en,
             put accounts account
               (a <| acc_balance := b |> <| acc_version := acc_version a + 1 |>)
               ((db w) <| ledger := ledger (db w) ++ [en] |>))
          else (Raise DataError, db w)
      end
  end.

(** The rows satisfy the table's own constraints. *)
Definition accounts_checked (d : Db) : Prop :=
  ∀ k a, accounts d !! k = Some a → account_checks a = true.

Lemma apply_eq account amount rt rid key sign e w n t :
  aborted w = false → accounts_checked (db w) →
  _normalize_amount amount = Ok n → _normalize_reference_type rt = Ok t → key ≠ "" →
  run (_apply account amount rt rid key sign) e w =
  apply_outcome e w account n (if 0 <? sign then n else - n) t rid key.
Proof.
  intros Hab Hch Hn Ht Hk. pose proof (normalize_amount_bounds _ _ Hn) as Hb.
  unfold run, _apply. rewrite Hn, Ht. unfold lift. simpl.
  unfold bind at 1, ret at 1. unfold bind at 1, ret at 1. unfold bind at 1, raise_if at 1.
  rewrite bool_decide_false by done. simpl.
  set (delta := if 0 <? sign then n else - n).
  assert (Hd : fits_numeric delta = true)
    by (apply fits_numeric_spec; subst delta; case_match; lia).
  assert (Hd0 : (delta =? 0) = false) by (apply Z.eqb_neq; subst delta; case_match; lia).
  clearbody delta.
  unfold try_except, atomic, _apply_locked, apply_outcome, get_locked, locked_query, query, bind.
  simpl. rewrite Hab. destruct (accounts (db w) !! account) as [a|] eqn:Ha; simpl; [|done].
  rewrite Hab. destruct (find_entry key (ledger (db w))) as [en|] eqn:Hf; simpl.
  { by rewrite Hab. }
  unfold raise_if. destruct (acc_balance a + delta <? 0) eqn:Hneg; simpl; [done|].
  unfold ledger_entry_save, save_fields, write, bind, raise_if. simpl.
  rewrite Hab, Hf, Hd0, Hd. simpl. destruct (fits_numeric (acc_balance a + delta)) eqn:Hfit; simpl; [|done].
  rewrite Hab, Ha. unfold account_verdict, account_fits. simpl. rewrite Hfit. simpl.
  replace (acc_version a + 1 <=? max_int32) with (acc_version a <? max_int32) by lia.
  destruct (acc_version a <? max_int32); simpl; [|done].
  apply Hch in Ha. unfold account_checks in *. simpl. bool_to_prop.
  rewrite (proj2 (Z.leb_le 0 (acc_balance a + delta))) by lia.
  rewrite (proj2 (Z.leb_le 0 (acc_version a + 1))) by lia.
  simpl. destruct (acc_kind a), (acc_user a); simplify_eq/=; by rewrite Hab.
Qed.

(** A call that posts, with the world it leaves. *)
Section Posting.
Context (account : pk) (n : money) (t : LedgerReferenceType) (rid key : string) (sign : Z).
Context (e : Env) (w : World) (a : Account).

Definition posted_delta : money := if 0 <? sign then n else - n.
Definition posted_entry : CreditLedgerEntry :=
  mkEntry (next_uuid w) account posted_delta (acc_balance a + posted_delta) t rid key
    (clock e (tick w)).
Definition posted_world : World :=
  w <| db := put accounts account
         (a <| acc_balance := acc_balance a + posted_delta |>
            <| acc_version := acc_version a + 1 |>)
         ((db w) <| ledger := ledger (db w) ++ [posted_entry] |>) |>
    <| next_uuid := N.succ (next_uuid w) |> <| tick := S (tick w) |>.

(** The call can post. *)
Record postable : Prop := {
  po_amount : 0 < n < money_bound;
  po_alive : aborted w = false;
  po_key : key ≠ "";
  po_row : accounts (db w) !! account = Some a;
  po_checks : account_checks a = true;
  po_unused : find_entry key (ledger (db w)) = None;
  po_funds : 0 ≤ acc_balance a + posted_delta;
  po_fits : fits_numeric (acc_balance a + posted_delta) = true;
  po_version : acc_version a < max_int32;
}.

Lemma apply_posts :
  postable → _apply account (AMoney n) (RefEnum t) rid key sign e w = (Ok posted_entry, posted_world).
Proof.
  intros [Hn Hab Hk Ha Hch Hf H0 Hfit Hv].
  unfold _apply. rewrite normalize_money, normalize_reference by done.
  unfold lift. rewrite !bind_run. unfold ret at 1. rewrite !bind_run. unfold ret at 1.
  rewrite !bind_run. rewrite bool_decide_false by done. unfold raise_if at 1, ret at 1.
  assert (Hd : fits_numeric posted_delta = true)
    by (apply fits_numeric_spec; unfold posted_delta; case_match; lia).
  assert (Hd0 : (posted_delta =? 0) = false)
    by (apply Z.eqb_neq; unfold posted_delta; case_match; lia).
  change (if 0 <? sign then n else - n) with posted_delta.
  unfold try_except, atomic, _apply_locked, get_locked, locked_query, query, bind.
  simpl. rewrite Hab, Ha. simpl. rewrite Hab, Hf. simpl.
  unfold raise_if. rewrite (proj2 (Z.ltb_ge _ _)) by done. simpl.
  unfold ledger_entry_save, save_fields, write, bind, raise_if. simpl.
  rewrite Hab, Hf, Hd0, Hd, Hfit. simpl.
  rewrite Hab, Ha. unfold account_verdict, account_fits. simpl. rewrite Hfit. simpl.
  rewrite (proj2 (Z.leb_le _ _)) by lia.
  unfold account_checks in *. simpl. bool_to_prop.
  rewrite (proj2 (Z.leb_le 0 _)) by done.
  rewrite (proj2 (Z.leb_le 0 (acc_version a + 1))) by lia.
  simpl. destruct (acc_kind a), (acc_user a); simplify_eq/=; rewrite Hab; reflexivity.
Qed.
End Posting.

(** ** Totals *)

(** Summing an indicator over a table keyed by [acc_id] picks one row. *)
Lemma sum_rows_indicator (m : gmap pk Account) k x :
  (∀ j a, m !! j = Some a → acc_id a = j) → is_Some (m !! k) →
  sum_rows (λ a, if (k =? acc_id a)%N then x else 0) m = x.
Proof.
  intros Hid [a Ha]. rewrite <- (insert_delete_id m k a Ha).
  rewrite sum_rows_insert_fresh by apply lookup_delete_eq.
  rewrite (Hid _ _ Ha), N.eqb_refl.
  enough (sum_rows (λ a, if (k =? acc_id a)%N then x else 0) (delete k m) = 0) by lia.
  unfold sum_rows.
  assert (H : ∀ b, b ∈ rows (delete k m) → (k =? acc_id b)%N = false).
  { intros b (j & [Hne Hb]%lookup_delete_Some)%elem_of_rows.
    apply N.eqb_neq. rewrite (Hid _ _ Hb). done. }
  induction (rows (delete k m)) as [|b l IH]; csimpl; [done|].
  rewrite H by (by left). rewrite IH; [done|]. intros b' Hb'. apply H. by right.
Qed.

Lemma sum_rows_add {V} (f g : V → Z) m :
  sum_rows (λ v, f v + g v) m = sum_rows f m + sum_rows g m.
Proof. unfold sum_rows. induction (rows m) as [|v l IH]; csimpl; [done|lia]. Qed.

Lemma sum_rows_ext {V} (f g : V → Z) m :
  (∀ k v, m !! k = Some v → f v = g v) → sum_rows f m = sum_rows g m.
Proof.
  intros H. unfold sum_rows. f_equal. apply list_fmap_ext. intros i v Hv.
  apply list_elem_of_lookup_2, elem_of_rows in Hv as [k Hk]. eauto.
Qed.

Lemma sum_rows_account_sum (m : gmap pk Account) (l : list CreditLedgerEntry) :
  (∀ j a, m !! j = Some a → acc_id a = j) →
  (∀ en, en ∈ l → is_Some (m !! le_account en)) →
  sum_rows (λ a, account_sum (acc_id a) l) m = sumZ (le_delta <$> l).
Proof.
  intros Hid. induction l as [|en l IH]; intros Hl.
  - unfold sum_rows. change (sumZ ((λ _ : Account, 0) <$> rows m) = 0).
    induction (rows m) as [|a m' IH]; csimpl; [done|lia].
  - rewrite (sum_rows_ext _ (λ a, (if (le_account en =? acc_id a)%N then le_delta en else 0)
      + account_sum (acc_id a) l)).
    + rewrite sum_rows_add, sum_rows_indicator, IH; [done|..|done|].
      * intros en' Hin. apply Hl. by right.
      * apply Hl. by left.
    + intros k a _. change (en :: l) with ([en] ++ l).
      by rewrite account_sum_app, account_sum_single.
Qed.

Lemma ledger_total d :
  ledger_inv d → sum_rows acc_balance (accounts d) = sumZ (le_delta <$> ledger d).
Proof.
  intros Hinv. rewrite <- (sum_rows_account_sum (accounts d)).
  - apply sum_rows_ext. intros k a Ha. rewrite (li_balance d Hinv k a Ha).
    by destruct (li_rows d Hinv k a Ha) as [-> _].
  - intros j a Ha. by destruct (li_rows d Hinv j a Ha).
  - apply Hinv.
Qed.

Lemma ledger_inv_checked d : ledger_inv d → accounts_checked d.
Proof. intros Hinv k a Ha. by destruct (li_rows d Hinv k a Ha). Qed.
#[export] Hint Resolve ledger_inv_checked : roamkit.

(** ** Properties *)

(** C1: Every mutator of the service keeps the ledger invariant: the cached
    balance of every account stays equal to the sum of its ledger entries and
    never negative, every entry records its running balance, and no
    idempotency key is used twice.  It holds whether the call returns or
    raises. *)
Theorem credit_service_preserves_ledger account amount rt rid key flag reason actor okey :
  respects (preserves ledger_inv) (credit account amount rt rid key) ∧
  respects (preserves ledger_inv) (debit account amount rt rid key) ∧
  respects (preserves ledger_inv) (admin_adjust account amount flag reason actor okey) ∧
  respects (preserves ledger_inv) (rebuild_balance_from_ledger account).
Proof.
  split_and!; [apply apply_preserves..| |apply rebuild_preserves].
  apply respects_admin_adjust; [apply _|]. intros. apply apply_preserves.
Qed.

(** The ledger is append-only: a mutator only ever extends it at the end,
    saving an existing entry again or deleting one is refused, and nothing but
    the ledger and the accounts changes. *)
Theorem ledger_append_only account amount rt rid key sign flag reason actor okey en e w :
  respects ledger_grows (_apply account amount rt rid key sign) ∧
  respects only_money (_apply account amount rt rid key sign) ∧
  respects ledger_grows (admin_adjust account amount flag reason actor okey) ∧
  run (ledger_entry_save false en) e w = (Raise AppendOnlyViolation, db w) ∧
  run (ledger_entry_delete en) e w = (Raise AppendOnlyViolation, db w).
Proof.
  split_and!; auto with effects typeclass_instances.
  apply respects_admin_adjust; [apply _|]. intros. apply apply_grows.
Qed.

(** C2: The outcome of a credit or debit with well-formed arguments, on every
    branch: a missing account, the replay of a used key, insufficient funds,
    the column and version bounds, and the entry and balance written. *)
Theorem credit_debit_outcome account amount rt rid key e w n t :
  aborted w = false → accounts_checked (db w) →
  _normalize_amount amount = Ok n → _normalize_reference_type rt = Ok t → key ≠ "" →
  run (credit account amount rt rid key) e w = apply_outcome e w account n n t rid key ∧
  run (debit account amount rt rid key) e w = apply_outcome e w account n (- n) t rid key.
Proof. intros. split; by apply (apply_eq account amount rt rid key). Qed.

(** Idempotency: once a key has been used, every later credit or debit
    under that key returns the original entry and changes nothing, whatever
    account, amount or reference it names. *)
Theorem credit_idempotent account amount rt rid key sign e w en w1
    account' amount' rt' rid' sign' e' w2 n' t' :
  _apply account amount rt rid key sign e w = (Ok en, w1) → aborted w = false →
  ledger_grows (db w1) (db w2) → aborted w2 = false → accounts_checked (db w2) →
  is_Some (accounts (db w2) !! account') →
  _normalize_amount amount' = Ok n' → _normalize_reference_type rt' = Ok t' → key ≠ "" →
  run (_apply account' amount' rt' rid' key sign') e' w2 = (Ok en, db w2).
Proof.
  intros H Hw [l Hg] Hw2 Hch [a Ha] Hn Ht Hk.
  apply apply_Ok in H as (n & t & _ & _ & Happ & _); [|done].
  apply applied_filed in Happ. rewrite (apply_eq _ _ _ _ _ _ _ _ n' t') by done.
  unfold apply_outcome. rewrite Ha, Hg. by rewrite (find_entry_app_l _ _ _ _ Happ).
Qed.

(** Conservation: under the ledger invariant the balances of all accounts
    add up to the sum of all ledger deltas, and after a credit or debit that
    posts a new entry the total has moved by exactly its signed amount. *)
Theorem balances_total account amount rt rid key sign e w en w' n :
  ledger_inv (db w) → aborted w = false → find_entry key (ledger (db w)) = None →
  _normalize_amount amount = Ok n →
  _apply account amount rt rid key sign e w = (Ok en, w') →
  sum_rows acc_balance (accounts (db w')) = sumZ (le_delta <$> ledger (db w')) ∧
  sum_rows acc_balance (accounts (db w')) =
    sum_rows acc_balance (accounts (db w)) + (if 0 <? sign then n else - n).
Proof.
  intros Hinv Hw Hf Hn H.
  pose proof (apply_preserves _ _ _ _ _ _ _ _ _ _ H Hinv) as Hinv'.
  apply apply_Ok in H as (n' & t & Hn' & _ & Happ & _); [|done].
  assert (n' = n) as -> by congruence.
  split; [by apply ledger_total|].
  destruct Happ as [|a a' Ha ? ? ? ? ? ? ? ? ? -> _ Hd]; [congruence|].
  rewrite Hd. simpl. rewrite (sum_rows_insert_old _ _ _ _ _ Ha). simpl. lia.
Qed.

(** An amount of 10^22 or more makes [quantize] overflow the decimal
    context outside the [try] of [_normalize_amount]: the caller sees
    [decimal.InvalidOperation] where the service documents
    [InvalidAmountError]. *)
Theorem oversized_amount_escapes c x account rt rid key sign e w :
  0 <= x + 6 → 10 ^ 28 <= Z.abs (c * 10 ^ (x + 6)) →
  run (_apply account (ADecimal (DFin c x)) rt rid key sign) e w
  = (Raise InvalidOperation, db w).
Proof.
  intros Hx Hc. unfold run, _apply, _normalize_amount, quantize.
  rewrite (proj2 (Z.leb_le _ _)) by done. unfold context_prec.
  by rewrite (proj2 (Z.ltb_ge _ _)) by done.
Qed.

(** ** A concrete ledger *)

Definition sample_account : Account := mkAccount 1 (Some 7%N) PERSONAL 0 0 None.
Definition sample_db : Db := empty_db <| accounts := {[ 1%N := sample_account ]} |>.
Definition sample_world : World := world_of sample_db.

Lemma sample_row k a : accounts sample_db !! k = Some a → k = 1%N ∧ a = sample_account.
Proof. unfold sample_db. simpl. by intros [<- <-]%lookup_singleton_Some. Qed.

Lemma sample_ledger_inv : ledger_inv sample_db.
Proof.
  split; try done; simpl.
  - constructor.
  - by intros en ?%not_elem_of_nil.
  - by intros en ?%not_elem_of_nil.
  - by intros k a [-> ->]%sample_row.
  - by intros k a [-> ->]%sample_row.
Qed.

(** Crediting 5 and then debiting 2 leaves 3 and two entries. *)
Example credit_then_debit :
  (let! en := credit 1 (AInt 5) (RefEnum DEPOSIT) "d" "k1" in
   debit 1 (AInt 2) (RefText "order") "o" "k2") sample_env sample_world
  = (Ok (mkEntry 1001 1 (-2000000) 3000000 ORDER "o" "k2" 1),
     mkWorld
       (empty_db <| accounts := {[ 1%N := mkAccount 1 (Some 7%N) PERSONAL 3000000 2 None ]} |>
          <| ledger := [mkEntry 1000 1 5000000 5000000 DEPOSIT "d" "k1" 0;
                        mkEntry 1001 1 (-2000000) 3000000 ORDER "o" "k2" 1] |>)
       [] [] 1002 2 0 0 false).
Proof. vm_compute. reflexivity. Qed.

Lemma sample_checked : accounts_checked sample_db.
Proof. by intros k a [-> ->]%sample_row. Qed.

Lemma credit_debit_outcome_witness :
  run (credit 1 (AInt 5) (RefEnum DEPOSIT) "d" "k1") sample_env sample_world
  = apply_outcome sample_env sample_world 1 5000000 5000000 DEPOSIT "d" "k1" ∧
  run (debit 1 (AInt 5) (RefEnum DEPOSIT) "d" "k1") sample_env sample_world
  = apply_outcome sample_env sample_world 1 5000000 (-5000000) DEPOSIT "d" "k1".
Proof.
  apply (credit_debit_outcome 1 (AInt 5) (RefEnum DEPOSIT) "d" "k1" sample_env sample_world);
    [reflexivity|apply sample_checked|reflexivity|reflexivity|discriminate].
Defined.

(** The world after one credit. *)
Definition credited_world : World :=
  (credit 1 (AInt 5) (RefEnum DEPOSIT) "d" "k1" sample_env sample_world).2.

Lemma credited_checked : accounts_checked (db credited_world).
Proof.
  apply ledger_inv_checked, (apply_preserves 1 (AInt 5) (RefEnum DEPOSIT) "d" "k1" 1
    sample_env sample_world (Ok (mkEntry 1000 1 5000000 5000000 DEPOSIT "d" "k1" 0))).
  - vm_compute. reflexivity.
  - apply sample_ledger_inv.
Qed.

Lemma credit_idempotent_witness :
  run (_apply 1 (AInt 9) (RefText "order") "x" "k1" (-1)) sample_env credited_world
  = (Ok (mkEntry 1000 1 5000000 5000000 DEPOSIT "d" "k1" 0), db credited_world).
Proof.
  apply (credit_idempotent 1 (AInt 5) (RefEnum DEPOSIT) "d" "k1" 1 sample_env sample_world
    _ credited_world 1 (AInt 9) (RefText "order") "x" (-1) sample_env credited_world
    9000000 ORDER).
  - vm_compute. reflexivity.
  - reflexivity.
  - reflexivity.
  - vm_compute. reflexivity.
  - apply credited_checked.
  - exists (mkAccount 1 (Some 7%N) PERSONAL 5000000 1 None). vm_compute. reflexivity.
  - reflexivity.
  - reflexivity.
  - discriminate.
Defined.

Lemma balances_total_witness :
  sum_rows acc_balance (accounts (db credited_world)) = 5000000.
Proof.
  destruct (balances_total 1 (AInt 5) (RefEnum DEPOSIT) "d" "k1" 1 sample_env sample_world
    (mkEntry 1000 1 5000000 5000000 DEPOSIT "d" "k1" 0) credited_world 5000000) as [_ H].
  - apply sample_ledger_inv.
  - reflexivity.
  - reflexivity.
  - reflexivity.
  - vm_compute. reflexivity.
  - rewrite H. vm_compute. reflexivity.
Defined.

Lemma oversized_amount_escapes_witness :
  run (_apply 1 (ADecimal (DFin 1 22)) (RefEnum DEPOSIT) "d" "k1" 1) sample_env sample_world
  = (Raise InvalidOperation, sample_db).
Proof.
  apply (oversized_amount_escapes 1 22 1 (RefEnum DEPOSIT) "d" "k1" 1 sample_env sample_world);
    [lia|vm_compute; discriminate].
Defined.
