(* ===== verification/Reconcile.v ===== *)
(** * Balance reconcile and rebuild

    [apps/billing/services/reconcile.py].  [reconcile] compares every cached
    balance with the ledger and publishes an alert per difference;
    [rebuild_all] repairs the cache. *)

From S2P Require Import Prelude Tables Money Models EsimModels World Effects Credit.
#[local] Open Scope Z_scope.

Record BalanceDrift := mkDrift {
  drift_account_id : pk;
  drift_cached_balance : money;
  drift_ledger_sum : money;
}.

(** [BalanceDrift.drift] *)
Definition drift (b : BalanceDrift) : money := drift_cached_balance b - drift_ledger_sum b.

(** The body of the loop of [find_drifts]. *)
Definition drift_step (drifts : list BalanceDrift) (account : Account) : M (list BalanceDrift) :=
  let! expected := ledger_sum (acc_id account) in
  ret (if acc_balance account =? expected then drifts
       else drifts ++ [mkDrift (acc_id account) (acc_balance account) expected]).

(** [ReconcileService.find_drifts] *)
Definition find_drifts : M (list BalanceDrift) :=
  let! all := query (λ d, rows_by_pk (accounts d)) in
  fold_each all [] drift_step.

(** The counters both jobs return. *)
Record Report := mkReport { checked : nat; changed : nat }.

Definition drift_event (detected_at : instant) (b : BalanceDrift) : Event :=
  BalanceDriftDetected (drift_account_id b) (drift_cached_balance b) (drift_ledger_sum b)
    (drift b) detected_at.

(** [ReconcileService.reconcile]; [changed] is the key ["drifts"]. *)
Definition reconcile : M Report :=
  let! drifts := find_drifts in
  let! detected_at := now in
  for_each drifts (λ b, publish (drift_event detected_at b));;;
  let! n := query (λ d, size (accounts d)) in
  ret (mkReport n (length drifts)).

(** The body of the loop of [rebuild_all]. *)
Definition rebuild_step (r : Report) (account : Account) : M Report :=
  let! after := rebuild_balance_from_ledger (acc_id account) in
  ret (mkReport (S (checked r))
         (if acc_balance account =? after then changed r else S (changed r))).

(** [RebuildService.rebuild_all]; [changed] is the key ["repaired"]. *)
Definition rebuild_all : M Report :=
  let! all := query (λ d, rows_by_pk (accounts d)) in
  fold_each all (mkReport 0 0) rebuild_step.

(** [RebuildService.rebuild_one] *)
Definition rebuild_one (account : pk) : M money := rebuild_balance_from_ledger account.

(** ** The specification *)

(** The differences of a database, in primary-key order. *)
Definition drifted (l : list CreditLedgerEntry) (a : Account) : bool :=
  negb (acc_balance a =? account_sum (acc_id a) l).
Definition drifts_of (d : Db) : list BalanceDrift :=
  (λ a, mkDrift (acc_id a) (acc_balance a) (account_sum (acc_id a) (ledger d))) <$>
    List.filter (drifted (ledger d)) (rows_by_pk (accounts d)).

(** The cache set to the ledger's word. *)
Definition repaired_row (l : list CreditLedgerEntry) (a : Account) : Account :=
  if drifted l a
  then a <| acc_balance := account_sum (acc_id a) l |> <| acc_version := acc_version a + 1 |>
  else a.

(** A row a rebuild can write: a ledger sum the column and the constraint
    admit, and room for one more version. *)
Definition rebuildable (l : list CreditLedgerEntry) (a : Account) : Prop :=
  account_checks a = true ∧ acc_version a < max_int32 ∧
  0 ≤ account_sum (acc_id a) l ∧ fits_numeric (account_sum (acc_id a) l) = true.

(** Rows are stored under their own primary key. *)
Definition accounts_keyed (d : Db) : Prop :=
  ∀ k a, accounts d !! k = Some a → acc_id a = k.

(** ** Scanning *)

(** The difference a row shows. *)
Definition row_drift (l : list CreditLedgerEntry) (a : Account) : BalanceDrift :=
  mkDrift (acc_id a) (acc_balance a) (account_sum (acc_id a) l).

Lemma drift_loop e w all : ∀ acc,
  aborted w = false →
  fold_each all acc drift_step e w =
    (Ok (acc ++ (row_drift (ledger (db w)) <$>
       List.filter (drifted (ledger (db w))) all)), w).
Proof.
  induction all as [|a all IH]; intros acc Hw; simpl; [by rewrite app_nil_r|].
  unfold drift_step at 1, ledger_sum. rewrite !bind_run. unfold query. rewrite Hw.
  unfold ret. rewrite IH by done. unfold drifted.
  case_match; simpl; [done|]. by rewrite <- (assoc_L (++)).
Qed.

Lemma find_drifts_eq e w :
  aborted w = false → find_drifts e w = (Ok (drifts_of (db w)), w).
Proof.
  intros Hw. unfold find_drifts. rewrite bind_run. unfold query. rewrite Hw.
  by rewrite drift_loop.
Qed.

Lemma publish_each_eq {A} (f : A → Event) l e w :
  for_each l (λ x, publish (f x)) e w = (Ok tt, w <| events := events w ++ (f <$> l) |>).
Proof.
  revert w. induction l as [|x l IH]; intros w; simpl.
  - rewrite app_nil_r. by destruct w.
  - unfold bind, publish at 1. rewrite IH. simpl. by rewrite <- (assoc_L (++)).
Qed.

Lemma drifts_of_nil d : drifts_of d = [] ↔
  ∀ k a, accounts d !! k = Some a → drifted (ledger d) a = false.
Proof.
  unfold drifts_of. split.
  - intros H%fmap_nil_inv k a Ha. destruct (drifted (ledger d) a) eqn:E; [|done].
    assert (Hin : a ∈ List.filter (drifted (ledger d)) (rows_by_pk (accounts d))).
    { apply list_elem_of_In, List.filter_In. split; [|done].
      apply list_elem_of_In, elem_of_rows_by_pk. eauto. }
    rewrite H in Hin. by apply not_elem_of_nil in Hin.
  - intros H. destruct (List.filter _ _) as [|a l] eqn:E; [done|].
    assert (Hin : In a (a :: l)) by (by left). rewrite <- E in Hin.
    apply List.filter_In in Hin as [Hin Hd].
    apply list_elem_of_In, elem_of_rows_by_pk in Hin as [k Ha]. by rewrite (H k a Ha) in Hd.
Qed.

Lemma ledger_inv_no_drift d : ledger_inv d → drifts_of d = [].
Proof.
  intros Hinv. apply drifts_of_nil. intros k a Ha. unfold drifted.
  destruct (li_rows d Hinv k a Ha) as [-> _]. rewrite (li_balance d Hinv k a Ha).
  by rewrite Z.eqb_refl.
Qed.

(** ** Repairing *)

Definition same_accounting (w w' : World) : Prop :=
  ledger (db w') = ledger (db w) ∧ aborted w' = aborted w.

Lemma rebuild_eq a e w :
  aborted w = false → rebuildable (ledger (db w)) a → accounts (db w) !! acc_id a = Some a →
  rebuild_balance_from_ledger (acc_id a) e w =
    (Ok (account_sum (acc_id a) (ledger (db w))),
     if drifted (ledger (db w)) a
     then w <| db := put accounts (acc_id a) (repaired_row (ledger (db w)) a) (db w) |> else w).
Proof.
  intros Hw (Hc & Hv & H0 & Hf) Ha.
  unfold rebuild_balance_from_ledger, atomic, get_locked, locked_query, ledger_sum, query, bind.
  simpl. rewrite Hw, Ha. simpl. rewrite Hw. unfold repaired_row, drifted.
  destruct (acc_balance a =? _) eqn:E; simpl.
  { rewrite Hw. by destruct w. }
  unfold save_fields, write. simpl. rewrite Hw, Ha. unfold account_verdict, account_fits.
  simpl. rewrite Hf. replace (acc_version a + 1 <=? max_int32) with true by lia.
  unfold account_checks in *. simpl. bool_to_prop.
  rewrite (proj2 (Z.leb_le 0 _) H0). rewrite (proj2 (Z.leb_le 0 (acc_version a + 1))) by lia.
  simpl. destruct (acc_kind a), (acc_user a); simplify_eq/=; by rewrite Hw.
Qed.

Lemma repaired_row_id l a : acc_id (repaired_row l a) = acc_id a.
Proof. unfold repaired_row. by case_match. Qed.

Lemma repaired_row_balance l a :
  acc_balance (repaired_row l a) = account_sum (acc_id a) l.
Proof.
  unfold repaired_row. destruct (drifted l a) eqn:E; [done|].
  unfold drifted in E. by bool_to_prop.
Qed.

Lemma repaired_row_fixed l a : drifted l (repaired_row l a) = false.
Proof.
  unfold drifted. rewrite repaired_row_id, repaired_row_balance. by rewrite Z.eqb_refl.
Qed.

(** One turn of the loop. *)
Lemma rebuild_world a e w :
  aborted w = false → rebuildable (ledger (db w)) a → accounts (db w) !! acc_id a = Some a →
  ∃ w1, rebuild_balance_from_ledger (acc_id a) e w =
      (Ok (account_sum (acc_id a) (ledger (db w))), w1) ∧
    same_accounting w w1 ∧
    accounts (db w1) = <[acc_id a := repaired_row (ledger (db w)) a]> (accounts (db w)).
Proof.
  intros Hw Hr Ha. rewrite rebuild_eq by done. eexists. split; [done|].
  unfold same_accounting. destruct (drifted _ a) eqn:E; simpl; [done|].
  split; [done|]. unfold repaired_row. rewrite E. by rewrite insert_id.
Qed.

Lemma rebuild_loop e (all : list Account) : ∀ w r,
  aborted w = false → NoDup (acc_id <$> all) →
  (∀ a, a ∈ all → rebuildable (ledger (db w)) a ∧ accounts (db w) !! acc_id a = Some a) →
  ∃ w',
    fold_each all r rebuild_step e w
    = (Ok (mkReport (checked r + length all)
             (changed r + length (List.filter (drifted (ledger (db w))) all))), w') ∧
    same_accounting w w' ∧
    (∀ k, accounts (db w') !! k =
      if decide (k ∈ (acc_id <$> all))
      then repaired_row (ledger (db w)) <$> accounts (db w) !! k
      else accounts (db w) !! k).
Proof.
  induction all as [|a all IH]; intros w r Hw Hnd Hall; csimpl.
  { eexists. split_and!; [|done..].
    unfold ret. rewrite !Nat.add_0_r. by destruct r. }
  apply NoDup_cons in Hnd as [Hni Hnd].
  destruct (Hall a) as [Hra Ha]; [by left|].
  destruct (rebuild_world a e w) as (w1 & Heq & [Hl Hab] & Hacc); [done..|].
  unfold rebuild_step at 1. rewrite !bind_run, Heq. unfold ret.
  destruct (IH w1 (mkReport (S (checked r)) (if acc_balance a =? account_sum (acc_id a) (ledger (db w)) then changed r else S (changed r)))) as (w' & -> & [Hl' Hab'] & Hlook); [congruence|done|..].
  { intros b Hb. rewrite Hl, Hacc. destruct (Hall b) as [Hrb Hbb]; [by right|].
    split; [done|]. rewrite lookup_insert_ne; [done|].
    intros E. apply Hni. rewrite E. by apply list_elem_of_fmap_2. }
  eexists. split; [|split].
  - rewrite Hl. unfold drifted at 2. simpl. do 3 f_equal; [lia|]. case_match; simpl; lia.
  - split; congruence.
  - intros k. rewrite Hlook, Hl, Hacc.
    destruct (decide (k = acc_id a)) as [->|Hne].
    + rewrite lookup_insert_eq, Ha, (decide_False _ _ Hni), decide_True by by left. done.
    + rewrite lookup_insert_ne by done.
      destruct (decide (k ∈ acc_id <$> all)); [rewrite decide_True by by right|rewrite decide_False by (intros [|]%elem_of_cons; done)]; done.
Qed.

Lemma keyed_ids d : accounts_keyed d → NoDup (acc_id <$> rows_by_pk (accounts d)).
Proof.
  intros Hk. unfold rows_by_pk. rewrite <- list_fmap_compose.
  rewrite merge_sort_Permutation.
  rewrite (list_fmap_ext _ fst).
  - apply NoDup_fst_map_to_list.
  - intros i [k a] Hi. apply list_elem_of_lookup_2, elem_of_map_to_list in Hi. simpl. eauto.
Qed.

Lemma rebuild_all_run e w :
  aborted w = false → accounts_keyed (db w) →
  (∀ k a, accounts (db w) !! k = Some a → rebuildable (ledger (db w)) a) →
  ∃ w',
    rebuild_all e w =
      (Ok (mkReport (size (accounts (db w))) (length (drifts_of (db w)))), w') ∧
    same_accounting w w' ∧
    (∀ k, accounts (db w') !! k = repaired_row (ledger (db w)) <$> accounts (db w) !! k).
Proof.
  intros Hw Hk Hr. unfold rebuild_all. rewrite bind_run. unfold query. rewrite Hw.
  destruct (rebuild_loop e (rows_by_pk (accounts (db w))) w (mkReport 0 0))
    as (w' & Heq & Hs & Hlook); [done|by apply keyed_ids|..].
  { intros a [k Ha]%elem_of_rows_by_pk. rewrite (Hk _ _ Ha). eauto. }
  exists w'. split; [|split; [done|]].
  - etrans; [exact Heq|]. simpl. unfold drifts_of.
    by rewrite length_rows_by_pk, length_fmap.
  - intros k. rewrite Hlook. case_decide as Hin; [done|].
    destruct (accounts (db w) !! k) as [a|] eqn:Ha; [|done]. destruct Hin.
    rewrite <- (Hk _ _ Ha). apply list_elem_of_fmap_2, elem_of_rows_by_pk. eauto.
Qed.

(** ** Properties *)

(** Reconcile reports and never repairs: it always returns, counts every
    account, publishes exactly one alert per account whose cached balance
    differs from its ledger sum, in primary-key order, and changes nothing in
    the database; on a database that satisfies the ledger invariant it
    reports no drift. *)
Theorem reconcile_reports_drift e w :
  aborted w = false →
  reconcile e w =
    (Ok (mkReport (size (accounts (db w))) (length (drifts_of (db w)))),
     w <| tick := S (tick w) |>
       <| events := events w ++ (drift_event (clock e (tick w)) <$> drifts_of (db w)) |>) ∧
  (ledger_inv (db w) → drifts_of (db w) = []).
Proof.
  intros Hw. split; [|apply ledger_inv_no_drift].
  unfold reconcile. rewrite bind_run, find_drifts_eq by done.
  rewrite bind_run. unfold now. rewrite bind_run, publish_each_eq, bind_run.
  unfold query. simpl. by rewrite Hw.
Qed.

(** Rebuild repairs: on a database whose ledger sums the column admits,
    [rebuild_all] returns the number of accounts and of differences, leaves
    the ledger alone, and afterwards no account differs from its ledger. *)
Theorem rebuild_all_repairs e w :
  aborted w = false → accounts_keyed (db w) →
  (∀ k a, accounts (db w) !! k = Some a → rebuildable (ledger (db w)) a) →
  ∃ d', run rebuild_all e w =
      (Ok (mkReport (size (accounts (db w))) (length (drifts_of (db w)))), d') ∧
    ledger d' = ledger (db w) ∧ drifts_of d' = [] ∧
    (∀ k a, accounts (db w) !! k = Some a → drifted (ledger (db w)) a = false →
       accounts d' !! k = Some a).
Proof.
  intros Hw Hk Hr. destruct (rebuild_all_run e w) as (w' & Heq & [Hl _] & Hlook); [done..|].
  exists (db w'). unfold run. rewrite Heq. split_and!; [done|done|..].
  - apply drifts_of_nil. intros k b. rewrite Hlook, Hl.
    intros (a & _ & ->)%fmap_Some. apply repaired_row_fixed.
  - intros k a Ha Hd. rewrite Hlook, Ha. simpl. unfold repaired_row. by rewrite Hd.
Qed.

(** ** A drifted database *)

Definition drifted_db : Db :=
  empty_db <| accounts := {[ 1%N := mkAccount 1 (Some 7%N) PERSONAL 9 0 None ]} |>
    <| ledger := [mkEntry 50 1 5 5 DEPOSIT "d" "k" 0] |>.

Lemma drifted_row k a :
  accounts drifted_db !! k = Some a → k = 1%N ∧ a = mkAccount 1 (Some 7%N) PERSONAL 9 0 None.
Proof. unfold drifted_db. simpl. by intros [<- <-]%lookup_singleton_Some. Qed.

Lemma reconcile_reports_drift_witness :
  (reconcile sample_env (world_of drifted_db)).1 = Ok (mkReport 1 1) ∧
  events (reconcile sample_env (world_of drifted_db)).2 = [BalanceDriftDetected 1 9 5 4 0].
Proof.
  destruct (reconcile_reports_drift sample_env (world_of drifted_db)) as [-> _];
    [reflexivity|]. split; vm_compute; reflexivity.
Defined.

Lemma rebuild_all_repairs_witness :
  ∃ d', run rebuild_all sample_env (world_of drifted_db) = (Ok (mkReport 1 1), d') ∧
    drifts_of d' = [].
Proof.
  destruct (rebuild_all_repairs sample_env (world_of drifted_db)) as (d' & H & _ & H' & _).
  - reflexivity.
  - by intros k a [-> ->]%drifted_row.
  - intros k a [-> ->]%drifted_row. vm_compute. split_and!; [done|done|discriminate|done].
  - exists d'. split; [|done]. rewrite H. vm_compute. reflexivity.
Defined.
