(* ===== verification/VoucherCodes.v ===== *)
(** * Voucher codes

    [apps/billing/voucher_codes.py]: the canonical form of a code, the
    reserved list, and uniqueness across the two tables that hold codes.
    Text is ASCII, on which NFKC normalization is the identity. *)

From S2P Require Import Prelude Strings Tables Money Models EsimModels World Effects.

Definition RESERVED_VOUCHER_CODES : list string :=
  ["ADMIN"; "TEST"; "FREE"; "DEMO"; "NULL"; "SYSTEM"].

Definition normalize_voucher_code (raw : option string) : string :=
  match raw with
  | None => ""
  | Some raw => upper (strip raw)
  end.

Definition is_reserved_voucher_code (code : string) : bool :=
  let normalized := normalize_voucher_code (Some code) in
  if bool_decide (normalized = "") then false
  else existsb (λ reserved, bool_decide (normalized = reserved)) RESERVED_VOUCHER_CODES.

(** The optional [exclude(pk=...)]. *)
Definition excluded (exclude : option pk) (k : pk) : bool :=
  bool_decide (exclude = Some k).

Definition assert_code_available (code : string)
    (exclude_voucher_id exclude_campaign_id : option pk) : M string :=
  let normalized := normalize_voucher_code (Some code) in
  raise_if (bool_decide (normalized = "")) (ValueError "Voucher code must not be empty");;;
  raise_if (is_reserved_voucher_code normalized) (ValueError "Voucher code is reserved");;;
  let! used := query (λ d, qexists (λ v,
    bool_decide (vou_code v = normalized) && negb (excluded exclude_voucher_id (vou_id v)))
    (vouchers d)) in
  raise_if used (ValueError "Voucher code already used");;;
  let! used := query (λ d, qexists (λ c,
    bool_decide (camp_code c = Some normalized) && negb (excluded exclude_campaign_id (camp_id c)))
    (campaigns d)) in
  raise_if used (ValueError "Voucher code already used");;;
  ret normalized.

(** ** Lemmas *)

Lemma normalize_empty s : normalize_voucher_code (Some s) = "" ↔ strip s = "".
Proof. unfold normalize_voucher_code, upper. split; [by destruct (strip s)|by intros ->]. Qed.

Lemma normalize_idem s :
  normalize_voucher_code (Some (normalize_voucher_code s)) = normalize_voucher_code s.
Proof.
  destruct s as [s|]; [|done]. unfold normalize_voucher_code.
  rewrite strip_upper, strip_idem. unfold upper. apply smap_idem, to_upper_idem.
Qed.

(** ** What [assert_code_available] promises *)

Definition code_free (code : string) (xv xc : option pk) (d : Db) : Prop :=
  (∀ k v, vouchers d !! k = Some v → vou_code v = code → xv = Some (vou_id v)) ∧
  (∀ k c, campaigns d !! k = Some c → camp_code c = Some code → xc = Some (camp_id c)).

Lemma excluded_free {V} (f : V → bool) (g : V → pk) (m : gmap pk V) x :
  qexists (λ v, f v && negb (excluded x (g v))) m = false ↔
  ∀ k v, m !! k = Some v → f v = true → x = Some (g v).
Proof.
  rewrite qexists_false. unfold excluded. split.
  - intros H k v Hk Hf. specialize (H k v Hk). rewrite Hf in H. simpl in H.
    by bool_to_prop.
  - intros H k v Hk. destruct (f v) eqn:E; [|done]. simpl.
    by rewrite bool_decide_true by eauto.
Qed.

Lemma code_free_spec code xv xc d :
  code_free code xv xc d ↔
  qexists (λ v, bool_decide (vou_code v = code) && negb (excluded xv (vou_id v))) (vouchers d) = false ∧
  qexists (λ c, bool_decide (camp_code c = Some code) && negb (excluded xc (camp_id c))) (campaigns d) = false.
Proof.
  rewrite !excluded_free. unfold code_free. setoid_rewrite bool_decide_eq_true. done.
Qed.

Definition code_shape (code : string) : Prop :=
  normalize_voucher_code (Some code) = code ∧ code ≠ "" ∧
  is_reserved_voucher_code code = false.

Lemma assert_code_Ok code xv xc e w r w' :
  assert_code_available code xv xc e w = (Ok r, w') →
  w' = w ∧ r = normalize_voucher_code (Some code) ∧ code_shape r ∧ code_free r xv xc (db w).
Proof.
  unfold assert_code_available. intros H. inv_run H. split_and!; [done|done|..].
  - split_and!; [exact (normalize_idem (Some code))|by bool_to_prop|done].
  - by apply code_free_spec.
Qed.

Lemma assert_code_world code xv xc e w r w' :
  assert_code_available code xv xc e w = (r, w') → w' = w.
Proof.
  unfold assert_code_available, bind, raise_if, query, ret, raise. intros H.
  by repeat (case_match; simplify_eq/=).
Qed.

Lemma quiet_assert_code code xv xc : quiet (assert_code_available code xv xc).
Proof. unfold assert_code_available. solve_quiet. Qed.

Lemma respects_assert_code R `{!PreOrder R} code xv xc :
  respects R (assert_code_available code xv xc).
Proof. unfold assert_code_available. solve_respects. Qed.
#[export] Hint Resolve quiet_assert_code respects_assert_code : effects.

(** ** Properties *)

(** [assert_code_available] decides exactly the documented condition, for
    any spelling of the code: it returns the canonical form when that form is
    non-empty, not reserved, and held by no voucher and no campaign other than
    the excluded ones; in every other case it raises [ValueError].  It changes
    nothing, and the canonical form is a fixed point of normalization, so
    re-entering a stored code finds it. *)
Theorem assert_code_available_decides code xv xc e w :
  aborted w = false →
  let n := normalize_voucher_code (Some code) in
  normalize_voucher_code (Some n) = n ∧
  ((n ≠ "" ∧ is_reserved_voucher_code n = false ∧ code_free n xv xc (db w)) →
     assert_code_available code xv xc e w = (Ok n, w)) ∧
  (¬ (n ≠ "" ∧ is_reserved_voucher_code n = false ∧ code_free n xv xc (db w)) →
     ∃ msg, assert_code_available code xv xc e w = (Raise (ValueError msg), w)).
Proof.
  intros Hw n. split; [apply normalize_idem|].
  rewrite code_free_spec. unfold assert_code_available. fold n.
  rewrite bind_run. unfold raise_if at 1 5. destruct (decide (n = "")) as [->|Hn].
  { rewrite bool_decide_true by done. split; [by intros [? _]|]. eauto. }
  rewrite (bool_decide_false _ Hn). unfold ret at 1 3. rewrite !bind_run.
  unfold raise_if. destruct (is_reserved_voucher_code n).
  { split; [by intros (_ & ? & _)|]. eauto. }
  unfold bind, query, ret, raise. rewrite Hw.
  destruct (qexists _ (vouchers (db w))).
  { split; [by intros (_ & _ & ? & _)|]. eauto. }
  rewrite Hw. destruct (qexists _ (campaigns (db w))).
  { split; [by intros (_ & _ & _ & ?)|]. eauto. }
  split; [done|]. intros []. done.
Qed.

Lemma assert_code_available_decides_witness :
  assert_code_available "  spring-26 " None None sample_env (world_of empty_db)
  = (Ok "SPRING-26", world_of empty_db) ∧
  ∃ msg, assert_code_available " admin" None None sample_env (world_of empty_db)
  = (Raise (ValueError msg), world_of empty_db).
Proof.
  split.
  - destruct (assert_code_available_decides "  spring-26 " None None sample_env
      (world_of empty_db)) as (_ & H & _); [reflexivity|]. apply H.
    split_and!; [discriminate|reflexivity|]. apply code_free_spec. split; reflexivity.
  - destruct (assert_code_available_decides " admin" None None sample_env
      (world_of empty_db)) as (_ & _ & H); [reflexivity|]. apply H.
    intros (_ & Hr & _). revert Hr. vm_compute. discriminate.
Defined.
