(* ===== verification/Vouchers.v ===== *)
(** * Voucher redemption

    [apps/billing/services/voucher_redeem.py]: shared campaign codes and
    unique vouchers turned into prepaid credit through [CreditService]. *)

From S2P Require Import Prelude Tables Money Models EsimModels World Effects Credit VoucherCodes.
#[local] Open Scope Z_scope.

(** ** Rows and their guards *)

(** The table's verdict on a redemption. *)
Definition redemption_verdict (_ : Db) (r : VoucherRedemption) : option Exn :=
  if negb (fits_numeric (red_amount r)) then Some DataError
  else if negb (redemption_checks r) then Some IntegrityError
  else None.

(** [VoucherRedemption.save]: append-only but for [ledger_entry_id]. *)
Definition redemption_save_guard (adding : bool) (update_fields : option (list string))
    : M unit :=
  if adding then ret tt
  else raise_if
    (match update_fields with
     | None => true
     | Some fields => negb (forallb (λ f, bool_decide (f = "ledger_entry_id")) fields)
     end) AppendOnlyViolation.

(** [VoucherRedemption.delete], [Voucher.delete], [VoucherCampaign.delete],
    [VoucherBatch.delete] and the querysets' [delete] *)
Definition soft_delete : M unit := raise SoftDeleteViolation.

(** The unique [code] columns, within and the check constraints. *)
Definition voucher_verdict (d : Db) (v : Voucher) : option Exn :=
  if negb (fits_numeric (vou_credit_amount v)) then Some DataError
  else if qexists (λ u, bool_decide (vou_code u = vou_code v) &&
                        negb (vou_id u =? vou_id v)%N) (vouchers d)
  then Some IntegrityError
  else if negb (voucher_checks v) then Some IntegrityError
  else None.
Definition campaign_verdict (d : Db) (c : VoucherCampaign) : option Exn :=
  if negb (fits_numeric (camp_credit_amount c)) then Some DataError
  else if qexists (λ u, match camp_code u, camp_code c with
                        | Some x, Some y => bool_decide (x = y)
                        | _, _ => false
                        end && negb (camp_id u =? camp_id c)%N) (campaigns d)
  then Some IntegrityError
  else if negb (campaign_checks c) then Some IntegrityError
  else None.

(** ** The service *)

Record RedeemResult := mkRedeemResult {
  credited : money;
  rr_balance : money;
  rr_redemption_id : pk;
  rr_ledger_entry_id : option pk;
  rr_request_id : string;
  replay : bool;
}.

Definition _require_enabled : M unit :=
  let! billing := asks BILLING_ENABLED in
  let! on := asks VOUCHERS_ENABLED in
  raise_if (negb billing || negb on) VouchersDisabledError.

Definition _credit_amount_for_reward (reward_type : RewardType) (credit_amount : money)
    : M money :=
  if bool_decide (reward_type = FIXED_CREDIT) then ret credit_amount
  else raise UnsupportedRewardType.

(** [a or b] on text *)
Definition or_text (a b : string) : string := if bool_decide (a = "") then b else a.

(** The idempotency key of a redemption's credit. *)
Definition redeem_key (redemption : pk) : string := "voucher_redeem:" +:+ str redemption.

(** [account.refresh_from_db(fields=["balance"])] and the replayed result. *)
Definition replay_result (account : pk) (r : VoucherRedemption) (request_id : string)
    : M (RedeemResult * list Event) :=
  let! row := get accounts account in
  ret (mkRedeemResult (red_amount r) (acc_balance row) (red_id r) (red_ledger_entry_id r)
         (or_text (red_request_id r) request_id) true, []).

(** [VoucherRedeemService._grant]; the events are returned instead of being
    appended to the caller's list. *)
Definition _grant (account : pk) (amount : money) (voucher campaign : option pk)
    (request_id client_ip user_agent : string) (instant_ : instant)
    (mark_voucher_redeemed : option pk) : M (RedeemResult * list Event) :=
  let! rid := uuid4 in
  let redemption := mkRedemption rid account voucher campaign amount None request_id
    instant_ (stake 64 client_ip) (stake 512 user_agent) in
  redemption_save_guard true None;;;
  create redemptions redemption_verdict rid redemption;;;
  let! entry := credit account (AMoney amount) (RefEnum VOUCHER) (str rid) (redeem_key rid) in
  redemption_save_guard false (Some ["ledger_entry_id"]);;;
  save_fields redemptions redemption_verdict rid
    (λ r, r <| red_ledger_entry_id := Some (le_id entry) |>);;;
  match mark_voucher_redeemed with
  | None => ret tt
  | Some v =>
      let! updated_at := now in
      save_fields vouchers voucher_verdict v
        (λ row, row <| vou_status := VOU_REDEEMED |> <| vou_updated_at := updated_at |>)
  end;;;
  ret (mkRedeemResult amount (le_balance_after entry) rid (Some (le_id entry)) request_id false,
       [VoucherRedeemed voucher campaign rid account amount (le_balance_after entry)
          (le_id entry) request_id instant_;
        CreditGranted account amount (le_balance_after entry) VOUCHER (str rid)
          (le_id entry) (le_created_at entry)]).

(** [VoucherRedeemService._redeem_unique] *)
Definition _redeem_unique (account : pk) (voucher : Voucher)
    (request_id client_ip user_agent : string) : M (RedeemResult * list Event) :=
  match vou_status voucher with
  | VOU_REDEEMED =>
      let! existing := query (λ d, first_by red_redeemed_at (qall (λ r,
        bool_decide (red_voucher r = Some (vou_id voucher)) && (red_account r =? account)%N)
        (redemptions d))) in
      match existing with
      | Some r => replay_result account r request_id
      | None => raise VoucherInvalidError
      end
  | VOU_REVOKED => raise VoucherRevokedError
  | VOU_EXPIRED => raise VoucherExpiredError
  | VOU_CREATED => raise VoucherInvalidError
  | VOU_ACTIVE =>
      let! instant_ := now in
      raise_if (match vou_expires_at voucher with
                | Some t => t <=? instant_ | None => false end) VoucherExpiredError;;;
      let! amount := _credit_amount_for_reward (vou_reward_type voucher)
                       (vou_credit_amount voucher) in
      _grant account amount (Some (vou_id voucher)) None request_id client_ip user_agent
        instant_ (Some (vou_id voucher))
  end.

(** The redemptions of a campaign, and those of one account. *)
Definition of_campaign (c : pk) (r : VoucherRedemption) : bool :=
  bool_decide (red_campaign r = Some c).
Definition of_campaign_account (c account : pk) (r : VoucherRedemption) : bool :=
  of_campaign c r && (red_account r =? account)%N.

(** [VoucherRedeemService._redeem_shared] *)
Definition _redeem_shared (account : pk) (campaign : VoucherCampaign)
    (request_id client_ip user_agent : string) : M (RedeemResult * list Event) :=
  match camp_status campaign with
  | CAMP_REVOKED => raise VoucherRevokedError
  | CAMP_EXPIRED => raise VoucherExpiredError
  | CAMP_DRAFT => raise VoucherInvalidError
  | CAMP_ACTIVE =>
      let c := camp_id campaign in
      let! instant_ := now in
      raise_if (match camp_starts_at campaign with
                | Some t => instant_ <? t | None => false end) VoucherInvalidError;;;
      raise_if (match camp_expires_at campaign with
                | Some t => t <=? instant_ | None => false end) VoucherExpiredError;;;
      let! prior := query (λ d, first_by red_redeemed_at
        (qall (of_campaign_account c account) (redemptions d))) in
      let! used := query (λ d, N.of_nat (qcount (of_campaign_account c account) (redemptions d))) in
      let full := match camp_max_redemptions_per_account campaign with
                  | Some m => (m <=? used)%N | None => false end in
      match full, bool_decide (camp_max_redemptions_per_account campaign = Some 1%N), prior with
      | true, true, Some r => replay_result account r request_id
      | true, _, _ => raise VoucherLimitError
      | false, _, _ =>
          let! total := query (λ d, N.of_nat (qcount (of_campaign c) (redemptions d))) in
          raise_if (match camp_max_redemptions_total campaign with
                    | Some m => (m <=? total)%N | None => false end) VoucherLimitError;;;
          let! amount := _credit_amount_for_reward (camp_reward_type campaign)
                           (camp_credit_amount campaign) in
          _grant account amount None (Some c) request_id client_ip user_agent instant_ None
      end
  end.

(** [VoucherRedeemService._redeem_inner] *)
Definition _redeem_inner (account : pk) (code : option string)
    (request_id client_ip user_agent : string) : M RedeemResult :=
  let normalized := normalize_voucher_code code in
  raise_if (bool_decide (normalized = "")) VoucherInvalidError;;;
  raise_if (is_reserved_voucher_code normalized) VoucherReservedError;;;
  let! result := atomic (
    let! voucher := locked_query (λ d, qfirst (λ v,
      bool_decide (vou_code v = normalized) && bool_decide (vou_redemption_mode v = UNIQUE))
      (vouchers d)) in
    match voucher with
    | Some v => _redeem_unique account v request_id client_ip user_agent
    | None =>
        let! campaign := locked_query (λ d, qfirst (λ c,
          bool_decide (camp_code c = Some normalized) &&
          bool_decide (camp_redemption_mode c = SHARED)) (campaigns d)) in
        match campaign with
        | None => raise VoucherInvalidError
        | Some c => _redeem_shared account c request_id client_ip user_agent
        end
    end) in
  for_each result.2 publish;;;
  ret result.1.

(** [VoucherRedeemService._record_failure] *)
Definition _record_failure (code : string) : M unit :=
  incr ("voucher_redeem_failed_total:" +:+ code);;;
  if bool_decide (code = "voucher_invalid") || bool_decide (code = "voucher_reserved")
  then incr ("voucher_redeem_invalid_total:" +:+ code)
  else if bool_decide (code = "voucher_expired") then incr "voucher_redeem_expired_total"
  else if bool_decide (code = "voucher_revoked") then incr "voucher_redeem_revoked_total"
  else ret tt.

(** [VoucherRedeemService.redeem], with the default clock. *)
Definition redeem (account : pk) (code : option string) (request_id : string)
    (client_ip user_agent : string) : M RedeemResult :=
  let! rid :=
    match strip request_id with
    | "" => let! u := uuid4 in ret (str u)
    | r => ret r
    end in
  try_except (
    _require_enabled;;;
    let! result := _redeem_inner account code rid client_ip user_agent in
    incr "voucher_redeem_success_total";;;
    ret result)
  (λ x, match voucher_error_code x with
        | Some c => Some (_record_failure c;;; raise x)
        | None => None
        end).

(** ** Issuing *)

Definition issue_shared_campaign (code : string) (credit_amount : money)
    (max_redemptions_total max_redemptions_per_account : option N)
    (status : CampaignStatus) (voucher_type : VoucherType)
    (starts_at expires_at : option instant) : M VoucherCampaign :=
  let! normalized := assert_code_available code None None in
  let! id := uuid4 in
  let! updated_at := now in
  let c := mkCampaign id (Some normalized) SHARED voucher_type FIXED_CREDIT credit_amount
    max_redemptions_total max_redemptions_per_account starts_at expires_at status None
    ISSUER_SYSTEM "" None "" updated_at in
  create campaigns campaign_verdict id c;;;
  ret c.

Definition issue_unique_voucher (code : string) (credit_amount : money)
    (status : VoucherStatus) (voucher_type : VoucherType) (expires_at : option instant)
    (campaign batch : option pk) : M Voucher :=
  let! normalized := assert_code_available code None None in
  let! id := uuid4 in
  let! updated_at := now in
  let v := mkVoucher id normalized UNIQUE voucher_type FIXED_CREDIT credit_amount campaign
    batch status None ISSUER_SYSTEM "" None "" expires_at updated_at in
  create vouchers voucher_verdict id v;;;
  ret v.

(** ** What a redemption does to the database *)

Inductive grant_step (account : pk) (amount : money) (voucher campaign mark : option pk)
    (d d' : Db) : Prop :=
  | grant_intro (r : VoucherRedemption) (en : CreditLedgerEntry) (d1 : Db)
      (marked : gmap pk Voucher) :
      redemptions d !! red_id r = None →
      red_account r = account → red_amount r = amount →
      red_voucher r = voucher → red_campaign r = campaign →
      redemption_checks r = true →
      applied account amount VOUCHER (str (red_id r)) (redeem_key (red_id r))
        (put redemptions (red_id r) r d) d1 en →
      match mark with
      | None => marked = vouchers d
      | Some v => ∃ row t, vouchers d !! v = Some row ∧
          marked = <[v := row <| vou_status := VOU_REDEEMED |> <| vou_updated_at := t |>]>
                     (vouchers d)
      end →
      d' = put redemptions (red_id r) (r <| red_ledger_entry_id := Some (le_id en) |>) d1
             <| vouchers := marked |> →
      grant_step account amount voucher campaign mark d d'.

(** The campaign still admits a redemption by the account. *)
Definition below (n : nat) (limit : option N) : Prop :=
  match limit with Some m => (N.of_nat n < m)%N | None => True end.

Inductive redeem_step (d d' : Db) : Prop :=
  | redeem_unique account k v :
      vouchers d !! k = Some v → vou_status v = VOU_ACTIVE → vou_reward_type v = FIXED_CREDIT →
      grant_step account (vou_credit_amount v) (Some (vou_id v)) None (Some (vou_id v)) d d' →
      redeem_step d d'
  | redeem_shared account k c :
      campaigns d !! k = Some c → camp_status c = CAMP_ACTIVE → camp_reward_type c = FIXED_CREDIT →
      below (qcount (of_campaign_account (camp_id c) account) (redemptions d))
        (camp_max_redemptions_per_account c) →
      below (qcount (of_campaign (camp_id c)) (redemptions d)) (camp_max_redemptions_total c) →
      grant_step account (camp_credit_amount c) None (Some (camp_id c)) None d d' →
      redeem_step d d'.

Lemma redemption_verdict_None d r :
  redemption_verdict d r = None →
  redemption_checks r = true ∧ 0 < red_amount r < money_bound.
Proof.
  unfold redemption_verdict, fits_numeric. intros H. split_cases. bool_to_prop.
  split; [done|]. unfold redemption_checks in *. bool_to_prop. lia.
Qed.

Lemma grant_Ok account amount v c rid ip ua t mark e w res w' :
  _grant account amount v c rid ip ua t mark e w = (Ok res, w') →
  grant_step account amount v c mark (db w) (db w').
Proof.
  unfold _grant, credit, redemption_save_guard. intros H. inv_run H.
  all: match goal with Hv : redemption_verdict _ (mkRedemption _ _ _ _ _ None _ _ _ _) = None |- _ =>
    apply redemption_verdict_None in Hv as [Hc Hb] end.
  all: apply apply_money in Hrun as [Happ _]; simpl in *.
  all: pose proof (applied_only_money _ _ _ _ _ _ _ _ Happ) as Hom;
    apply (f_equal redemptions) in Hom as Hred; apply (f_equal vouchers) in Hom as Hvou;
    simpl in Hred, Hvou; clear Hom.
  all: match goal with Hl : redemptions (db _) !! next_uuid _ = Some ?r |- _ =>
    rewrite Hred, lookup_insert_eq in Hl; injection Hl as <- end.
  all: match type of Hc with redemption_checks ?r = true => set (r0 := r) in * end.
  - eapply (grant_intro _ _ _ _ _ _ _ r0); [done..|exact Happ| |].
    + rewrite <- Hvou. eauto.
    + by destruct (db w0).
  - eapply (grant_intro _ _ _ _ _ _ _ r0); [done..|exact Happ|done|].
    by destruct (db w0).
Qed.

Lemma replay_Ok account r rid e w res w' :
  replay_result account r rid e w = (Ok res, w') →
  w' = w ∧ res.2 = [] ∧ replay res.1 = true ∧ credited res.1 = red_amount r.
Proof. unfold replay_result. intros H. inv_run H. done. Qed.

Lemma reward_Ok t n e w m w' :
  _credit_amount_for_reward t n e w = (Ok m, w') → t = FIXED_CREDIT ∧ m = n ∧ w' = w.
Proof.
  unfold _credit_amount_for_reward. case_match; [|done]. bool_to_prop.
  by intros [-> ->]%ret_Ok.
Qed.

Lemma redeem_unique_Ok account k v rid ip ua e w res w' :
  vouchers (db w) !! k = Some v →
  _redeem_unique account v rid ip ua e w = (Ok res, w') →
  rtc redeem_step (db w) (db w').
Proof.
  unfold _redeem_unique. intros Hv H. inv_run H.
  - inv_call reward_Ok as (Ht & -> & ->). apply rtc_once.
    eapply redeem_unique; [exact Hv|done|done|]. by inv_call grant_Ok as ?.
  - by inv_call replay_Ok as (-> & _).
Qed.

Lemma below_spec n limit :
  match limit with Some m => (m <=? N.of_nat n)%N | None => false end = false ↔ below n limit.
Proof. destruct limit; simpl; [|done]. apply N.leb_gt. Qed.

Lemma redeem_shared_Ok account k c rid ip ua e w res w' :
  campaigns (db w) !! k = Some c →
  _redeem_shared account c rid ip ua e w = (Ok res, w') →
  rtc redeem_step (db w) (db w').
Proof.
  unfold _redeem_shared. intros Hc H. inv_run H.
  1: by inv_call replay_Ok as (-> & _).
  inv_call reward_Ok as (Ht & -> & ->). apply rtc_once.
  eapply redeem_shared; [exact Hc|done|done|by apply below_spec|by apply below_spec|].
  by inv_call grant_Ok as ?.
Qed.

Lemma redeem_inner_respects account code rid ip ua :
  respects (rtc redeem_step) (_redeem_inner account code rid ip ua).
Proof.
  unfold _redeem_inner. apply respects_bind; [apply _|solve_respects|intros _].
  apply respects_bind; [apply _|solve_respects|intros _].
  apply respects_bind; [apply _| |intros ?; solve_respects].
  apply respects_atomic_Ok; [apply _|]. intros e w a w' H. inv_run H.
  - destruct (qfirst_Some _ _ _ Hmatch) as (k & Hk & _). by eapply redeem_unique_Ok.
  - destruct (qfirst_Some _ _ _ Hmatch0) as (k & Hk & _). by eapply redeem_shared_Ok.
Qed.

Lemma redeem_respects account code rid ip ua :
  respects (rtc redeem_step) (redeem account code rid ip ua).
Proof.
  pose proof (redeem_inner_respects account code).
  unfold redeem, _require_enabled, _record_failure. solve_respects.
Qed.

(** ** The voucher invariant *)

#[export] Instance redeem_key_inj : Inj (=) (=) redeem_key.
Proof. intros j k H. by apply (inj (String.append "voucher_redeem:")), (inj str) in H. Qed.

(** Rows are stored under their ids; a voucher is redeemed at most once and is
    then [REDEEMED]; every redemption is backed by the one ledger entry its
    key names, to its account, for its amount. *)
Record voucher_inv (d : Db) : Prop := {
  vi_redemption : ∀ k r, redemptions d !! k = Some r → red_id r = k ∧ redemption_checks r = true;
  vi_voucher : ∀ k v, vouchers d !! k = Some v → vou_id v = k;
  vi_redeemed : ∀ k r v, redemptions d !! k = Some r → red_voucher r = Some v →
    ∃ row, vouchers d !! v = Some row ∧ vou_status row = VOU_REDEEMED;
  vi_once : ∀ j k r s v, redemptions d !! j = Some r → redemptions d !! k = Some s →
    red_voucher r = Some v → red_voucher s = Some v → j = k;
  vi_funded : ∀ k r, redemptions d !! k = Some r →
    ∃ en, find_entry (redeem_key k) (ledger d) = Some en ∧ le_account en = red_account r ∧
      le_delta en = red_amount r ∧ red_ledger_entry_id r = Some (le_id en);
  vi_keys : ∀ en k, en ∈ ledger d → le_idempotency_key en = redeem_key k →
    is_Some (redemptions d !! k);
}.

(** The entry a grant posts is new. *)
Lemma grant_applied d d1 account amount r en :
  voucher_inv d → redemptions d !! red_id r = None →
  applied account amount VOUCHER (str (red_id r)) (redeem_key (red_id r))
    (put redemptions (red_id r) r d) d1 en →
  find_entry (redeem_key (red_id r)) (ledger d) = None ∧ ledger d1 = ledger d ++ [en] ∧
  le_account en = account ∧ le_delta en = amount ∧
  le_idempotency_key en = redeem_key (red_id r) ∧
  redemptions d1 = <[red_id r := r]> (redemptions d) ∧ vouchers d1 = vouchers d ∧
  campaigns d1 = campaigns d.
Proof.
  intros Hinv Hfresh [Hf ->|]; simpl in *.
  - apply find_entry_Some in Hf as [Hin Hk].
    destruct (vi_keys d Hinv en _ Hin Hk) as [? ?]. congruence.
  - subst. simpl. done.
Qed.

(** How a grant names its source. *)
Definition grant_source (d : Db) (voucher campaign mark : option pk) : Prop :=
  mark = voucher ∧
  match voucher with
  | Some v => ∃ row, vouchers d !! v = Some row ∧ vou_status row = VOU_ACTIVE
  | None => True
  end.

Lemma grant_redeemed d account amount voucher campaign mark d' :
  grant_source d voucher campaign mark →
  grant_step account amount voucher campaign mark d d' → voucher_inv d →
  ∀ v, (∃ row, vouchers d !! v = Some row ∧ vou_status row = VOU_REDEEMED) ∨ voucher = Some v →
    ∃ row, vouchers d' !! v = Some row ∧ vou_status row = VOU_REDEEMED.
Proof.
  intros [-> Hsrc] [r en d1 marked Hfresh _ _ _ _ _ Happ Hmark ->] Hinv v Hv. simpl.
  destruct voucher as [u|]; [|destruct Hv as [Hv|[=]]; by subst].
  destruct Hmark as (row & t & Hu & ->). destruct (decide (v = u)) as [->|Hne].
  - rewrite lookup_insert_eq. eauto.
  - rewrite lookup_insert_ne by done. by destruct Hv as [Hv|[= ->]].
Qed.

Lemma voucher_inv_grant d account amount voucher campaign mark d' :
  grant_source d voucher campaign mark →
  grant_step account amount voucher campaign mark d d' → voucher_inv d → voucher_inv d'.
Proof.
  intros Hsrc Hstep Hinv.
  pose proof (grant_redeemed _ _ _ _ _ _ _ Hsrc Hstep Hinv) as Hred.
  destruct Hstep as [r en d1 marked Hfresh Hacc Ham Hvo Hca Hck Happ Hmark ->].
  destruct (grant_applied _ _ _ _ _ _ Hinv Hfresh Happ)
    as (Hf & Hl & Hea & Hed & Hek & Hr1 & Hv1 & _).
  split; simpl in *; rewrite ?Hr1, ?Hl, ?insert_insert_eq.
  - intros k s [[<- <-]|[_ Hs]]%lookup_insert_Some; [done|by apply (vi_redemption d Hinv)].
  - intros k v. destruct Hsrc as [-> Hsrc]. destruct voucher as [u|]; [|subst; apply Hinv].
    destruct Hmark as (row & t & Hu & ->).
    intros [[<- <-]|[_ Hs]]%lookup_insert_Some; [|by apply (vi_voucher d Hinv)].
    by apply (vi_voucher d Hinv) in Hu.
  - intros k s v [[<- <-]|[_ Hs]]%lookup_insert_Some Hsv; apply Hred; simpl in *.
    + right. congruence.
    + left. by eapply (vi_redeemed d Hinv).
  - intros j k s s' v.
    assert (Hno : ∀ j s, redemptions d !! j = Some s → red_voucher s = Some v →
      red_voucher r = Some v → False).
    { intros i x Hx Hxv Hrv. destruct Hsrc as [_ Hsrc]. rewrite <- Hvo, Hrv in Hsrc.
      destruct Hsrc as (row & Hrow & Hact).
      destruct (vi_redeemed d Hinv _ _ _ Hx Hxv) as (row' & Hrow' & Hact'). congruence. }
    intros [[<- <-]|[Hj Hs]]%lookup_insert_Some [[<- <-]|[Hk Hs']]%lookup_insert_Some;
      simpl; intros Hv Hv'; [done|exfalso; eauto..|by eapply (vi_once d Hinv)].
  - intros k s [[<- <-]|[_ Hs]]%lookup_insert_Some.
    + exists en. simpl. split_and!; [by apply find_entry_snoc|congruence..|done].
    + destruct (vi_funded d Hinv k s Hs) as (en' & He' & ?). exists en'.
      split; [by apply find_entry_app_l|done].
  - intros en' k [Hin| ->%list_elem_of_singleton]%elem_of_app Hk.
    + apply lookup_insert_is_Some'. right. by eapply (vi_keys d Hinv).
    + apply lookup_insert_is_Some'. left. rewrite Hek in Hk. by apply (inj redeem_key) in Hk.
Qed.

Lemma ledger_inv_grant account amount voucher campaign mark d d' :
  grant_step account amount voucher campaign mark d d' → ledger_inv d → ledger_inv d'.
Proof.
  intros [r en d1 marked _ _ _ _ _ _ Happ _ ->] Hinv.
  apply ledger_inv_applied in Happ; [|by destruct Hinv; split]. by destruct Happ; split.
Qed.

Lemma redeem_step_inv d d' :
  redeem_step d d' → voucher_inv d ∧ ledger_inv d → voucher_inv d' ∧ ledger_inv d'.
Proof.
  intros Hstep [Hv Hl]. destruct Hstep as [account k v Hk Hact _ Hg|account k c Hk Hact _ _ _ Hg].
  - split; [|by eapply ledger_inv_grant]. eapply voucher_inv_grant; [|exact Hg|done].
    split; [done|]. rewrite (vi_voucher d Hv _ _ Hk). eauto.
  - split; [|by eapply ledger_inv_grant]. by eapply voucher_inv_grant; [|exact Hg|done].
Qed.

(** ** Campaign limits *)

Definition within (n : nat) (limit : option N) : Prop :=
  match limit with Some m => (N.of_nat n ≤ m)%N | None => True end.

(** No campaign has more redemptions than its limits allow. *)
Definition limits_inv (d : Db) : Prop :=
  ∀ k c, campaigns d !! k = Some c → camp_id c = k ∧
    within (qcount (of_campaign k) (redemptions d)) (camp_max_redemptions_total c) ∧
    ∀ account, within (qcount (of_campaign_account k account) (redemptions d))
                 (camp_max_redemptions_per_account c).

(** A grant adds one row, and only its own campaign counts it. *)
Lemma grant_count account amount voucher campaign mark d d' P :
  grant_step account amount voucher campaign mark d d' →
  (∀ r x, P (r <| red_ledger_entry_id := x |>) = P r) →
  ∃ r, red_campaign r = campaign ∧ red_account r = account ∧ campaigns d' = campaigns d ∧
    qcount P (redemptions d') = ((if P r then 1 else 0) + qcount P (redemptions d))%nat.
Proof.
  intros [r en d1 marked Hfresh Hacc Ham Hvo Hca Hck Happ _ ->] HP.
  apply applied_only_money in Happ as Hom.
  apply (f_equal redemptions) in Hom as Hr; apply (f_equal campaigns) in Hom as Hc.
  simpl in Hr, Hc. exists r. simpl. rewrite Hr, insert_insert_eq.
  rewrite qcount_insert_fresh by done. by rewrite HP.
Qed.

Lemma within_below n limit : below n limit → within (S n) limit.
Proof. destruct limit; simpl; [lia|done]. Qed.

Lemma redeem_step_limits d d' : redeem_step d d' → limits_inv d → limits_inv d'.
Proof.
  intros Hstep Hinv k c Hk.
  assert (Hcamp : campaigns d' = campaigns d).
  { destruct Hstep as [? ? ? _ _ _ Hg|? ? ? _ _ _ _ _ Hg];
      destruct (grant_count _ _ _ _ _ _ _ (λ _, true) Hg) as (? & _ & _ & ? & _); done. }
  rewrite Hcamp in Hk. destruct (Hinv k c Hk) as (Hid & Htot & Hper).
  split; [done|]. destruct Hstep as [account j v Hj _ _ Hg|account j c0 Hj _ _ Hb1 Hb2 Hg].
  - split.
    + destruct (grant_count _ _ _ _ _ _ _ (of_campaign k) Hg) as (r & Hr & _ & _ & ->); [done|].
      replace (of_campaign k r) with false; [done|]. unfold of_campaign. by rewrite Hr.
    + intros acc.
      destruct (grant_count _ _ _ _ _ _ _ (of_campaign_account k acc) Hg)
        as (r & Hr & _ & _ & ->); [done|].
      replace (of_campaign_account k acc r) with false; [apply Hper|].
      unfold of_campaign_account, of_campaign. by rewrite Hr.
  - destruct (Hinv j c0 Hj) as (Hid0 & _ & _). rewrite Hid0 in *. split.
    + destruct (grant_count _ _ _ _ _ _ _ (of_campaign k) Hg) as (r & Hr & _ & _ & ->); [done|].
      destruct (of_campaign k r) eqn:E; [|done].
      unfold of_campaign in E. bool_to_prop. assert (k = j) as -> by congruence.
      assert (c = c0) as -> by congruence. by apply within_below.
    + intros acc.
      destruct (grant_count _ _ _ _ _ _ _ (of_campaign_account k acc) Hg)
        as (r & Hr & Ha & _ & ->); [done|].
      destruct (of_campaign_account k acc r) eqn:E; [|apply Hper].
      unfold of_campaign_account, of_campaign in E. bool_to_prop.
      assert (k = j) as -> by congruence. assert (c = c0) as -> by congruence.
      assert (acc = account) as -> by congruence. by apply within_below.
Qed.

(** ** Redeeming again *)

Lemma first_by_only (P : VoucherRedemption → bool) m k r :
  m !! k = Some r → P r = true → (∀ j s, m !! j = Some s → P s = true → s = r) →
  first_by red_redeemed_at (qall P m) = Some r.
Proof.
  intros Hk HP Huniq. destruct (first_by _ _) as [s|] eqn:E.
  - apply first_by_Some in E as [Hin _]. apply list_elem_of_In, List.filter_In in Hin as [Hin HPs].
    apply list_elem_of_In, elem_of_rows in Hin as [j Hj]. f_equal. eauto.
  - apply first_by_None in E.
    assert (Hin : In r (qall P m)).
    { apply List.filter_In. split; [|done]. apply list_elem_of_In, elem_of_rows. eauto. }
    by rewrite E in Hin.
Qed.

Lemma first_by_empty (P : VoucherRedemption → bool) m :
  (∀ j s, m !! j = Some s → P s = false) → first_by red_redeemed_at (qall P m) = None.
Proof.
  intros H. destruct (first_by _ _) as [s|] eqn:E; [|done].
  apply first_by_Some in E as [Hin _]. apply list_elem_of_In, List.filter_In in Hin as [Hin HPs].
  apply list_elem_of_In, elem_of_rows in Hin as [j Hj]. by rewrite (H j s Hj) in HPs.
Qed.

(** The code names this voucher. *)
Record names_voucher (d : Db) (code : option string) (k : pk) (v : Voucher) : Prop := {
  nv_code : normalize_voucher_code code ≠ "";
  nv_free : is_reserved_voucher_code (normalize_voucher_code code) = false;
  nv_row : vouchers d !! k = Some v;
  nv_match : vou_code v = normalize_voucher_code code;
  nv_mode : vou_redemption_mode v = UNIQUE;
  nv_only : ∀ j u, vouchers d !! j = Some u → vou_code u = vou_code v → u = v;
}.

Lemma names_voucher_query d code k v :
  names_voucher d code k v →
  qfirst (λ v, bool_decide (vou_code v = normalize_voucher_code code) &&
               bool_decide (vou_redemption_mode v = UNIQUE)) (vouchers d) = Some v.
Proof.
  intros []. eapply qfirst_unique; [done| |].
  - by rewrite !bool_decide_true.
  - intros j u Hu HP. bool_to_prop. eapply nv_only0; [done|congruence].
Qed.

Definition request_of (request_id : string) (w : World) : string :=
  match strip request_id with "" => str (next_uuid w) | r => r end.

Lemma redeemed_voucher_result account k v j r a rid ip ua e w :
  aborted w = false → voucher_inv (db w) →
  vouchers (db w) !! k = Some v → vou_status v = VOU_REDEEMED →
  redemptions (db w) !! j = Some r → red_voucher r = Some k →
  accounts (db w) !! account = Some a →
  _redeem_unique account v rid ip ua e w =
    (if (red_account r =? account)%N
     then Ok (mkRedeemResult (red_amount r) (acc_balance a) j (red_ledger_entry_id r)
                (or_text (red_request_id r) rid) true, [])
     else Raise VoucherInvalidError, w).
Proof.
  intros Hw Hinv Hk Hst Hj Hrv Ha. unfold _redeem_unique. rewrite Hst, bind_run.
  unfold query. rewrite Hw.
  rewrite (vi_voucher _ Hinv _ _ Hk).
  destruct (vi_redemption _ Hinv _ _ Hj) as [Hid _].
  assert (Huniq : ∀ i s, redemptions (db w) !! i = Some s → red_voucher s = Some k → s = r).
  { intros i s Hs Hsv. pose proof (vi_once _ Hinv _ _ _ _ _ Hs Hj Hsv Hrv) as ->. congruence. }
  destruct (N.eqb_spec (red_account r) account) as [Heq|Hne].
  - erewrite first_by_only; [|exact Hj|..].
    + unfold replay_result, get. unfold bind, query. rewrite Hw, Ha. simpl. by rewrite Hid.
    + by rewrite bool_decide_true, Heq, N.eqb_refl.
    + intros i s Hs HP. bool_to_prop. eauto.
  - rewrite first_by_empty; [done|]. intros i s Hs. apply not_true_is_false. intros HP.
    bool_to_prop. rewrite (Huniq i s) in *; done.
Qed.

Lemma redeem_keeps_inv d d' :
  rtc redeem_step d d' → voucher_inv d ∧ ledger_inv d → voucher_inv d' ∧ ledger_inv d'.
Proof. induction 1 as [|d1 d2 d3 Hstep _ IH]; [done|]. intros H. by apply IH, (redeem_step_inv d1). Qed.

(** The rule every redeem goes through before the transaction. *)
Lemma redeem_eq account code rid ip ua e w :
  BILLING_ENABLED (settings e) = true → VOUCHERS_ENABLED (settings e) = true →
  let w1 := if decide (strip rid = "") then w <| next_uuid := N.succ (next_uuid w) |> else w in
  redeem account code rid ip ua e w =
    match _redeem_inner account code (request_of rid w) ip ua e w1 with
    | (Ok r, w2) => (Ok r, w2 <| metrics := metrics w2 ++ ["voucher_redeem_success_total"] |>)
    | (Raise x, w2) =>
        match voucher_error_code x with
        | Some c => (_record_failure c;;; raise x) e w2
        | None => (Raise x, w2)
        end
    end.
Proof.
  intros HB HV w1. unfold redeem, request_of. rewrite bind_run. subst w1.
  destruct (strip rid) as [|c s] eqn:E; simpl; unfold bind at 1; simpl;
    unfold try_except, _require_enabled, asks, raise_if; rewrite ?bind_run; rewrite HB, HV; simpl;
    unfold bind at 1, ret at 1; destruct (_redeem_inner _ _ _ _ _ _ _) as [[r|x] w2]; simpl; try done;
    by destruct (voucher_error_code x).
Qed.

Lemma record_failure_db c x e w :
  ∃ w', (_record_failure c;;; @raise RedeemResult x) e w = (Raise x, w') ∧ db w' = db w.
Proof.
  unfold _record_failure. rewrite !bind_run. unfold incr, ret, raise.
  repeat (case_match; simplify_eq/=); eexists; by split.
Qed.

Lemma inner_names account code k v rid ip ua e w :
  aborted w = false → names_voucher (db w) code k v →
  _redeem_inner account code rid ip ua e w =
    match atomic (_redeem_unique account v rid ip ua) e w with
    | (Ok r, w1) => (for_each r.2 publish;;; ret r.1) e w1
    | (Raise x, w1) => (Raise x, w1)
    end.
Proof.
  intros Hw Hn. unfold _redeem_inner, raise_if. rewrite bool_decide_false by apply Hn.
  rewrite (nv_free _ _ _ _ Hn), !bind_run. unfold ret at 1. rewrite bind_run. unfold ret at 1.
  rewrite bind_run. unfold atomic. rewrite bind_run. unfold locked_query, query. simpl.
  rewrite Hw, (names_voucher_query _ _ _ _ Hn).
  destruct (_redeem_unique _ _ _ _ _ _ _) as [[r|x] w1]; [|done].
  by destruct (aborted w1).
Qed.

(** ** Properties *)

(** Redeeming keeps the voucher and ledger invariants, however it ends: a
    unique voucher is redeemed at most once and is then [REDEEMED], and each
    redemption is backed by exactly the ledger entry its idempotency key
    names, posted to its account for its amount. *)
Theorem redeem_preserves_inv account code rid ip ua :
  respects (preserves (λ d, voucher_inv d ∧ ledger_inv d)) (redeem account code rid ip ua).
Proof.
  intros e w r w' H. apply redeem_respects in H. exact (redeem_keeps_inv _ _ H).
Qed.

(** Redeeming never takes a shared campaign past its limits: the number of
    redemptions of a campaign, and of a campaign by one account, stays within
    [max_redemptions_total] and [max_redemptions_per_account]. *)
Theorem redeem_within_limits account code rid ip ua :
  respects (preserves limits_inv) (redeem account code rid ip ua).
Proof.
  intros e w r w' H Hinv. apply redeem_respects in H.
  induction H as [|d1 d2 d3 Hstep _ IH]; [done|]. by apply IH, (redeem_step_limits d1).
Qed.

(** Redeeming a unique voucher a second time: its first redeemer gets the
    original redemption back as a replay with the current balance, anybody
    else is told [VoucherInvalidError]; nothing is credited in either case. *)
Theorem redeemed_voucher_is_final account code k v j r a rid ip ua e w :
  BILLING_ENABLED (settings e) = true → VOUCHERS_ENABLED (settings e) = true →
  aborted w = false → voucher_inv (db w) → names_voucher (db w) code k v →
  vou_status v = VOU_REDEEMED → redemptions (db w) !! j = Some r → red_voucher r = Some k →
  accounts (db w) !! account = Some a →
  run (redeem account code rid ip ua) e w =
    (if (red_account r =? account)%N
     then Ok (mkRedeemResult (red_amount r) (acc_balance a) j (red_ledger_entry_id r)
                (or_text (red_request_id r) (request_of rid w)) true)
     else Raise VoucherInvalidError, db w).
Proof.
  intros HB HV Hw Hinv Hn Hst Hj Hrv Ha. unfold run. rewrite redeem_eq by done.
  set (w1 := if decide _ then _ else w).
  assert (Hw1 : db w1 = db w ∧ aborted w1 = false) by (subst w1; by case_decide).
  destruct Hw1 as [Hdb Hab]. rewrite (inner_names _ _ k v) by (by rewrite ?Hdb).
  pose proof (nv_row _ _ _ _ Hn) as Hk.
  unfold atomic. rewrite (redeemed_voucher_result _ k v j r a) by (simpl; by rewrite ?Hdb).
  destruct (red_account r =? account)%N; simpl.
  - rewrite Hab. simpl. by rewrite Hdb.
  - by rewrite Hdb.
Qed.

(** ** A first redemption *)

(** The voucher may be redeemed now. *)
Record redeemable (e : Env) (w : World) (v : Voucher) : Prop := {
  ra_status : vou_status v = VOU_ACTIVE;
  ra_reward : vou_reward_type v = FIXED_CREDIT;
  ra_checks : voucher_checks v = true;
  ra_fits : fits_numeric (vou_credit_amount v) = true;
  ra_time : match vou_expires_at v with
            | Some t => clock e (tick w) < t | None => True end;
}.

(** The account can take the credit. *)
Definition creditable (a : Account) (amount : money) : Prop :=
  account_checks a = true ∧ fits_numeric (acc_balance a + amount) = true ∧
  acc_version a < max_int32.

Lemma create_eq {V} (tbl : Db → gmap pk V) `{!Update tbl} check k v e w :
  aborted w = false → tbl (db w) !! k = None → check (db w) v = None →
  create tbl check k v e w = (Ok tt, w <| db := put tbl k v (db w) |>).
Proof. intros Hw Hk Hc. unfold create, write. by rewrite Hw, Hk, Hc. Qed.

Lemma save_fields_eq {V} (tbl : Db → gmap pk V) `{!Update tbl} check k f v e w :
  aborted w = false → tbl (db w) !! k = Some v → check (db w) (f v) = None →
  save_fields tbl check k f e w = (Ok tt, w <| db := put tbl k (f v) (db w) |>).
Proof. intros Hw Hk Hc. unfold save_fields, write. by rewrite Hw, Hk, Hc. Qed.

Lemma save_redeemed_verdict d k v t :
  voucher_checks v = true → fits_numeric (vou_credit_amount v) = true →
  (∀ j u, vouchers d !! j = Some u → vou_code u = vou_code v → u = v) →
  vouchers d !! k = Some v →
  voucher_verdict d (v <| vou_status := VOU_REDEEMED |> <| vou_updated_at := t |>) = None.
Proof.
  intros Hc Hf Huniq Hk. unfold voucher_verdict. simpl. rewrite Hf. simpl.
  destruct (qexists _ _) eqn:E.
  - apply qexists_true in E as (j & u & Hu & HP). simpl in HP. bool_to_prop.
    by rewrite (Huniq j u) in *.
  - unfold voucher_checks in *. simpl. by rewrite Hc.
Qed.

Section FirstRedemption.
Context (account : pk) (a : Account) (v : Voucher) (rid ip ua : string).
Context (e : Env) (w : World).
Let u := next_uuid w.
Let amount := vou_credit_amount v.

Hypothesis Hw : aborted w = false.
Hypothesis Hinv : voucher_inv (db w).
Hypothesis Hk : vouchers (db w) !! vou_id v = Some v.
Hypothesis Honly : ∀ j x, vouchers (db w) !! j = Some x → vou_code x = vou_code v → x = v.
Hypothesis Hra : redeemable e w v.
Hypothesis Ha : accounts (db w) !! account = Some a.
Hypothesis Hcred : creditable a amount.
Hypothesis Hfresh : redemptions (db w) !! u = None.

Definition first_result : RedeemResult :=
  mkRedeemResult amount (acc_balance a + amount) u (Some (N.succ u)) rid false.
Definition first_events : list Event :=
  [VoucherRedeemed (Some (vou_id v)) None u account amount (acc_balance a + amount) (N.succ u)
     rid (clock e (tick w));
   CreditGranted account amount (acc_balance a + amount) VOUCHER (str u) (N.succ u)
     (clock e (S (tick w)))].

Lemma first_redemption_runs :
  ∃ w', _redeem_unique account v rid ip ua e w = (Ok (first_result, first_events), w') ∧
    aborted w' = false ∧ events w' = events w ∧ depth w' = depth w ∧
    vouchers (db w') = <[vou_id v := v <| vou_status := VOU_REDEEMED |>
      <| vou_updated_at := clock e (S (S (tick w))) |>]> (vouchers (db w)) ∧
    accounts (db w') = <[account := a <| acc_balance := acc_balance a + amount |>
      <| acc_version := acc_version a + 1 |>]> (accounts (db w)) ∧
    is_Some (redemptions (db w') !! u).
Proof.
  destruct Hra as [Hst Hrw Hvc Hvf Ht], Hcred as (Hac & Hfit & Hver).
  assert (Hamt : 0 < amount < money_bound).
  { unfold voucher_checks in Hvc. bool_to_prop. apply fits_numeric_spec in Hvf.
    subst amount. lia. }
  unfold _redeem_unique. rewrite Hst, bind_run. unfold now, raise_if.
  replace (match vou_expires_at v with Some t => _ | None => _ end) with false
    by (destruct (vou_expires_at v); [symmetry; apply Z.leb_gt|]; done).
  rewrite bind_run. unfold ret at 1. unfold _credit_amount_for_reward.
  rewrite bool_decide_true, bind_run by done. unfold ret at 1.
  unfold _grant, redemption_save_guard. rewrite bind_run. unfold uuid4. simpl. fold u amount.
  rewrite bind_run. unfold ret at 1.
  set (r0 := mkRedemption _ _ _ _ _ _ _ _ _ _).
  assert (Hr0 : ∀ d x, redemption_verdict d (r0 <| red_ledger_entry_id := x |>) = None).
  { intros d x. unfold redemption_verdict. simpl. fold amount in Hvf. rewrite Hvf. simpl.
    unfold redemption_checks. simpl. by rewrite (proj2 (Z.ltb_lt 0 amount)) by lia. }
  rewrite bind_run, create_eq by (try done; apply (Hr0 _ None)).
  rewrite bind_run. unfold credit.
  set (w1 := update db _ _).
  rewrite (apply_posts _ _ _ _ _ _ _ w1 a).
  2:{ split; unfold posted_delta; simpl; try done.
      - destruct (find_entry _ _) as [en|] eqn:E; [|done].
        apply find_entry_Some in E as [Hin Hkey].
        destruct (vi_keys _ Hinv en u Hin Hkey) as [? Hx]. by rewrite Hfresh in Hx.
      - unfold account_checks in Hac. bool_to_prop. lia. }
  rewrite bind_run. unfold raise_if, ret at 1. simpl.
  rewrite bind_run, (save_fields_eq redemptions _ _ _ r0).
  2:{ done. }
  2:{ unfold posted_world. simpl. by rewrite lookup_insert_eq. }
  2:{ apply Hr0. }
  rewrite bind_run. unfold now at 1. rewrite bind_run.
  rewrite (save_fields_eq vouchers _ _ _ v); [|done|exact Hk|by apply (save_redeemed_verdict _ (vou_id v))].
  unfold ret. eexists. split; [reflexivity|]. unfold posted_world. simpl.
  split_and!; try done. rewrite lookup_insert_eq. eauto.
Qed.
End FirstRedemption.

(** The world once the request id is settled. *)
Definition after_request (rid : string) (w : World) : World :=
  if decide (strip rid = "") then w <| next_uuid := N.succ (next_uuid w) |> else w.

(** A first redemption succeeds: an active, unexpired fixed-credit voucher
    that the code names is turned into exactly its credit amount.  The balance
    and version of the account, the voucher's status and the two published
    events are the ones the code promises, and the redemption row exists. *)
Theorem redeem_credits_voucher account code k v a rid ip ua e w :
  BILLING_ENABLED (settings e) = true → VOUCHERS_ENABLED (settings e) = true →
  aborted w = false → voucher_inv (db w) → names_voucher (db w) code k v →
  redeemable e w v → accounts (db w) !! account = Some a →
  creditable a (vou_credit_amount v) →
  redemptions (db w) !! next_uuid (after_request rid w) = None →
  let w1 := after_request rid w in
  ∃ w', redeem account code rid ip ua e w =
      (Ok (first_result a v (request_of rid w) w1), w') ∧
    events w' = events w ++ first_events account a v (request_of rid w) e w1 ∧
    (vou_status <$> vouchers (db w') !! k) = Some VOU_REDEEMED ∧
    (acc_balance <$> accounts (db w') !! account) =
      Some (acc_balance a + vou_credit_amount v) ∧
    is_Some (redemptions (db w') !! next_uuid w1).
Proof.
  intros HB HV Hw Hinv Hn Hra Ha Hcred Hfresh w1.
  rewrite redeem_eq by done. fold (after_request rid w). fold w1 in Hfresh |- *.
  assert (Hw1 : db w1 = db w ∧ aborted w1 = false ∧ tick w1 = tick w ∧ events w1 = events w)
    by (subst w1; unfold after_request; by case_decide).
  destruct Hw1 as (Hdb & Hab & Htick & Hev). clearbody w1.
  pose proof (nv_row _ _ _ _ Hn) as Hk. pose proof (vi_voucher _ Hinv _ _ Hk) as Hid.
  rewrite (inner_names _ _ k v) by (by rewrite ?Hdb).
  destruct (first_redemption_runs account a v (request_of rid w) ip ua e (enter w1))
    as (w2 & Hrun & Hab2 & Hev2 & Hd2 & Hv2 & Ha2 & Hr2); simpl; rewrite ?Hdb, ?Hid; try done.
  { apply (nv_only _ _ _ _ Hn). }
  { destruct Hra. split; simpl; rewrite ?Htick; done. }
  unfold atomic. fold (enter w1). rewrite Hrun, Hab2, bind_run. simpl.
  eexists. split; [reflexivity|]. simpl. rewrite Hev2, Hv2, Ha2. simpl. rewrite Hdb, Hid, !lookup_insert_eq. simpl.
  rewrite Hev, <- (assoc_L (++)). unfold first_events. by rewrite Hid.
Qed.

(** ** A concrete campaign and voucher *)

Definition sample_voucher : Voucher :=
  mkVoucher 20 "GIFT-1" UNIQUE GIFT FIXED_CREDIT 5000000 None None VOU_ACTIVE None
    ISSUER_ADMIN "" None "" (Some 500) 0.
Definition voucher_db : Db :=
  empty_db <| accounts := {[ 1%N := mkAccount 1 (Some 7%N) PERSONAL 0 0 None;
                             2%N := mkAccount 2 (Some 8%N) PERSONAL 0 0 None ]} |>
    <| vouchers := {[ 20%N := sample_voucher ]} |>.
Definition voucher_world : World := world_of voucher_db.

Lemma voucher_db_inv : voucher_inv voucher_db.
Proof.
  split; try done.
  - intros k v. unfold voucher_db. simpl. by intros [<- <-]%lookup_singleton_Some.
  - by intros en k ?%not_elem_of_nil.
Qed.

Lemma names_sample_voucher : names_voucher voucher_db (Some " gift-1 ") 20 sample_voucher.
Proof.
  split; try done; try (vm_compute; discriminate).
  intros j u. unfold voucher_db. simpl. by intros [<- <-]%lookup_singleton_Some.
Qed.

Lemma redeem_credits_voucher_witness :
  ∃ w', redeem 1 (Some " gift-1 ") "" "10.0.0.1" "curl" sample_env voucher_world =
    (Ok (mkRedeemResult 5000000 5000000 1001 (Some 1002%N) (str 1000) false), w') ∧
    (vou_status <$> vouchers (db w') !! 20%N) = Some VOU_REDEEMED.
Proof.
  destruct (redeem_credits_voucher 1 (Some " gift-1 ") 20 sample_voucher
    (mkAccount 1 (Some 7%N) PERSONAL 0 0 None) "" "10.0.0.1" "curl" sample_env voucher_world)
    as (w' & Hrun & _ & Hst & _).
  - reflexivity.
  - reflexivity.
  - reflexivity.
  - apply voucher_db_inv.
  - apply names_sample_voucher.
  - split; reflexivity.
  - reflexivity.
  - split_and!; reflexivity.
  - reflexivity.
  - exists w'. split; [exact Hrun|exact Hst].
Defined.

Definition redeemed_world : World :=
  (redeem 1 (Some "GIFT-1") "r1" "" "" sample_env voucher_world).2.

Lemma redeemed_db_inv : voucher_inv (db redeemed_world).
Proof.
  apply (redeem_keeps_inv voucher_db).
  - apply (redeem_respects 1 (Some "GIFT-1") "r1" "" "" sample_env voucher_world
      (redeem 1 (Some "GIFT-1") "r1" "" "" sample_env voucher_world).1).
    unfold redeemed_world. by destruct (redeem _ _ _ _ _ _ _).
  - split; [apply voucher_db_inv|]. split; try done; simpl.
    + constructor.
    + by intros en ?%not_elem_of_nil.
    + by intros en ?%not_elem_of_nil.
    + intros k a [[<- <-]|[_ [<- <-]%lookup_singleton_Some]]%lookup_insert_Some; done.
    + intros k a [[<- <-]|[_ [<- <-]%lookup_singleton_Some]]%lookup_insert_Some; done.
Qed.

(** The voucher row and redemption that run leaves. *)
Definition redeemed_voucher : Voucher :=
  sample_voucher <| vou_status := VOU_REDEEMED |> <| vou_updated_at := 2 |>.
Definition first_redemption : VoucherRedemption :=
  mkRedemption 1000 1 (Some 20%N) None 5000000 (Some 1001%N) "r1" 0 "" "".

Lemma redeemed_voucher_is_final_witness :
  run (redeem 1 (Some "gift-1") "r2" "" "") sample_env redeemed_world
  = (Ok (mkRedeemResult 5000000 5000000 1000 (Some 1001%N) "r1" true), db redeemed_world) ∧
  run (redeem 2 (Some "gift-1") "r2" "" "") sample_env redeemed_world
  = (Raise VoucherInvalidError, db redeemed_world).
Proof.
  assert (Hn : names_voucher (db redeemed_world) (Some "gift-1") 20 redeemed_voucher).
  { split; try reflexivity; try (vm_compute; discriminate).
    intros j u. replace (vouchers (db redeemed_world))
      with ({[20%N := redeemed_voucher]} : gmap pk Voucher) by (vm_compute; reflexivity).
    by intros [<- <-]%lookup_singleton_Some. }
  split.
  - apply (redeemed_voucher_is_final 1 (Some "gift-1") 20 redeemed_voucher 1000
      first_redemption (mkAccount 1 (Some 7%N) PERSONAL 5000000 1 None));
      [reflexivity|reflexivity|reflexivity|apply redeemed_db_inv|exact Hn|reflexivity..].
  - apply (redeemed_voucher_is_final 2 (Some "gift-1") 20 redeemed_voucher 1000
      first_redemption (mkAccount 2 (Some 8%N) PERSONAL 0 0 None));
      [reflexivity|reflexivity|reflexivity|apply redeemed_db_inv|exact Hn|reflexivity..].
Defined.
