(* ===== verification/VoucherAdmin.v ===== *)
(** * Voucher administration

    [apps/billing/services/voucher_admin.py]: issuing, activating, extending
    and revoking campaigns, batches and vouchers.  The credit service is never
    called from here. *)

From S2P Require Import Prelude Tables Money Models EsimModels World Effects Credit VoucherCodes Vouchers.
#[local] Open Scope Z_scope.

Definition VOUCHER_CODE_PREFIX : string := "RK-".
Definition _CODE_COLLISION_RETRIES : nat := 8.

(** [_REVOCABLE_VOUCHER_STATUSES] *)
Definition revocable (v : Voucher) : bool :=
  match vou_status v with VOU_CREATED | VOU_ACTIVE => true | _ => false end.

Record RevokeImpact := mkImpact {
  affected : nat;
  already_redeemed : nat;
  revoked_now : nat;
}.

Record BatchPreview := mkPreview {
  bp_size : Z;
  bp_reward_type : RewardType;
  bp_credit_amount : money;
  bp_expires_at : option instant;
  bp_code_prefix : string;
}.

Definition _release_version : M string :=
  let! sha := asks ROAMKIT_GIT_SHA in
  let! tag := asks ROAMKIT_IMAGE_TAG in
  ret (if negb (bool_decide (strip sha = "")) then stake 40 (strip sha)
       else if negb (bool_decide (strip tag = "")) then stake 64 (strip tag)
       else "dev").

Definition _actor_id (actor_id : option string) : string :=
  match actor_id with None => "" | Some a => a end.

Definition revoke_reason_value (r : VoucherRevokeReason) : string :=
  match r with
  | FRAUD => "fraud"
  | EXPIRED_CAMPAIGN => "expired_campaign"
  | MANUAL_REVOKE => "manual_revoke"
  | DUPLICATE_ISSUE => "duplicate_issue"
  end.

Definition _require_revoke_reason (reason : string) : M VoucherRevokeReason :=
  match List.find (λ r, bool_decide (revoke_reason_value r = reason))
          [FRAUD; EXPIRED_CAMPAIGN; MANUAL_REVOKE; DUPLICATE_ISSUE] with
  | Some r => ret r
  | None => raise VoucherAdminValidationError
  end.

(** [_assert_updated_at]: instants more than a millisecond apart conflict. *)
Definition _assert_updated_at (current : instant) (expected_updated_at : option instant)
    : M unit :=
  match expected_updated_at with
  | None => ret tt
  | Some t => raise_if (1000 <? Z.abs (current - t)) VoucherAdminConflictError
  end.

(** [try: assert_code_available(...) except ValueError: continue] *)
Fixpoint generate_attempts (n : nat) : M string :=
  match n with
  | O => raise VoucherAdminValidationError
  | S n =>
      let! random := draw in
      try_except (assert_code_available (VOUCHER_CODE_PREFIX +:+ upper random) None None)
        (λ x, match x with ValueError _ => Some (generate_attempts n) | _ => None end)
  end.

Definition generate_unique_code : M string := generate_attempts _CODE_COLLISION_RETRIES.

Definition create_campaign (credit_amount : money) (actor_id : option string)
    (code : option string) (redemption_mode : RedemptionMode) (voucher_type : VoucherType)
    (reward_type : RewardType) (max_redemptions_total max_redemptions_per_account : option N)
    (starts_at expires_at : option instant) (status : CampaignStatus) : M VoucherCampaign :=
  raise_if (negb (bool_decide (reward_type = FIXED_CREDIT))) VoucherAdminValidationError;;;
  raise_if (credit_amount <=? 0) VoucherAdminValidationError;;;
  let! normalized :=
    match code with
    | Some (String _ _ as c) => let! n := assert_code_available c None None in ret (Some n)
    | _ => ret None
    end in
  let! id := uuid4 in
  let! updated_at := now in
  let c := mkCampaign id normalized redemption_mode voucher_type reward_type credit_amount
    max_redemptions_total max_redemptions_per_account starts_at expires_at status None
    ISSUER_ADMIN (_actor_id actor_id) None "" updated_at in
  create campaigns campaign_verdict id c;;;
  ret c.

(** A keyword of [save_campaign]; [F_protected] is one of the names it skips. *)
Inductive CampaignField :=
  | F_code (code : option string)
  | F_redemption_mode (m : RedemptionMode)
  | F_voucher_type (t : VoucherType)
  | F_reward_type (t : RewardType)
  | F_credit_amount (m : money)
  | F_max_redemptions_total (n : option N)
  | F_max_redemptions_per_account (n : option N)
  | F_starts_at (t : option instant)
  | F_expires_at (t : option instant)
  | F_status (s : CampaignStatus)
  | F_revoke_reason (r : option VoucherRevokeReason)
  | F_protected.

Definition set_field (locked : VoucherCampaign) (f : CampaignField) : M VoucherCampaign :=
  match f with
  | F_code (Some (String _ _ as value)) =>
      let! value := assert_code_available value None (Some (camp_id locked)) in
      ret (locked <| camp_code := Some value |>)
  | F_code value => ret (locked <| camp_code := value |>)
  | F_redemption_mode m => ret (locked <| camp_redemption_mode := m |>)
  | F_voucher_type t => ret (locked <| camp_voucher_type := t |>)
  | F_reward_type t => ret (locked <| camp_reward_type := t |>)
  | F_credit_amount m => ret (locked <| camp_credit_amount := m |>)
  | F_max_redemptions_total n => ret (locked <| camp_max_redemptions_total := n |>)
  | F_max_redemptions_per_account n => ret (locked <| camp_max_redemptions_per_account := n |>)
  | F_starts_at t => ret (locked <| camp_starts_at := t |>)
  | F_expires_at t => ret (locked <| camp_expires_at := t |>)
  | F_status s => ret (locked <| camp_status := s |>)
  | F_revoke_reason r => ret (locked <| camp_revoke_reason := r |>)
  | F_protected => ret locked
  end.

Definition save_campaign (campaign : pk) (expected_updated_at : option instant)
    (fields : list CampaignField) : M VoucherCampaign :=
  atomic (
    let! locked := get_locked campaigns campaign in
    _assert_updated_at (camp_updated_at locked) expected_updated_at;;;
    raise_if (bool_decide (camp_status locked = CAMP_REVOKED)) VoucherAdminValidationError;;;
    let! edited := fold_each fields locked set_field in
    let! t := now in
    let saved := edited <| camp_updated_at := t |> in
    save_fields campaigns campaign_verdict campaign (λ _, saved);;;
    ret saved).

Definition activate_campaign (campaign : pk) (expected_updated_at : option instant)
    : M VoucherCampaign :=
  atomic (
    let! locked := get_locked campaigns campaign in
    _assert_updated_at (camp_updated_at locked) expected_updated_at;;;
    raise_if (negb (bool_decide (camp_status locked = CAMP_DRAFT))) VoucherAdminValidationError;;;
    let! t := now in
    save_fields campaigns campaign_verdict campaign
      (λ c, c <| camp_status := CAMP_ACTIVE |> <| camp_updated_at := t |>);;;
    ret (locked <| camp_status := CAMP_ACTIVE |> <| camp_updated_at := t |>)).

(** [activate_campaigns]: the instances are the caller's. *)
Definition activate_campaigns (cs : list VoucherCampaign) : M nat :=
  fold_each cs 0%nat (λ activated c,
    if bool_decide (camp_status c = CAMP_DRAFT)
    then activate_campaign (camp_id c) (Some (camp_updated_at c));;; ret (S activated)
    else ret activated).

(** ** Revoking *)

(** [_voucher_revoke_counts]; a queryset is its filter. *)
Definition _voucher_revoke_counts (qs : Voucher → bool) : M RevokeImpact :=
  let! affected := query (λ d, qcount qs (vouchers d)) in
  let! already := query (λ d,
    qcount (λ v, qs v && bool_decide (vou_status v = VOU_REDEEMED)) (vouchers d)) in
  let! revoked := query (λ d, qcount (λ v, qs v && revocable v) (vouchers d)) in
  ret (mkImpact affected already revoked).

Definition in_campaign (c : pk) (v : Voucher) : bool := bool_decide (vou_campaign v = Some c).
Definition in_batch (b : pk) (v : Voucher) : bool := bool_decide (vou_batch v = Some b).
Definition in_ids (ids : list pk) (v : Voucher) : bool := bool_decide (vou_id v ∈ ids).

Definition preview_revoke_campaign (campaign : VoucherCampaign) : M RevokeImpact :=
  let! base := _voucher_revoke_counts (in_campaign (camp_id campaign)) in
  let campaign_revocable := negb (bool_decide (camp_status campaign = CAMP_REVOKED)) in
  ret (mkImpact (affected base + 1) (already_redeemed base)
         (revoked_now base + (if campaign_revocable then 1 else 0))).

Definition preview_revoke_batch (batch : pk) : M RevokeImpact :=
  _voucher_revoke_counts (in_batch batch).

Definition preview_revoke_vouchers (ids : list pk) : M RevokeImpact :=
  _voucher_revoke_counts (in_ids ids).

(** The row a revoke writes. *)
Definition revoke_row (reason : VoucherRevokeReason) (actor : string) (at_ t : instant)
    (v : Voucher) : Voucher :=
  v <| vou_status := VOU_REVOKED |> <| vou_revoke_reason := Some reason |>
    <| vou_revoked_at := Some at_ |> <| vou_revoked_by_id := actor |> <| vou_updated_at := t |>.

Definition revoke_one (reason : VoucherRevokeReason) (actor : string) (at_ : instant)
    (v : Voucher) : M unit :=
  let! t := now in
  save_fields vouchers voucher_verdict (vou_id v) (revoke_row reason actor at_ t).

Definition _apply_voucher_revokes (qs : Voucher → bool) (reason : VoucherRevokeReason)
    (actor_id : string) (at_ : instant) : M nat :=
  let! rows := locked_query (λ d, qall (λ v, qs v && revocable v) (vouchers d)) in
  for_each rows (revoke_one reason actor_id at_);;;
  ret (length rows).

Definition revoke_campaign (campaign : pk) (reason : string) (actor_id : option string)
    (expected_updated_at : option instant) : M RevokeImpact :=
  atomic (
    let! reason := _require_revoke_reason reason in
    let actor := _actor_id actor_id in
    let! at_ := now in
    let! locked := get_locked campaigns campaign in
    _assert_updated_at (camp_updated_at locked) expected_updated_at;;;
    raise_if (bool_decide (camp_status locked = CAMP_REVOKED)) VoucherAdminValidationError;;;
    let! preview := preview_revoke_campaign locked in
    let! n := _apply_voucher_revokes (in_campaign (camp_id locked)) reason actor at_ in
    let! t := now in
    save_fields campaigns campaign_verdict campaign (λ c,
      c <| camp_status := CAMP_REVOKED |> <| camp_revoke_reason := Some reason |>
        <| camp_revoked_at := Some at_ |> <| camp_revoked_by_id := actor |>
        <| camp_updated_at := t |>);;;
    ret (mkImpact (affected preview) (already_redeemed preview) (n + 1))).

(** The batch table's verdict. *)
Definition batch_verdict (_ : Db) (b : VoucherBatch) : option Exn :=
  if negb (batch_size b <=? max_int32) then Some DataError
  else if negb (batch_checks b) then Some IntegrityError else None.

Definition revoke_batch (batch : pk) (reason : string) (actor_id : option string)
    (expected_updated_at : option instant) : M RevokeImpact :=
  atomic (
    let! reason := _require_revoke_reason reason in
    let actor := _actor_id actor_id in
    let! at_ := now in
    let! locked := get_locked batches batch in
    _assert_updated_at (batch_updated_at locked) expected_updated_at;;;
    raise_if (bool_decide (batch_status locked = BATCH_REVOKED)) VoucherAdminValidationError;;;
    let! preview := preview_revoke_batch (batch_id locked) in
    let! n := _apply_voucher_revokes (in_batch (batch_id locked)) reason actor at_ in
    let! t := now in
    save_fields batches batch_verdict batch
      (λ b, b <| batch_status := BATCH_REVOKED |> <| batch_updated_at := t |>);;;
    ret (mkImpact (affected preview) (already_redeemed preview) n)).

Definition revoke_vouchers (ids : list pk) (reason : string) (actor_id : option string)
    : M RevokeImpact :=
  atomic (
    let! reason := _require_revoke_reason reason in
    let actor := _actor_id actor_id in
    let! at_ := now in
    let! preview := _voucher_revoke_counts (in_ids ids) in
    let! n := _apply_voucher_revokes (in_ids ids) reason actor at_ in
    ret (mkImpact (affected preview) (already_redeemed preview) n)).

(** ** Extending *)

Definition extend_campaign_expiry (campaign : pk) (expires_at : instant)
    (expected_updated_at : option instant) : M VoucherCampaign :=
  atomic (
    let! locked := get_locked campaigns campaign in
    _assert_updated_at (camp_updated_at locked) expected_updated_at;;;
    raise_if (bool_decide (camp_status locked = CAMP_REVOKED)) VoucherAdminValidationError;;;
    let! t := now in
    let edit := λ c : VoucherCampaign,
      let c := c <| camp_expires_at := Some expires_at |> <| camp_updated_at := t |> in
      if bool_decide (camp_status locked = CAMP_EXPIRED)
      then c <| camp_status := CAMP_ACTIVE |> else c in
    save_fields campaigns campaign_verdict campaign edit;;;
    ret (edit locked)).

Definition extend_voucher_expiry (voucher : pk) (expires_at : instant)
    (expected_updated_at : option instant) : M Voucher :=
  atomic (
    let! locked := get_locked vouchers voucher in
    _assert_updated_at (vou_updated_at locked) expected_updated_at;;;
    raise_if (bool_decide (vou_status locked = VOU_REDEEMED) ||
              bool_decide (vou_status locked = VOU_REVOKED)) VoucherAdminValidationError;;;
    let! t := now in
    let edit := λ v : Voucher,
      let v := v <| vou_expires_at := Some expires_at |> <| vou_updated_at := t |> in
      if bool_decide (vou_status locked = VOU_EXPIRED)
      then v <| vou_status := VOU_ACTIVE |> else v in
    save_fields vouchers voucher_verdict voucher edit;;;
    ret (edit locked)).

(** ** Batches *)

Definition preview_batch (size : Z) (credit_amount : money) (reward_type : RewardType)
    (expires_at : option instant) : M BatchPreview :=
  raise_if (size <? 1) VoucherAdminValidationError;;;
  raise_if (credit_amount <=? 0) VoucherAdminValidationError;;;
  raise_if (negb (bool_decide (reward_type = FIXED_CREDIT))) VoucherAdminValidationError;;;
  ret (mkPreview size reward_type credit_amount expires_at VOUCHER_CODE_PREFIX).

(** [bulk_create]: one statement, all rows or none. *)
Fixpoint bulk_insert (vs : list Voucher) (d : Db) : Res Db :=
  match vs with
  | [] => Ok d
  | v :: vs =>
      match vouchers d !! vou_id v with
      | Some _ => Raise IntegrityError
      | None =>
          match voucher_verdict d v with
          | Some x => Raise x
          | None => bulk_insert vs (put vouchers (vou_id v) v d)
          end
      end
  end.

Fixpoint build_vouchers (n : nat) (mk : pk → string → instant → Voucher) : M (list Voucher) :=
  match n with
  | O => ret []
  | S n =>
      let! code := generate_unique_code in
      let! id := uuid4 in
      let! t := now in
      let! rest := build_vouchers n mk in
      ret (mk id code t :: rest)
  end.

Section Generate.
(** PostgreSQL's answer to the two locks: another session holds the row, or
    the advisory key, of the campaign. *)
Context (row_locked advisory_locked : pk → bool).

Definition _advisory_lock_campaign (campaign_id : pk) : M unit :=
  raise_if (advisory_locked campaign_id) VoucherBatchBusyError.

(** The part of [generate_batch] that locks the campaign and takes its
    terms. *)
Definition lock_campaign_terms (campaign : pk) (expected : option instant)
    (expires_at : option instant)
    : M (money * VoucherType * RewardType * option instant) :=
  raise_if (row_locked campaign) VoucherBatchBusyError;;;
  let! locked := get_locked campaigns campaign in
  _assert_updated_at (camp_updated_at locked) expected;;;
  _advisory_lock_campaign (camp_id locked);;;
  raise_if (bool_decide (camp_status locked = CAMP_REVOKED)) VoucherAdminValidationError;;;
  ret (camp_credit_amount locked, camp_voucher_type locked, camp_reward_type locked,
       match expires_at with None => camp_expires_at locked | t => t end).

Definition generate_batch (size : Z) (credit_amount : money) (actor_id : option string)
    (campaign : option pk) (expected_campaign_updated_at : option instant)
    (voucher_type : VoucherType) (reward_type : RewardType) (expires_at : option instant)
    (activate : bool) : M VoucherBatch :=
  atomic (
    preview_batch size credit_amount reward_type expires_at;;;
    let actor := _actor_id actor_id in
    let! terms :=
      match campaign with
      | None => ret (credit_amount, voucher_type, reward_type, expires_at)
      | Some c => lock_campaign_terms c expected_campaign_updated_at expires_at
      end in
    let '(credit_amount, voucher_type, reward_type, expires_at) := terms in
    let! id := uuid4 in
    let! t := now in
    let batch := mkBatch id campaign size (if activate then BATCH_ACTIVE else BATCH_CREATED)
      ISSUER_ADMIN actor None "" t in
    create batches batch_verdict id batch;;;
    let! vs := build_vouchers (Z.to_nat size) (λ vid code t,
      mkVoucher vid code UNIQUE voucher_type reward_type credit_amount campaign (Some id)
        (if activate then VOU_ACTIVE else VOU_CREATED) None ISSUER_ADMIN actor None ""
        expires_at t) in
    write (bulk_insert vs);;;
    let! generated_at := now in
    let! version := _release_version in
    let! t := now in
    let edit := λ b : VoucherBatch, b <| batch_generated_at := Some generated_at |>
      <| batch_generated_by_version := version |> <| batch_updated_at := t |> in
    save_fields batches batch_verdict id edit;;;
    ret (edit batch)).
End Generate.

(** ** Silent helpers *)

Lemma assert_updated_Ok c x e w u w' : _assert_updated_at c x e w = (Ok u, w') → w' = w.
Proof. unfold _assert_updated_at. intros H. by inv_run H. Qed.

Lemma require_reason_Ok s e w r w' : _require_revoke_reason s e w = (Ok r, w') → w' = w.
Proof. unfold _require_revoke_reason. intros H. by inv_run H. Qed.

Lemma require_reason_value s e w r w' :
  _require_revoke_reason s e w = (Ok r, w') → revoke_reason_value r = s.
Proof.
  unfold _require_revoke_reason. intros H. inv_run H.
  by repeat (case_match; bool_to_prop; simplify_eq/=).
Qed.

Lemma counts_Ok qs e w i w' :
  _voucher_revoke_counts qs e w = (Ok i, w') →
  w' = w ∧ affected i = qcount qs (vouchers (db w)) ∧
  already_redeemed i = qcount (λ v, qs v && bool_decide (vou_status v = VOU_REDEEMED)) (vouchers (db w)) ∧
  revoked_now i = qcount (λ v, qs v && revocable v) (vouchers (db w)).
Proof. unfold _voucher_revoke_counts. intros H. by inv_run H. Qed.

Lemma preview_campaign_Ok c e w i w' :
  preview_revoke_campaign c e w = (Ok i, w') →
  w' = w ∧ affected i = (qcount (in_campaign (camp_id c)) (vouchers (db w)) + 1)%nat ∧
  already_redeemed i =
    qcount (λ v, in_campaign (camp_id c) v && bool_decide (vou_status v = VOU_REDEEMED)) (vouchers (db w)) ∧
  revoked_now i = (qcount (λ v, in_campaign (camp_id c) v && revocable v) (vouchers (db w)) +
    (if bool_decide (camp_status c = CAMP_REVOKED) then 0 else 1))%nat.
Proof.
  unfold preview_revoke_campaign. intros H. inv_run H.
  inv_call counts_Ok as (-> & -> & -> & ->). by case_bool_decide.
Qed.

Lemma attempts_Ok n e w c w' :
  generate_attempts n e w = (Ok c, w') → aborted w = false →
  db w' = db w ∧ aborted w' = false ∧ code_shape c ∧ code_free c None None (db w).
Proof.
  revert w. induction n as [|n IH]; intros w H Hw; simpl in H; [by inv_run H|].
  inv_run H. inv_call try_Ok as [Hrun|(x & k & w1 & Hrun & Hx & Hk)].
  - apply assert_code_Ok in Hrun as (-> & -> & Hs & Hf). done.
  - destruct x; simplify_eq/=.
    apply assert_code_world in Hrun as ->.
    by apply IH in Hk.
Qed.

(** ** Terminal rows *)

Definition vouchers_keyed (d : Db) : Prop := ∀ k v, vouchers d !! k = Some v → vou_id v = k.
Definition campaigns_keyed (d : Db) : Prop := ∀ k c, campaigns d !! k = Some c → camp_id c = k.

Definition voucher_final (v : Voucher) : Prop :=
  vou_status v = VOU_REDEEMED ∨ vou_status v = VOU_REVOKED.

(** A redeemed or revoked voucher and a revoked campaign never change again. *)
Definition final_kept (d d' : Db) : Prop :=
  vouchers_keyed d → vouchers_keyed d' ∧
  (∀ k v, vouchers d !! k = Some v → voucher_final v → vouchers d' !! k = Some v) ∧
  (∀ k c, campaigns d !! k = Some c → camp_status c = CAMP_REVOKED → campaigns d' !! k = Some c).

#[export] Instance final_kept_preorder : PreOrder final_kept.
Proof.
  split; [by intros d H|]. intros d1 d2 d3 H1 H2 Hk.
  destruct (H1 Hk) as (Hk2 & Hv & Hc). destruct (H2 Hk2) as (Hk3 & Hv' & Hc'). auto 8.
Qed.

Lemma final_kept_campaign d k c c' :
  campaigns d !! k = Some c → camp_status c ≠ CAMP_REVOKED → final_kept d (put campaigns k c' d).
Proof.
  intros Hc Hs Hk. split_and!; [done|done|]. intros j x Hj Hx. simpl.
  rewrite lookup_insert_ne; [done|congruence].
Qed.

Lemma final_kept_new_campaign d k c' :
  campaigns d !! k = None → final_kept d (put campaigns k c' d).
Proof.
  intros Hc Hk. split_and!; [done|done|]. intros j x Hj Hx. simpl.
  rewrite lookup_insert_ne; [done|congruence].
Qed.

Lemma final_kept_voucher d k v v' :
  vouchers d !! k = Some v → ¬ voucher_final v → vou_id v' = vou_id v →
  final_kept d (put vouchers k v' d).
Proof.
  intros Hv Hs Hid Hk. split_and!; [..|done].
  - intros j x. simpl. intros [[<- <-]|[_ Hx]]%lookup_insert_Some; [|by apply Hk].
    rewrite Hid. by apply Hk.
  - intros j x Hj Hx. simpl. rewrite lookup_insert_ne; [done|congruence].
Qed.

Lemma final_kept_new_voucher d v :
  vouchers d !! vou_id v = None → final_kept d (put vouchers (vou_id v) v d).
Proof.
  intros Hv Hk. split_and!; [..|done].
  - intros j x. simpl. intros [[<- <-]|[_ Hx]]%lookup_insert_Some; [done|by apply Hk].
  - intros j x Hj Hx. simpl. rewrite lookup_insert_ne; [done|congruence].
Qed.

Lemma final_kept_batches d m : final_kept d (d <| batches := m |>).
Proof. by intros Hk. Qed.

Lemma revocable_not_final v : revocable v = true → ¬ voucher_final v.
Proof. unfold revocable, voucher_final. intros H [E|E]; by rewrite E in H. Qed.

(** ** The revoke loop *)

(** The rows of a list are the ones stored. *)
Definition stored (d : Db) (rows : list Voucher) : Prop :=
  NoDup (vou_id <$> rows) ∧ ∀ v, v ∈ rows → vouchers d !! vou_id v = Some v.

Lemma stored_qall d P : vouchers_keyed d → stored d (qall P (vouchers d)).
Proof.
  intros Hk. split.
  - unfold qall, rows.
    assert (H : NoDup (vou_id <$> (map_to_list (vouchers d)).*2)).
    { rewrite <- list_fmap_compose, (list_fmap_ext _ fst).
      - apply NoDup_fst_map_to_list.
      - intros i [k v] Hi. apply list_elem_of_lookup_2, elem_of_map_to_list in Hi. simpl. eauto. }
    revert H. induction (map_to_list (vouchers d)).*2 as [|v l IH]; csimpl; [done|].
    intros [Hni Hnd]%NoDup_cons. case_match; csimpl; [|by apply IH].
    constructor; [|by apply IH]. intros (u & Hu & Hin)%list_elem_of_fmap. apply Hni.
    rewrite Hu. apply list_elem_of_fmap_2. apply list_elem_of_In, List.filter_In in Hin as [Hin _].
    by apply list_elem_of_In.
  - intros v [Hin _]%list_elem_of_In%List.filter_In.
    apply list_elem_of_In, elem_of_rows in Hin as [k Hv]. by rewrite (Hk k v Hv).
Qed.

Lemma revoke_loop reason actor at_ rows e w u w' :
  for_each rows (revoke_one reason actor at_) e w = (Ok u, w') → stored (db w) rows →
  (∃ m, db w' = (db w) <| vouchers := m |>) ∧ (aborted w = false → aborted w' = false) ∧
  (∀ k, k ∉ (vou_id <$> rows) → vouchers (db w') !! k = vouchers (db w) !! k) ∧
  (∀ v, v ∈ rows → ∃ t, vouchers (db w') !! vou_id v = Some (revoke_row reason actor at_ t v)).
Proof.
  revert w. induction rows as [|v rows IH]; intros w H [Hnd Hst]; simpl in H.
  { inv_run H. split_and!; [|done..|by intros v ?%not_elem_of_nil].
    exists (vouchers (db w)). by destruct (db w). }
  apply bind_Ok in H as (u1 & w1 & H1 & H2). unfold revoke_one in H1. inv_run H1.
  csimpl in Hnd. apply NoDup_cons in Hnd as [Hni Hnd].
  rewrite Hst in * by (by left). simplify_eq.
  apply IH in H2 as ((m & Hm) & Hab & Hother & Hrows); clear IH; simpl in *.
  2:{ split; [done|]. intros x Hx. simpl. rewrite lookup_insert_ne; [apply Hst; by right|].
      intros E. apply Hni. rewrite E. by apply list_elem_of_fmap_2. }
  split_and!; [by exists m|done|..].
  - intros k Hk. csimpl in Hk. apply not_elem_of_cons in Hk as [Hne Hk]. rewrite Hother by done.
    by rewrite lookup_insert_ne.
  - intros x [->|Hx]%elem_of_cons; [|by apply Hrows]. rewrite Hother by done.
    rewrite lookup_insert_eq. eauto.
Qed.

(** What a revoke does to the vouchers a queryset selects. *)
Definition vouchers_revoked (qs : Voucher → bool) (reason : VoucherRevokeReason)
    (actor : string) (at_ : instant) (d d' : Db) : Prop :=
  ∀ k v, vouchers d !! k = Some v →
    if qs v && revocable v
    then ∃ t, vouchers d' !! k = Some (revoke_row reason actor at_ t v)
    else vouchers d' !! k = Some v.

Lemma apply_revokes_Ok qs reason actor at_ e w n w' :
  _apply_voucher_revokes qs reason actor at_ e w = (Ok n, w') → vouchers_keyed (db w) →
  (∃ m, db w' = (db w) <| vouchers := m |>) ∧ vouchers_keyed (db w') ∧
  n = qcount (λ v, qs v && revocable v) (vouchers (db w)) ∧
  vouchers_revoked qs reason actor at_ (db w) (db w') ∧
  (∀ k, vouchers (db w) !! k = None → vouchers (db w') !! k = None) ∧
  final_kept (db w) (db w').
Proof.
  unfold _apply_voucher_revokes. intros H Hk.
  apply bind_Ok in H as (l & w1 & Hq & H). inv_run Hq.
  apply bind_Ok in H as ([] & w2 & Hl & [-> ->]%ret_Ok).
  pose proof (stored_qall (db w) (λ v, qs v && revocable v) Hk) as Hst.
  set (sel := qall _ _) in *.
  assert (Hsel : ∀ v, v ∈ sel ↔ (∃ k, vouchers (db w) !! k = Some v) ∧ qs v && revocable v = true).
  { intros v. subst sel. unfold qall. by rewrite list_elem_of_In, List.filter_In, <- list_elem_of_In, elem_of_rows. }
  destruct (revoke_loop _ _ _ _ _ _ _ _ Hl Hst) as ((m & Hm) & _ & Hother & Hrows).
  assert (Hrev : vouchers_revoked qs reason actor at_ (db w) (db w2)).
  { intros k v Hv. case_match eqn:E.
    - destruct (Hrows v) as [t Ht]; [apply Hsel; eauto|].
      rewrite (Hk _ _ Hv) in Ht. eauto.
    - rewrite Hother; [done|]. intros (u & Hu & Hin)%list_elem_of_fmap.
      apply Hsel in Hin as [[j Hj] Hu']. rewrite (Hk _ _ Hj) in Hu. congruence. }
  assert (Hnone : ∀ k, vouchers (db w) !! k = None → vouchers (db w2) !! k = None).
  { intros k Hn. rewrite Hother; [done|]. intros (u & Hu & Hin)%list_elem_of_fmap.
    apply Hsel in Hin as [[j Hj] _]. rewrite (Hk _ _ Hj) in Hu. congruence. }
  assert (Hk' : vouchers_keyed (db w2)).
  { intros k v Hv. destruct (vouchers (db w) !! k) as [v0|] eqn:E; [|by rewrite Hnone in Hv].
    pose proof (Hrev k v0 E) as Hx. pose proof (Hk _ _ E). case_match.
    - destruct Hx as [t Hx]. simplify_eq. done.
    - congruence. }
  split_and!; [by exists m|done|done|done|done|].
  intros _. split_and!; [done|..].
  - intros k v Hv Hf. specialize (Hrev k v Hv). case_match eqn:E; [|done].
    bool_to_prop. by apply revocable_not_final in Hf.
  - intros k c Hc _. by rewrite Hm.
Qed.

(** ** Every operation keeps the terminal rows *)

Lemma set_field_Ok c f e w c' w' :
  set_field c f e w = (Ok c', w') → w' = w ∧ camp_id c' = camp_id c.
Proof.
  unfold set_field. intros H. inv_run H; try done.
  by inv_call assert_code_Ok as (-> & _).
Qed.

Lemma set_fields_Ok fields e w c c' w' :
  fold_each fields c set_field e w = (Ok c', w') → w' = w ∧ camp_id c' = camp_id c.
Proof.
  revert c w. induction fields as [|f fields IH]; intros c w H; simpl in H; [by inv_run H|].
  apply bind_Ok in H as (c1 & w1 & [-> H1]%set_field_Ok & [-> H2]%IH). split; [done|congruence].
Qed.

Lemma bulk_insert_final vs d d' : bulk_insert vs d = Ok d' → final_kept d d'.
Proof.
  revert d. induction vs as [|v vs IH]; intros d; simpl; [by intros [= <-]|].
  intros H. split_cases. etrans; [|by apply IH]. by apply final_kept_new_voucher.
Qed.

Lemma build_vouchers_db n mk e w vs w' :
  build_vouchers n mk e w = (Ok vs, w') → aborted w = false →
  db w' = db w ∧ aborted w' = false ∧ length vs = n.
Proof.
  revert w vs. induction n as [|n IH]; intros w vs H Hw; simpl in H; [by inv_run H|].
  apply bind_Ok in H as (c & w1 & Hc & H). unfold generate_unique_code in Hc.
  apply attempts_Ok in Hc as (Hd & Ha & _); [|done].
  inv_run H. apply IH in Hrun as (Hd' & Ha' & <-); simpl in *; [|done].
  by rewrite Hd', Hd.
Qed.

Lemma final_kept_trans d1 d2 d3 : final_kept d1 d2 → final_kept d2 d3 → final_kept d1 d3.
Proof. intros. by etrans. Qed.

Lemma save_campaign_final c x fs : respects final_kept (save_campaign c x fs).
Proof.
  apply respects_atomic_Ok; [apply _|]. intros e w a w' H. inv_run H.
  inv_call assert_updated_Ok as ->. inv_call set_fields_Ok as [-> _]. simpl in *.
  simplify_eq. bool_to_prop. by eapply final_kept_campaign.
Qed.

Lemma activate_campaign_final c x : respects final_kept (activate_campaign c x).
Proof.
  apply respects_atomic_Ok; [apply _|]. intros e w a w' H. inv_run H.
  inv_call assert_updated_Ok as ->. simpl in *. simplify_eq. bool_to_prop.
  eapply final_kept_campaign; [done|congruence].
Qed.

Lemma extend_campaign_final c t x : respects final_kept (extend_campaign_expiry c t x).
Proof.
  apply respects_atomic_Ok; [apply _|]. intros e w a w' H. inv_run H.
  inv_call assert_updated_Ok as ->. simpl in *. simplify_eq. bool_to_prop.
  by eapply final_kept_campaign.
Qed.

Lemma extend_voucher_final v t x : respects final_kept (extend_voucher_expiry v t x).
Proof.
  apply respects_atomic_Ok; [apply _|]. intros e w a w' H. inv_run H.
  inv_call assert_updated_Ok as ->. simpl in *. simplify_eq. bool_to_prop.
  eapply final_kept_voucher; [done| |by case_bool_decide].
  intros [|]; done.
Qed.

Lemma revoke_vouchers_final ids s a : respects final_kept (revoke_vouchers ids s a).
Proof.
  apply respects_atomic_Ok; [apply _|]. intros e w r w' H. inv_run H.
  inv_call require_reason_Ok as ->. inv_call counts_Ok as (-> & _).
  intros Hk. inv_call apply_revokes_Ok as (_ & _ & _ & _ & _ & Hf); [by apply Hf|done].
Qed.

Lemma revoke_campaign_final c s a x : respects final_kept (revoke_campaign c s a x).
Proof.
  apply respects_atomic_Ok; [apply _|]. intros e w r w' H. inv_run H.
  inv_call require_reason_Ok as ->. inv_call assert_updated_Ok as ->.
  inv_call preview_campaign_Ok as (-> & _). bool_to_prop.
  intros Hk. inv_call apply_revokes_Ok as ((m & Hm) & _ & _ & _ & _ & Hf); [|done].
  apply (final_kept_trans _ _ _ Hf); [|done]. simpl in *.
  rewrite Hm in *. simpl in *. simplify_eq. by eapply final_kept_campaign.
Qed.

Lemma revoke_batch_final b s a x : respects final_kept (revoke_batch b s a x).
Proof.
  apply respects_atomic_Ok; [apply _|]. intros e w r w' H. inv_run H.
  inv_call require_reason_Ok as ->. inv_call assert_updated_Ok as ->.
  inv_call counts_Ok as (-> & _).
  intros Hk. inv_call apply_revokes_Ok as (_ & _ & _ & _ & _ & Hf); [|done].
  by apply (final_kept_trans _ _ _ Hf).
Qed.

Lemma create_campaign_final ca ai co rm vt rt mt ma st ex s :
  respects final_kept (create_campaign ca ai co rm vt rt mt ma st ex s).
Proof.
  unfold create_campaign. solve_respects.
  all: apply respects_create; [apply _|]; intros d Hn _; by apply final_kept_new_campaign.
Qed.

Lemma lock_terms_Ok rl al c x ex e w r w' :
  lock_campaign_terms rl al c x ex e w = (Ok r, w') → w' = w.
Proof.
  unfold lock_campaign_terms, _advisory_lock_campaign. intros H. inv_run H.
  by inv_call assert_updated_Ok as ->.
Qed.

Lemma preview_batch_Ok n m t x e w r w' :
  preview_batch n m t x e w = (Ok r, w') → w' = w ∧ 1 ≤ n ∧ 0 < m ∧ t = FIXED_CREDIT.
Proof. unfold preview_batch. intros H. inv_run H. bool_to_prop. done. Qed.

(** The vouchers a batch builds carry fresh codes of the canonical shape. *)
Definition built (mk : pk → string → instant → Voucher) (d : Db) (v : Voucher) : Prop :=
  ∃ id code t, v = mk id code t ∧ code_shape code ∧ code_free code None None d.

Lemma build_vouchers_built n mk e w vs w' :
  build_vouchers n mk e w = (Ok vs, w') → aborted w = false →
  ∀ v, v ∈ vs → built mk (db w) v.
Proof.
  revert w vs. induction n as [|n IH]; intros w vs H Hw v Hv; simpl in H.
  { inv_run H. by apply not_elem_of_nil in Hv. }
  apply bind_Ok in H as (c & w1 & Hc & H). unfold generate_unique_code in Hc.
  apply attempts_Ok in Hc as (Hd & Ha & Hs & Hf); [|done].
  inv_run H. apply elem_of_cons in Hv as [->|Hv].
  - do 3 eexists. split; [reflexivity|]. done.
  - eapply IH in Hv; [|exact Hrun|done]. simpl in Hv. by rewrite Hd in Hv.
Qed.

Lemma bulk_insert_only vs d d' : bulk_insert vs d = Ok d' → d' = d <| vouchers := vouchers d' |>.
Proof.
  revert d. induction vs as [|v vs IH]; intros d; simpl.
  - intros [= <-]. by destruct d.
  - intros H. split_cases. apply IH in H. rewrite H. by destruct d.
Qed.

Lemma release_version_Ok e w v w' : _release_version e w = (Ok v, w') → w' = w.
Proof. unfold _release_version. intros H. by inv_run H. Qed.

(** A generated batch: its row, then its vouchers, then the final stamp. *)
Lemma generate_batch_Ok rl al size amount ai c x vt rt exp act e w b w' :
  generate_batch rl al size amount ai c x vt rt exp act e w = (Ok b, w') →
  1 ≤ size ∧ batches (db w) !! batch_id b = None ∧
  ∃ vs b0 d1, length vs = Z.to_nat size ∧
    (∀ v, v ∈ vs → vou_batch v = Some (batch_id b) ∧ vou_redemption_mode v = UNIQUE ∧
       code_shape (vou_code v) ∧ code_free (vou_code v) None None (db w)) ∧
    bulk_insert vs (put batches (batch_id b) b0 (db w)) = Ok d1 ∧
    db w' = put batches (batch_id b) b d1.
Proof.
  unfold generate_batch. intros H. apply atomic_Ok in H as (w2 & H & Hend).
  apply bind_Ok in H as (pv & w3 & (-> & Hsize & _)%preview_batch_Ok & H).
  apply bind_Ok in H as ([[[amount' vt'] rt'] exp'] & w4 & Ht & H).
  assert (w4 = enter w) as ->.
  { destruct c; [by apply lock_terms_Ok in Ht|by inv_run Ht]. }
  inv_run H.
  pose proof (build_vouchers_built _ _ _ _ _ _ Hrun) as Hbuilt.
  pose proof (build_vouchers_db _ _ _ _ _ _ Hrun) as Hdb.
  destruct Hdb as (Hdb & Hab & Hlen); [done|]. simpl in Hdb.
  inv_call write_Ok as (_ & d1 & Hins & ->). inv_call release_version_Ok as ->.
  simpl in *. rewrite Hdb in Hins.
  pose proof (f_equal batches (bulk_insert_only _ _ _ Hins)) as Hbat. simpl in Hbat.
  match goal with Hv : batches d1 !! _ = Some _ |- _ =>
    rewrite Hbat, lookup_insert_eq in Hv; injection Hv as <- end.
  split_and!; [done|done|]. do 3 eexists. split_and!; [exact Hlen|..|exact Hins|].
  - intros u Hu. destruct (Hbuilt H u Hu) as (id & code & t & -> & Hs & Hf). done.
  - destruct Hend as [[? _]|[_ ->]]; [congruence|done].
Qed.

Lemma generate_batch_final rl al size amount ai c x vt rt exp act :
  respects final_kept (generate_batch rl al size amount ai c x vt rt exp act).
Proof.
  intros e w r w' H. destruct r as [b|y]; [|by apply atomic_Raise in H as [-> _]].
  apply generate_batch_Ok in H as (_ & _ & vs & b0 & d1 & _ & _ & Hins & ->).
  apply bulk_insert_final in Hins. exact Hins.
Qed.

Lemma issue_unique_final c m s t x ca b : respects final_kept (issue_unique_voucher c m s t x ca b).
Proof.
  unfold issue_unique_voucher. solve_respects.
  apply respects_create; [apply _|]. intros d Hn _. by apply (final_kept_new_voucher d (mkVoucher _ _ _ _ _ _ _ _ _ _ _ _ _ _ _ _)).
Qed.

Lemma issue_shared_final c m x y s t u v : respects final_kept (issue_shared_campaign c m x y s t u v).
Proof.
  unfold issue_shared_campaign. solve_respects.
  apply respects_create; [apply _|]. intros d Hn _. by apply final_kept_new_campaign.
Qed.

#[export] Hint Resolve save_campaign_final activate_campaign_final extend_campaign_final
  extend_voucher_final revoke_vouchers_final revoke_campaign_final revoke_batch_final
  create_campaign_final generate_batch_final issue_unique_final issue_shared_final : effects.

Lemma activate_campaigns_final cs : respects final_kept (activate_campaigns cs).
Proof. unfold activate_campaigns. solve_respects. Qed.
#[export] Hint Resolve activate_campaigns_final : effects.

(** ** The voucher system as a whole *)

(** Every entry point that writes the voucher tables. *)
Inductive voucher_op (rl al : pk → bool) : ∀ {A}, M A → Prop :=
  | op_create_campaign ca ai co rm vt rt mt ma st ex s :
      voucher_op rl al (create_campaign ca ai co rm vt rt mt ma st ex s)
  | op_save_campaign c x fs : voucher_op rl al (save_campaign c x fs)
  | op_activate_campaign c x : voucher_op rl al (activate_campaign c x)
  | op_activate_campaigns cs : voucher_op rl al (activate_campaigns cs)
  | op_revoke_campaign c s a x : voucher_op rl al (revoke_campaign c s a x)
  | op_revoke_batch b s a x : voucher_op rl al (revoke_batch b s a x)
  | op_revoke_vouchers ids s a : voucher_op rl al (revoke_vouchers ids s a)
  | op_extend_campaign c t x : voucher_op rl al (extend_campaign_expiry c t x)
  | op_extend_voucher v t x : voucher_op rl al (extend_voucher_expiry v t x)
  | op_generate_batch size m a c x vt rt ex act :
      voucher_op rl al (generate_batch rl al size m a c x vt rt ex act)
  | op_issue_shared c m x y s t u v : voucher_op rl al (issue_shared_campaign c m x y s t u v)
  | op_issue_unique c m s t x ca b : voucher_op rl al (issue_unique_voucher c m s t x ca b)
  | op_redeem account code rid ip ua : voucher_op rl al (redeem account code rid ip ua).

(** Everything but redeeming leaves money and redemptions alone. *)
Definition no_money : Db → gmap pk Account * list CreditLedgerEntry * gmap pk VoucherRedemption :=
  λ d, (accounts d, ledger d, redemptions d).

Lemma respects_bulk_insert vs : respects (same no_money) (write (bulk_insert vs)).
Proof.
  apply respects_write; [apply _|]. intros d d' H. unfold same, no_money.
  by rewrite (bulk_insert_only _ _ _ H).
Qed.

Lemma respects_attempts R `{!PreOrder R} n : respects R (generate_attempts n).
Proof.
  induction n as [|n IH]; simpl; [by apply respects_raise|]. solve_respects.
Qed.

Lemma respects_build R `{!PreOrder R} n mk : respects R (build_vouchers n mk).
Proof.
  induction n as [|n IH]; simpl; unfold generate_unique_code; [by apply respects_ret|].
  pose proof (respects_attempts R). solve_respects.
Qed.

#[export] Hint Resolve respects_bulk_insert respects_attempts respects_build : effects.

Lemma set_field_respects R `{!PreOrder R} c f : respects R (set_field c f).
Proof. unfold set_field. solve_respects. Qed.
#[export] Hint Resolve set_field_respects : effects.

Lemma voucher_op_no_money rl al {A} (m : M A) :
  voucher_op rl al m →
  respects (same no_money) m ∨ respects (rtc redeem_step) m.
Proof.
  intros []; [left..|right; apply redeem_respects].
  all: unfold create_campaign, save_campaign, activate_campaigns, activate_campaign, revoke_campaign,
    revoke_batch, revoke_vouchers, preview_revoke_campaign, preview_revoke_batch,
    _voucher_revoke_counts, _apply_voucher_revokes, revoke_one, _require_revoke_reason,
    extend_campaign_expiry, extend_voucher_expiry, generate_batch,
    preview_batch, lock_campaign_terms, _advisory_lock_campaign, _release_version,
    issue_shared_campaign, issue_unique_voucher, _assert_updated_at; solve_respects.
Qed.

Lemma grant_step_final d account amount voucher campaign mark d' :
  grant_source d voucher campaign mark →
  grant_step account amount voucher campaign mark d d' → final_kept d d'.
Proof.
  intros [-> Hsrc] [r en d1 marked _ _ _ _ _ _ Happ Hmark ->] Hk.
  apply applied_only_money in Happ as Hom. apply (f_equal campaigns) in Hom. simpl in Hom.
  split_and!; simpl.
  - intros k v. simpl. destruct voucher as [u|]; [|subst; apply Hk].
    destruct Hmark as (row & t & Hu & ->). intros [[<- <-]|[_ Hv]]%lookup_insert_Some; [|by apply Hk]. by apply Hk in Hu.
  - destruct voucher as [u|]; [|by subst]. destruct Hmark as (row & t & Hu & ->).
    intros k v Hv Hf. rewrite lookup_insert_ne; [done|]. intros ->.
    destruct Hsrc as (row' & Hrow & Hact). destruct Hf as [Hf|Hf]; congruence.
  - intros k c Hc _. by rewrite Hom.
Qed.

Lemma redeem_step_final d d' : redeem_step d d' → final_kept d d'.
Proof.
  intros [account k v Hv Hact _ Hg|account k c _ _ _ _ _ Hg] Hk.
  - eapply grant_step_final; [|exact Hg|done]. split; [done|]. rewrite (Hk _ _ Hv). eauto.
  - by eapply grant_step_final; [|exact Hg|].
Qed.

Lemma voucher_op_final rl al {A} (m : M A) : voucher_op rl al m → respects final_kept m.
Proof.
  intros []; auto with effects. intros e w r w' H. apply redeem_respects in H.
  induction H as [|d1 d2 d3 Hs _ IH]; [done|]. etrans; [|exact IH]. by apply redeem_step_final.
Qed.

Lemma voucher_inv_same d d' :
  same no_money d d' → final_kept d d' → voucher_inv d → voucher_inv d'.
Proof.
  unfold same, no_money. intros [= Ha Hl Hr] Hf Hinv.
  destruct Hf as (Hk & Hv & _); [exact (vi_voucher d Hinv)|].
  split; rewrite ?Hr, ?Hl; try apply Hinv; [done|].
  intros k r v Hkr Hrv. destruct (vi_redeemed d Hinv _ _ _ Hkr Hrv) as (row & Hrow & Hst).
  exists row. split; [|done]. apply Hv; [done|by left].
Qed.

Lemma ledger_inv_same d d' : same no_money d d' → ledger_inv d → ledger_inv d'.
Proof.
  unfold same, no_money. intros [= Ha Hl Hr] [].
  by split; rewrite ?Ha, ?Hl.
Qed.

(** ** Properties *)

(** C4: No operation of the voucher system, administrative or redeeming, ever
    changes a redeemed or revoked voucher or a revoked campaign. *)
Theorem terminal_rows_are_final rl al A (m : M A) :
  voucher_op rl al m → respects final_kept m.
Proof. apply voucher_op_final. Qed.

(** C3: Every operation of the voucher system, administrative or redeeming,
    keeps the voucher and ledger invariants; so does every sequence of them. *)
Theorem voucher_system_invariant rl al A (m : M A) :
  voucher_op rl al m → respects (preserves (λ d, voucher_inv d ∧ ledger_inv d)) m.
Proof.
  intros Hop e w r w' H. pose proof (voucher_op_final _ _ _ Hop _ _ _ _ H) as Hf.
  destruct (voucher_op_no_money _ _ _ Hop) as [Hs|Hs].
  - apply Hs in H. intros [Hv Hl].
    split; [by eapply voucher_inv_same|by eapply ledger_inv_same].
  - apply Hs in H. exact (redeem_keeps_inv _ _ H).
Qed.

(** A campaign revocation does what it reports: it returns how many
    vouchers the campaign has, how many were redeemed, and one more than how
    many were still revocable; afterwards the campaign is [REVOKED], exactly
    the revocable vouchers of the campaign have become [REVOKED] with the
    reason and actor given, and every other voucher is as it was. *)
Theorem revoke_campaign_outcome c reason actor x e w i w' :
  revoke_campaign c reason actor x e w = (Ok i, w') → vouchers_keyed (db w) →
  campaigns_keyed (db w) →
  affected i = (qcount (in_campaign c) (vouchers (db w)) + 1)%nat ∧
  already_redeemed i = qcount (λ v, in_campaign c v && bool_decide (vou_status v = VOU_REDEEMED))
    (vouchers (db w)) ∧
  revoked_now i = (qcount (λ v, in_campaign c v && revocable v) (vouchers (db w)) + 1)%nat ∧
  (camp_status <$> campaigns (db w') !! c) = Some CAMP_REVOKED ∧
  (∃ r at_, revoke_reason_value r = reason ∧
     vouchers_revoked (in_campaign c) r (_actor_id actor) at_ (db w) (db w')) ∧
  qcount (λ v, in_campaign c v && revocable v) (vouchers (db w')) = 0%nat.
Proof.
  intros H Hk Hck. apply atomic_Ok in H as (w2 & H & Hend). inv_run H.
  pose proof (require_reason_value _ _ _ _ _ Hrun) as Hreason.
  inv_call require_reason_Ok as ->. inv_call assert_updated_Ok as ->. bool_to_prop.
  inv_call preview_campaign_Ok as (-> & Ha & Hr & Hn). simpl in *.
  pose proof (Hck _ _ H0) as Hid. rewrite Hid in *. rewrite bool_decide_false in Hn by done.
  inv_call apply_revokes_Ok as ((m & Hm) & Hk' & -> & Hrev & Hnone & _); [|done]. simpl in *.
  destruct Hend as [[? _]|[_ ->]]; [congruence|]. simpl. rewrite lookup_insert_eq.
  split_and!; [done..|by exists a, (clock e (tick w))|].
  apply qcount_zero. intros k v' Hv'. destruct (vouchers (db w) !! k) as [v0|] eqn:E.
  - specialize (Hrev k v0 E). case_match.
    + destruct Hrev as [t Ht]. rewrite Ht in Hv'. simplify_eq.
      unfold revocable. simpl. apply andb_false_r.
    + congruence.
  - rewrite Hnone in Hv'; done.
Qed.

Lemma voucher_verdict_fresh d v j u :
  voucher_verdict d v = None → vouchers d !! j = Some u → vou_code u = vou_code v →
  vou_id u = vou_id v.
Proof.
  unfold voucher_verdict. intros H Hu Hc. repeat (case_match; simplify_eq/=).
  match goal with H : qexists _ _ = false |- _ => rewrite qexists_false in H; specialize (H j u Hu) end.
  rewrite bool_decide_true in * by done. simpl in *. by bool_to_prop.
Qed.

Lemma bulk_insert_absent vs d d' u :
  bulk_insert vs d = Ok d' → u ∈ vs → vouchers d !! vou_id u = None.
Proof.
  revert d. induction vs as [|v vs IH]; intros d H Hin; [by apply not_elem_of_nil in Hin|].
  simpl in H. split_cases. apply elem_of_cons in Hin as [->|Hin]; [done|].
  specialize (IH _ H Hin). simpl in IH. by apply lookup_insert_None in IH as [? _].
Qed.

Lemma bulk_insert_code vs d d' j v u :
  bulk_insert vs d = Ok d' → vouchers d !! j = Some v → vou_id v = j → u ∈ vs →
  vou_code u ≠ vou_code v.
Proof.
  revert d. induction vs as [|x vs IH]; intros d H Hj Hid Hin Hc; [by apply not_elem_of_nil in Hin|].
  simpl in H. split_cases. apply elem_of_cons in Hin as [->|Hin].
  - match goal with Hx : voucher_verdict d x = None |- _ =>
      pose proof (voucher_verdict_fresh _ _ _ _ Hx Hj (eq_sym Hc)) end. congruence.
  - eapply (IH _ H); [|done..]. simpl. rewrite lookup_insert_ne; [done|congruence].
Qed.

Lemma bulk_insert_spec vs d d' :
  bulk_insert vs d = Ok d' →
  (∀ k v, vouchers d !! k = Some v → vouchers d' !! k = Some v) ∧
  (∀ v, v ∈ vs → vouchers d' !! vou_id v = Some v) ∧
  NoDup (vou_code <$> vs) ∧
  (∀ P, qcount P (vouchers d') = (length (List.filter P vs) + qcount P (vouchers d))%nat).
Proof.
  revert d. induction vs as [|v vs IH]; intros d; simpl.
  { intros [= <-]. split_and!; [done|by intros v ?%not_elem_of_nil|constructor|done]. }
  intros H. destruct (vouchers d !! vou_id v) eqn:Hn; [done|].
  destruct (voucher_verdict d v) eqn:Hver; [done|].
  destruct (IH _ H) as (Hold & Hnew & Hnd & Hcnt). simpl in *. split_and!.
  - intros k u Hu. apply Hold. rewrite lookup_insert_ne; [done|congruence].
  - intros u [->|Hu]%elem_of_cons; [apply Hold; by rewrite lookup_insert_eq|by apply Hnew].
  - csimpl. constructor; [|done]. intros (u & Hu & Hin)%list_elem_of_fmap.
    eapply (bulk_insert_code _ _ _ (vou_id v) v u H); [|done..]. simpl. by rewrite lookup_insert_eq.
  - intros P. rewrite Hcnt, qcount_insert_fresh by done. case_match; simpl; lia.
Qed.

Lemma filter_all {V} (P : V → bool) l : (∀ v, v ∈ l → P v = true) → List.filter P l = l.
Proof.
  induction l as [|v l IH]; intros H; simpl; [done|]. rewrite H by (by left).
  f_equal. apply IH. intros u Hu. apply H. by right.
Qed.

(** A generated batch is exactly what was asked for: [size] new vouchers
    belong to it, all of them unique-mode with distinct canonical codes that
    no voucher or campaign held before, and every voucher that existed is
    unchanged. *)
Theorem generate_batch_outcome rl al size amount ai c x vt rt exp act e w b w' :
  generate_batch rl al size amount ai c x vt rt exp act e w = (Ok b, w') →
  ∃ vs, length vs = Z.to_nat size ∧ NoDup (vou_code <$> vs) ∧
    qcount (in_batch (batch_id b)) (vouchers (db w')) =
      (Z.to_nat size + qcount (in_batch (batch_id b)) (vouchers (db w)))%nat ∧
    (∀ k v, vouchers (db w) !! k = Some v → vouchers (db w') !! k = Some v) ∧
    (∀ v, v ∈ vs → vouchers (db w') !! vou_id v = Some v ∧
       vou_batch v = Some (batch_id b) ∧ vou_redemption_mode v = UNIQUE ∧
       code_shape (vou_code v) ∧ code_free (vou_code v) None None (db w)).
Proof.
  intros H. apply generate_batch_Ok in H as (_ & _ & vs & b0 & d1 & Hlen & Hvs & Hins & ->).
  destruct (bulk_insert_spec _ _ _ Hins) as (Hold & Hnew & Hnd & Hcnt). simpl in *.
  exists vs. split_and!; [done|done|..|done|].
  - rewrite Hcnt, filter_all; [by rewrite Hlen|]. intros v Hv.
    destruct (Hvs v Hv) as [Hb _]. unfold in_batch. by rewrite Hb, bool_decide_true.
  - intros v Hv. split; [by apply Hnew|]. by apply Hvs.
Qed.

(** ** Concrete runs *)

Definition admin_db : Db :=
  empty_db <| campaigns := {[ 5%N := mkCampaign 5 (Some "SUMMER") SHARED PROMO FIXED_CREDIT
      3000000 None (Some 1%N) None None CAMP_ACTIVE None ISSUER_ADMIN "" None "" 0 ]} |>
    <| vouchers := {[ 20%N := sample_voucher <| vou_campaign := Some 5%N |> ]} |>.

Lemma admin_db_keyed : vouchers_keyed admin_db ∧ campaigns_keyed admin_db.
Proof.
  split; intros k v; unfold admin_db; simpl; by intros [<- <-]%lookup_singleton_Some.
Qed.

Lemma revoke_campaign_outcome_witness :
  ∃ i w', revoke_campaign 5 "fraud" (Some "9") None sample_env (world_of admin_db) = (Ok i, w') ∧
    revoked_now i = 2%nat ∧ qcount (λ v, in_campaign 5 v && revocable v) (vouchers (db w')) = 0%nat.
Proof.
  destruct (revoke_campaign 5 "fraud" (Some "9") None sample_env (world_of admin_db))
    as [[i|x] w'] eqn:E; [|vm_compute in E; discriminate E].
  destruct (revoke_campaign_outcome 5 "fraud" (Some "9") None sample_env (world_of admin_db) i w' E)
    as (_ & _ & Hn & _ & _ & H0); [apply admin_db_keyed..|].
  exists i, w'. split; [reflexivity|]. split; [|exact H0]. rewrite Hn. vm_compute. reflexivity.
Defined.

Lemma terminal_rows_are_final_witness :
  respects final_kept (redeem 1 (Some "SUMMER") "r" "" "").
Proof.
  apply (terminal_rows_are_final (λ _, false) (λ _, false) _ _).
  apply (op_redeem (λ _, false) (λ _, false) 1 (Some "SUMMER") "r" "" "").
Defined.

Lemma voucher_system_invariant_witness :
  respects (preserves (λ d, voucher_inv d ∧ ledger_inv d)) (revoke_vouchers [20%N] "fraud" None).
Proof.
  apply (voucher_system_invariant (λ _, false) (λ _, false) _ _).
  apply (op_revoke_vouchers (λ _, false) (λ _, false) [20%N] "fraud" None).
Defined.

Lemma generate_batch_outcome_witness :
  ∃ b w', generate_batch (λ _, false) (λ _, false) 3 7000000 (Some "9") None None GIFT FIXED_CREDIT
      None true sample_env (world_of admin_db) = (Ok b, w') ∧
    qcount (in_batch (batch_id b)) (vouchers (db w')) = 3%nat.
Proof.
  destruct (generate_batch (λ _, false) (λ _, false) 3 7000000 (Some "9") None None GIFT FIXED_CREDIT
      None true sample_env (world_of admin_db)) as [[b|x] w'] eqn:E;
    [|vm_compute in E; discriminate E].
  destruct (generate_batch_outcome _ _ _ _ _ _ _ _ _ _ _ _ _ _ _ E) as (vs & _ & _ & Hc & _).
  exists b, w'. split; [reflexivity|]. rewrite Hc.
  injection E as <- _. vm_compute. reflexivity.
Defined.
