(* ===== verification/Settlement.v ===== *)
(** * Settlement accounts

    [apps/billing/services/partner_settlement.py]: the account that settles a
    partner channel, found from the channel's owner and never created. *)

From S2P Require Import Prelude Tables Money Models EsimModels World Effects.

(** [owner.billing_account], [account.organization]: the reverse side of a
    one-to-one link. *)
Definition account_of_user (user : pk) (d : Db) : option Account :=
  qfirst (λ a, bool_decide (acc_user a = Some user)) (accounts d).
Definition organization_of_account (account : pk) (d : Db) : option Organization :=
  qfirst (λ o, (org_account o =? account)%N) (organizations d).

Definition _require_individual_owner (channel : PartnerChannel) : M unit :=
  raise_if (match ch_owner_user channel, ch_organization channel with
            | Some _, None => false | _, _ => true end) PartnerChannelOwnershipInvalid.

Definition _require_team_owner (channel : PartnerChannel) : M unit :=
  raise_if (match ch_organization channel, ch_owner_user channel with
            | Some _, None => false | _, _ => true end) PartnerChannelOwnershipInvalid.

Definition _is_owner_personal_account (account : Account) (owner_user_id : pk) : M bool :=
  if negb (bool_decide (acc_kind account = PERSONAL)) then ret false
  else if negb (bool_decide (acc_user account = Some owner_user_id)) then ret false
  else
    let! linked := query (λ d, qexists (λ o, (org_account o =? acc_id account)%N)
                                 (organizations d)) in
    ret (negb linked).

Definition _is_organization_account (account : Account) (organization : Organization) : M bool :=
  if negb (bool_decide (acc_kind account = ORGANIZATION)) ||
     negb (bool_decide (acc_user account = None)) then ret false
  else if negb (org_account organization =? acc_id account)%N then ret false
  else
    let! linked := query (organization_of_account (acc_id account)) in
    match linked with
    | None => ret false
    | Some o => ret (org_id o =? org_id organization)%N
    end.

Definition _personal_settlement_account (channel : PartnerChannel) : M Account :=
  match ch_owner_user channel with
  | None => raise PartnerChannelOwnershipInvalid
  | Some owner_id =>
      let! owner := get users owner_id in
      raise_if (negb (user_id owner =? owner_id)%N) PartnerChannelOwnershipInvalid;;;
      let! account := query (account_of_user (user_id owner)) in
      match account with
      | None => raise PartnerSettlementAccountMissing
      | Some a =>
          let! ok := _is_owner_personal_account a owner_id in
          raise_if (negb ok) PartnerSettlementAccountMissing;;;
          ret a
      end
  end.

Definition _organization_settlement_account (channel : PartnerChannel) : M Account :=
  match ch_organization channel with
  | None => raise PartnerChannelOwnershipInvalid
  | Some organization_id =>
      let! organization := get organizations organization_id in
      raise_if (negb (org_id organization =? organization_id)%N) PartnerChannelOwnershipInvalid;;;
      let! account := query (λ d, accounts d !! org_account organization) in
      match account with
      | None => raise PartnerSettlementAccountMissing
      | Some a =>
          let! ok := _is_organization_account a organization in
          raise_if (negb ok) PartnerSettlementAccountMissing;;;
          ret a
      end
  end.

(** [resolve_partner_settlement_account] *)
Definition resolve_partner_settlement_account (channel : PartnerChannel) : M Account :=
  match ch_kind channel with
  | INDIVIDUAL => _require_individual_owner channel;;; _personal_settlement_account channel
  | TEAM => _require_team_owner channel;;; _organization_settlement_account channel
  end.

(** ** What it resolves to *)

(** The account settles the channel: the owner's personal account, which no
    organization points at, or the organization's own account, which points
    back to it and only to it. *)
Definition settles (d : Db) (channel : PartnerChannel) (a : Account) : Prop :=
  (∃ k, accounts d !! k = Some a) ∧
  match ch_kind channel with
  | INDIVIDUAL => ∃ owner, ch_owner_user channel = Some owner ∧ ch_organization channel = None ∧
      acc_kind a = PERSONAL ∧ acc_user a = Some owner ∧
      ∀ j o, organizations d !! j = Some o → org_account o ≠ acc_id a
  | TEAM => ∃ org o, ch_organization channel = Some org ∧ ch_owner_user channel = None ∧
      organizations d !! org = Some o ∧ org_id o = org ∧ org_account o = acc_id a ∧
      acc_kind a = ORGANIZATION ∧ acc_user a = None ∧
      org_id <$> organization_of_account (acc_id a) d = Some org
  end.

Lemma resolve_Ok channel e w a w' :
  resolve_partner_settlement_account channel e w = (Ok a, w') →
  w' = w ∧ settles (db w) channel a.
Proof.
  unfold resolve_partner_settlement_account, _require_individual_owner, _require_team_owner,
    _personal_settlement_account, _organization_settlement_account,
    _is_owner_personal_account, _is_organization_account, settles. intros H. inv_run H.
  - bool_to_prop. destruct (ch_organization channel); [done|]. simplify_eq.
    match goal with H : account_of_user _ _ = Some _ |- _ =>
      apply qfirst_Some in H as (k & Hk & _) end.
    split_and!; [done|eauto|]. eexists. split_and!; [done..|]. intros j o Ho.
    match goal with H : qexists _ _ = false |- _ => rewrite qexists_false in H; specialize (H j o Ho) end.
    by bool_to_prop.
  - bool_to_prop. destruct (ch_owner_user channel); [done|]. simplify_eq.
    split_and!; [done|eauto|]. do 2 eexists. split_and!; try done.
    match goal with H : organization_of_account _ _ = Some _ |- _ => rewrite H end.
    simpl. by f_equal.
Qed.

Lemma respects_resolve R `{!PreOrder R} channel :
  respects R (resolve_partner_settlement_account channel).
Proof.
  unfold resolve_partner_settlement_account, _require_individual_owner, _require_team_owner,
    _personal_settlement_account, _organization_settlement_account,
    _is_owner_personal_account, _is_organization_account. solve_respects.
Qed.
Lemma clean_resolve channel : clean (resolve_partner_settlement_account channel).
Proof.
  unfold resolve_partner_settlement_account, _require_individual_owner, _require_team_owner,
    _personal_settlement_account, _organization_settlement_account,
    _is_owner_personal_account, _is_organization_account. solve_clean.
Qed.
#[export] Hint Resolve respects_resolve clean_resolve : effects.

(** ** Properties *)

(** Settlement is side-effect free and keeps programs apart: an account it
    returns is the owner's own personal account or the owning organization's
    own account, and two channels that resolve to the same account have the
    same kind and the same owner. *)
Theorem settlement_accounts_disjoint c1 c2 a e w w1 w2 :
  resolve_partner_settlement_account c1 e w = (Ok a, w1) →
  resolve_partner_settlement_account c2 e w = (Ok a, w2) →
  w1 = w ∧ settles (db w) c1 a ∧
  ch_kind c1 = ch_kind c2 ∧ ch_owner_user c1 = ch_owner_user c2 ∧
  ch_organization c1 = ch_organization c2.
Proof.
  intros (-> & H1)%resolve_Ok (-> & H2)%resolve_Ok. split; [done|]. split; [done|].
  unfold settles in *. destruct H1 as [_ H1], H2 as [_ H2].
  destruct (ch_kind c1), (ch_kind c2);
    repeat match goal with H : ∃ _, _ |- _ => destruct H as [? H] end;
    destruct_and!; split_and!; congruence.
Qed.

(** ** A personal and a team channel *)

Definition channel_db : Db :=
  empty_db <| users := {[ 7%N := mkUser 7 true "" false; 8%N := mkUser 8 true "" false ]} |>
    <| accounts := {[ 1%N := mkAccount 1 (Some 7%N) PERSONAL 0 0 None;
                      2%N := mkAccount 2 None ORGANIZATION 0 0 None;
                      3%N := mkAccount 3 (Some 8%N) PERSONAL 50000000 0 None ]} |>
    <| organizations := {[ 4%N := mkOrganization 4 "Team" ORG_ACTIVE 2 ]} |>.
Definition team_channel : PartnerChannel := mkChannel 30 TEAM None (Some 4%N) 2000 true.
Definition solo_channel : PartnerChannel := mkChannel 31 INDIVIDUAL (Some 7%N) None 1000 true.

Lemma settlement_accounts_disjoint_witness :
  settles channel_db team_channel (mkAccount 2 None ORGANIZATION 0 0 None).
Proof.
  refine (proj1 (proj2 (settlement_accounts_disjoint team_channel team_channel
    (mkAccount 2 None ORGANIZATION 0 0 None) sample_env (world_of channel_db) (world_of channel_db)
    (world_of channel_db) _ _))); vm_compute; reflexivity.
Defined.
