(* ===== verification/Margin.v ===== *)
(** * Partner margin

    [apps/billing/services/partner_margin.py]: the commission a partner
    channel earns on a purchase by a customer attributed to it. *)

From S2P Require Import Prelude Tables Money Models EsimModels World Effects Credit Settlement.
#[local] Open Scope Z_scope.

(** [build_source_id] *)
Definition build_source_id (source_type : SourceType) (source_uuid : pk)
    (billing_date : option date) : M string :=
  match source_type with
  | SRC_SUBSCRIPTION =>
      match billing_date with
      | None => raise (ValueError "subscription source_id requires billing_date")
      | Some d => ret (str source_uuid +:+ ":" +:+ isoformat d)
      end
  | _ => ret (str source_uuid)
  end.

(** [partner_channel_can_accrue_for_customer] *)
Definition active_member (organization user : pk) (d : Db) : bool :=
  qexists (λ m, (mem_organization m =? organization)%N && (mem_user m =? user)%N &&
                bool_decide (mem_status m = MEM_ACTIVE)) (memberships d).

Definition partner_channel_can_accrue_for_customer (channel : PartnerChannel) (customer : pk)
    : M bool :=
  if bool_decide (ch_kind channel = INDIVIDUAL) &&
     bool_decide (ch_owner_user channel = Some customer)
  then ret false
  else match ch_kind channel, ch_organization channel with
       | TEAM, Some organization =>
           let! member := query (active_member organization customer) in
           ret (negb member)
       | _, _ => ret true
       end.

(** The reasons of [_price_skip]. *)
Inductive Skip := NET_MISSING | INVALID_MARGIN | NET_NEGATIVE | ZERO_SHARE.

(** [PartnerMarginService._price_skip] *)
Definition _price_skip (list_price net_price : option money) (p : percent) : option Skip :=
  match net_price with
  | None => Some NET_MISSING
  | Some net =>
      match list_price with
      | None => Some INVALID_MARGIN
      | Some lst =>
          if net <? 0 then Some NET_NEGATIVE
          else if lst <? net then Some INVALID_MARGIN
          else if p <=? 0 then Some ZERO_SHARE
          else None
      end
  end.

(** [PartnerMarginAccrual.save], [.delete] *)
Definition accrual_save_guard (adding : bool) : M unit :=
  raise_if (negb adding) AppendOnlyViolation.

(** The unique constraints and column ranges of the accrual table. *)
Definition same_source (t : SourceType) (id : string) (a : PartnerMarginAccrual) : bool :=
  bool_decide (accr_source_type a = t) && bool_decide (accr_source_id a = id).

Definition accrual_verdict (d : Db) (a : PartnerMarginAccrual) : option Exn :=
  if negb (fits_numeric (accr_list_price a) && fits_numeric (accr_net_price a) &&
           fits_numeric (accr_margin a) && fits_numeric (accr_partner_share a))
  then Some DataError
  else if qexists (λ b, same_source (accr_source_type a) (accr_source_id a) b ||
                        (accr_ledger_entry b =? accr_ledger_entry a)%N) (accruals d)
  then Some IntegrityError
  else None.

(** The idempotency key of an accrual's credit. *)
Definition margin_key (t : SourceType) (id : string) : string :=
  "partner-margin:" +:+ source_value t +:+ ":" +:+ id.

(** The part of [accrue] after the skips: settle, credit, record. *)
Definition post_accrual (source_type : SourceType) (source_id : string) (customer : pk)
    (attribution : CustomerAttribution) (channel : PartnerChannel)
    (list_price net_price margin partner_share : money) : M PartnerMarginAccrual :=
  let! settlement_account := resolve_partner_settlement_account channel in
  let! accrual_id := uuid4 in
  let! entry := credit (acc_id settlement_account) (AMoney partner_share)
    (RefEnum PARTNER_MARGIN) (str accrual_id) (margin_key source_type source_id) in
  accrual_save_guard true;;;
  let accrual := mkAccrual accrual_id (ch_id channel) (Some customer) (attr_user attribution)
    (Some (attr_id attribution)) source_type source_id list_price net_price margin
    (ch_revenue_share_percent channel) partner_share (le_id entry) in
  create accruals accrual_verdict accrual_id accrual;;;
  ret accrual.

(** [PartnerMarginService.accrue] *)
Definition accrue (source_type : SourceType) (source_id : string)
    (list_price net_price : option money) (customer : option pk)
    : M (option PartnerMarginAccrual) :=
  let! enabled := asks PARTNER_CHANNEL_ENABLED in
  if negb enabled then ret None
  else match customer with
  | None => ret None
  | Some customer =>
      let! attribution := locked_query (λ d,
        qfirst (λ a, (attr_user a =? customer)%N) (attributions d)) in
      match attribution with
      | None => ret None
      | Some attribution =>
          let! channel := get_locked channels (attr_partner_channel attribution) in
          let! existing := query (λ d, qfirst (same_source source_type source_id) (accruals d)) in
          match existing with
          | Some accrual => ret (Some accrual)
          | None =>
              if negb (ch_is_active channel) then ret None
              else
                let! can := partner_channel_can_accrue_for_customer channel customer in
                if negb can then ret None
                else match _price_skip list_price net_price (ch_revenue_share_percent channel),
                           list_price, net_price with
                | None, Some lst, Some net =>
                    let margin := lst - net in
                    let partner_share := share_of margin (ch_revenue_share_percent channel) in
                    if partner_share =? 0 then ret None
                    else
                      let! accrual := post_accrual source_type source_id customer attribution
                        channel lst net margin partner_share in
                      ret (Some accrual)
                | _, _, _ => ret None
                end
          end
      end
  end.

(** ** What an accrual does *)

(** The customer is not the channel's own: not its owner, not an active member
    of its organization. *)
Definition outsider (d : Db) (channel : PartnerChannel) (customer : pk) : Prop :=
  match ch_kind channel with
  | INDIVIDUAL => ch_owner_user channel ≠ Some customer
  | TEAM => ∀ org, ch_organization channel = Some org → active_member org customer d = false
  end.

Inductive accrued (t : SourceType) (id : string) (list_price net_price : option money)
    (customer : option pk) (d d' : Db) : option PartnerMarginAccrual → Prop :=
  | accrued_skip : d' = d → accrued t id list_price net_price customer d d' None
  | accrued_replay a :
      qfirst (same_source t id) (accruals d) = Some a → d' = d →
      accrued t id list_price net_price customer d d' (Some a)
  | accrued_new a user att channel account en d1 lst net :
      customer = Some user → list_price = Some lst → net_price = Some net →
      qfirst (λ a, (attr_user a =? user)%N) (attributions d) = Some att →
      channels d !! attr_partner_channel att = Some channel →
      ch_is_active channel = true → outsider d channel user →
      0 ≤ net ≤ lst → 0 < ch_revenue_share_percent channel →
      qfirst (same_source t id) (accruals d) = None →
      settles d channel account →
      applied (acc_id account) (accr_partner_share a) PARTNER_MARGIN (str (accr_id a))
        (margin_key t id) d d1 en →
      a = mkAccrual (accr_id a) (ch_id channel) (Some user) (attr_user att) (Some (attr_id att))
            t id lst net (lst - net) (ch_revenue_share_percent channel)
            (share_of (lst - net) (ch_revenue_share_percent channel)) (le_id en) →
      accruals d1 !! accr_id a = None → accrual_verdict d1 a = None →
      0 < accr_partner_share a →
      d' = put accruals (accr_id a) a d1 →
      accrued t id list_price net_price customer d d' (Some a).

Lemma can_accrue_Ok channel customer e w b w' :
  partner_channel_can_accrue_for_customer channel customer e w = (Ok b, w') →
  w' = w ∧ (b = true → outsider (db w) channel customer).
Proof.
  unfold partner_channel_can_accrue_for_customer, outsider. intros H. inv_run H; bool_to_prop.
  - done.
  - split; [done|]. intros _ E. destruct_or?; bool_to_prop; congruence.
  - split; [done|]. intros Hb org [= ->]. by bool_to_prop.
  - split; [done|]. intros _ org [=].
Qed.

Lemma post_accrual_Ok t id user att channel lst net m share e w a w' :
  post_accrual t id user att channel lst net m share e w = (Ok a, w') →
  ∃ account en d1, settles (db w) channel account ∧
    applied (acc_id account) share PARTNER_MARGIN (str (accr_id a)) (margin_key t id)
      (db w) d1 en ∧
    a = mkAccrual (accr_id a) (ch_id channel) (Some user) (attr_user att) (Some (attr_id att))
          t id lst net m (ch_revenue_share_percent channel) share (le_id en) ∧
    accruals d1 !! accr_id a = None ∧ accrual_verdict d1 a = None ∧ 0 < share ∧
    db w' = put accruals (accr_id a) a d1.
Proof.
  unfold post_accrual, accrual_save_guard, credit. intros H. inv_run H.
  inv_call resolve_Ok as (-> & Hset).
  inv_call apply_money as (Happ & _ & Hb). simpl in *.
  eexists a0, a1, (db w1). split_and!; (done || lia).
Qed.

Lemma price_skip_None lst net p :
  _price_skip (Some lst) (Some net) p = None ↔ 0 ≤ net ≤ lst ∧ 0 < p.
Proof.
  unfold _price_skip. destruct (Z.ltb_spec net 0), (Z.ltb_spec lst net), (Z.leb_spec p 0);
    split; intros; first [done|lia].
Qed.

Lemma accrue_Ok t id lst net customer e w r w' :
  accrue t id lst net customer e w = (Ok r, w') →
  accrued t id lst net customer (db w) (db w') r.
Proof.
  unfold accrue. intros H. inv_run H; try by apply accrued_skip.
  all: try by apply accrued_replay.
  all: inv_call can_accrue_Ok as (-> & Hout); try by apply accrued_skip.
  bool_to_prop. simplify_eq.
  apply (price_skip_None z z0) in Hif2 as [Hb Hp].
  inv_call post_accrual_Ok as (account & en & d1 & Hset & Happ & Ha & Hf & Hv & Hs & Hdb).
  eapply accrued_new; try done; [by apply Hout| |by rewrite Ha].
  rewrite Ha in Happ |- *. exact Happ.
Qed.

(** ** The margin invariant *)

Lemma source_no_colon t : no_colon (source_value t).
Proof. by destruct t. Qed.

Lemma margin_key_inj t id t' id' : margin_key t id = margin_key t' id' → t = t' ∧ id = id'.
Proof.
  unfold margin_key. intros H%(inj (String.append "partner-margin:")).
  apply colon_split in H as [Ht ->]; [|apply source_no_colon..].
  split; [|done]. by destruct t, t'.
Qed.

(** One accrual per source and per ledger entry, each paid by the entry under
    its source's key, a positive share no larger than the margin. *)
Record margin_inv (d : Db) : Prop := {
  mi_channels : ∀ k c, channels d !! k = Some c → channel_checks c = true;
  mi_keyed : ∀ k a, accruals d !! k = Some a → accr_id a = k;
  mi_source : ∀ j k a b, accruals d !! j = Some a → accruals d !! k = Some b →
    accr_source_type a = accr_source_type b → accr_source_id a = accr_source_id b → j = k;
  mi_funded : ∀ k a, accruals d !! k = Some a →
    ∃ en, find_entry (margin_key (accr_source_type a) (accr_source_id a)) (ledger d) = Some en ∧
      le_id en = accr_ledger_entry a ∧ le_delta en = accr_partner_share a;
  mi_share : ∀ k a, accruals d !! k = Some a →
    accr_margin a = accr_list_price a - accr_net_price a ∧
    0 < accr_partner_share a ≤ accr_margin a;
  mi_keys : ∀ en t id, en ∈ ledger d → le_idempotency_key en = margin_key t id →
    ∃ k a, accruals d !! k = Some a ∧ accr_source_type a = t ∧ accr_source_id a = id;
}.

Lemma same_source_true t id a :
  same_source t id a = true ↔ accr_source_type a = t ∧ accr_source_id a = id.
Proof. unfold same_source. by rewrite andb_true_iff, !bool_decide_eq_true. Qed.

(** The entry of a new accrual is itself new. *)
Lemma accrual_applied d d1 account t id share rid en :
  margin_inv d → qfirst (same_source t id) (accruals d) = None →
  applied account share PARTNER_MARGIN rid (margin_key t id) d d1 en →
  ledger d1 = ledger d ++ [en] ∧ accruals d1 = accruals d ∧ channels d1 = channels d ∧
  find_entry (margin_key t id) (ledger d) = None ∧ le_delta en = share ∧
  le_idempotency_key en = margin_key t id.
Proof.
  intros Hinv Hnone [Hf ->|]; [|by subst].
  apply find_entry_Some in Hf as [Hin Hk].
  destruct (mi_keys d Hinv en t id Hin Hk) as (k & a & Ha & Hs).
  rewrite qfirst_None in Hnone. specialize (Hnone k a Ha).
  apply same_source_true in Hs. congruence.
Qed.

Lemma accrued_margin_inv t id lst net customer d d' r :
  accrued t id lst net customer d d' r → margin_inv d → margin_inv d'.
Proof.
  intros [->|a Hf ->|a user att channel account en d1 l n -> -> -> Hatt Hch Hact Hout Hb Hp Hnone
    Hset Happ Ha Hfresh Hv Hs ->] Hinv; [done..|].
  destruct (accrual_applied _ _ _ _ _ _ _ _ Hinv Hnone Happ) as (Hl & Hac & Hc & Hf & Hd & Hk).
  rewrite Hac in Hfresh. rewrite qfirst_None in Hnone.
  assert (Hno : ∀ k b, accruals d !! k = Some b → accr_source_type b = t → accr_source_id b ≠ id).
  { intros k b Hb1 Ht Hid. specialize (Hnone k b Hb1).
    assert (same_source t id b = true) by (by apply same_source_true). congruence. }
  split; simpl; rewrite ?Hl, ?Hac, ?Hc; rewrite Ha in *; simpl in *.
  - apply Hinv.
  - intros k b [[<- <-]|[_ Hb1]]%lookup_insert_Some; [done|by apply Hinv].
  - intros j k b b' [[<- <-]|[_ Hb1]]%lookup_insert_Some [[<- <-]|[_ Hb2]]%lookup_insert_Some;
      simpl; intros Ht Hid; [done|..|by eapply (mi_source d Hinv)].
    + by destruct (Hno _ _ Hb2 (eq_sym Ht)).
    + by destruct (Hno _ _ Hb1 Ht).
  - intros k b [[<- <-]|[_ Hb1]]%lookup_insert_Some; simpl.
    + exists en. by rewrite find_entry_snoc.
    + destruct (mi_funded d Hinv k b Hb1) as (en' & He & ?). exists en'.
      split; [by apply find_entry_app_l|done].
  - intros k b [[<- <-]|[_ Hb1]]%lookup_insert_Some; simpl; [|by eapply (mi_share d Hinv)].
    split; [done|]. split; [done|]. apply (mi_channels d Hinv) in Hch.
    unfold channel_checks in Hch. bool_to_prop. apply share_of_bounds; lia.
  - intros en' t' id' [Hin| ->%list_elem_of_singleton]%elem_of_app Hk'.
    + destruct (mi_keys d Hinv en' t' id' Hin Hk') as (k & b & Hb1 & ?).
      exists k, b. split; [|done]. rewrite lookup_insert_ne; [done|congruence].
    + rewrite Hk in Hk'. apply margin_key_inj in Hk' as [<- <-].
      do 2 eexists. split; [apply lookup_insert_eq|done].
Qed.

Lemma accrued_ledger_inv t id lst net customer d d' r :
  accrued t id lst net customer d d' r → ledger_inv d → ledger_inv d'.
Proof.
  intros [->|a Hf ->|a user att channel account en d1 l n _ _ _ _ _ _ _ _ _ _ _ Happ _ _ _ _ ->] Hinv;
    [done..|]. by apply ledger_inv_applied in Happ; [destruct Happ; split|].
Qed.

(** An entry under any other key leaves the margin invariant alone. *)
Lemma margin_inv_applied account delta t rid key d d' en :
  applied account delta t rid key d d' en → (∀ t id, key ≠ margin_key t id) →
  margin_inv d → margin_inv d'.
Proof.
  intros [? ->|] Hkey Hinv; [done|]. subst. split; simpl; try apply Hinv.
  - intros k b Hb. destruct (mi_funded d Hinv k b Hb) as (en' & He & ?). exists en'.
    split; [by apply find_entry_app_l|done].
  - intros en' t' id' [Hin| ->%list_elem_of_singleton]%elem_of_app Hk'.
    + by eapply (mi_keys d Hinv).
    + by destruct (Hkey t' id').
Qed.

Lemma clean_accrue t id lst net customer : clean (accrue t id lst net customer).
Proof.
  unfold accrue, partner_channel_can_accrue_for_customer, post_accrual, accrual_save_guard.
  solve_clean.
Qed.
#[export] Hint Resolve clean_accrue : effects.

(** Committed by a transaction of the caller's. *)
Lemma atomic_accrue_respects (R : relation Db) `{!PreOrder R} t id lst net customer :
  (∀ d d' r, accrued t id lst net customer d d' r → R d d') →
  respects R (atomic (accrue t id lst net customer)).
Proof. intros HR. apply respects_atomic_Ok; [done|]. intros e w a w' H%accrue_Ok. by eapply HR. Qed.

(** ** Properties *)

(** C5: Whatever [accrue] returns, it did one of three things: skipped and
    changed nothing; returned the accrual already recorded for the source and
    changed nothing; or, for an active channel whose owner or members the
    customer is not among, credited the settlement account with the half-up
    share of [list - net] and recorded it, a positive share at most the
    margin. *)
Theorem accrue_outcome t id lst net customer e w r w' :
  accrue t id lst net customer e w = (Ok r, w') →
  (∀ k c, channels (db w) !! k = Some c → channel_checks c = true) →
  accrued t id lst net customer (db w) (db w') r ∧
  (∀ a, r = Some a → qfirst (same_source t id) (accruals (db w)) = None →
     0 < accr_partner_share a ≤ accr_margin a ∧
     accr_partner_share a = share_of (accr_margin a) (accr_revenue_share_percent a)).
Proof.
  intros H Hch. apply accrue_Ok in H. split; [done|]. intros a -> Hnone.
  inversion H as [|?|? user att channel account en d1 l n ? ? ? ? Hc ? ? Hb Hp ? ? ? Ha ? ? Hs];
    subst; [congruence|].
  rewrite Ha in *. simpl in *. apply Hch in Hc. unfold channel_checks in Hc. bool_to_prop.
  split; [|done]. split; [done|]. apply share_of_bounds; lia.
Qed.

(** An accrual committed by its caller keeps the margin and ledger
    invariants: at most one accrual per commercial event, each backed by the
    single ledger entry under the event's key, for exactly the partner's
    share. *)
Theorem accrue_preserves_inv t id lst net customer :
  respects (preserves (λ d, margin_inv d ∧ ledger_inv d)) (atomic (accrue t id lst net customer)).
Proof.
  apply atomic_accrue_respects; [apply _|]. intros d d' r H [Hm Hl].
  split; [by eapply accrued_margin_inv|by eapply accrued_ledger_inv].
Qed.

(** Accruing is idempotent: once an event has its accrual, accruing the
    same event again, whatever prices are presented and even if the channel
    has been deactivated or re-rated meanwhile, returns that accrual and
    changes nothing. *)
Theorem accrue_idempotent t id lst net user a w lst' net' e w2 att channel :
  qfirst (same_source t id) (accruals (db w)) = Some a →
  db w2 = db w → PARTNER_CHANNEL_ENABLED (settings e) = true →
  aborted w2 = false → depth w2 ≠ 0%nat →
  qfirst (λ a, (attr_user a =? user)%N) (attributions (db w)) = Some att →
  channels (db w) !! attr_partner_channel att = Some channel →
  accrue t id lst net (Some user) e w2 = (Ok (Some a), w2) ∧
  accrue t id lst' net' (Some user) e w2 = (Ok (Some a), w2).
Proof.
  intros Ha Hdb Hen Hab Hd Hatt Hch.
  assert (H : ∀ l n, accrue t id l n (Some user) e w2 = (Ok (Some a), w2)); [|by split].
  intros l n. unfold accrue, asks, get_locked, locked_query, query, bind.
  rewrite Hen. simpl. rewrite decide_False by done. rewrite Hab, Hdb, Hatt. simpl.
  rewrite decide_False by done. rewrite Hab, Hdb, Hch. simpl. rewrite Hab, Hdb, Ha. done.
Qed.

(** ** A concrete purchase *)

Definition margin_db : Db :=
  channel_db <| channels := {[ 30%N := team_channel ]} |>
    <| attributions := {[ 40%N := mkAttribution 40 8 30 INVITE_LINK None true empty_snapshot None 0 ]} |>.

(** A list price of 10 over a net price of 4 at 20% earns 1.2. *)
Example accrue_example :
  match atomic (accrue SRC_ORDER "9" (Some 10000000) (Some 4000000) (Some 8%N))
          sample_env (world_of margin_db) with
  | (Ok (Some a), w') => (accr_partner_share a, acc_balance <$> accounts (db w') !! 2%N)
  | _ => (0, None)
  end = (1200000, Some 1200000).
Proof. vm_compute. reflexivity. Qed.

Lemma accrue_outcome_witness :
  ∃ a w', accrue SRC_ORDER "9" (Some 10000000) (Some 4000000) (Some 8%N) sample_env
      (enter (world_of margin_db)) = (Ok (Some a), w') ∧
    0 < accr_partner_share a ≤ accr_margin a.
Proof.
  destruct (accrue SRC_ORDER "9" (Some 10000000) (Some 4000000) (Some 8%N) sample_env
      (enter (world_of margin_db))) as [[[a|]|x] w'] eqn:E;
    [|vm_compute in E; discriminate E..].
  exists a, w'. split; [reflexivity|].
  destruct (accrue_outcome _ _ _ _ _ _ _ _ _ E) as [_ H].
  - intros k c. simpl. intros [<- <-]%lookup_singleton_Some. reflexivity.
  - by apply (H a).
Defined.

Definition accrued_world : World :=
  enter (atomic (accrue SRC_ORDER "9" (Some 10000000) (Some 4000000) (Some 8%N))
    sample_env (world_of margin_db)).2.

Lemma accrue_idempotent_witness :
  ∃ a, accrue SRC_ORDER "9" (Some 99000000) None (Some 8%N) sample_env accrued_world
    = (Ok (Some a), accrued_world).
Proof.
  destruct (qfirst (same_source SRC_ORDER "9") (accruals (db accrued_world))) as [a|] eqn:E;
    [|vm_compute in E; discriminate E].
  exists a. refine (proj2 (accrue_idempotent SRC_ORDER "9" None None 8 a accrued_world (Some 99000000)
    None sample_env accrued_world
    (mkAttribution 40 8 30 INVITE_LINK None true empty_snapshot None 0) team_channel E
    eq_refl eq_refl _ _ _ _)).
  - vm_compute. reflexivity.
  - discriminate.
  - vm_compute. reflexivity.
  - vm_compute. reflexivity.
Defined.
