(* ===== verification/Subscription.v ===== *)
(** * Subscription renewal

    [apps/billing/services/subscription.py] and the guards of
    [SubscriptionRenewalCycle] in [apps/billing/partner_channel.py]. *)

From S2P Require Import Prelude Tables Money Models EsimModels World Effects Credit Settlement Margin.
#[local] Open Scope Z_scope.

Definition SUBSCRIPTION_PERIOD_DAYS : N := 30.

(** ** Renewal cycles *)

Definition unfinished (s : CycleStatus) : bool :=
  match s with CYC_PENDING | CYC_PAUSED | CYC_FAILED => true | CYC_RENEWED => false end.

(** The unique constraints of [SubscriptionRenewalCycle.Meta]. *)
Definition cycle_verdict (d : Db) (c : SubscriptionRenewalCycle) : option Exn :=
  if negb (fits_numeric (cyc_renewal_list_price_usd c) &&
           match cyc_renewal_net_price_usd c with Some n => fits_numeric n | None => true end)
  then Some DataError
  else if qexists (λ u, negb (cyc_id u =? cyc_id c)%N &&
                        (cyc_subscription u =? cyc_subscription c)%N &&
                        ((cyc_billing_date u =? cyc_billing_date c)%N ||
                         unfinished (cyc_status u) && unfinished (cyc_status c))) (cycles d)
  then Some IntegrityError
  else None.

(** [SubscriptionRenewalCycle.save] of an existing row: the guard on the
    stored row, then the status column. *)
Definition cycle_save (c : SubscriptionRenewalCycle) : M unit :=
  let! previous := query (λ d, cycles d !! cyc_id c) in
  match previous with
  | None => raise AppendOnlyViolation
  | Some p =>
      raise_if (bool_decide (cyc_status p = CYC_RENEWED)) AppendOnlyViolation;;;
      raise_if (negb (cyc_subscription p =? cyc_subscription c)%N ||
                negb (cyc_billing_date p =? cyc_billing_date c)%N ||
                negb (cyc_renewal_list_price_usd p =? cyc_renewal_list_price_usd c) ||
                negb (bool_decide (cyc_renewal_net_price_usd p = cyc_renewal_net_price_usd c)))
        AppendOnlyViolation;;;
      save_fields cycles cycle_verdict (cyc_id c)
        (λ row, row <| cyc_status := cyc_status c |>)
  end.

Definition is_cycle (subscription : pk) (billing_date : date) (c : SubscriptionRenewalCycle)
    : bool :=
  (cyc_subscription c =? subscription)%N && (cyc_billing_date c =? billing_date)%N.

(** [subscription.esim.order.package] *)
Definition package_of (s : Subscription) (d : Db) : option Package :=
  esim ← esims d !! sub_esim s; order ← orders d !! esim_order esim;
  packages d !! ord_package order.

(** [get_or_create_renewal_cycle]; the package was joined by the caller's
    query. *)
Definition get_or_create_renewal_cycle (subscription : pk) (package : Package)
    (billing_date : date) : M SubscriptionRenewalCycle :=
  let! existing := query (λ d, qfirst (is_cycle subscription billing_date) (cycles d)) in
  match existing with
  | Some c => ret c
  | None =>
      try_except
        (atomic (
          let! id := uuid4 in
          let c := mkCycle id subscription billing_date (pkg_price_usd package)
            (pkg_net_price_usd package) CYC_PENDING in
          create cycles cycle_verdict id c;;;
          ret c))
        (on_integrity_error (
          let! raced := query (λ d, qfirst (is_cycle subscription billing_date) (cycles d)) in
          match raced with
          | None => raise IntegrityError
          | Some c => ret c
          end))
  end.

(** ** Renewing *)

Inductive Outcome := renewed | paused | skipped.

#[export] Instance Outcome_eq_dec : EqDecision Outcome.
Proof. solve_decision. Defined.

Definition _require_enabled : M unit :=
  let! billing := asks BILLING_ENABLED in
  raise_if (negb billing) BillingDisabledError;;;
  let! on := asks SUBSCRIPTIONS_ENABLED in
  raise_if (negb on) SubscriptionsDisabledError.

Definition _deposit_url : M string :=
  let! base := asks FRONTEND_BASE_URL in
  ret (rstrip_char "/" base +:+ "/me/deposit").

(** The idempotency key of a renewal's debit. *)
Definition renew_key (subscription : pk) (billing_date : date) : string :=
  "subscription-renew:" +:+ str subscription +:+ ":" +:+ isoformat billing_date.

(** The subscription table's verdict. *)
Definition subscription_verdict (_ : Db) (s : Subscription) : option Exn :=
  if negb (fits_numeric (sub_price_per_period s)) then Some DataError
  else if negb (0 <? sub_price_per_period s) then Some IntegrityError else None.

(** [SubscriptionService._renewed_events] *)
Definition _renewed_events (s : Subscription) (entry : CreditLedgerEntry) (amount : money)
    : list Event :=
  [CreditDebited (sub_account s) amount (le_balance_after entry) SUBSCRIPTION (str (sub_id s))
     (le_id entry) (le_created_at entry);
   SubscriptionRenewed (sub_id s) (sub_account s) (sub_esim s) amount (le_balance_after entry)
     (sub_next_billing_date s) (le_id entry) (le_created_at entry)].

(** The [except InsufficientFundsError] branch. *)
Definition pause (cycle : SubscriptionRenewalCycle) (locked : Subscription) (balance : money)
    : M (Outcome * list Event) :=
  cycle_save (cycle <| cyc_status := CYC_PAUSED |>);;;
  save_fields subscriptions subscription_verdict (sub_id locked)
    (λ s, s <| sub_status := SUB_PAUSED |>);;;
  let! url := _deposit_url in
  let! created_at := now in
  ret (paused, [SubscriptionPaused (sub_id locked) (sub_account locked) (sub_esim locked)
    (sub_price_per_period locked) balance url (sub_next_billing_date locked) created_at]).

(** The [else] branch, after a debit. *)
Definition advance (cycle : SubscriptionRenewalCycle) (locked : Subscription)
    (billing_date : date) (entry : CreditLedgerEntry) : M (Outcome * list Event) :=
  let next := (billing_date + SUBSCRIPTION_PERIOD_DAYS)%N in
  save_fields subscriptions subscription_verdict (sub_id locked)
    (λ s, s <| sub_next_billing_date := next |>);;;
  cycle_save (cycle <| cyc_status := CYC_RENEWED |>);;;
  let! account := get accounts (sub_account locked) in
  let! source_id := build_source_id SRC_SUBSCRIPTION (sub_id locked) (Some billing_date) in
  let! _ := accrue SRC_SUBSCRIPTION source_id (Some (cyc_renewal_list_price_usd cycle))
    (cyc_renewal_net_price_usd cycle) (acc_user account) in
  ret (renewed, _renewed_events (locked <| sub_next_billing_date := next |>) entry
                  (sub_price_per_period locked)).

(** [try: entry = debit(...)]: the entry, or the balance that was short. *)
Definition try_debit (locked : Subscription) (billing_date : date)
    : M (CreditLedgerEntry + money) :=
  try_except
    (let! entry := debit (sub_account locked) (AMoney (sub_price_per_period locked))
       (RefEnum SUBSCRIPTION) (str (sub_id locked)) (renew_key (sub_id locked) billing_date) in
     ret (inl entry))
    (λ x, match x with
          | InsufficientFundsError balance _ => Some (ret (inr balance))
          | _ => None
          end).

(** The money transaction of [renew_one]. *)
Definition renew_locked (subscription_id : pk) (billing_date : date)
    : M (Outcome * list Event) :=
  let! cycle := locked_query (λ d, qfirst (is_cycle subscription_id billing_date) (cycles d)) in
  match cycle with
  | None => raise DoesNotExist
  | Some cycle =>
      let! locked := locked_query (λ d, subscriptions d !! subscription_id) in
      match locked with
      | None => ret (skipped, [])
      | Some locked =>
          raise_if (negb (is_cycle (sub_id locked) billing_date cycle)) (RuntimeError "");;;
          if bool_decide (cyc_status cycle = CYC_RENEWED) then ret (renewed, [])
          else if negb (bool_decide (sub_status locked = SUB_ACTIVE)) then ret (skipped, [])
          else if negb (sub_next_billing_date locked =? billing_date)%N then ret (skipped, [])
          else
            let! debited := try_debit locked billing_date in
            match debited with
            | inr balance => pause cycle locked balance
            | inl entry => advance cycle locked billing_date entry
            end
      end
  end.

(** [SubscriptionService.renew_one] *)
Definition renew_one (subscription_id : pk) (as_of : option date) : M Outcome :=
  _require_enabled;;;
  let! local := localdate in
  let today := match as_of with Some t => t | None => local end in
  let! current := query (λ d, s ← subscriptions d !! subscription_id;
                              p ← package_of s d; Some (s, p)) in
  match current with
  | None => ret skipped
  | Some (current, package) =>
      if negb (bool_decide (sub_status current = SUB_ACTIVE)) then ret skipped
      else if (today <? sub_next_billing_date current)%N then ret skipped
      else
        let billing_date := sub_next_billing_date current in
        let! _ := get_or_create_renewal_cycle (sub_id current) package billing_date in
        let! result := atomic (renew_locked subscription_id billing_date) in
        for_each result.2 publish;;;
        ret result.1
  end.

Record Stats := mkStats { n_renewed : nat; n_paused : nat; n_skipped : nat }.

Definition count_outcome (s : Stats) (o : Outcome) : Stats :=
  match o with
  | renewed => mkStats (S (n_renewed s)) (n_paused s) (n_skipped s)
  | paused => mkStats (n_renewed s) (S (n_paused s)) (n_skipped s)
  | skipped => mkStats (n_renewed s) (n_paused s) (S (n_skipped s))
  end.

(** [order_by("next_billing_date", "pk")] *)
Definition due_le (s t : Subscription) : Prop :=
  (sub_next_billing_date s < sub_next_billing_date t)%N ∨
  sub_next_billing_date s = sub_next_billing_date t ∧ (sub_id s ≤ sub_id t)%N.
#[export] Instance due_le_dec : RelDecision due_le.
Proof. intros s t. unfold due_le. apply _. Defined.

Definition is_due (today : date) (s : Subscription) : bool :=
  bool_decide (sub_status s = SUB_ACTIVE) && (sub_next_billing_date s <=? today)%N.
Definition due (today : date) (d : Db) : list pk :=
  sub_id <$> merge_sort due_le (qall (is_due today) (subscriptions d)).

(** [SubscriptionService.renew_due] *)
Definition renew_due (as_of : option date) : M Stats :=
  _require_enabled;;;
  let! local := localdate in
  let today := match as_of with Some t => t | None => local end in
  let! due_ids := query (due today) in
  fold_each due_ids (mkStats 0 0 0) (λ stats sub_id,
    let! result := renew_one sub_id (Some today) in
    ret (count_outcome stats result)).

(** ** What a renewal does *)

(** The debited row, its cycle, and the commission, one after the other. *)
Inductive renewal_step (s : pk) (date_ : date) (d d' : Db) : Outcome → Prop :=
  | renewal_none o :
      d' = d → o ≠ paused →
      (o = renewed → ∃ k c, cycles d !! k = Some c ∧ is_cycle s date_ c = true ∧
                            cyc_status c = CYC_RENEWED) →
      renewal_step s date_ d d' o
  | renewal_paused k c sub :
      cycles d !! k = Some c → is_cycle s date_ c = true → cyc_status c ≠ CYC_RENEWED →
      subscriptions d !! s = Some sub → sub_status sub = SUB_ACTIVE →
      cyc_id c = k → sub_id sub = s →
      (∃ a, accounts d !! sub_account sub = Some a ∧ acc_balance a < sub_price_per_period sub) →
      d' = put subscriptions s (sub <| sub_status := SUB_PAUSED |>)
             (put cycles k (c <| cyc_status := CYC_PAUSED |>) d) →
      renewal_step s date_ d d' paused
  | renewal_paid k c sub en d1 r :
      cycles d !! k = Some c → is_cycle s date_ c = true → cyc_status c ≠ CYC_RENEWED →
      subscriptions d !! s = Some sub → sub_status sub = SUB_ACTIVE →
      sub_next_billing_date sub = date_ → 0 < sub_price_per_period sub →
      cyc_id c = k → sub_id sub = s →
      applied (sub_account sub) (- sub_price_per_period sub) SUBSCRIPTION (str s)
        (renew_key s date_) d d1 en →
      accrued SRC_SUBSCRIPTION (str s +:+ ":" +:+ isoformat date_)
         (Some (cyc_renewal_list_price_usd c)) (cyc_renewal_net_price_usd c)
         (accounts d1 !! sub_account sub ≫= acc_user)
         (put cycles k (c <| cyc_status := CYC_RENEWED |>)
           (put subscriptions s
              (sub <| sub_next_billing_date := (date_ + SUBSCRIPTION_PERIOD_DAYS)%N |>) d1))
         d' r →
      renewal_step s date_ d d' renewed.

Lemma cycle_save_Ok c e w u w' :
  cycle_save c e w = (Ok u, w') →
  ∃ p, cycles (db w) !! cyc_id c = Some p ∧ cyc_status p ≠ CYC_RENEWED ∧
    w' = w <| db := put cycles (cyc_id c) (p <| cyc_status := cyc_status c |>) (db w) |>.
Proof.
  unfold cycle_save. intros H. inv_run H. bool_to_prop. eexists. split_and!; [done..|].
  by simplify_eq.
Qed.

Lemma try_debit_Ok locked date_ e w r w' :
  try_debit locked date_ e w = (Ok r, w') →
  match r with
  | inl en => applied (sub_account locked) (- sub_price_per_period locked) SUBSCRIPTION
      (str (sub_id locked)) (renew_key (sub_id locked) date_) (db w) (db w') en ∧
      0 < sub_price_per_period locked
  | inr _ => db w' = db w ∧ (0 < sub_price_per_period locked < money_bound →
      ∃ a, accounts (db w) !! sub_account locked = Some a ∧
        acc_balance a < sub_price_per_period locked)
  end.
Proof.
  unfold try_debit, debit. intros H.
  inv_call try_Ok as [Hrun|(x & k & w1 & Hrun & Hx & Hk)].
  - inv_run Hrun. inv_call apply_money as (Happ & _ & Hb). split; [exact Happ|lia].
  - destruct x; simplify_eq/=. inv_run Hk. rewrite bind_run in Hrun.
    destruct (_apply _ _ _ _ _ _ _ _) as [[en|y] w2] eqn:E; [done|]. simplify_eq.
    split; [by apply apply_raise_db in E|]. intros Hb.
    eapply apply_short in E as (a & Ha & -> & Hlt); [|by apply normalize_money].
    exists a. split; [done|]. simpl in Hlt. lia.
Qed.

Lemma build_source_Ok s date_ e w id w' :
  build_source_id SRC_SUBSCRIPTION s (Some date_) e w = (Ok id, w') →
  w' = w ∧ id = str s +:+ ":" +:+ isoformat date_.
Proof. by intros [= <- <-]. Qed.

Lemma is_cycle_true s date_ c :
  is_cycle s date_ c = true ↔ cyc_subscription c = s ∧ cyc_billing_date c = date_.
Proof. unfold is_cycle. by rewrite andb_true_iff, !N.eqb_eq. Qed.

(** Rows are stored under their ids and prices satisfy the table. *)
Definition rows_keyed (d : Db) : Prop :=
  (∀ k s, subscriptions d !! k = Some s → sub_id s = k ∧ subscription_verdict d s = None) ∧
  (∀ k c, cycles d !! k = Some c → cyc_id c = k).

Lemma subscription_price d s :
  subscription_verdict d s = None → 0 < sub_price_per_period s < money_bound.
Proof.
  unfold subscription_verdict. intros H. split_cases. bool_to_prop.
  split; [done|]. apply fits_numeric_spec in H0. lia.
Qed.

Lemma applied_same_subs account delta t rid key d d' en :
  applied account delta t rid key d d' en →
  subscriptions d' = subscriptions d ∧ cycles d' = cycles d.
Proof. intros H. by apply applied_only_money in H as ->. Qed.

Lemma renew_locked_Ok s date_ e w r w' :
  renew_locked s date_ e w = (Ok r, w') → rows_keyed (db w) →
  renewal_step s date_ (db w) (db w') r.1.
Proof.
  unfold renew_locked, pause, advance. intros H [Hks Hkc]. inv_run H.
  all: try (apply renewal_none; done).
  all: try (destruct (qfirst_Some _ _ _ Hmatch) as (kc & Hc & His)).
  all: try (pose proof (Hkc _ _ Hc) as Hidc).
  all: destruct (Hks _ _ Hmatch0) as [Hids Hv]; bool_to_prop.
  - apply renewal_none; [done..|]. eauto.
  - inv_call try_debit_Ok as [Happ Hpos].
    destruct (applied_same_subs _ _ _ _ _ _ _ _ Happ) as [Hsub Hcyc].
    inv_call cycle_save_Ok as (p & Hp & Hst & ->). simpl in *.
    inv_call build_source_Ok as [-> ->].
    inv_call accrue_Ok as Hacc. simpl in *.
    rewrite Hids, Hidc, ?Hsub, ?Hcyc in *. simplify_eq.
    eapply renewal_paid; try done.
    match goal with Ha : accounts _ !! _ = Some _ |- _ => rewrite Ha end. exact Hacc.
  - inv_call try_debit_Ok as [Hdb Hshort]. inv_call cycle_save_Ok as (p & Hp & Hst & ->).
    simpl in *. rewrite Hids, Hidc, Hdb in *. simplify_eq.
    unfold _deposit_url in *. inv_run Hrun1.
    eapply renewal_paused; try done. by apply Hshort, (subscription_price (db w)).
Qed.

(** ** The renewal invariant *)

Lemma isoformat_no_colon d : no_colon (isoformat d).
Proof. apply str_no_colon. Qed.

Lemma renew_key_inj s d s' d' : renew_key s d = renew_key s' d' → s = s' ∧ d = d'.
Proof.
  unfold renew_key. intros H%(inj (String.append "subscription-renew:")).
  apply colon_split in H as [Hs Hd]; [|apply str_no_colon..].
  split; [by apply (inj str)|by apply (inj pretty)].
Qed.

Lemma renew_key_not_margin s d t id : renew_key s d ≠ margin_key t id.
Proof. done. Qed.

(** A renewed cycle is one that was charged: it has the single ledger entry of
    its subscription and billing date, and the subscription has moved past
    that date; nothing else is charged under such a key. *)
Record renewal_inv (d : Db) : Prop := {
  ri_keyed : rows_keyed d;
  ri_unique : ∀ j k a b, cycles d !! j = Some a → cycles d !! k = Some b →
    cyc_subscription a = cyc_subscription b → cyc_billing_date a = cyc_billing_date b → j = k;
  ri_paid : ∀ k c, cycles d !! k = Some c → cyc_status c = CYC_RENEWED →
    ∃ en, find_entry (renew_key (cyc_subscription c) (cyc_billing_date c)) (ledger d) = Some en ∧
      le_delta en < 0;
  ri_charged : ∀ en s date_, en ∈ ledger d → le_idempotency_key en = renew_key s date_ →
    ∃ k c, cycles d !! k = Some c ∧ is_cycle s date_ c = true ∧ cyc_status c = CYC_RENEWED;
  ri_next : ∀ k c, cycles d !! k = Some c → cyc_status c = CYC_RENEWED →
    ∃ sub, subscriptions d !! cyc_subscription c = Some sub ∧
      (cyc_billing_date c < sub_next_billing_date sub)%N;
}.

(** An accrual only adds commission entries, under its own keys. *)
Lemma accrued_shape t id l n customer d d' r :
  accrued t id l n customer d d' r →
  cycles d' = cycles d ∧ subscriptions d' = subscriptions d ∧
  ∃ tail, ledger d' = ledger d ++ tail ∧
    ∀ en, en ∈ tail → le_idempotency_key en = margin_key t id.
Proof.
  intros [->|a Hf ->|a user att channel account en d1 lst net _ _ _ _ _ _ _ _ _ _ _ Happ _ _ _ _ ->].
  1,2: split_and!; [done..|]; exists []; rewrite app_nil_r; split; [done|];
    by intros en ?%not_elem_of_nil.
  destruct (applied_same_subs _ _ _ _ _ _ _ _ Happ) as [Hs Hc].
  split_and!; [exact Hc|exact Hs|].
  destruct Happ as [Hf ->|]; simpl.
  - exists []. rewrite app_nil_r. split; [done|]. by intros ? ?%not_elem_of_nil.
  - subst. simpl. eexists [_]. split; [done|]. by intros ? ->%list_elem_of_singleton.
Qed.

(** The debit of an unfinished cycle is new. *)
Lemma renewal_debit_new d d1 s date_ account delta rid en k c :
  renewal_inv d → cycles d !! k = Some c → is_cycle s date_ c = true →
  cyc_status c ≠ CYC_RENEWED →
  applied account delta SUBSCRIPTION rid (renew_key s date_) d d1 en →
  find_entry (renew_key s date_) (ledger d) = None ∧ ledger d1 = ledger d ++ [en] ∧
  le_delta en = delta ∧ le_idempotency_key en = renew_key s date_.
Proof.
  intros Hinv Hc His Hst [Hf ->|]; [|by subst].
  apply find_entry_Some in Hf as [Hin Hk].
  destruct (ri_charged d Hinv en s date_ Hin Hk) as (j & b & Hb & Hisb & Hstb).
  apply is_cycle_true in His as [<- <-], Hisb as [Hs Hd].
  pose proof (ri_unique d Hinv j k b c Hb Hc Hs Hd) as ->. congruence.
Qed.

(** Inserting rows that keep a cycle's identity. *)
Lemma cycles_unique_insert d k c st :
  renewal_inv d → cycles d !! k = Some c →
  ∀ i j a b, <[k := c <| cyc_status := st |>]> (cycles d) !! i = Some a →
    <[k := c <| cyc_status := st |>]> (cycles d) !! j = Some b →
    cyc_subscription a = cyc_subscription b → cyc_billing_date a = cyc_billing_date b → i = j.
Proof.
  intros Hinv Hc i j a b
    [[<- <-]|[_ Ha]]%lookup_insert_Some [[<- <-]|[_ Hb]]%lookup_insert_Some; simpl; intros Hs Hd;
    [done|..]; by eapply (ri_unique d Hinv).
Qed.

Lemma keyed_insert d k c st s sub sub' :
  rows_keyed d → cycles d !! k = Some c → subscriptions d !! s = Some sub →
  sub_id sub' = sub_id sub → sub_price_per_period sub' = sub_price_per_period sub →
  rows_keyed (put cycles k (c <| cyc_status := st |>) (put subscriptions s sub' d)).
Proof.
  intros [Hks Hkc] Hc Hs Hid Hp. split; simpl.
  - intros j x [[<- <-]|[_ Hx]]%lookup_insert_Some; [|by apply Hks].
    destruct (Hks _ _ Hs) as [Hi Hv]. split; [congruence|].
    unfold subscription_verdict in *. by rewrite Hp.
  - intros j x [[<- <-]|[_ Hx]]%lookup_insert_Some; [|by apply Hkc]. by apply (Hkc _ _ Hc).
Qed.

Lemma renewal_inv_paused d k c s sub :
  renewal_inv d → cycles d !! k = Some c → cyc_status c ≠ CYC_RENEWED →
  subscriptions d !! s = Some sub →
  renewal_inv (put subscriptions s (sub <| sub_status := SUB_PAUSED |>)
                 (put cycles k (c <| cyc_status := CYC_PAUSED |>) d)).
Proof.
  intros Hinv Hc Hst Hs.
  assert (Hother : ∀ j b, <[k := c <| cyc_status := CYC_PAUSED |>]> (cycles d) !! j = Some b →
    cyc_status b = CYC_RENEWED → cycles d !! j = Some b)
    by (intros j b [[_ <-]|[_ Hb]]%lookup_insert_Some; done).
  split; simpl.
  - by apply (keyed_insert d k c CYC_PAUSED s sub (sub <| sub_status := SUB_PAUSED |>));
      [apply Hinv|..].
  - by apply cycles_unique_insert.
  - intros j b Hb Hr. eapply (ri_paid d Hinv); [by eapply Hother|done].
  - intros en s' date' Hin Hk. destruct (ri_charged d Hinv _ _ _ Hin Hk) as (j & b & Hb & His & Hr).
    exists j, b. split; [|done]. rewrite lookup_insert_ne; [done|congruence].
  - intros j b Hb Hr. destruct (ri_next d Hinv j b) as (x & Hx & Hlt); [by eapply Hother|done|].
    destruct (decide (cyc_subscription b = s)) as [<-|Hne].
    + rewrite lookup_insert_eq. eexists. split; [done|]. simpl. congruence.
    + rewrite lookup_insert_ne by done. eauto.
Qed.

Lemma renewal_inv_paid d d1 d' k c s sub date_ en r l n customer :
  renewal_inv d → cycles d !! k = Some c → is_cycle s date_ c = true →
  cyc_status c ≠ CYC_RENEWED → subscriptions d !! s = Some sub →
  sub_next_billing_date sub = date_ → 0 < sub_price_per_period sub →
  applied (sub_account sub) (- sub_price_per_period sub) SUBSCRIPTION (str s)
    (renew_key s date_) d d1 en →
  accrued SRC_SUBSCRIPTION (str s +:+ ":" +:+ isoformat date_) l n customer
    (put cycles k (c <| cyc_status := CYC_RENEWED |>)
      (put subscriptions s (sub <| sub_next_billing_date := (date_ + SUBSCRIPTION_PERIOD_DAYS)%N |>) d1))
    d' r →
  renewal_inv d'.
Proof.
  intros Hinv Hc His Hst Hs Hdate Hpos Happ Hacc.
  destruct (renewal_debit_new _ _ _ _ _ _ _ _ _ _ Hinv Hc His Hst Happ) as (Hf & Hl & Hdelta & Hkey).
  destruct (applied_same_subs _ _ _ _ _ _ _ _ Happ) as [Hs1 Hc1].
  destruct (accrued_shape _ _ _ _ _ _ _ _ Hacc) as (Hcy & Hsu & tail & Hle & Htail).
  simpl in Hcy, Hsu, Hle. rewrite Hc1 in Hcy. rewrite Hs1 in Hsu. rewrite Hl in Hle.
  pose proof (proj1 (is_cycle_true _ _ _) His) as [Hcs Hcd].
  split; rewrite ?Hcy, ?Hsu, ?Hle; simpl.
  - destruct (keyed_insert d k c CYC_RENEWED s sub
      (sub <| sub_next_billing_date := (date_ + SUBSCRIPTION_PERIOD_DAYS)%N |>))
      as [H1 H2]; [apply Hinv|done..|].
    split; rewrite ?Hcy, ?Hsu; [|exact H2]. intros j x Hx. by apply H1.
  - by apply cycles_unique_insert.
  - intros j b [[<- <-]|[_ Hb]]%lookup_insert_Some Hr; simpl.
    + rewrite Hcs, Hcd. exists en. split; [|lia].
      by apply find_entry_app_l, find_entry_snoc.
    + destruct (ri_paid d Hinv j b Hb Hr) as (en' & He & Hneg). exists en'.
      split; [|done]. by do 2 apply find_entry_app_l.
  - intros en' s' date' Hin Hk'. apply elem_of_app in Hin as [Hin|Hin].
    + apply elem_of_app in Hin as [Hin| ->%list_elem_of_singleton].
      * destruct (ri_charged d Hinv _ _ _ Hin Hk') as (j & b & Hb & Hisb & Hr).
        exists j, b. split; [|done]. rewrite lookup_insert_ne; [done|congruence].
      * rewrite Hkey in Hk'. apply renew_key_inj in Hk' as [<- <-].
        exists k. eexists. split; [apply lookup_insert_eq|]. done.
    + rewrite (Htail _ Hin) in Hk'. symmetry in Hk'. by apply renew_key_not_margin in Hk'.
  - intros j b [[<- <-]|[_ Hb]]%lookup_insert_Some Hr; simpl.
    + rewrite Hcs, lookup_insert_eq. eexists. split; [done|]. simpl.
      unfold SUBSCRIPTION_PERIOD_DAYS. lia.
    + destruct (ri_next d Hinv j b Hb Hr) as (x & Hx & Hlt).
      destruct (decide (cyc_subscription b = s)) as [Heq|Hne].
      * rewrite Heq in *. rewrite lookup_insert_eq. eexists. split; [done|]. simpl.
        assert (x = sub) as -> by congruence. unfold SUBSCRIPTION_PERIOD_DAYS. lia.
      * rewrite lookup_insert_ne by done. eauto.
Qed.

Lemma renewal_step_inv s date_ d d' o :
  renewal_step s date_ d d' o → renewal_inv d → renewal_inv d'.
Proof.
  intros [? -> _ _|k c sub Hc His Hst Hs Hact Hidc Hids _ ->|
    k c sub en d1 r Hc His Hst Hs Hact Hdate Hpos Hidc Hids Happ Hacc] Hinv; [done|..].
  - by apply renewal_inv_paused.
  - by eapply renewal_inv_paid.
Qed.

Lemma renewal_step_money s date_ d d' o :
  renewal_step s date_ d d' o → ledger_inv d → ledger_inv d'.
Proof.
  intros [? -> _ _|k c sub Hc His Hst Hs Hact Hidc Hids _ ->|
    k c sub en d1 r Hc His Hst Hs Hact Hdate Hpos Hidc Hids Happ Hacc] Hinv; [done|..].
  - by destruct Hinv; split.
  - apply accrued_ledger_inv in Hacc; [done|].
    apply ledger_inv_applied in Happ; [|done]. by destruct Happ; split.
Qed.

(** ** Opening a cycle *)

Lemma cycle_verdict_fresh d c :
  cycle_verdict d c = None → ∀ k u, cycles d !! k = Some u → cyc_id u ≠ cyc_id c →
  cyc_subscription u = cyc_subscription c → cyc_billing_date u ≠ cyc_billing_date c.
Proof.
  unfold cycle_verdict. intros H k u Hu Hid Hs Hd.
  destruct (negb _); [done|]. destruct (qexists _ _) eqn:Hq; [done|].
  rewrite qexists_false in Hq. specialize (Hq k u Hu).
  rewrite Hs, Hd, !N.eqb_refl, (proj2 (N.eqb_neq _ _) Hid) in Hq. done.
Qed.

Definition system_inv (d : Db) : Prop := renewal_inv d ∧ ledger_inv d ∧ margin_inv d.

Lemma renewal_inv_opened d c :
  renewal_inv d → cycles d !! cyc_id c = None → cycle_verdict d c = None →
  cyc_status c = CYC_PENDING → renewal_inv (put cycles (cyc_id c) c d).
Proof.
  intros Hinv Hn Hv Hst. pose proof (cycle_verdict_fresh _ _ Hv) as Hfresh.
  destruct (ri_keyed d Hinv) as [Hks Hkc].
  assert (Hne : ∀ j b, cycles d !! j = Some b → cyc_id b ≠ cyc_id c)
    by (intros j b Hb E; rewrite (Hkc _ _ Hb) in E; congruence).
  split; simpl.
  - split; [done|]. intros j x. simpl. intros [[<- <-]|[_ Hx]]%lookup_insert_Some; [done|by apply Hkc].
  - intros i j a b [[<- <-]|[_ Ha]]%lookup_insert_Some [[<- <-]|[_ Hb]]%lookup_insert_Some;
      intros Hs Hd; [done|..|by eapply (ri_unique d Hinv)].
    + by destruct (Hfresh _ _ Hb (Hne _ _ Hb) (eq_sym Hs)).
    + by destruct (Hfresh _ _ Ha (Hne _ _ Ha) Hs).
  - intros j b [[<- <-]|[_ Hb]]%lookup_insert_Some Hr; [congruence|by eapply (ri_paid d Hinv)].
  - intros en s date_ Hin Hk. destruct (ri_charged d Hinv _ _ _ Hin Hk) as (j & b & Hb & ?).
    exists j, b. split; [|done]. rewrite lookup_insert_ne; [done|congruence].
  - intros j b [[<- <-]|[_ Hb]]%lookup_insert_Some Hr; [congruence|by eapply (ri_next d Hinv)].
Qed.

(** The database after [get_or_create_renewal_cycle]. *)
Definition opened (d d' : Db) : Prop :=
  d' = d ∨ ∃ c, cycles d !! cyc_id c = None ∧ cycle_verdict d c = None ∧
    cyc_status c = CYC_PENDING ∧ d' = put cycles (cyc_id c) c d.

Lemma get_or_create_run s p date_ e w r w' :
  get_or_create_renewal_cycle s p date_ e w = (r, w') → opened (db w) (db w').
Proof.
  unfold get_or_create_renewal_cycle. rewrite bind_run.
  unfold query at 1. destruct (aborted w) eqn:Hw; [intros [= <- <-]; by left|].
  destruct (qfirst _ _) as [c|]; [intros [= <- <-]; by left|].
  unfold try_except. destruct (atomic _ e w) as [[c|x] w1] eqn:E.
  - intros [= <- <-]. apply atomic_Ok in E as (w2 & Hrun & [(_ & -> & _)|[_ ->]]); [by left|].
    inv_run Hrun. right.
    exists (mkCycle (next_uuid w) s date_ (pkg_price_usd p) (pkg_net_price_usd p) CYC_PENDING).
    done.
  - apply atomic_Raise in E as [Hdb Hab]. destruct x; simpl;
      try (intros [= <- <-]; by left).
    intros H. left. rewrite <- Hdb. revert H. unfold bind, query, ret, raise.
    repeat case_match; intros; by simplify_eq.
Qed.

Lemma opened_inv d d' : opened d d' → system_inv d → system_inv d'.
Proof.
  intros [->|(c & Hn & Hv & Hst & ->)] (Hr & Hl & Hm); [done|]. split_and!.
  - by apply renewal_inv_opened.
  - by destruct Hl; split.
  - by destruct Hm; split.
Qed.

Lemma renewal_step_system s date_ d d' o :
  renewal_step s date_ d d' o → system_inv d → system_inv d'.
Proof.
  intros Hstep (Hr & Hl & Hm). split_and!;
    [by eapply renewal_step_inv|by eapply renewal_step_money|].
  destruct Hstep as [? -> _ _|k c sub _ _ _ _ _ _ _ _ ->|
    k c sub en d1 r _ _ _ _ _ _ _ _ _ Happ Hacc]; [done|by destruct Hm; split|].
  apply accrued_margin_inv in Hacc; [done|].
  apply margin_inv_applied in Happ; [by destruct Happ; split| |done].
  intros t id. apply renew_key_not_margin.
Qed.

(** ** Running a renewal *)

Lemma get_or_create_respects s p date_ :
  respects (preserves system_inv) (get_or_create_renewal_cycle s p date_).
Proof. intros e w r w' H Hinv. eapply opened_inv, Hinv. by eapply get_or_create_run. Qed.

Lemma renew_locked_respects s date_ :
  respects (preserves system_inv) (atomic (renew_locked s date_)).
Proof.
  apply respects_atomic_Ok; [apply _|]. intros e w r w' H Hinv.
  eapply renewal_step_system, Hinv. eapply renew_locked_Ok; [exact H|]. apply Hinv.
Qed.
#[export] Hint Resolve get_or_create_respects renew_locked_respects : effects.

Lemma renew_one_respects s as_of :
  respects (preserves system_inv) (renew_one s as_of).
Proof. unfold renew_one, _require_enabled. solve_respects. Qed.
#[export] Hint Resolve renew_one_respects : effects.

Lemma opened_keyed d d' : opened d d' → rows_keyed d → rows_keyed d'.
Proof.
  intros [->|(c & Hn & Hv & Hst & ->)] [Hs Hc]; [done|]. split; [done|].
  intros j x. simpl. intros [[<- <-]|[_ Hx]]%lookup_insert_Some; [done|by apply Hc].
Qed.

Lemma opened_same d d' :
  opened d d' → accounts d' = accounts d ∧ ledger d' = ledger d ∧ subscriptions d' = subscriptions d.
Proof. by intros [->|(c & Hn & Hv & Hst & ->)]. Qed.

Lemma for_each_publish_db l e w r w' : for_each l publish e w = (r, w') → db w' = db w.
Proof.
  revert w. induction l as [|x l IH]; intros w; simpl; [by intros [= <- <-]|].
  unfold bind, publish at 1. intros H. by apply IH in H.
Qed.

Lemma clean_try_debit locked date_ : clean (try_debit locked date_).
Proof.
  intros e w r w' Hw. unfold try_debit, debit, try_except. rewrite bind_run.
  destruct (_apply _ _ _ _ _ _ e w) as [[en|x] w1] eqn:E; simpl.
  - intros [= <- <-]. by apply clean_apply in E.
  - apply apply_raise_alive in E. destruct x; try done. intros [= <- <-]. congruence.
Qed.
#[export] Hint Resolve clean_try_debit : effects.

Lemma clean_renew_locked s date_ : clean (renew_locked s date_).
Proof.
  unfold renew_locked, pause, advance, cycle_save, _deposit_url, build_source_id. solve_clean.
Qed.

Lemma clean_get_or_create s p date_ : clean (get_or_create_renewal_cycle s p date_).
Proof. unfold get_or_create_renewal_cycle. solve_clean. Qed.

Lemma renew_one_Ok s as_of e w o w' :
  renew_one s as_of e w = (Ok o, w') → rows_keyed (db w) →
  (o = skipped ∧ db w' = db w) ∨
  ∃ sub d1, subscriptions (db w) !! s = Some sub ∧ sub_status sub = SUB_ACTIVE ∧
    opened (db w) d1 ∧ renewal_step s (sub_next_billing_date sub) d1 (db w') o.
Proof.
  unfold renew_one, _require_enabled. intros H Hk. inv_run H; try by left. right.
  bool_to_prop. destruct (subscriptions (db w0) !! s) as [sub|] eqn:Hs; [|done]. simpl in Hmatch.
  destruct (package_of sub (db w0)); [|done]. simplify_eq/=.
  inv_call clean_get_or_create as Hab; [|done].
  match goal with Hr : get_or_create_renewal_cycle _ _ _ _ _ = _ |- _ =>
    apply get_or_create_run in Hr as Hop end.
  inv_call (atomic_clean_Ok (renew_locked s (sub_next_billing_date s0))) as (w3 & Hrun2 & ->);
    [|apply clean_renew_locked|done].
  inv_call for_each_publish_db as Hdb. simpl in Hdb.
  exists s0, (db w). split_and!; [done|done|done|]. rewrite Hdb.
  apply (renew_locked_Ok _ _ e (enter w)); [exact Hrun2|by eapply opened_keyed].
Qed.

(** ** Properties *)

(** C6: Renewing, one subscription or every due one, keeps the whole billing
    state consistent whether it returns or raises: a cycle is [RENEWED]
    exactly when its subscription was charged for that date, once; the
    balances match the ledger; the commissions match their entries. *)
Theorem renewals_preserve_inv s as_of :
  respects (preserves system_inv) (renew_one s as_of) ∧
  respects (preserves system_inv) (renew_due as_of).
Proof. split; [apply renew_one_respects|]. unfold renew_due, _require_enabled. solve_respects. Qed.

(** What each outcome of a renewal means. *)
Definition outcome_means (s : pk) (o : Outcome) (d d' : Db) : Prop :=
  match o with
  | skipped => accounts d' = accounts d ∧ ledger d' = ledger d ∧ subscriptions d' = subscriptions d
  | paused => ∃ sub a, subscriptions d !! s = Some sub ∧
      accounts d !! sub_account sub = Some a ∧ acc_balance a < sub_price_per_period sub ∧
      accounts d' = accounts d ∧ ledger d' = ledger d ∧
      subscriptions d' = <[s := sub <| sub_status := SUB_PAUSED |>]> (subscriptions d)
  | renewed => ∃ sub en, subscriptions d !! s = Some sub ∧ sub_status sub = SUB_ACTIVE ∧
      find_entry (renew_key s (sub_next_billing_date sub)) (ledger d) = None ∧
      find_entry (renew_key s (sub_next_billing_date sub)) (ledger d') = Some en ∧
      le_account en = sub_account sub ∧ le_delta en = - sub_price_per_period sub ∧
      subscriptions d' = <[s := sub <| sub_next_billing_date :=
        (sub_next_billing_date sub + SUBSCRIPTION_PERIOD_DAYS)%N |>]> (subscriptions d)
  end.

(** C7: The returned outcome is the truth about the money: [skipped] moves
    nothing; [paused] moves no money either, the balance really is short and
    the subscription is paused; [renewed] has charged the account exactly one
    period under a key that was unused, and advanced the date by the period. *)
Theorem renew_one_outcome s as_of e w o w' :
  renew_one s as_of e w = (Ok o, w') → renewal_inv (db w) → outcome_means s o (db w) (db w').
Proof.
  intros H Hinv. apply renew_one_Ok in H as [[-> ->]|(sub & d1 & Hs & Hact & Hop & Hstep)];
    [done| |apply Hinv].
  destruct (opened_same _ _ Hop) as (Ha & Hl & Hsu).
  assert (Hinv1 : renewal_inv d1).
  { destruct Hop as [->|(c & Hn & Hv & Hst & ->)]; [done|by apply renewal_inv_opened]. }
  destruct Hstep as [o -> Hnp Hren|k c sub' Hc His Hst Hs' Hact' Hidc Hids (a & Ha' & Hlt) ->|
    k c sub' en d2 r Hc His Hst Hs' Hact' Hdate Hpos Hidc Hids Happ Hacc]; simpl.
  - destruct o; [|done|done]. destruct (Hren eq_refl) as (k & c & Hc & His & Hst).
    apply is_cycle_true in His as [Hcs Hcd].
    destruct (ri_next d1 Hinv1 k c Hc Hst) as (x & Hx & Hlt).
    exfalso. rewrite Hcs, Hsu, Hs in Hx. simplify_eq. lia.
  - rewrite Hsu, Hs in Hs'. simplify_eq. exists sub', a. rewrite Ha in Ha'. simpl. by rewrite Ha, Hl, Hsu.
  - rewrite Hsu, Hs in Hs'. simplify_eq. exists sub', en.
    destruct (renewal_debit_new _ _ _ _ _ _ _ _ _ _ Hinv1 Hc His Hst Happ) as (Hf & Hl1 & Hd & Hk).
    destruct (applied_same_subs _ _ _ _ _ _ _ _ Happ) as [Hs1 _].
    destruct (accrued_shape _ _ _ _ _ _ _ _ Hacc) as (_ & Hsu' & tail & Hle & _).
    simpl in Hsu', Hle. rewrite Hl in Hf, Hl1.
    split_and!; [done|done|done|..|done|].
    + rewrite Hle, Hl1. by apply find_entry_app_l, find_entry_snoc.
    + destruct Happ as [Hf' _|]; [rewrite Hl in Hf'; congruence|done].
    + by rewrite Hsu', Hs1, Hsu.
Qed.

(** ** A concrete renewal *)

Definition sub_db : Db :=
  margin_db <| packages := {[ 50%N := mkPackage 50 "pkg" "Title" "Op" "" None "" 30 10000000 (Some 4000000) "" ]} |>
    <| orders := {[ 51%N := mkOrder 51 3 50 ORD_FULFILLED "" "" None no_product None None None no_pricing 0 ]} |>
    <| esims := {[ 52%N := mkEsim 52 3 8 None 51 "iccid" "" no_install IN_USE POLICY_UNKNOWN "" "" None None None no_usage 0 0 ]} |>
    <| ledger := [mkEntry 60 3 50000000 50000000 DEPOSIT "d" "dep" 0] |>
    <| subscriptions := {[ 53%N := mkSubscription 53 3 52 12000000 95 SUB_ACTIVE ]} |>.

(** 50 minus a period of 12, and a commission of 1.2 to the partner's team. *)
Example renew_example :
  match renew_one 53 None sample_env (world_of sub_db) with
  | (Ok o, w') => (Some o, acc_balance <$> accounts (db w') !! 3%N,
      acc_balance <$> accounts (db w') !! 2%N,
      sub_next_billing_date <$> subscriptions (db w') !! 53%N, length (events w'))
  | _ => (None, None, None, None, 0%nat)
  end = (Some renewed, Some 38000000, Some 1200000, Some 125%N, 2%nat).
Proof. vm_compute. reflexivity. Qed.

Lemma sub_db_renewal_inv : renewal_inv sub_db.
Proof.
  split; try done.
  - split; [|done]. intros k s. unfold sub_db. simpl. by intros [<- <-]%lookup_singleton_Some.
  - by intros en s d ->%list_elem_of_singleton.
Qed.

Lemma renew_one_outcome_witness :
  ∃ w', renew_one 53 None sample_env (world_of sub_db) = (Ok renewed, w') ∧
    outcome_means 53 renewed sub_db (db w').
Proof.
  destruct (renew_one 53 None sample_env (world_of sub_db)) as [[o|x] w'] eqn:E;
    [|vm_compute in E; discriminate E].
  assert (o = renewed) as -> by (vm_compute in E; congruence).
  exists w'. split; [reflexivity|].
  apply (renew_one_outcome 53 None sample_env (world_of sub_db) renewed w' E).
  apply sub_db_renewal_inv.
Defined.
