(* ===== verification/Grants.v ===== *)
(** * Partner credit grants

    [apps/billing/services/partner_grant.py] and
    [apps/billing/services/account.py]: moving credits from a channel's
    settlement account to a customer attributed to that channel. *)

From S2P Require Import Prelude Tables Money Models EsimModels World Effects Credit Settlement.
#[local] Open Scope Z_scope.

(** ** Account provisioning *)

(** The account table's verdict on a new row: one account per user. *)
Definition new_account_verdict (d : Db) (a : Account) : option Exn :=
  if qexists (λ b, match acc_user a with
                   | Some u => bool_decide (acc_user b = Some u) | None => false end) (accounts d)
  then Some IntegrityError
  else account_verdict d a.

(** [ensure_billing_account]: [objects.get_or_create(user=user, ...)]. *)
Definition ensure_billing_account (user : pk) : M Account :=
  let! found_ := query (account_of_user user) in
  match found_ with
  | Some a => ret a
  | None =>
      try_except
        (atomic (
          let! id := uuid4 in
          let a := mkAccount id (Some user) PERSONAL 0 0 None in
          create accounts new_account_verdict id a;;;
          ret a))
        (on_integrity_error (
          let! again := query (account_of_user user) in
          match again with
          | Some a => ret a
          | None => raise IntegrityError
          end))
  end.

(** ** The grant service *)

Definition _existing (channel : pk) (idempotency_key : string) : M (option PartnerCreditGrant) :=
  query (λ d, qfirst (λ g, (grant_partner_channel g =? channel)%N &&
                           bool_decide (grant_idempotency_key g = idempotency_key)) (grants d)).

Definition _matching (grant : PartnerCreditGrant) (customer : pk) (amount : money)
    : M PartnerCreditGrant :=
  raise_if (negb (grant_customer_user_id_snapshot grant =? customer)%N ||
            negb (grant_amount grant =? amount)) PartnerGrantIdempotencyConflict;;;
  ret grant.

Definition is_owner_or_admin (organization actor : pk) (m : Membership) : bool :=
  (mem_organization m =? organization)%N && (mem_user m =? actor)%N &&
  bool_decide (mem_status m = MEM_ACTIVE) &&
  (bool_decide (mem_role m = OWNER) || bool_decide (mem_role m = ADMIN)).

Definition _require_grant_membership (actor : pk) (partner_channel : PartnerChannel) : M unit :=
  let! membership := query (λ d,
    match ch_organization partner_channel with
    | Some o => qfirst (is_owner_or_admin o actor) (memberships d)
    | None => None
    end) in
  raise_if (bool_decide (membership = None)) PartnerGrantForbidden.

Definition _lock_attribution (customer : pk) : M (option CustomerAttribution) :=
  locked_query (λ d, qfirst (λ a, (attr_user a =? customer)%N) (attributions d)).

Definition _require_current_channel (attribution : option CustomerAttribution)
    (partner_channel : PartnerChannel) : M CustomerAttribution :=
  match attribution with
  | None => raise CustomerNotAttributed
  | Some a =>
      raise_if (negb (attr_partner_channel a =? ch_id partner_channel)%N)
        CustomerAttributionChanged;;;
      ret a
  end.

Definition _lock_ordered_accounts (source destination : pk) : M (Account * Account) :=
  raise_if (source =? destination)%N PartnerGrantSameAccount;;;
  let! locked := locked_query (λ d, (accounts d !! source, accounts d !! destination)) in
  match locked with
  | (Some s, Some t) => ret (s, t)
  | _ => raise DoesNotExist
  end.

(** The unique constraints and the check of the grant table. *)
Definition grant_verdict (d : Db) (g : PartnerCreditGrant) : option Exn :=
  if negb (fits_numeric (grant_amount g)) then Some DataError
  else if qexists (λ h,
      (grant_partner_channel h =? grant_partner_channel g)%N &&
        bool_decide (grant_idempotency_key h = grant_idempotency_key g) ||
      (grant_debit_ledger_entry h =? grant_debit_ledger_entry g)%N ||
      (grant_credit_ledger_entry h =? grant_credit_ledger_entry g)%N) (grants d)
  then Some IntegrityError
  else if negb (0 <? grant_amount g) then Some IntegrityError
  else None.

Definition grant_out_key (g : pk) : string := "partner-grant-out:" +:+ str g.
Definition grant_in_key (g : pk) : string := "partner-grant-in:" +:+ str g.

(** The debit, the credit and the grant row. *)
Definition transfer (actor customer : pk) (channel : PartnerChannel)
    (attribution : CustomerAttribution) (source destination : pk) (amount : money)
    (idempotency_key : string) : M PartnerCreditGrant :=
  let! grant_id := uuid4 in
  let! debit_ := debit source (AMoney amount) (RefEnum PARTNER_GRANT_OUT) (str grant_id)
    (grant_out_key grant_id) in
  let! credit_ := credit destination (AMoney amount) (RefEnum PARTNER_GRANT_IN) (str grant_id)
    (grant_in_key grant_id) in
  let g := mkGrant grant_id (ch_id channel) (Some customer) customer (attr_id attribution)
    (Some actor) actor amount idempotency_key (le_id debit_) (le_id credit_) in
  create grants grant_verdict grant_id g;;;
  ret g.

(** The [with transaction.atomic()] block of [_execute]. *)
Definition execute_locked (actor : pk) (channel : PartnerChannel) (source_account_id customer : pk)
    (amount : money) (idempotency_key : string) : M PartnerCreditGrant :=
  let! attribution := _lock_attribution customer in
  let! existing := _existing (ch_id channel) idempotency_key in
  match existing with
  | Some g => _matching g customer amount
  | None =>
      let! attribution := _require_current_channel attribution channel in
      let! destination := ensure_billing_account customer in
      let! locked := _lock_ordered_accounts source_account_id (acc_id destination) in
      raise_if (acc_balance locked.1 <? 0) PartnerGrantNegativeBalance;;;
      transfer actor customer channel attribution source_account_id (acc_id destination) amount
        idempotency_key
  end.

(** [PartnerGrantService._execute] *)
Definition _execute (actor : pk) (channel : PartnerChannel) (source_account_id customer : pk)
    (amount : money) (idempotency_key : string) : M PartnerCreditGrant :=
  let! existing := _existing (ch_id channel) idempotency_key in
  match existing with
  | Some g => _matching g customer amount
  | None =>
      try_except
        (atomic (execute_locked actor channel source_account_id customer amount idempotency_key))
        (on_integrity_error (
          let! raced := _existing (ch_id channel) idempotency_key in
          match raced with
          | None => raise IntegrityError
          | Some g => _matching g customer amount
          end))
  end.

(** [PartnerGrantService.grant] *)
Definition grant (actor : pk) (channel : PartnerChannel) (customer : pk) (amount : Amount)
    (idempotency_key : string) : M PartnerCreditGrant :=
  raise_if (bool_decide (idempotency_key = "")) PartnerGrantError;;;
  let! quantized := lift (_normalize_amount amount) in
  let! enabled := asks PARTNER_CHANNEL_ENABLED in
  raise_if (negb enabled) PartnerChannelDisabled;;;
  _require_grant_membership actor channel;;;
  let! organization := found (ch_organization channel) in
  let! organization := get organizations organization in
  _execute actor channel (org_account organization) customer quantized idempotency_key.

(** [PartnerGrantService.grant_from_account] *)
Definition grant_from_account (actor : pk) (channel : PartnerChannel) (source_account customer : pk)
    (amount : Amount) (idempotency_key : string) : M PartnerCreditGrant :=
  raise_if (bool_decide (idempotency_key = "")) PartnerGrantError;;;
  let! quantized := lift (_normalize_amount amount) in
  let! enabled := asks PARTNER_CHANNEL_ENABLED in
  raise_if (negb enabled) PartnerChannelDisabled;;;
  _execute actor channel source_account customer quantized idempotency_key.

(** ** What provisioning does *)

Definition provisioned (user : pk) (d d' : Db) (a : Account) : Prop :=
  d' = d ∧ account_of_user user d = Some a ∨
  a = mkAccount (acc_id a) (Some user) PERSONAL 0 0 None ∧ accounts d !! acc_id a = None ∧
  account_of_user user d = None ∧ d' = put accounts (acc_id a) a d.

Lemma ensure_account_Ok user e w a w' :
  ensure_billing_account user e w = (Ok a, w') → aborted w = false →
  provisioned user (db w) (db w') a ∧ aborted w' = false.
Proof.
  unfold ensure_billing_account. intros H Hw. inv_run H; [by split; [left|]|].
  inv_call try_Ok as [Hrun|(x & k & w1 & Hrun & Hx & Hk)].
  - apply atomic_clean_Ok in Hrun as (w1 & Hrun & ->); [|solve_clean|done].
    inv_run Hrun. split; [right|done]. done.
  - apply atomic_Raise in Hrun as [Hdb Hab]. destruct x; simplify_eq/=. inv_run Hk.
    split; [left|done]. by rewrite <- Hdb.
Qed.

(** A caller with an account keeps it; one without gets it, provided the key
    drawn for it is new. *)
Lemma ensure_account_run user e w :
  aborted w = false →
  (account_of_user user (db w) = None → accounts (db w) !! next_uuid w = None) →
  ∃ a w', ensure_billing_account user e w = (Ok a, w').
Proof.
  intros Hw Hn. unfold ensure_billing_account. erewrite bind_step by (by apply query_run).
  destruct (account_of_user user (db w)) as [a|] eqn:Ha; [by exists a, w|].
  specialize (Hn eq_refl). do 2 eexists. apply try_run, atomic_run.
  - erewrite bind_step by done. erewrite bind_step; [done|]. apply create_run; [done|done|].
    unfold new_account_verdict. rewrite (proj2 (qexists_false _ _)); [done|].
    intros k b Hb. simpl in *. apply (proj1 (qfirst_None _ _)) with (k := k) (v := b) in Ha; [|done].
    exact Ha.
  - done.
Qed.

Lemma account_sum_fresh d k : ledger_inv d → accounts d !! k = None → account_sum k (ledger d) = 0.
Proof.
  intros Hinv Hk. apply account_sum_none. intros en Hin E.
  destruct (li_accounts d Hinv en Hin) as [? Hx]. rewrite E in Hx. congruence.
Qed.

(** A new account starts at zero and leaves the books as they are. *)
Lemma ledger_inv_new_account d a :
  accounts d !! acc_id a = None → acc_balance a = 0 → account_checks a = true →
  ledger_inv d → ledger_inv (put accounts (acc_id a) a d).
Proof.
  intros Hn Hb Hc Hinv. pose proof (account_sum_fresh _ _ Hinv Hn) as H0.
  split; simpl; try apply Hinv.
  - intros en Hin. apply lookup_insert_is_Some'. right. by apply Hinv.
  - intros k b [[<- <-]|[_ Hk]]%lookup_insert_Some; [done|by apply (li_rows d Hinv)].
  - intros k b [[<- <-]|[_ Hk]]%lookup_insert_Some; [by rewrite H0|by apply (li_balance d Hinv)].
Qed.

Lemma ledger_inv_provisioned user d d' a :
  provisioned user d d' a → ledger_inv d → ledger_inv d'.
Proof.
  intros [[-> _]|(Ha & Hn & _ & ->)] Hinv; [done|].
  apply ledger_inv_new_account; [done|by rewrite Ha..|done].
Qed.

(** ** What a grant does *)

Inductive granted (actor customer : pk) (channel : PartnerChannel) (source : pk)
    (amount : money) (key : string) (d d' : Db) (g : PartnerCreditGrant) : Prop :=
  | granted_replay k :
      grants d !! k = Some g → grant_partner_channel g = ch_id channel →
      grant_idempotency_key g = key → grant_customer_user_id_snapshot g = customer →
      grant_amount g = amount → d' = d → granted actor customer channel source amount key d d' g
  | granted_new att destination d1 d2 d3 e1 e2 :
      qfirst (λ a, (attr_user a =? customer)%N) (attributions d) = Some att →
      attr_partner_channel att = ch_id channel →
      provisioned customer d d1 destination → source ≠ acc_id destination →
      qfirst (λ g, (grant_partner_channel g =? ch_id channel)%N &&
                   bool_decide (grant_idempotency_key g = key)) (grants d) = None →
      applied source (- amount) PARTNER_GRANT_OUT (str (grant_id g)) (grant_out_key (grant_id g))
        d1 d2 e1 →
      applied (acc_id destination) amount PARTNER_GRANT_IN (str (grant_id g))
        (grant_in_key (grant_id g)) d2 d3 e2 →
      0 < amount → grants d !! grant_id g = None →
      g = mkGrant (grant_id g) (ch_id channel) (Some customer) customer (attr_id att) (Some actor)
            actor amount key (le_id e1) (le_id e2) →
      d' = put grants (grant_id g) g d3 →
      granted actor customer channel source amount key d d' g.

Lemma matching_Ok g customer amount e w r w' :
  _matching g customer amount e w = (Ok r, w') →
  w' = w ∧ r = g ∧ grant_customer_user_id_snapshot g = customer ∧ grant_amount g = amount.
Proof. unfold _matching. intros H. inv_run H. by bool_to_prop. Qed.

Lemma existing_granted actor customer channel source amount key g d :
  qfirst (λ g, (grant_partner_channel g =? ch_id channel)%N &&
               bool_decide (grant_idempotency_key g = key)) (grants d) = Some g →
  grant_customer_user_id_snapshot g = customer → grant_amount g = amount →
  granted actor customer channel source amount key d d g.
Proof.
  intros Hf Hc Ha. apply qfirst_Some in Hf as (k & Hk & HP). bool_to_prop.
  by eapply granted_replay.
Qed.

Lemma applied_grants account delta t rid key d d' en :
  applied account delta t rid key d d' en → grants d' = grants d.
Proof. intros H. by apply applied_only_money in H as ->. Qed.

Lemma provisioned_grants user d d' a : provisioned user d d' a → grants d' = grants d.
Proof. by intros [[-> _]|(_ & _ & _ & ->)]. Qed.

Lemma execute_locked_Ok actor channel source customer amount key e w g w' :
  execute_locked actor channel source customer amount key e w = (Ok g, w') →
  granted actor customer channel source amount key (db w) (db w') g.
Proof.
  unfold execute_locked, _lock_attribution, _existing, _require_current_channel,
    _lock_ordered_accounts, transfer, debit, credit. intros H. inv_run H.
  - inv_call matching_Ok as (-> & -> & Hc & Ha). by eapply existing_granted.
  - inv_call ensure_account_Ok as [Hprov Hab]; [|done]. bool_to_prop. 
    repeat (inv_call apply_money as (?Happ & _ & ?Hb)).
    simpl in Happ0.
    match goal with Hg : grants (db w2) !! _ = None |- _ =>
      rewrite (applied_grants _ _ _ _ _ _ _ _ Happ), (applied_grants _ _ _ _ _ _ _ _ Happ0) in Hg;
      simpl in Hg; rewrite (provisioned_grants _ _ _ _ Hprov) in Hg end.
    eapply (granted_new _ _ _ _ _ _ _ _ _ c a (db w0) (db w1) (db w2)); simpl; (done || lia).
Qed.

Lemma clean_ensure user : clean (ensure_billing_account user).
Proof. unfold ensure_billing_account. solve_clean. Qed.
#[export] Hint Resolve clean_ensure : effects.

Lemma clean_execute_locked actor channel source customer amount key :
  clean (execute_locked actor channel source customer amount key).
Proof.
  unfold execute_locked, _lock_attribution, _existing, _matching, _require_current_channel,
    _lock_ordered_accounts, transfer. solve_clean.
Qed.
#[export] Hint Resolve clean_execute_locked : effects.

Lemma execute_Ok actor channel source customer amount key e w g w' :
  _execute actor channel source customer amount key e w = (Ok g, w') →
  granted actor customer channel source amount key (db w) (db w') g.
Proof.
  unfold _execute, _existing. intros H. inv_run H.
  - inv_call matching_Ok as (-> & -> & Hc & Ha). by eapply existing_granted.
  - inv_call try_Ok as [Hrun|(x & k & w1 & Hrun & Hx & Hk)].
    + apply atomic_clean_Ok in Hrun as (w1 & Hrun & ->); [|apply clean_execute_locked|done].
      by apply execute_locked_Ok in Hrun.
    + apply atomic_Raise in Hrun as [Hdb _]. destruct x; simplify_eq/=. inv_run Hk.
      inv_call matching_Ok as (-> & -> & Hc & Ha). rewrite Hdb in *. by eapply existing_granted.
Qed.

(** A call that raises changes nothing. *)
Lemma execute_raise actor channel source customer amount key e w x w' :
  _execute actor channel source customer amount key e w = (Raise x, w') → db w' = db w.
Proof.
  unfold _execute, _existing, _matching. rewrite bind_run. unfold query at 1.
  destruct (aborted w); [by intros [= _ <-]|]. destruct (qfirst _ _) as [g|].
  { unfold raise_if, ret, raise, bind. destruct (_ || _); intros; by simplify_eq/=. }
  unfold try_except. destruct (atomic _ e w) as [[g|y] w1] eqn:E; [done|].
  apply atomic_Raise in E as [Hdb _]. destruct y; simpl;
    intros H; try (by injection H as _ <-).
  rewrite <- Hdb. revert H. unfold bind, raise_if, query, ret, raise.
  repeat case_match; intros; by simplify_eq/=.
Qed.

(** ** The grant invariant *)

#[export] Instance grant_out_key_inj : Inj (=) (=) grant_out_key.
Proof. intros j k H. by apply (inj (String.append "partner-grant-out:")), (inj str) in H. Qed.
#[export] Instance grant_in_key_inj : Inj (=) (=) grant_in_key.
Proof. intros j k H. by apply (inj (String.append "partner-grant-in:")), (inj str) in H. Qed.

Lemma out_not_in j k : grant_out_key j ≠ grant_in_key k.
Proof. done. Qed.

(** A grant is one transfer: its debit and its credit are ledger entries of
    opposite amounts on two different accounts. *)
Record grant_inv (d : Db) : Prop := {
  gi_keyed : ∀ k g, grants d !! k = Some g → grant_id g = k;
  gi_unique : ∀ j k g h, grants d !! j = Some g → grants d !! k = Some h →
    grant_partner_channel g = grant_partner_channel h →
    grant_idempotency_key g = grant_idempotency_key h → j = k;
  gi_entries : ∀ k g, grants d !! k = Some g → 0 < grant_amount g ∧
    ∃ e1 e2, find_entry (grant_out_key k) (ledger d) = Some e1 ∧
      find_entry (grant_in_key k) (ledger d) = Some e2 ∧
      le_id e1 = grant_debit_ledger_entry g ∧ le_id e2 = grant_credit_ledger_entry g ∧
      le_delta e1 = - grant_amount g ∧ le_delta e2 = grant_amount g ∧
      le_account e1 ≠ le_account e2;
  gi_keys : ∀ en k, en ∈ ledger d →
    le_idempotency_key en = grant_out_key k ∨ le_idempotency_key en = grant_in_key k →
    is_Some (grants d !! k);
}.

(** The two entries of a new grant are new. *)
Lemma transfer_applied d d2 d3 source dest g amount rid1 rid2 e1 e2 :
  (∀ en k, en ∈ ledger d →
    le_idempotency_key en = grant_out_key k ∨ le_idempotency_key en = grant_in_key k →
    is_Some (grants d !! k)) →
  grants d !! g = None →
  applied source (- amount) PARTNER_GRANT_OUT rid1 (grant_out_key g) d d2 e1 →
  applied dest amount PARTNER_GRANT_IN rid2 (grant_in_key g) d2 d3 e2 →
  find_entry (grant_out_key g) (ledger d) = None ∧ find_entry (grant_in_key g) (ledger d) = None ∧
  ledger d3 = ledger d ++ [e1; e2] ∧ grants d3 = grants d ∧
  le_idempotency_key e1 = grant_out_key g ∧ le_idempotency_key e2 = grant_in_key g ∧
  le_account e1 = source ∧ le_account e2 = dest ∧ le_delta e1 = - amount ∧ le_delta e2 = amount ∧
  (source ≠ dest → sum_rows acc_balance (accounts d3) = sum_rows acc_balance (accounts d)).
Proof.
  intros Hkeys Hn H1 H2.
  assert (Hno : ∀ key, key = grant_out_key g ∨ key = grant_in_key g →
    find_entry key (ledger d) = None).
  { intros key Hkey. destruct (find_entry key (ledger d)) as [en|] eqn:E; [|done].
    apply find_entry_Some in E as [Hin Hk].
    destruct (Hkeys en g Hin) as [? ?]; [by rewrite Hk|congruence]. }
  destruct H1 as [Hf _|a a' Ha Hf Hd H0 Ha1 Hd1 _ _ _ Hk1 Ea _ Ed2].
  { rewrite Hno in Hf; [done|by left]. }
  destruct H2 as [Hf2 _|b b' Hb Hf2 Hd' H0' Hb1 Hd2 _ _ _ Hk2 Eb _ Ed3].
  { rewrite Ed2 in Hf2. simpl in Hf2.
    apply find_entry_Some in Hf2 as [Hin Hk]. apply elem_of_app in Hin as [Hin| ->%list_elem_of_singleton].
    - destruct (Hkeys e2 g Hin) as [? ?]; [by right|congruence].
    - rewrite Hk1 in Hk. by apply out_not_in in Hk. }
  split_and!; [done|apply Hno; by right|..]; try congruence.
  - rewrite Ed3, Ed2. simpl. by rewrite <- (assoc_L (++)).
  - by rewrite Ed3, Ed2.
  - intros Hne. rewrite Ed3. simpl. rewrite (sum_rows_insert_old _ _ _ _ _ Hb).
    rewrite Ed2 in Hb |- *. simpl in *. rewrite (sum_rows_insert_old _ _ _ _ _ Ha).
    subst. simpl. lia.
Qed.

Lemma provisioned_shape user d d' a :
  provisioned user d d' a →
  ledger d' = ledger d ∧ grants d' = grants d ∧
  sum_rows acc_balance (accounts d') = sum_rows acc_balance (accounts d).
Proof.
  intros [[-> _]|(Ha & Hn & _ & ->)]; [done|]. split_and!; [done|done|].
  simpl. rewrite sum_rows_insert_fresh by done. rewrite Ha. simpl. lia.
Qed.

Definition total_balance (d : Db) : money := sum_rows acc_balance (accounts d).

Lemma granted_inv actor customer channel source amount key d d' g :
  granted actor customer channel source amount key d d' g → grant_inv d →
  grant_inv d' ∧ total_balance d' = total_balance d.
Proof.
  intros [k _ _ _ _ _ ->|att dest d1 d2 d3 e1 e2 _ _ Hprov Hne Hnone H1 H2 Hpos Hfresh Hg ->] Hinv;
    [done|].
  destruct (provisioned_shape _ _ _ _ Hprov) as (Hl1 & Hg1 & Ht1).
  destruct (transfer_applied d1 d2 d3 source (acc_id dest) (grant_id g) amount (str (grant_id g)) (str (grant_id g)) e1 e2)
    as (Hf1 & Hf2 & Hl & Hgr & Hk1 & Hk2 & Ha1 & Ha2 & Hd1 & Hd2 & Ht); rewrite ?Hg1; try done.
  { rewrite Hl1. apply Hinv. }
  rewrite Hl1 in Hf1, Hf2, Hl. rewrite Hg1 in Hgr. unfold total_balance. simpl.
  split; [|rewrite Ht by done; exact Ht1].
  assert (Hin2 : find_entry (grant_in_key (grant_id g)) (ledger d ++ [e1; e2]) = Some e2).
  { change [e1; e2] with ([e1] ++ [e2]). rewrite (assoc_L (++)). apply find_entry_snoc; [|done].
    apply find_entry_None. rewrite fmap_app, not_elem_of_app. split; [by apply find_entry_None|].
    csimpl. rewrite Hk1. intros E%list_elem_of_singleton. by destruct (out_not_in _ _ (eq_sym E)). }
  assert (Hout1 : find_entry (grant_out_key (grant_id g)) (ledger d ++ [e1; e2]) = Some e1).
  { change [e1; e2] with ([e1] ++ [e2]). rewrite (assoc_L (++)).
    by apply find_entry_app_l, find_entry_snoc. }
  rewrite qfirst_None in Hnone.
  split; simpl; rewrite ?Hgr, ?Hl.
  - intros k h [[<- <-]|[_ Hh]]%lookup_insert_Some; [done|by apply (gi_keyed d Hinv)].
  - intros j k h i [[<- <-]|[_ Hh]]%lookup_insert_Some [[<- <-]|[_ Hi]]%lookup_insert_Some Hc Hk;
      [done|..|by eapply (gi_unique d Hinv)].
    + specialize (Hnone _ _ Hi). rewrite Hg in Hc, Hk. simpl in Hc, Hk.
      rewrite <- Hc, <- Hk, N.eqb_refl, bool_decide_true in Hnone; done.
    + specialize (Hnone _ _ Hh). rewrite Hg in Hc, Hk. simpl in Hc, Hk.
      rewrite Hc, Hk, N.eqb_refl, bool_decide_true in Hnone; done.
  - intros k h [[<- <-]|[_ Hh]]%lookup_insert_Some.
    + assert (Hp : grant_amount g = amount ∧ grant_debit_ledger_entry g = le_id e1 ∧
        grant_credit_ledger_entry g = le_id e2) by (by rewrite Hg).
      destruct Hp as (Hp1 & Hp2 & Hp3). split; [lia|]. exists e1, e2. split_and!; congruence.
    + destruct (gi_entries d Hinv k h Hh) as (Hp & x & y & Hx & Hy & Hrest).
      split; [done|]. exists x, y. split_and!; try apply Hrest; by apply find_entry_app_l.
  - intros en k Hin Hk. apply lookup_insert_is_Some'. apply elem_of_app in Hin as [Hin|Hin].
    + right. by eapply (gi_keys d Hinv).
    + left. apply elem_of_cons in Hin as [->|Hin%list_elem_of_singleton].
      * rewrite Hk1 in Hk. destruct Hk as [Hk|Hk]; [by apply (inj grant_out_key)|].
        by apply out_not_in in Hk.
      * subst en. rewrite Hk2 in Hk. destruct Hk as [Hk|Hk]; [|by apply (inj grant_in_key)].
        by destruct (out_not_in _ _ (eq_sym Hk)).
Qed.

Lemma granted_ledger_inv actor customer channel source amount key d d' g :
  granted actor customer channel source amount key d d' g → ledger_inv d → ledger_inv d'.
Proof.
  intros [k _ _ _ _ _ ->|att dest d1 d2 d3 e1 e2 _ _ Hprov Hne Hnone H1 H2 Hpos Hfresh Hg ->] Hinv;
    [done|].
  eapply ledger_inv_provisioned in Hprov; [|done].
  apply ledger_inv_applied in H1; [|done]. apply ledger_inv_applied in H2; [|done].
  by destruct H2; split.
Qed.

Lemma execute_run actor channel source customer amount key e w r w' :
  _execute actor channel source customer amount key e w = (r, w') →
  db w' = db w ∨ ∃ g, granted actor customer channel source amount key (db w) (db w') g.
Proof.
  destruct r as [g|x]; intros H; [right; exists g; by apply execute_Ok in H|left].
  by apply execute_raise in H.
Qed.

Section Respects.
Context (R : relation Db) `{!PreOrder R}.
Hypothesis HR : ∀ actor customer channel source amount key d d' g,
  granted actor customer channel source amount key d d' g → R d d'.

Lemma respects_execute actor channel source customer amount key :
  respects R (_execute actor channel source customer amount key).
Proof. intros e w r w' [->|[g Hg]]%execute_run; [reflexivity|by eapply HR]. Qed.

Lemma respects_grants actor channel customer amount key source :
  respects R (grant actor channel customer amount key) ∧
  respects R (grant_from_account actor channel source customer amount key).
Proof.
  pose proof respects_execute as Hex.
  split; unfold grant, grant_from_account, _require_grant_membership.
  - solve_respects; done.
  - solve_respects; done.
Qed.
End Respects.

(** ** Properties *)

(** C8: A grant, team or resolved, is a transfer: however it ends it keeps the
    grant and ledger invariants and the total of all balances, so what leaves
    the partner's account is exactly what reaches the customer's. *)
Theorem grants_conserve_money actor channel customer amount key source :
  respects (λ d d', grant_inv d ∧ ledger_inv d →
    (grant_inv d' ∧ ledger_inv d') ∧ total_balance d' = total_balance d)
    (grant actor channel customer amount key) ∧
  respects (λ d d', grant_inv d ∧ ledger_inv d →
    (grant_inv d' ∧ ledger_inv d') ∧ total_balance d' = total_balance d)
    (grant_from_account actor channel source customer amount key).
Proof.
  apply respects_grants.
  - split; [by intros d H|]. intros d1 d2 d3 H1 H2 H. destruct (H1 H) as [H' E].
    destruct (H2 H') as [H'' E']. split; [done|congruence].
  - intros * Hg [Hi Hl]. destruct (granted_inv _ _ _ _ _ _ _ _ _ Hg Hi) as [Hi' Ht].
    split; [|done]. split; [done|by eapply granted_ledger_inv].
Qed.

(** A successful grant under an unused key did everything it records: the
    customer is attributed to this very channel, the source and the customer's
    own account differ, the ledger grew by exactly the debit of the source and
    the credit of the customer, and the grant row links the two. *)
Theorem grant_outcome actor channel source customer amount key e w g w' :
  grant_from_account actor channel source customer amount key e w = (Ok g, w') →
  grant_inv (db w) →
  qfirst (λ g, (grant_partner_channel g =? ch_id channel)%N &&
               bool_decide (grant_idempotency_key g = key)) (grants (db w)) = None →
  ∃ att dest n e1 e2, _normalize_amount amount = Ok n ∧ grant_amount g = n ∧
    qfirst (λ a, (attr_user a =? customer)%N) (attributions (db w)) = Some att ∧
    attr_partner_channel att = ch_id channel ∧
    acc_user dest = Some customer ∧ source ≠ acc_id dest ∧
    ledger (db w') = ledger (db w) ++ [e1; e2] ∧
    le_account e1 = source ∧ le_delta e1 = - n ∧
    le_account e2 = acc_id dest ∧ le_delta e2 = n ∧
    grants (db w') = <[grant_id g := g]> (grants (db w)) ∧
    grant_debit_ledger_entry g = le_id e1 ∧ grant_credit_ledger_entry g = le_id e2.
Proof.
  unfold grant_from_account. intros H Hinv Hnone. inv_run H. inv_call lift_Ok as [Hn ->].
  lazymatch type of Hn with _ = Ok ?x => rename x into n end.
  inv_call execute_Ok as Hg.
  destruct Hg as [k Hk Hc Hkey _ _ ->|att dest d1 d2 d3 e1 e2 Hatt Hch Hprov Hne _ H1 H2 Hpos Hfresh Hg ->].
  { rewrite qfirst_None in Hnone. specialize (Hnone k g Hk).
    rewrite Hc, Hkey, N.eqb_refl, bool_decide_true in Hnone; done. }
  destruct (provisioned_shape _ _ _ _ Hprov) as (Hl1 & Hg1 & _).
  destruct (transfer_applied d1 d2 d3 source (acc_id dest) (grant_id g) n (str (grant_id g))
    (str (grant_id g)) e1 e2) as (_ & _ & Hl & Hgr & _ & _ & Ha1 & Ha2 & Hd1 & Hd2 & _);
    rewrite ?Hg1; try done.
  { rewrite Hl1. apply Hinv. }
  exists att, dest, n, e1, e2. simpl. rewrite Hgr, Hg1, Hl, Hl1.
  assert (Huser : acc_user dest = Some customer).
  { destruct Hprov as [[_ Hf]|(-> & _)]; [|done]. unfold account_of_user in Hf.
    apply qfirst_Some in Hf as (? & _ & HP). by bool_to_prop. }
  assert (Hp : grant_amount g = n ∧ grant_debit_ledger_entry g = le_id e1 ∧
    grant_credit_ledger_entry g = le_id e2) by (by rewrite Hg).
  destruct Hp as (? & ? & ?). by split_and!.
Qed.

(** A used grant key is final: the same request returns the recorded grant,
    a different customer or amount is an idempotency conflict, and neither
    writes anything, whatever became of the attribution. *)
Theorem grant_key_is_final actor channel source customer amount key e w g n :
  aborted w = false → PARTNER_CHANNEL_ENABLED (settings e) = true → key ≠ "" →
  _normalize_amount amount = Ok n →
  qfirst (λ g, (grant_partner_channel g =? ch_id channel)%N &&
               bool_decide (grant_idempotency_key g = key)) (grants (db w)) = Some g →
  grant_from_account actor channel source customer amount key e w =
    (if (grant_customer_user_id_snapshot g =? customer)%N && (grant_amount g =? n)
     then Ok g else Raise PartnerGrantIdempotencyConflict, w).
Proof.
  intros Hw Hen Hkey Hn Hg. unfold grant_from_account, _execute, _existing, _matching.
  rewrite bool_decide_false by done. unfold raise_if at 1. rewrite bind_run. unfold ret at 1.
  rewrite Hn, bind_run. simpl. rewrite bind_run. unfold asks. rewrite bind_run, Hen. simpl.
  rewrite bind_run. unfold query. rewrite Hw, Hg.
  destruct (_ =? customer)%N, (grant_amount g =? n); done.
Qed.

(** Only owners and admins grant: without an active owner or admin
    membership of the channel's organization, [grant] refuses and writes
    nothing. *)
Theorem grant_requires_role actor channel customer amount key e w n o :
  aborted w = false → PARTNER_CHANNEL_ENABLED (settings e) = true → key ≠ "" →
  _normalize_amount amount = Ok n → ch_organization channel = Some o →
  (∀ k m, memberships (db w) !! k = Some m → mem_organization m = o → mem_user m = actor →
     mem_status m = MEM_ACTIVE → mem_role m ≠ OWNER ∧ mem_role m ≠ ADMIN) →
  grant actor channel customer amount key e w = (Raise PartnerGrantForbidden, w).
Proof.
  intros Hw Hen Hkey Hn Ho Hm. unfold grant, _require_grant_membership.
  rewrite bool_decide_false by done. unfold raise_if at 1. rewrite bind_run. unfold ret at 1.
  rewrite Hn, bind_run. simpl. rewrite bind_run. unfold asks. rewrite bind_run, Hen. simpl.
  rewrite bind_run. unfold query. rewrite bind_run, Hw, Ho.
  replace (qfirst _ _) with (@None Membership); [done|]. symmetry. apply qfirst_None.
  intros k m Hk. unfold is_owner_or_admin.
  destruct (N.eqb_spec (mem_organization m) o), (N.eqb_spec (mem_user m) actor); simpl; try done.
  case_bool_decide; simpl; [|done]. destruct (Hm k m) as [H1 H2]; try done.
  by rewrite !bool_decide_false.
Qed.

(** ** A concrete grant *)

(** The team of [channel_db] has 50; user 8 is its customer, user 7 its owner. *)
Definition grant_db : Db :=
  channel_db <| accounts := {[ 2%N := mkAccount 2 None ORGANIZATION 50000000 1 None;
                               3%N := mkAccount 3 (Some 8%N) PERSONAL 0 0 None ]} |>
    <| ledger := [mkEntry 60 2 50000000 50000000 DEPOSIT "d" "dep" 0] |>
    <| memberships := {[ 70%N := mkMembership 70 4 7 OWNER MEM_ACTIVE ]} |>
    <| channels := {[ 30%N := team_channel ]} |>
    <| attributions := {[ 40%N := mkAttribution 40 8 30 INVITE_LINK None true empty_snapshot None 0 ]} |>.

Lemma grant_db_inv : grant_inv grant_db.
Proof. split; try done. by intros en k ->%list_elem_of_singleton [|]. Qed.

Definition granted_world : World := (grant 7 team_channel 8 (AInt 20) "g1" sample_env (world_of grant_db)).2.

Example grant_example :
  (acc_balance <$> accounts (db granted_world) !! 2%N,
   acc_balance <$> accounts (db granted_world) !! 3%N) = (Some 30000000, Some 20000000).
Proof. vm_compute. reflexivity. Qed.

Lemma grant_outcome_witness :
  ∃ g w', grant_from_account 7 team_channel 2 8 (AInt 20) "g1" sample_env (world_of grant_db)
      = (Ok g, w') ∧ length (ledger (db w')) = 3%nat.
Proof.
  destruct (grant_from_account 7 team_channel 2 8 (AInt 20) "g1" sample_env (world_of grant_db))
    as [[g|x] w'] eqn:E; [|vm_compute in E; discriminate E].
  destruct (grant_outcome _ _ _ _ _ _ _ _ _ _ E) as (? & ? & ? & ? & ? & _ & _ & _ & _ & _ & _ & Hl & _);
    [apply grant_db_inv|reflexivity|].
  exists g, w'. split; [reflexivity|]. rewrite Hl. reflexivity.
Defined.

Lemma grant_key_is_final_witness :
  (grant_from_account 7 team_channel 2 8 (AInt 21) "g1" sample_env granted_world).1
  = Raise PartnerGrantIdempotencyConflict.
Proof.
  destruct (qfirst (λ g, (grant_partner_channel g =? ch_id team_channel)%N &&
    bool_decide (grant_idempotency_key g = "g1")) (grants (db granted_world))) as [g|] eqn:E;
    [|vm_compute in E; discriminate E].
  rewrite (grant_key_is_final 7 team_channel 2 8 (AInt 21) "g1" sample_env granted_world g 21000000);
    [|vm_compute; reflexivity|reflexivity|discriminate|reflexivity|exact E].
  vm_compute in E. injection E as <-. vm_compute. reflexivity.
Defined.

Lemma grant_requires_role_witness :
  grant 8 team_channel 8 (AInt 20) "g2" sample_env (world_of grant_db)
  = (Raise PartnerGrantForbidden, world_of grant_db).
Proof.
  apply (grant_requires_role 8 team_channel 8 (AInt 20) "g2" sample_env (world_of grant_db) 20000000 4);
    [reflexivity|reflexivity|discriminate|reflexivity|reflexivity|].
  intros k m. simpl. intros [<- <-]%lookup_singleton_Some. simpl. discriminate.
Defined.
