(* ===== verification/Invites.v ===== *)
(** * Partner channels, invite links and invite clicks

    The save guards of [apps/billing/partner_channel.py], and
    [apps/billing/services/partner_invite.py] and
    [apps/billing/services/partner_invite_visit.py]: creating a channel with
    its link, rotating and pausing the link, recording a click and deciding
    whether a click may still be used. *)

From S2P Require Import Prelude Tables Money Models EsimModels World Effects Settlement.
#[local] Open Scope Z_scope.

(** ** Save guards of the tables *)

Definition _CHANNEL_OWNERSHIP_FIELDS : list string :=
  ["kind"; "owner_user"; "owner_user_id"; "organization"; "organization_id"].

(** [set & fields] is not empty. *)
Definition intersects (names fields : list string) : bool :=
  existsb (λ f, bool_decide (f ∈ names)) fields.

(** The unique one-to-one columns, the range of [revenue_share_percent] and the
    check constraints of [PartnerChannel]. *)
Definition channel_verdict (d : Db) (c : PartnerChannel) : option Exn :=
  if negb (Z.abs (ch_revenue_share_percent c) <? 100000) then Some DataError
  else if qexists (λ b, negb (ch_id b =? ch_id c)%N &&
      (match ch_owner_user b, ch_owner_user c with
       | Some x, Some y => (x =? y)%N | _, _ => false end ||
       match ch_organization b, ch_organization c with
       | Some x, Some y => (x =? y)%N | _, _ => false end)) (channels d)
  then Some IntegrityError
  else if negb (channel_checks c) then Some IntegrityError
  else None.

Definition same_ownership (b c : PartnerChannel) : bool :=
  bool_decide (ch_kind b = ch_kind c) && bool_decide (ch_owner_user b = ch_owner_user c) &&
  bool_decide (ch_organization b = ch_organization c).

(** The columns a save with [update_fields] writes. *)
Definition channel_columns (fields : list string) (c row : PartnerChannel) : PartnerChannel :=
  let row := if bool_decide ("is_active" ∈ fields)
             then row <| ch_is_active := ch_is_active c |> else row in
  let row := if bool_decide ("revenue_share_percent" ∈ fields)
             then row <| ch_revenue_share_percent := ch_revenue_share_percent c |> else row in
  row.

(** [PartnerChannel.save] *)
Definition channel_save (adding : bool) (update_fields : option (list string))
    (c : PartnerChannel) : M unit :=
  match update_fields with
  | Some fields => raise_if (intersects _CHANNEL_OWNERSHIP_FIELDS fields) AppendOnlyViolation
  | None =>
      if adding then ret tt
      else
        let! previous := query (λ d, channels d !! ch_id c) in
        raise_if (match previous with
                  | Some p => negb (same_ownership p c) | None => false end) AppendOnlyViolation
  end;;;
  match adding, update_fields with
  | true, _ => create channels channel_verdict (ch_id c) c
  | false, None => save_row channels channel_verdict (ch_id c) c
  | false, Some fields => save_fields channels channel_verdict (ch_id c) (channel_columns fields c)
  end.

(** [PartnerChannelQuerySet.update] on the rows of the queryset [P]; the values
    are those of [c]. *)
Definition channel_update (P : PartnerChannel → bool) (fields : list string)
    (c : PartnerChannel) : M unit :=
  raise_if (intersects _CHANNEL_OWNERSHIP_FIELDS fields) AppendOnlyViolation;;;
  let! matching := query (λ d, qall P (channels d)) in
  for_each matching (λ b,
    save_fields channels channel_verdict (ch_id b) (channel_columns fields c)).

(** The [delete] methods and querysets of the append-only tables. *)
Definition refuse_delete : M unit := raise AppendOnlyViolation.

(** [partner_invite_token_is_usable] *)
Definition partner_invite_token_is_usable (token : string) : bool :=
  negb (bool_decide (strip token = "")).

Definition _FROZEN_FIELDS : list string :=
  ["partner_channel"; "partner_channel_id"; "source"; "campaign"; "content"].

Definition link_verdict (d : Db) (l : PartnerInviteLink) : option Exn :=
  if negb (fits_numeric (link_bonus_amount l)) then Some DataError
  else if qexists (λ k, negb (link_id k =? link_id l)%N &&
                        bool_decide (link_token k = link_token l)) (invite_links d)
  then Some IntegrityError
  else if link_bonus_amount l <? 0 then Some IntegrityError
  else None.

Definition link_columns (fields : list string) (l row : PartnerInviteLink) : PartnerInviteLink :=
  let pick {T} (names : list string) (proj : PartnerInviteLink → T) : T :=
    if intersects names fields then proj l else proj row in
  mkInviteLink (link_id row) (pick ["partner_channel"; "partner_channel_id"] link_partner_channel)
    (pick ["token"] link_token) (pick ["name"] link_name) (pick ["bonus_amount"] link_bonus_amount)
    (pick ["source"] link_source) (pick ["campaign"] link_campaign) (pick ["content"] link_content)
    (pick ["is_active"] link_is_active) (link_created_at row)
    (pick ["regenerated_at"] link_regenerated_at).

Definition _touches_frozen (update_fields : option (list string)) : bool :=
  match update_fields with None => true | Some fields => intersects _FROZEN_FIELDS fields end.

(** The frozen columns named by [update_fields] that differ. *)
Definition frozen_differ (update_fields : option (list string)) (p l : PartnerInviteLink) : bool :=
  let named (names : list string) :=
    match update_fields with None => true | Some fields => intersects names fields end in
  named ["partner_channel"; "partner_channel_id"] &&
    negb (link_partner_channel p =? link_partner_channel l)%N ||
  named ["source"] && negb (bool_decide (link_source p = link_source l)) ||
  named ["campaign"] && negb (bool_decide (link_campaign p = link_campaign l)) ||
  named ["content"] && negb (bool_decide (link_content p = link_content l)).

Definition _frozen_values_changed (update_fields : option (list string)) (l : PartnerInviteLink)
    : M bool :=
  let! previous := get invite_links (link_id l) in
  ret (frozen_differ update_fields previous l).

Definition visits_of (link : pk) (d : Db) : bool :=
  qexists (λ v, (vis_invite_link v =? link)%N) (visits d).

(** [PartnerInviteLink.save] *)
Definition link_save (adding : bool) (update_fields : option (list string))
    (l : PartnerInviteLink) : M unit :=
  raise_if (negb (partner_invite_token_is_usable (link_token l))) ValidationError;;;
  (if negb adding && _touches_frozen update_fields then
     let! visited := query (visits_of (link_id l)) in
     if visited : bool then
       let! changed := _frozen_values_changed update_fields l in
       raise_if changed AppendOnlyViolation
     else ret tt
   else ret tt);;;
  match adding, update_fields with
  | true, _ => create invite_links link_verdict (link_id l) l
  | false, None => save_row invite_links link_verdict (link_id l) l
  | false, Some fields => save_fields invite_links link_verdict (link_id l) (link_columns fields l)
  end.

(** [InviteVisit.save] of a new row; an existing one is refused. *)
Definition visit_save (adding : bool) (v : InviteVisit) : M unit :=
  raise_if (negb adding) AppendOnlyViolation;;;
  create visits unchecked (vis_id v) v.

(** ** The canonical link *)

(** [order_by("created_at", "id")] *)
Definition link_le (k l : PartnerInviteLink) : Prop :=
  link_created_at k < link_created_at l ∨
  link_created_at k = link_created_at l ∧ (link_id k ≤ link_id l)%N.
#[export] Instance link_le_dec : RelDecision link_le.
Proof. intros k l. unfold link_le. apply _. Defined.

Definition canonical (channel : pk) (d : Db) : option PartnerInviteLink :=
  head (merge_sort link_le (qall (λ l, (link_partner_channel l =? channel)%N) (invite_links d))).

Definition canonical_invite_link (partner_channel : pk) (for_update : bool)
    : M PartnerInviteLink :=
  let! link := if for_update then locked_query (canonical partner_channel)
               else query (canonical partner_channel) in
  found link.

Record PartnerInviteLinkView := mkView {
  view_url : string;
  view_is_active : bool;
  view_created_at : instant;
  view_regenerated_at : option instant;
}.

Definition _view (link : PartnerInviteLink) : M PartnerInviteLinkView :=
  let! base := asks PARTNER_JOIN_BASE_URL in
  ret (mkView (rstrip_char "/" base +:+ "/join/" +:+ link_token link) (link_is_active link)
         (link_created_at link) (link_regenerated_at link)).

Definition invite_link_for (partner_channel : pk) : M PartnerInviteLinkView :=
  let! link := canonical_invite_link partner_channel false in
  _view link.

(** ** Tokens *)

Definition _INVITE_TOKEN_ATTEMPTS : nat := 5.

(** [new_partner_invite_token] *)
Definition new_partner_invite_token : M string := draw.

(** The loop of [persist_with_unique_invite_token]; the link as it was
    persisted is returned instead of being mutated. *)
Fixpoint persist_attempts (n : nat) (link : PartnerInviteLink)
    (persist : PartnerInviteLink → M PartnerInviteLink) : M PartnerInviteLink :=
  match n with
  | O => raise PartnerInviteError
  | S n =>
      let! token := new_partner_invite_token in
      try_except (atomic (persist (link <| link_token := token |>)))
        (on_integrity_error (persist_attempts n link persist))
  end.

Definition persist_with_unique_invite_token : PartnerInviteLink →
    (PartnerInviteLink → M PartnerInviteLink) → M PartnerInviteLink :=
  persist_attempts _INVITE_TOKEN_ATTEMPTS.
#[global] Arguments persist_with_unique_invite_token : simpl never.

Definition _assign_token (link : PartnerInviteLink) : M PartnerInviteLink :=
  persist_with_unique_invite_token link (λ l,
    link_save false (Some ["token"; "regenerated_at"]) l;;; ret l).

(** ** Owner mutations *)

Definition regenerate_invite_link (partner_channel : pk) : M PartnerInviteLinkView :=
  let! link := atomic (
    let! link := canonical_invite_link partner_channel true in
    let! t := now in
    let! saved := _assign_token (link <| link_regenerated_at := Some t |>) in
    delete_where pendings (λ p, (pend_partner_channel p =? partner_channel)%N &&
      bool_decide (pend_invite_token_snapshot p = link_token link));;;
    ret saved) in
  _view link.

Definition set_invite_active (partner_channel : pk) (active : bool) : M PartnerInviteLinkView :=
  let! link := atomic (
    let! link := canonical_invite_link partner_channel true in
    if Bool.eqb (link_is_active link) active then ret link
    else
      let link := link <| link_is_active := active |> in
      link_save false (Some ["is_active"]) link;;;
      ret link) in
  _view link.

Definition update_partner_channel_settings (channel_id : pk) (is_active : bool)
    (revenue_share_percent : percent) : M PartnerChannel :=
  atomic (
    let! locked := get_locked channels channel_id in
    let locked := locked <| ch_is_active := is_active |>
                    <| ch_revenue_share_percent := revenue_share_percent |> in
    channel_save false (Some ["is_active"; "revenue_share_percent"; "updated_at"]) locked;;;
    ret locked).

(** The transaction of [_create_channel_and_link]. *)
Definition channel_and_link (kind : ChannelKind) (owner_user organization : option pk)
    (revenue_share_percent : percent) : M PartnerChannel :=
  let! id := uuid4 in
  let channel := mkChannel id kind owner_user organization revenue_share_percent true in
  channel_save true None channel;;;
  let! lid := uuid4 in
  let link := mkInviteLink lid id "" "" 0 "" "" "" true 0 None in
  let! _ := persist_with_unique_invite_token link (λ l,
    let! created_at := now in
    let l := l <| link_created_at := created_at |> in
    link_save true None l;;;
    ret l) in
  ret channel.

Fixpoint create_attempts (n : nat) (kind : ChannelKind) (owner_user organization : option pk)
    (revenue_share_percent : percent) : M PartnerChannel :=
  match n with
  | O => raise PartnerInviteError
  | S n =>
      try_except (atomic (channel_and_link kind owner_user organization revenue_share_percent))
        (on_integrity_error
          (create_attempts n kind owner_user organization revenue_share_percent))
  end.

Definition _create_channel_and_link : ChannelKind → option pk → option pk → percent →
    M PartnerChannel := create_attempts 5.

(** [_DEFAULT_SHARE] *)
Definition _DEFAULT_SHARE : percent := 5000.

Definition create_individual_partner_channel (owner : pk) (revenue_share_percent : percent)
    : M PartnerChannel :=
  let! account := query (account_of_user owner) in
  match account with
  | None => raise PartnerInviteError
  | Some a =>
      raise_if (negb (bool_decide (acc_kind a = PERSONAL))) PartnerInviteError;;;
      _create_channel_and_link INDIVIDUAL (Some owner) None revenue_share_percent
  end.

(** [create_partner_channel]; an organization always has an account. *)
Definition create_partner_channel (organization : Organization)
    (revenue_share_percent : percent) : M PartnerChannel :=
  _create_channel_and_link TEAM None (Some (org_id organization)) revenue_share_percent.

(** ** Clicks *)

Definition UTM_MAX_LENGTH : nat := 128.
(** [timedelta(days=30)] *)
Definition ATTRIBUTION_WINDOW : Z := 30 * 86400 * 1000000.

(** A query parameter: missing, a text, or a repeated parameter. *)
Inductive UtmValue :=
  | U_missing
  | U_text (s : string)
  | U_repeated (values : list (option string)).

Definition normalize_utm_value (value : UtmValue) : string :=
  let value := match value with
               | U_missing => None
               | U_text s => Some s
               | U_repeated (v :: _) => v
               | U_repeated [] => Some ""
               end in
  match value with
  | None => ""
  | Some text => if bool_decide (text = "") then "" else stake UTM_MAX_LENGTH text
  end.

Record Utm := mkUtm { utm_source : string; utm_medium : string; utm_campaign : string;
                      utm_content : string }.

(** [normalize_utm]: the parameters as a function of their name. *)
Definition normalize_utm (params : option (string → UtmValue)) : Utm :=
  let source := match params with Some f => f | None => λ _, U_missing end in
  mkUtm (normalize_utm_value (source "utm_source")) (normalize_utm_value (source "utm_medium"))
    (normalize_utm_value (source "utm_campaign")) (normalize_utm_value (source "utm_content")).

Section Clicks.
(** [sign_partner_pending(visit_id=..., issued_at=...)]: the signed cookie. *)
Context (sign_partner_pending : pk → instant → string).

Definition record_visit (token : string) (utm : option (string → UtmValue))
    : M (option (InviteVisit * string)) :=
  let! enabled := asks PARTNER_CHANNEL_ENABLED in
  if negb (partner_invite_token_is_usable token) || negb enabled then ret None
  else
    let u := normalize_utm utm in
    atomic (
      let! link := locked_query (λ d,
        qfirst (λ l, bool_decide (link_token l = token)) (invite_links d)) in
      match link with
      | None => ret None
      | Some link =>
          if negb (link_is_active link) then ret None
          else
            let! id := uuid4 in
            let! created_at := now in
            let visit := mkVisit id (link_id link) (utm_source u) (utm_medium u)
              (utm_campaign u) (utm_content u) created_at in
            visit_save true visit;;;
            let! issued_at := now in
            ret (Some (visit, sign_partner_pending id issued_at))
      end).

Definition issue_join_signature (token : string) (utm : option (string → UtmValue))
    : M (option string) :=
  let! recorded := record_visit token utm in
  ret (snd <$> recorded).
End Clicks.

Definition visit_predates_regeneration (visit : InviteVisit) (link : PartnerInviteLink) : bool :=
  match link_regenerated_at link with
  | Some t => vis_created_at visit <? t
  | None => false
  end.

(** [select_related("invite_link").filter(pk=...).first()] *)
Definition visit_and_link (visit_id : pk) (d : Db) : option (InviteVisit * PartnerInviteLink) :=
  v ← visits d !! visit_id; l ← invite_links d !! vis_invite_link v; Some (v, l).

Definition validate_invite_visit (visit_id : pk) (check_attribution_window : bool)
    : M (option (InviteVisit * PartnerInviteLink)) :=
  let! row := query (visit_and_link visit_id) in
  match row with
  | None => ret None
  | Some (visit, link) =>
      if negb (link_is_active link) then ret None
      else if visit_predates_regeneration visit link then ret None
      else
        let! t := now in
        let too_old := vis_created_at visit <? t - ATTRIBUTION_WINDOW in
        if check_attribution_window && too_old then ret None
        else ret (Some (visit, link))
  end.

(** ** Write-once rows *)

(** No row is lost; a channel keeps its owner, a click is never edited, and a
    link that was clicked keeps its channel and classification. *)
Record rows_kept (d d' : Db) : Prop := {
  rk_channels : ∀ k c, channels d !! k = Some c →
    ∃ c', channels d' !! k = Some c' ∧ same_ownership c c' = true;
  rk_visits : ∀ k v, visits d !! k = Some v → visits d' !! k = Some v;
  rk_links : ∀ k l, invite_links d !! k = Some l →
    ∃ l', invite_links d' !! k = Some l' ∧
      (visits_of k d = true → frozen_differ None l l' = false);
}.

Lemma same_ownership_true b c :
  same_ownership b c = true ↔
  ch_kind b = ch_kind c ∧ ch_owner_user b = ch_owner_user c ∧
  ch_organization b = ch_organization c.
Proof. unfold same_ownership. rewrite !andb_true_iff, !bool_decide_eq_true. tauto. Qed.

Lemma frozen_differ_None l l' :
  frozen_differ None l l' = false ↔
  link_partner_channel l = link_partner_channel l' ∧ link_source l = link_source l' ∧
  link_campaign l = link_campaign l' ∧ link_content l = link_content l'.
Proof.
  unfold frozen_differ. simpl.
  rewrite !orb_false_iff, !negb_false_iff, !bool_decide_eq_true, N.eqb_eq. tauto.
Qed.

Lemma visits_of_kept k d d' :
  (∀ j v, visits d !! j = Some v → visits d' !! j = Some v) →
  visits_of k d = true → visits_of k d' = true.
Proof.
  intros H. unfold visits_of. rewrite !qexists_true. intros (j & v & Hv & HP). eauto.
Qed.

#[export] Instance rows_kept_preorder : PreOrder rows_kept.
Proof.
  split.
  - intros d. split; [|done|].
    + intros k c Hc. exists c. by rewrite same_ownership_true.
    + intros k l Hl. exists l. by rewrite frozen_differ_None.
  - intros d1 d2 d3 [C1 V1 L1] [C2 V2 L2]. split.
    + intros k c Hc. destruct (C1 k c Hc) as (c2 & H2 & E2).
      destruct (C2 k c2 H2) as (c3 & H3 & E3). exists c3. split; [done|].
      rewrite same_ownership_true in *. intuition congruence.
    + auto.
    + intros k l Hl. destruct (L1 k l Hl) as (l2 & H2 & E2).
      destruct (L2 k l2 H2) as (l3 & H3 & E3). exists l3. split; [done|]. intros Hv.
      specialize (E2 Hv). specialize (E3 (visits_of_kept _ _ _ V1 Hv)).
      rewrite frozen_differ_None in *. intuition congruence.
Qed.

(** A write that touches none of the three tables. *)
Lemma rows_kept_same d d' :
  channels d' = channels d → visits d' = visits d → invite_links d' = invite_links d →
  rows_kept d d'.
Proof.
  intros Hc Hv Hl. split; rewrite ?Hc, ?Hv, ?Hl; [|done|].
  - intros k c H. exists c. by rewrite same_ownership_true.
  - intros k l H. exists l. by rewrite frozen_differ_None.
Qed.

Lemma rows_kept_channel d k c :
  (∀ b, channels d !! k = Some b → same_ownership b c = true) →
  rows_kept d (put channels k c d).
Proof.
  intros H. split; simpl; [|done|].
  - intros j b Hb. destruct (decide (k = j)) as [<-|].
    + exists c. rewrite lookup_insert_eq. auto.
    + exists b. rewrite lookup_insert_ne by done. by rewrite same_ownership_true.
  - intros j l Hl. exists l. by rewrite frozen_differ_None.
Qed.

Lemma rows_kept_link d k l :
  (∀ b, invite_links d !! k = Some b → visits_of k d = true → frozen_differ None b l = false) →
  rows_kept d (put invite_links k l d).
Proof.
  intros H. split; simpl; [|done|].
  - intros j c Hc. exists c. by rewrite same_ownership_true.
  - intros j b Hb. destruct (decide (k = j)) as [<-|].
    + exists l. rewrite lookup_insert_eq. auto.
    + exists b. rewrite lookup_insert_ne by done. by rewrite frozen_differ_None.
Qed.

Lemma rows_kept_visit d k v : visits d !! k = None → rows_kept d (put visits k v d).
Proof.
  intros H. split; simpl.
  - intros j c Hc. exists c. by rewrite same_ownership_true.
  - intros j u Hu. rewrite lookup_insert_ne; [done|congruence].
  - intros j l Hl. exists l. by rewrite frozen_differ_None.
Qed.

Lemma channel_columns_ownership fields c row :
  same_ownership row (channel_columns fields c row) = true.
Proof. apply same_ownership_true. unfold channel_columns. by repeat case_bool_decide. Qed.

Lemma intersects_true names fields :
  intersects names fields = true ↔ ∃ f, f ∈ fields ∧ f ∈ names.
Proof.
  unfold intersects. rewrite existsb_exists. setoid_rewrite bool_decide_eq_true.
  by setoid_rewrite list_elem_of_In.
Qed.

Lemma intersects_mono names names' fields :
  names ⊆ names' → intersects names fields = true → intersects names' fields = true.
Proof. intros H. rewrite !intersects_true. intros (f & ? & ?). eauto. Qed.

Lemma untouched_frozen fields p l :
  _touches_frozen fields = false → frozen_differ fields p l = false.
Proof.
  destruct fields as [fields|]; [|done]. unfold frozen_differ, _touches_frozen. intros H.
  assert (Hno : ∀ names, names ⊆ _FROZEN_FIELDS → intersects names fields = false).
  { intros names Hn. destruct (intersects names fields) eqn:E; [|done].
    by rewrite (intersects_mono _ _ _ Hn E) in H. }
  rewrite !Hno; [done|..]; intros f; unfold _FROZEN_FIELDS;
    rewrite !elem_of_cons, elem_of_nil; tauto.
Qed.

(** What a save writes of the frozen columns is what the guard compared. *)
Lemma link_columns_frozen fields l row :
  frozen_differ (Some fields) row l = false →
  frozen_differ None row (link_columns fields l row) = false.
Proof.
  intros H. apply frozen_differ_None. unfold frozen_differ in H. unfold link_columns. simpl.
  repeat (apply orb_false_iff in H as [H ?]). bool_to_prop.
  split_and!; case_match; try done; destruct_or?; try congruence; bool_to_prop; congruence.
Qed.

Lemma channel_save_kept adding fields c : respects rows_kept (channel_save adding fields c).
Proof.
  apply respects_from_at. intros d. unfold channel_save. destruct fields as [fields|].
  - apply at_raise_if; [apply _|]. intros _. apply at_respects. destruct adding.
    + apply respects_create; [apply _|]. intros d' Hd _. apply rows_kept_channel.
      intros b Hb. congruence.
    + apply respects_save_fields; [apply _|]. intros d' b Hb _. apply rows_kept_channel.
      intros b' Hb'. simplify_eq. apply channel_columns_ownership.
  - destruct adding.
    + apply at_respects. apply respects_bind; [apply _|apply respects_ret; apply _|intros _].
      apply respects_create; [apply _|]. intros d' Hd _. apply rows_kept_channel.
      intros b Hb. congruence.
    + eapply respects_at_ext; [intros; apply bind_bind|]. apply at_query; [apply _|]. apply at_raise_if; [apply _|]. intros Hp.
      apply at_save_row; [apply _|]. intros _. apply rows_kept_channel.
      intros b Hb. rewrite Hb in Hp. by bool_to_prop.
Qed.

(** The write that ends [PartnerInviteLink.save], once the guard has passed. *)
Lemma link_write_kept adding fields l d :
  (adding = false → ∀ b, invite_links d !! link_id l = Some b → visits_of (link_id l) d = true →
    frozen_differ fields b l = false) →
  respects_at rows_kept d
    (match adding, fields with
     | true, _ => create invite_links link_verdict (link_id l) l
     | false, None => save_row invite_links link_verdict (link_id l) l
     | false, Some fields =>
         save_fields invite_links link_verdict (link_id l) (link_columns fields l)
     end).
Proof.
  intros Hg. destruct adding; [|destruct fields as [fields|]].
  - apply at_respects. apply respects_create; [apply _|]. intros d' Hd _.
    apply rows_kept_link. intros b Hb. congruence.
  - apply at_save_fields; [apply _|]. intros b Hb _. apply rows_kept_link. intros b' Hb' Hv.
    simplify_eq. apply link_columns_frozen. by apply Hg.
  - apply at_save_row; [apply _|]. intros _. apply rows_kept_link. intros b Hb Hv. by apply Hg.
Qed.

Lemma link_save_kept adding fields l : respects rows_kept (link_save adding fields l).
Proof.
  apply respects_from_at. intros d. unfold link_save.
  apply at_raise_if; [apply _|]. intros _.
  destruct (negb adding && _touches_frozen fields) eqn:Et.
  - eapply respects_at_ext; [intros; apply bind_bind|]. apply at_query; [apply _|].
    destruct (visits_of (link_id l) d) eqn:Ev.
    + unfold _frozen_values_changed.
      eapply respects_at_ext; [intros; apply bind_bind|].
      eapply respects_at_ext; [intros; apply bind_bind|].
      apply at_get; [apply _|]. intros p Hp.
      eapply respects_at_ext; [intros; reflexivity|].
      apply (at_raise_if _ _ (frozen_differ fields p l)). intros Hf.
      apply link_write_kept. intros _ b Hb _. congruence.
    + apply (at_raise_if _ _ false AppendOnlyViolation). intros _.
      apply link_write_kept. congruence.
  - apply (at_raise_if _ _ false AppendOnlyViolation). intros _.
    apply link_write_kept. intros Ha b _ _. apply untouched_frozen.
    rewrite Ha in Et. by simpl in Et.
Qed.

Lemma visit_save_kept adding v : respects rows_kept (visit_save adding v).
Proof.
  unfold visit_save. apply respects_bind; [apply _|apply respects_raise_if; apply _|intros _].
  apply respects_create; [apply _|]. intros d Hd _. by apply rows_kept_visit.
Qed.
#[export] Hint Resolve channel_save_kept link_save_kept visit_save_kept : effects.

Lemma respects_persist R `{!PreOrder R} n link persist :
  (∀ l, respects R (persist l)) → respects R (persist_attempts n link persist).
Proof.
  intros Hp. induction n as [|n IH]; simpl; [by apply respects_raise|].
  unfold new_partner_invite_token. solve_respects; auto.
Qed.

Lemma assign_token_kept link : respects rows_kept (_assign_token link).
Proof. apply respects_persist; [apply _|]. intros l. solve_respects. Qed.
#[export] Hint Resolve assign_token_kept : effects.

Lemma channel_and_link_kept kind owner org share :
  respects rows_kept (channel_and_link kind owner org share).
Proof.
  unfold channel_and_link. do 3 (apply respects_bind; [apply _|solve_respects|intros ?]).
  apply respects_bind; [apply _| |intros ?; apply respects_ret; apply _].
  apply respects_persist; [apply _|]. intros l. solve_respects.
Qed.
#[export] Hint Resolve channel_and_link_kept : effects.

Lemma create_attempts_kept n kind owner org share :
  respects rows_kept (create_attempts n kind owner org share).
Proof. induction n as [|n IH]; simpl; solve_respects; auto. Qed.
#[export] Hint Resolve create_attempts_kept : effects.

Lemma channel_update_kept P fields c : respects rows_kept (channel_update P fields c).
Proof.
  unfold channel_update. do 2 (apply respects_bind; [apply _|solve_respects|intros ?]).
  apply respects_for_each; [apply _|]. intros b.
  apply respects_save_fields; [apply _|]. intros d b' Hb _. apply rows_kept_channel.
  intros b'' Hb'. simplify_eq. apply channel_columns_ownership.
Qed.
#[export] Hint Resolve channel_update_kept : effects.

(** ** What the mutations do *)

Definition links_keyed (d : Db) : Prop := ∀ k l, invite_links d !! k = Some l → link_id l = k.

#[export] Instance link_le_total : Total link_le.
Proof. intros k l. unfold link_le. lia. Qed.
#[export] Instance link_le_trans : Transitive link_le.
Proof. intros k l m. unfold link_le. lia. Qed.

Lemma elem_of_qall {V} (P : V → bool) (m : gmap pk V) v :
  v ∈ qall P m ↔ P v = true ∧ ∃ k, m !! k = Some v.
Proof.
  unfold qall. rewrite list_elem_of_In, filter_In, <- list_elem_of_In, elem_of_rows. tauto.
Qed.

Lemma canonical_Some channel d l :
  canonical channel d = Some l →
  (∃ k, invite_links d !! k = Some l) ∧ link_partner_channel l = channel ∧
  ∀ k l', invite_links d !! k = Some l' → link_partner_channel l' = channel → link_le l l'.
Proof.
  unfold canonical. set (ls := qall _ _). intros H.
  pose proof (StronglySorted_merge_sort link_le ls) as Hs.
  pose proof (merge_sort_Permutation link_le ls) as Hp.
  destruct (merge_sort link_le ls) as [|x xs]; [done|]. injection H as ->.
  assert (Hl : l ∈ ls) by (rewrite <- Hp; by left).
  apply elem_of_qall in Hl as [Hc Hk]. bool_to_prop. split_and!; [done|done|].
  intros k l' Hl' Hc'.
  assert (Hin : l' ∈ l :: xs).
  { rewrite Hp. apply elem_of_qall. split; [by apply N.eqb_eq|eauto]. }
  apply elem_of_cons in Hin as [->|Hin]; [unfold link_le; lia|].
  inversion Hs as [|?? _ Hall]; subst. rewrite Forall_forall in Hall. auto.
Qed.

(** A persisted link: some attempt committed, the earlier ones left nothing. *)
Lemma persist_attempts_Ok n link persist e w l w' :
  (∀ l, clean (persist l)) → aborted w = false →
  persist_attempts n link persist e w = (Ok l, w') →
  ∃ w1 w2 token, db w1 = db w ∧ aborted w1 = false ∧
    persist (link <| link_token := token |>) e w1 = (Ok l, w2) ∧ db w' = db w2.
Proof.
  intros Hc. revert w. induction n as [|n IH]; intros w Hw; simpl; [done|].
  unfold new_partner_invite_token. intros H. inv_run H.
  inv_call try_Ok as [Hrun|(x & k & w2 & Hrun & Hx & Hk)].
  - apply atomic_clean_Ok in Hrun as (w2 & Hrun & ->); [|done..].
    by do 3 eexists; split_and!; [| |exact Hrun|].
  - apply atomic_Raise in Hrun as [Hdb Hab]. destruct x; simplify_eq/=.
    apply IH in Hk as (w3 & w4 & t & H1 & H2 & H3 & H4); [|congruence].
    exists w3, w4, t. split_and!; [congruence|done..].
Qed.

Lemma clean_channel_save adding fields c : clean (channel_save adding fields c).
Proof. unfold channel_save. solve_clean. Qed.
Lemma clean_link_save adding fields l : clean (link_save adding fields l).
Proof. unfold link_save, _frozen_values_changed. solve_clean. Qed.
#[export] Hint Resolve clean_channel_save clean_link_save : effects.

Lemma clean_persist n link persist :
  (∀ l, clean (persist l)) → clean (persist_attempts n link persist).
Proof. intros Hp. induction n as [|n IH]; simpl; unfold new_partner_invite_token; solve_clean; auto. Qed.

Lemma clean_assign_token link : clean (_assign_token link).
Proof. apply clean_persist. intros l. solve_clean. Qed.
#[export] Hint Resolve clean_assign_token : effects.

Lemma link_save_new l e w u w' :
  link_save true None l e w = (Ok u, w') →
  partner_invite_token_is_usable (link_token l) = true ∧
  invite_links (db w) !! link_id l = None ∧ link_verdict (db w) l = None ∧
  db w' = put invite_links (link_id l) l (db w).
Proof. unfold link_save. intros H. inv_run H. bool_to_prop. done. Qed.

Lemma link_save_token l e w u w' :
  link_save false (Some ["token"; "regenerated_at"]) l e w = (Ok u, w') →
  partner_invite_token_is_usable (link_token l) = true ∧
  ∃ row, invite_links (db w) !! link_id l = Some row ∧
    db w' = put invite_links (link_id l)
      (row <| link_token := link_token l |> <| link_regenerated_at := link_regenerated_at l |>)
      (db w).
Proof.
  unfold link_save. intros H. inv_run H. bool_to_prop. split; [done|]. eexists. split; [done|].
  reflexivity.
Qed.

(** A new channel and its one link. *)
Definition channel_created (kind : ChannelKind) (owner org : option pk) (share : percent)
    (d d' : Db) (c : PartnerChannel) : Prop :=
  c = mkChannel (ch_id c) kind owner org share true ∧ channels d !! ch_id c = None ∧
  channel_verdict d c = None ∧
  ∃ l, link_partner_channel l = ch_id c ∧ link_is_active l = true ∧ link_bonus_amount l = 0 ∧
    partner_invite_token_is_usable (link_token l) = true ∧
    invite_links d !! link_id l = None ∧
    (∀ k l', invite_links d !! k = Some l' → link_id l' ≠ link_id l →
       link_token l' ≠ link_token l) ∧
    d' = put invite_links (link_id l) l (put channels (ch_id c) c d).

Lemma link_verdict_unique d l k l' :
  link_verdict d l = None → invite_links d !! k = Some l' → link_id l' ≠ link_id l →
  link_token l' ≠ link_token l.
Proof.
  unfold link_verdict. intros H Hk Hne Ht. split_cases.
  match goal with H : qexists _ _ = false |- _ => rewrite qexists_false in H; specialize (H k l' Hk) end.
  bool_to_prop. destruct_or?; bool_to_prop; done.
Qed.

Lemma channel_and_link_Ok kind owner org share e w c w' :
  channel_and_link kind owner org share e w = (Ok c, w') →
  channel_created kind owner org share (db w) (db w') c.
Proof.
  unfold channel_and_link, channel_save. intros H. inv_run H.
  match goal with Hp : persist_with_unique_invite_token _ _ _ _ = (Ok ?l, _) |- _ =>
    apply persist_attempts_Ok in Hp as (w2 & w3 & t & Hdb & Hab & Hp & Hw); [|intros; solve_clean|done];
    inv_run Hp end.
  inv_call link_save_new as (Hu & Hf & Hv & Hd). simpl in *.
  rewrite Hdb in Hf, Hv.
  split_and!; [done..|]. match type of Hd with _ = put _ _ ?l _ => exists l end.
  split_and!; try done; [|by rewrite Hw, Hd, Hdb].
  intros k l' Hk. by apply (link_verdict_unique _ _ k l' Hv).
Qed.

Lemma clean_channel_and_link kind owner org share : clean (channel_and_link kind owner org share).
Proof.
  unfold channel_and_link. do 3 (apply clean_bind; [solve_clean|intros ?]).
  apply clean_bind; [|intros ?; solve_clean]. apply clean_persist. intros l. solve_clean.
Qed.
#[export] Hint Resolve clean_channel_and_link : effects.

(** Both or neither, whatever the number of attempts. *)
Lemma create_attempts_run n kind owner org share e w r w' :
  create_attempts n kind owner org share e w = (r, w') → aborted w = false →
  match r with
  | Ok c => channel_created kind owner org share (db w) (db w') c
  | Raise _ => db w' = db w
  end.
Proof.
  revert w. induction n as [|n IH]; intros w; simpl; [by intros [= <- <-]|].
  unfold try_except. destruct (atomic _ e w) as [[c|x] w1] eqn:E; intros H Hw.
  - injection H as <- <-. apply atomic_clean_Ok in E as (w2 & E & ->);
      [|apply clean_channel_and_link|done].
    by apply channel_and_link_Ok in E.
  - apply atomic_Raise in E as [Hdb Hab]. rewrite <- Hdb.
    destruct x; simpl in H; try (by injection H as <- <-).
    apply IH; [done|congruence].
Qed.

(** ** Properties *)

(** Creating a partner channel creates the channel and its one invite link,
    or creates neither: a call that raises, on whichever attempt, leaves the
    database as it was; one that returns added exactly the requested channel,
    active, with a link that is active, unused and has a usable token no other
    link has. *)
Theorem create_channel_outcome kind owner org share e w r w' :
  _create_channel_and_link kind owner org share e w = (r, w') → aborted w = false →
  match r with
  | Ok c => channel_created kind owner org share (db w) (db w') c
  | Raise _ => db w' = db w
  end.
Proof. apply create_attempts_run. Qed.

(** The write-once rows are: whatever any of these operations does, and
    however it ends, no channel, link or click disappears, a channel keeps its
    kind and owner, a click is never edited, and a link that was clicked keeps
    its channel, source, campaign and content. *)
Theorem partner_rows_write_once sign kind owner org share adding fields c l v P channel active utm
    token :
  respects rows_kept (channel_save adding fields c) ∧
  respects rows_kept (channel_update P (default [] fields) c) ∧
  respects rows_kept (link_save adding fields l) ∧
  respects rows_kept (visit_save adding v) ∧
  respects rows_kept (_create_channel_and_link kind owner org share) ∧
  respects rows_kept (regenerate_invite_link channel) ∧
  respects rows_kept (set_invite_active channel active) ∧
  respects rows_kept (update_partner_channel_settings channel active share) ∧
  respects rows_kept (record_visit sign token utm).
Proof.
  split_and!; auto with effects.
  - apply create_attempts_kept.
  - unfold regenerate_invite_link, canonical_invite_link, _view. solve_respects.
    apply respects_delete_where; [apply _|]. intros d. by apply rows_kept_same.
  - unfold set_invite_active, canonical_invite_link, _view. solve_respects.
  - unfold update_partner_channel_settings. solve_respects.
  - unfold record_visit. solve_respects.
Qed.

(** Rotating the canonical link: the row it writes and the pending rows it
    drops. *)
Lemma regenerate_Ok channel e w view w' :
  regenerate_invite_link channel e w = (Ok view, w') → aborted w = false →
  links_keyed (db w) →
  ∃ l l' base, canonical channel (db w) = Some l ∧
    l' = l <| link_token := link_token l' |> <| link_regenerated_at := Some (clock e (tick w)) |> ∧
    partner_invite_token_is_usable (link_token l') = true ∧
    view = mkView (base +:+ "/join/" +:+ link_token l') (link_is_active l) (link_created_at l)
             (Some (clock e (tick w))) ∧
    db w' = (db w) <| invite_links := <[link_id l := l']> (invite_links (db w)) |>
      <| pendings := filter (λ kv, (pend_partner_channel kv.2 =? channel)%N &&
           bool_decide (pend_invite_token_snapshot kv.2 = link_token l) = false)
           (pendings (db w)) |>.
Proof.
  unfold regenerate_invite_link, _view. intros H Hw Hkeyed. inv_run H.
  match goal with Hr : atomic _ _ _ = _ |- _ =>
    apply atomic_clean_Ok in Hr as (w1 & Hr & ->); [|unfold canonical_invite_link; solve_clean|done] end.
  unfold canonical_invite_link in Hrun. inv_run Hrun.
  match goal with Hc : canonical _ _ = Some ?l |- _ => rename l into link; rename Hc into Hcan end.
  match goal with Hp : _assign_token _ _ _ = _ |- _ =>
    apply persist_attempts_Ok in Hp as (w2 & w3 & t & Hdb & Hab & Hp & Hw'); [|intros; solve_clean|done];
    inv_run Hp end.
  inv_call link_save_token as (Hu & row & Hrow & Hd). simpl in *.
  destruct (canonical_Some _ _ _ Hcan) as ([k Hk] & _ & _).
  pose proof (Hkeyed _ _ Hk) as <-. rewrite Hdb in Hrow, Hd. simplify_eq.
  match type of Hd with _ = put _ _ ?l _ =>
    exists row, l, (rstrip_char "/" (PARTNER_JOIN_BASE_URL (settings e))) end.
  split_and!; try done. by rewrite Hw', Hd.
Qed.

(** Rotating the invite link gives the canonical link, and no other, a new
    usable token; from then on no click recorded on it before the rotation
    validates, with or without the 30-day window, and of the pending
    registrations exactly those that hold the channel's old token are gone. *)
Theorem regenerate_revokes_clicks channel e w view w' :
  regenerate_invite_link channel e w = (Ok view, w') → aborted w = false →
  links_keyed (db w) →
  ∃ l l', canonical channel (db w) = Some l ∧
    l' = l <| link_token := link_token l' |> <| link_regenerated_at := Some (clock e (tick w)) |> ∧
    partner_invite_token_is_usable (link_token l') = true ∧
    invite_links (db w') = <[link_id l := l']> (invite_links (db w)) ∧
    (∀ k v check e2 w2, db w2 = db w' → aborted w2 = false →
       visits (db w') !! k = Some v → vis_invite_link v = link_id l →
       vis_created_at v < clock e (tick w) →
       validate_invite_visit k check e2 w2 = (Ok None, w2)) ∧
    (∀ k p, pendings (db w') !! k = Some p ↔ pendings (db w) !! k = Some p ∧
       ¬ (pend_partner_channel p = channel ∧ pend_invite_token_snapshot p = link_token l)).
Proof.
  intros H Hw Hk. destruct (regenerate_Ok _ _ _ _ _ H Hw Hk) as (l & l' & base & Hc & Hl' & Hu & _ & Hdb).
  exists l, l'. rewrite Hdb. split_and!; try done; simpl.
  - intros k v check e2 w2 Hw2 Hab Hv Hvl Ht.
    unfold validate_invite_visit. rewrite bind_run. unfold query. rewrite Hab, Hw2.
    unfold visit_and_link. simpl. rewrite Hv. simpl. rewrite Hvl, lookup_insert_eq. simpl.
    destruct (link_is_active l'); [|done]. unfold visit_predates_regeneration. rewrite Hl'. simpl.
    by rewrite (proj2 (Z.ltb_lt _ _)).
  - intros k p. rewrite map_lookup_filter_Some. simpl.
    rewrite andb_false_iff, N.eqb_neq, bool_decide_eq_false.
    destruct (decide (pend_partner_channel p = channel)),
      (decide (pend_invite_token_snapshot p = link_token l)); tauto.
Qed.

(** A click counts: on an active link with a usable token it is stored
    once, with the parameters it carried cut to the column, and signed; and
    while the link is neither paused nor rotated it validates, within 30 days
    or, on confirmation, whenever. *)
Theorem recorded_click_is_usable sign token utm e w v s w' :
  record_visit sign token utm e w = (Ok (Some (v, s)), w') → aborted w = false →
  ∃ k l, invite_links (db w) !! k = Some l ∧ link_token l = token ∧ link_is_active l = true ∧
    (let u := normalize_utm utm in
     v = mkVisit (vis_id v) (link_id l) (utm_source u) (utm_medium u) (utm_campaign u)
           (utm_content u) (clock e (tick w))) ∧
    s = sign (vis_id v) (clock e (S (tick w))) ∧
    visits (db w) !! vis_id v = None ∧ db w' = put visits (vis_id v) v (db w) ∧
    (∀ check e2 w2, aborted w2 = false → visits (db w2) !! vis_id v = Some v →
       invite_links (db w2) !! link_id l = Some l →
       (∀ t, link_regenerated_at l = Some t → t ≤ vis_created_at v) →
       (check = true → clock e2 (tick w2) ≤ vis_created_at v + ATTRIBUTION_WINDOW) →
       run (validate_invite_visit (vis_id v) check) e2 w2 = (Ok (Some (v, l)), db w2)).
Proof.
  unfold record_visit, visit_save. intros H Hw. inv_run H.
  match goal with Hr : atomic _ _ _ = _ |- _ =>
    apply atomic_clean_Ok in Hr as (w1 & Hr & ->); [|solve_clean|done]; inv_run Hr end.
  match goal with Hq : qfirst _ _ = Some ?l |- _ =>
    apply qfirst_Some in Hq as (k & Hk & HP); exists k, l end.
  bool_to_prop. split_and!; try done.
  intros check e2 w2 Hab Hv Hl Hr Hc. unfold run, validate_invite_visit.
  rewrite bind_run. unfold query. rewrite Hab. unfold visit_and_link. rewrite Hv. simpl.
  rewrite Hl. simpl.
  match goal with Ha : link_is_active _ = true |- _ => rewrite Ha; simpl in * end.
  assert (Hpre : ∀ v, vis_created_at v = clock e (tick w) → visit_predates_regeneration v p = false).
  { intros v Ht. unfold visit_predates_regeneration. rewrite Ht.
    destruct (link_regenerated_at p) as [t|]; [|done]. apply Z.ltb_ge. by apply Hr. }
  rewrite Hpre by done. unfold bind, now. simpl. destruct check; simpl; [|done].
  rewrite (proj2 (Z.ltb_ge _ _)); [done|]. specialize (Hc eq_refl). lia.
Qed.

(** ** A concrete program *)

(** User 8 owns a channel with one clicked link. *)
Definition invite_db : Db :=
  channel_db <| channels := {[ 31%N := mkChannel 31 INDIVIDUAL (Some 8%N) None 5000 true ]} |>
    <| invite_links := {[ 50%N := mkInviteLink 50 31 "tok" "" 0 "spring" "" "" true 1 None ]} |>
    <| visits := {[ 51%N := mkVisit 51 50 "" "" "" "" (-5) ]} |>
    <| pendings := {[ 52%N := mkPending 52 9 31 "tok" (Some 51%N) 100 ]} |>.

Lemma invite_links_keyed : links_keyed invite_db.
Proof. intros k l. simpl. intros [<- <-]%lookup_singleton_Some. done. Qed.

Lemma create_channel_outcome_witness :
  ∃ c w', _create_channel_and_link INDIVIDUAL (Some 9%N) None 5000 sample_env (world_of invite_db)
      = (Ok c, w') ∧ channel_created INDIVIDUAL (Some 9%N) None 5000 invite_db (db w') c.
Proof.
  destruct (_create_channel_and_link INDIVIDUAL (Some 9%N) None 5000 sample_env
    (world_of invite_db)) as [[c|x] w'] eqn:E; [|vm_compute in E; discriminate E].
  exists c, w'. split; [reflexivity|].
  exact (create_channel_outcome INDIVIDUAL (Some 9%N) None 5000 sample_env (world_of invite_db)
    (Ok c) w' E eq_refl).
Defined.

Lemma regenerate_revokes_clicks_witness :
  ∃ view w', regenerate_invite_link 31 sample_env (world_of invite_db) = (Ok view, w') ∧
    validate_invite_visit 51 true sample_env w' = (Ok None, w').
Proof.
  destruct (regenerate_invite_link 31 sample_env (world_of invite_db)) as [[view|x] w'] eqn:E;
    [|vm_compute in E; discriminate E].
  exists view, w'. split; [reflexivity|].
  destruct (regenerate_revokes_clicks 31 sample_env (world_of invite_db) view w' E eq_refl
    invite_links_keyed) as (l & l' & Hc & _ & _ & _ & Hrevoked & _).
  vm_compute in Hc. injection Hc as <-. vm_compute in E. injection E as _ <-.
  eapply (Hrevoked 51%N (mkVisit 51 50 "" "" "" "" (-5))); reflexivity.
Defined.

Lemma recorded_click_is_usable_witness :
  ∃ v s w', record_visit (λ k t, str k +:+ "@" +:+ pretty t) "tok" None sample_env
      (world_of invite_db) = (Ok (Some (v, s)), w') ∧
    run (validate_invite_visit (vis_id v) true) sample_env w'
    = (Ok (Some (v, mkInviteLink 50 31 "tok" "" 0 "spring" "" "" true 1 None)), db w').
Proof.
  destruct (record_visit (λ k t, str k +:+ "@" +:+ pretty t) "tok" None sample_env
      (world_of invite_db)) as [[[[v s]|]|x] w'] eqn:E; try (vm_compute in E; discriminate E).
  exists v, s, w'. split; [reflexivity|].
  destruct (recorded_click_is_usable _ "tok" None sample_env (world_of invite_db) v s w' E eq_refl)
    as (k & l & Hk & _ & _ & _ & _ & _ & _ & Hvalid).
  simpl in Hk. apply lookup_singleton_Some in Hk as [<- <-]. vm_compute in E. injection E as <- _ <-.
  apply Hvalid; [reflexivity..| |intros _; vm_compute; discriminate].
  intros t Ht. discriminate Ht.
Defined.
