(* ===== verification/Attribution.v ===== *)
(** * Customer attribution

    [apps/billing/services/partner_attribution.py],
    [apps/billing/services/partner_self_referral.py],
    [apps/billing/services/partner_pending.py] and the guards of
    [CustomerAttribution]: which partner a customer belongs to, how an invite
    click becomes that, and the registration bonus. *)

From S2P Require Import Prelude Tables Money Models EsimModels World Effects Credit Settlement Margin Invites.
#[local] Open Scope Z_scope.

(** ** Self-referral guard *)

Definition lock_self_referral_rows (user : pk) (chs : list PartnerChannel) : M unit :=
  let! _ := get_locked users user in
  match chs with
  | [] => ret tt
  | _ => let! _ := locked_query (λ d,
           List.filter (λ c, bool_decide (ch_id c ∈ (ch_id <$> chs))) (rows_by_pk (channels d))) in
         ret tt
  end.

Definition ensure_current_attribution_allowed (user : pk) (channel : PartnerChannel) : M unit :=
  lock_self_referral_rows user [channel];;;
  raise_if (bool_decide (ch_kind channel = INDIVIDUAL) &&
            bool_decide (ch_owner_user channel = Some user)) PartnerSelfReferralConflict;;;
  match ch_kind channel, ch_organization channel with
  | TEAM, Some organization =>
      let! active := query (active_member organization user) in
      raise_if active PartnerSelfReferralConflict
  | _, _ => ret tt
  end.

Definition is_team_channel (organization : pk) (c : PartnerChannel) : bool :=
  bool_decide (ch_kind c = TEAM) && bool_decide (ch_organization c = Some organization).

Definition ensure_active_membership_allowed (user organization : pk) : M unit :=
  let! channel := query (λ d,
    List.find (is_team_channel organization) (rows_by_pk (channels d))) in
  match channel with
  | None => ret tt
  | Some channel =>
      lock_self_referral_rows user [channel];;;
      let! attributed := query (λ d, qexists (λ a, (attr_user a =? user)%N &&
        (attr_partner_channel a =? ch_id channel)%N) (attributions d)) in
      raise_if attributed PartnerSelfReferralConflict
  end.

(** ** Save guard of the attribution table *)

Definition _ATTRIBUTION_SNAPSHOT_FIELDS : list string :=
  ["invite_visit"; "invite_visit_id"; "invite_token"; "registered_via_invite";
   "invite_name_snapshot"; "invite_source_snapshot"; "invite_campaign_snapshot";
   "invite_content_snapshot"; "utm_source_snapshot"; "utm_medium_snapshot";
   "utm_campaign_snapshot"; "utm_content_snapshot"; "bonus_amount_snapshot"].

(** One row per user. *)
Definition attribution_verdict (d : Db) (a : CustomerAttribution) : option Exn :=
  if negb (match attr_bonus_amount_snapshot a with Some m => fits_numeric m | None => true end)
  then Some DataError
  else if qexists (λ b, negb (attr_id b =? attr_id a)%N && (attr_user b =? attr_user a)%N)
            (attributions d)
  then Some IntegrityError
  else None.

Definition _snapshot_touched (update_fields : option (list string)) : bool :=
  match update_fields with
  | None => true
  | Some fields => intersects _ATTRIBUTION_SNAPSHOT_FIELDS fields
  end.

(** The snapshot columns named by [update_fields] that differ. *)
Definition snapshot_differ (update_fields : option (list string)) (p a : CustomerAttribution)
    : bool :=
  let named (names : list string) :=
    match update_fields with None => true | Some fields => intersects names fields end in
  let s := attr_snapshot p in
  let t := attr_snapshot a in
  let differ {T} `{!EqDecision T} (names : list string) (x y : T) :=
    named names && negb (bool_decide (x = y)) in
  differ ["invite_visit"; "invite_visit_id"] (snap_invite_visit s) (snap_invite_visit t) ||
  differ ["invite_token"] (snap_invite_token s) (snap_invite_token t) ||
  differ ["registered_via_invite"] (attr_registered_via_invite p) (attr_registered_via_invite a) ||
  differ ["invite_name_snapshot"] (snap_invite_name s) (snap_invite_name t) ||
  differ ["invite_source_snapshot"] (snap_invite_source s) (snap_invite_source t) ||
  differ ["invite_campaign_snapshot"] (snap_invite_campaign s) (snap_invite_campaign t) ||
  differ ["invite_content_snapshot"] (snap_invite_content s) (snap_invite_content t) ||
  differ ["utm_source_snapshot"] (snap_utm_source s) (snap_utm_source t) ||
  differ ["utm_medium_snapshot"] (snap_utm_medium s) (snap_utm_medium t) ||
  differ ["utm_campaign_snapshot"] (snap_utm_campaign s) (snap_utm_campaign t) ||
  differ ["utm_content_snapshot"] (snap_utm_content s) (snap_utm_content t) ||
  differ ["bonus_amount_snapshot"] (attr_bonus_amount_snapshot p) (attr_bonus_amount_snapshot a).

(** [CustomerAttribution.save] of an existing row with
    [update_fields=["partner_channel"]], the only update the code makes: the
    guard, then the column. *)
Definition attribution_save_guard (update_fields : option (list string))
    (a : CustomerAttribution) : M unit :=
  if _snapshot_touched update_fields then
    let! previous := get attributions (attr_id a) in
    raise_if (snapshot_differ update_fields previous a) AppendOnlyViolation
  else ret tt.

Definition save_partner_channel (a : CustomerAttribution) : M unit :=
  attribution_save_guard (Some ["partner_channel"]) a;;;
  save_fields attributions attribution_verdict (attr_id a)
    (λ row, row <| attr_partner_channel := attr_partner_channel a |>).

(** ** Pending registrations *)

(** [timedelta(seconds=PENDING_ROW_MAX_AGE_SECONDS)] *)
Definition PENDING_ROW_MAX_AGE_SECONDS : Z := 24 * 60 * 60.

Definition pending_expires_at (issued_at : option instant) : M instant :=
  let! start := match issued_at with Some t => ret t | None => now end in
  ret (start + PENDING_ROW_MAX_AGE_SECONDS * 1000000).

(** One pending row per user. *)
Definition pending_verdict (d : Db) (p : PendingPartnerAttribution) : option Exn :=
  if qexists (λ q, (pend_user q =? pend_user p)%N) (pendings d)
  then Some IntegrityError else None.

Definition attributed (user : pk) (d : Db) : bool :=
  qexists (λ a, (attr_user a =? user)%N) (attributions d).
Definition pending_of (user : pk) (d : Db) : option PendingPartnerAttribution :=
  qfirst (λ p, (pend_user p =? user)%N) (pendings d).

(** ** Inserting *)

(** [_lock_visit]: the visit with its locked link. *)
Definition _lock_visit (visit_id : pk) (check_attribution_window : bool)
    : M (option (InviteVisit * PartnerInviteLink)) :=
  let! visit := query (λ d, visits d !! visit_id) in
  match visit with
  | None => ret None
  | Some visit =>
      let! link := locked_query (λ d, invite_links d !! vis_invite_link visit) in
      match link with
      | None => ret None
      | Some link =>
          let! fresh := validate_invite_visit (vis_id visit) check_attribution_window in
          match fresh with
          | None => ret None
          | Some (fresh, _) => ret (Some (fresh, link))
          end
      end
  end.

Definition invite_snapshot_from_visit (visit : InviteVisit) : M InviteSnapshot :=
  let! link := get invite_links (vis_invite_link visit) in
  ret (mkSnapshot (Some (vis_id visit)) (Some (link_token link)) (link_name link)
         (link_source link) (link_campaign link) (link_content link) (vis_utm_source visit)
         (vis_utm_medium visit) (vis_utm_campaign visit) (vis_utm_content visit)).

Definition _insert_attribution (user : pk) (visit : InviteVisit) (link : PartnerInviteLink)
    (registered_via_invite : bool) : M CustomerAttribution :=
  let bonus := if registered_via_invite then Some (link_bonus_amount link) else None in
  let! channel := get channels (link_partner_channel link) in
  ensure_current_attribution_allowed user channel;;;
  let! attributed_at := now in
  let! snapshot := invite_snapshot_from_visit visit in
  let! id := uuid4 in
  let a := mkAttribution id user (link_partner_channel link) INVITE_LINK (Some (link_id link))
    registered_via_invite snapshot bonus attributed_at in
  create attributions attribution_verdict id a;;;
  ret a.

Definition bonus_key (user : pk) : string := "invite-registration-bonus:" +:+ str user.

Definition credit_registration_invite_bonus (attribution : CustomerAttribution) : M unit :=
  if negb (attr_registered_via_invite attribution) then ret tt
  else match attr_bonus_amount_snapshot attribution with
  | None => ret tt
  | Some amount =>
      if amount <=? 0 then ret tt
      else
        let! account := query (account_of_user (attr_user attribution)) in
        let! account := found account in
        let! _ := credit (acc_id account) (AMoney amount) (RefEnum PARTNER_INVITE_BONUS)
          (str (attr_id attribution)) (bonus_key (attr_user attribution)) in
        ret tt
  end.

(** ** The flows *)

(** [_current_link] *)
Definition _current_link (channel_id : pk) : M (option PartnerInviteLink) :=
  let! channel := query (λ d, channels d !! channel_id) in
  match channel with
  | None => ret None
  | Some channel =>
      try_except (let! l := canonical_invite_link (ch_id channel) false in ret (Some l))
        (λ x, match x with DoesNotExist => Some (ret None) | _ => None end)
  end.

Definition _apply_legacy_pending (user : pk) (pending : PendingPartnerAttribution) : M unit :=
  let! link := _current_link (pend_partner_channel pending) in
  match link with
  | Some link =>
      if negb (link_is_active link) ||
         negb (bool_decide (link_token link = pend_invite_token_snapshot pending))
      then delete_row pendings (pend_id pending)
      else atomic (
        let! _ := get_locked users user in
        let! locked := locked_query (λ d, pendings d !! pend_id pending) in
        match locked with
        | None => ret tt
        | Some locked =>
            let! exists_ := query (attributed user) in
            if exists_ : bool then delete_row pendings (pend_id locked)
            else
              let! channel := get channels (pend_partner_channel locked) in
              let! allowed := try_except
                (ensure_current_attribution_allowed user channel;;; ret true)
                (λ x, match x with PartnerSelfReferralConflict => Some (ret false) | _ => None end) in
              if negb allowed then ret tt
              else
                let! attributed_at := now in
                let! id := uuid4 in
                let a := mkAttribution id user (pend_partner_channel locked) INVITE_LINK
                  (Some (link_id link)) false
                  (empty_snapshot <| snap_invite_token := Some (pend_invite_token_snapshot locked) |>)
                  None attributed_at in
                create attributions attribution_verdict id a;;;
                delete_row pendings (pend_id locked)
        end)
  | None => delete_row pendings (pend_id pending)
  end.

(** The transaction of [apply_pending_on_activation]. *)
Definition apply_pending_locked (user : pk) (pending : PendingPartnerAttribution) (visit_id : pk)
    : M unit :=
  let! _ := get_locked users user in
  let! locked := locked_query (λ d, pendings d !! pend_id pending) in
  match locked with
  | None => ret tt
  | Some locked =>
      let! t := now in
      if pend_expires_at locked <=? t then delete_row pendings (pend_id locked)
      else
        let! exists_ := query (attributed user) in
        if exists_ : bool then delete_row pendings (pend_id locked)
        else
          let! visit := match pend_invite_visit locked with
                        | Some v => _lock_visit v false | None => ret None end in
          match visit with
          | None => delete_row pendings (pend_id locked)
          | Some (visit, link) =>
              let! attribution := try_except
                (let! a := _insert_attribution user visit link true in ret (Some a))
                (λ x, match x with PartnerSelfReferralConflict => Some (ret None) | _ => None end) in
              match attribution with
              | None => ret tt
              | Some a =>
                  credit_registration_invite_bonus a;;;
                  delete_row pendings (pend_id locked)
              end
          end
  end.

Definition apply_pending_on_activation (user : pk) : M unit :=
  let! pending := query (pending_of user) in
  match pending with
  | None => ret tt
  | Some pending =>
      let! t := now in
      if pend_expires_at pending <=? t then delete_row pendings (pend_id pending)
      else
        let! exists_ := query (attributed user) in
        if exists_ : bool then delete_row pendings (pend_id pending)
        else
          let! enabled := asks PARTNER_CHANNEL_ENABLED in
          if negb enabled then ret tt
          else match pend_invite_visit pending with
          | None => _apply_legacy_pending user pending
          | Some visit_id => atomic (apply_pending_locked user pending visit_id)
          end
  end.

Inductive ConsumeResult := _CREATED | _NOOP | _IGNORED.

Section Cookie.
(** [unsign_partner_pending]: the visit named by a signed cookie that still
    holds at the given time. *)
Context (unsign_partner_pending : string → instant → option pk).

Definition read_cookie (signed : string) : M (option pk) :=
  let! t := now in ret (unsign_partner_pending signed t).

(** [not signed] *)
Definition no_cookie (signed : option string) : bool :=
  match signed with None | Some "" => true | _ => false end.

Definition record_pending_for_new_user (user : User) (signed : option string) : M unit :=
  let! enabled := asks PARTNER_CHANNEL_ENABLED in
  if no_cookie signed || negb enabled || user_is_active user then ret tt
  else
    let! a := query (attributed (user_id user)) in
    if a : bool then ret tt
    else
      let! p := query (λ d, qexists (λ p, (pend_user p =? user_id user)%N) (pendings d)) in
      if p : bool then ret tt
      else
        let! payload := read_cookie (default "" signed) in
        match payload with
        | None => ret tt
        | Some visit_id => atomic (
            let! visit := _lock_visit visit_id true in
            match visit with
            | None => ret tt
            | Some (visit, link) =>
                let! expires_at := pending_expires_at None in
                let! id := uuid4 in
                create pendings pending_verdict id
                  (mkPending id (user_id user) (link_partner_channel link) (link_token link)
                     (Some (vis_id visit)) expires_at)
            end)
        end.

Definition attribute_created_invite (user : pk) (signed : option string) : M unit :=
  let! enabled := asks PARTNER_CHANNEL_ENABLED in
  if no_cookie signed || negb enabled then ret tt
  else
    let! payload := read_cookie (default "" signed) in
    match payload with
    | None => ret tt
    | Some visit_id => atomic (
        let! _ := get_locked users user in
        let! exists_ := query (attributed user) in
        if exists_ : bool then ret tt
        else
          let! visit := _lock_visit visit_id true in
          match visit with
          | None => ret tt
          | Some (visit, link) =>
              let! a := _insert_attribution user visit link true in
              credit_registration_invite_bonus a
          end)
    end.

(** The transaction of [consume_partner_pending]. *)
Definition consume_locked (user visit_id : pk) : M ConsumeResult :=
  let! _ := get_locked users user in
  let! exists_ := query (attributed user) in
  if exists_ : bool then ret _NOOP
  else
    let! pending := locked_query (pending_of user) in
    match pending with
    | Some _ => ret _IGNORED
    | None =>
        let! visit := _lock_visit visit_id true in
        match visit with
        | None => ret _IGNORED
        | Some (visit, link) =>
            let! _ := _insert_attribution user visit link false in
            ret _CREATED
        end
    end.

Definition consume_partner_pending (user : pk) (signed : option string) : M ConsumeResult :=
  let! exists_ := query (attributed user) in
  if exists_ : bool then ret _NOOP
  else
    let! enabled := asks PARTNER_CHANNEL_ENABLED in
    if no_cookie signed || negb enabled then ret _IGNORED
    else
      let! payload := read_cookie (default "" signed) in
      match payload with
      | None => ret _IGNORED
      | Some visit_id =>
          try_except (atomic (consume_locked user visit_id)) (on_integrity_error (ret _NOOP))
      end.
End Cookie.

Definition assign_customer_attribution (user : pk) (partner_channel : PartnerChannel)
    (actor : option pk) : M CustomerAttribution :=
  raise_if (bool_decide (actor = None)) (ValueError "Assign requires an actor");;;
  atomic (
    let! _ := get_locked users user in
    let! exists_ := query (attributed user) in
    raise_if exists_ CustomerAttributionExists;;;
    ensure_current_attribution_allowed user partner_channel;;;
    let! attributed_at := now in
    let! id := uuid4 in
    let a := mkAttribution id user (ch_id partner_channel) SOURCE_ADMIN None false empty_snapshot
      None attributed_at in
    create attributions attribution_verdict id a;;;
    ret a).

Definition transfer_customer_attribution (user : pk) (partner_channel : PartnerChannel)
    : M CustomerAttribution :=
  atomic (
    let! _ := get_locked users user in
    let! attribution := locked_query (λ d,
      qfirst (λ a, (attr_user a =? user)%N) (attributions d)) in
    let! attribution := found attribution in
    if (attr_partner_channel attribution =? ch_id partner_channel)%N then ret attribution
    else
      let! previous := get channels (attr_partner_channel attribution) in
      lock_self_referral_rows user [partner_channel; previous];;;
      ensure_current_attribution_allowed user partner_channel;;;
      let moved := attribution <| attr_partner_channel := ch_id partner_channel |> in
      save_partner_channel moved;;;
      ret moved).

(** ** What the flows do *)

(** The bonus an attribution is entitled to. *)
Definition payable (a : CustomerAttribution) : option money :=
  if attr_registered_via_invite a then
    match attr_bonus_amount_snapshot a with
    | Some m => if 0 <? m then Some m else None
    | None => None
    end
  else None.

(** The registration bonus of [a], if any, has been posted. *)
Definition bonus_paid (a : CustomerAttribution) (d d' : Db) : Prop :=
  match payable a with
  | None => d' = d
  | Some m => ∃ account en, account_of_user (attr_user a) d = Some account ∧
      applied (acc_id account) m PARTNER_INVITE_BONUS (str (attr_id a)) (bonus_key (attr_user a))
        d d' en
  end.

(** Pending rows are dropped, or one is added for a user without any. *)
Definition pending_change (d : Db) (p : gmap pk PendingPartnerAttribution) : Prop :=
  p ⊆ pendings d ∨
  ∃ q, pendings d !! pend_id q = None ∧
    (∀ k r, pendings d !! k = Some r → pend_user r ≠ pend_user q) ∧
    p = <[pend_id q := q]> (pendings d).

(** The user may be a customer of the channel stored under [c]. *)
Definition may_join (d : Db) (user c : pk) : Prop :=
  ∀ channel, channels d !! c = Some channel → outsider d channel user.

Inductive attr_step (d d' : Db) : Prop :=
  | step_pending p : pending_change d p → d' = d <| pendings := p |> → attr_step d d'
  | step_insert a d1 p :
      attributed (attr_user a) d = false → attributions d !! attr_id a = None →
      may_join d (attr_user a) (attr_partner_channel a) →
      bonus_paid a (put attributions (attr_id a) a d) d1 → pending_change d p →
      d' = d1 <| pendings := p |> → attr_step d d'
  | step_move k a c :
      attributions d !! k = Some a → may_join d (attr_user a) c →
      d' = put attributions k (a <| attr_partner_channel := c |>) d → attr_step d d'.

(** One attribution and one pending row per user, no customer of the user's
    own program, and every registration bonus paid once, in full, and to its
    attribution. *)
Record attribution_inv (d : Db) : Prop := {
  ai_keyed : ∀ k a, attributions d !! k = Some a → attr_id a = k;
  ai_unique : ∀ j k a b, attributions d !! j = Some a → attributions d !! k = Some b →
    attr_user a = attr_user b → j = k;
  ai_outsider : ∀ k a, attributions d !! k = Some a →
    may_join d (attr_user a) (attr_partner_channel a);
  ai_bonus : ∀ k a, attributions d !! k = Some a →
    match payable a with
    | None => find_entry (bonus_key (attr_user a)) (ledger d) = None
    | Some m => ∃ en, find_entry (bonus_key (attr_user a)) (ledger d) = Some en ∧
        le_delta en = m ∧ le_reference_id en = str k
    end;
  ai_keys : ∀ en user, en ∈ ledger d → le_idempotency_key en = bonus_key user →
    attributed user d = true;
  ai_pending_keyed : ∀ k p, pendings d !! k = Some p → pend_id p = k;
  ai_pending : ∀ j k p q, pendings d !! j = Some p → pendings d !! k = Some q →
    pend_user p = pend_user q → j = k;
}.

#[export] Instance bonus_key_inj : Inj (=) (=) bonus_key.
Proof.
  intros j k H. by apply (inj (String.append "invite-registration-bonus:")), (inj str) in H.
Qed.

Lemma attributed_true user d :
  attributed user d = true ↔ ∃ k a, attributions d !! k = Some a ∧ attr_user a = user.
Proof.
  unfold attributed. rewrite qexists_true.
  split; intros (k & a & Hk & Ha); exists k, a; (split; [done|]); apply N.eqb_eq; exact Ha.
Qed.

Lemma attributed_false user d :
  attributed user d = false ↔ ∀ k a, attributions d !! k = Some a → attr_user a ≠ user.
Proof.
  unfold attributed. rewrite qexists_false.
  split; intros H k a Hk; specialize (H k a Hk); by apply N.eqb_neq.
Qed.

Lemma outsider_same d c c' user :
  same_ownership c c' = true → outsider d c' user → outsider d c user.
Proof.
  intros (Hk & Ho & Hr)%same_ownership_true. unfold outsider. by rewrite Hk, Ho, Hr.
Qed.

(** A bonus under an unused key is one new entry; nothing else moves. *)
Lemma bonus_paid_shape a d d' :
  bonus_paid a d d' → find_entry (bonus_key (attr_user a)) (ledger d) = None →
  only_money d d' ∧
  match payable a with
  | None => ledger d' = ledger d
  | Some m => ∃ en, ledger d' = ledger d ++ [en] ∧ le_delta en = m ∧
      le_idempotency_key en = bonus_key (attr_user a) ∧ le_reference_id en = str (attr_id a)
  end.
Proof.
  unfold bonus_paid. destruct (payable a) as [m|].
  - intros (acc & en & _ & Happ) Hnone. split; [by eapply applied_only_money|].
    destruct Happ as [Hf ->|]; [congruence|]. exists en. by subst.
  - intros -> _. done.
Qed.

Lemma bonus_paid_ledger_inv a d d' : bonus_paid a d d' → ledger_inv d → ledger_inv d'.
Proof.
  unfold bonus_paid. destruct (payable a); [|by intros ->].
  intros (acc & en & _ & Happ) Hinv. by eapply ledger_inv_applied.
Qed.

Lemma pending_change_inv d p :
  pending_change d p → attribution_inv d →
  (∀ k q, p !! k = Some q → pend_id q = k) ∧
  (∀ j k q r, p !! j = Some q → p !! k = Some r → pend_user q = pend_user r → j = k).
Proof.
  intros [Hsub|(q & Hf & Hu & ->)] Hinv.
  - assert (Hl : ∀ k q, p !! k = Some q → pendings d !! k = Some q)
      by (intros; by eapply lookup_weaken).
    split; [intros k q Hq; by apply (ai_pending_keyed d Hinv), Hl|].
    intros j k q r Hq Hr. eapply (ai_pending d Hinv); by apply Hl.
  - split.
    + intros k r [[<- <-]|[_ Hr]]%lookup_insert_Some; [done|by apply Hinv].
    + intros j k r s [[<- <-]|[_ Hr]]%lookup_insert_Some [[<- <-]|[_ Hs]]%lookup_insert_Some E;
        [done|by destruct (Hu _ _ Hs)|by destruct (Hu _ _ Hr)|by eapply (ai_pending d Hinv)].
Qed.

(** Adding the attribution of a user without one, and paying its bonus. *)
Lemma attribution_inv_insert d a d1 p :
  attributed (attr_user a) d = false → attributions d !! attr_id a = None →
  may_join d (attr_user a) (attr_partner_channel a) →
  bonus_paid a (put attributions (attr_id a) a d) d1 → pending_change d p →
  attribution_inv d → attribution_inv (d1 <| pendings := p |>).
Proof.
  intros Hnew Hfresh Hjoin Hpaid Hp Hinv.
  rewrite attributed_false in Hnew.
  assert (Hnone : find_entry (bonus_key (attr_user a)) (ledger d) = None).
  { apply find_entry_None. intros (en & Hk & Hin)%list_elem_of_fmap.
    apply eq_sym, (ai_keys d Hinv _ _ Hin), attributed_true in Hk as (k & b & Hb & Hu).
    by eapply Hnew. }
  destruct (bonus_paid_shape _ _ _ Hpaid Hnone) as [Hmoney Hl].
  destruct (pending_change_inv _ _ Hp Hinv) as [Hp1 Hp2].
  assert (Hkeep : ∀ u, u ≠ attr_user a →
    find_entry (bonus_key u) (ledger d1) = find_entry (bonus_key u) (ledger d)).
  { intros u Hu. destruct (payable a); [destruct Hl as (en & -> & _ & Hk & _)|by rewrite Hl].
    apply find_entry_other. rewrite Hk. intros E. by apply (inj bonus_key) in E. }
  assert (Hin : ∀ en u, en ∈ ledger d1 → le_idempotency_key en = bonus_key u →
    u = attr_user a ∨ en ∈ ledger d).
  { intros en u. destruct (payable a); [destruct Hl as (en' & -> & _ & Hk & _)|rewrite Hl; by right].
    intros [?| ->%list_elem_of_singleton]%elem_of_app E; [by right|left].
    rewrite Hk in E. by apply (inj bonus_key) in E. }
  assert (Hat : attributions d1 = <[attr_id a := a]> (attributions d)) by (by rewrite Hmoney).
  assert (Hch : channels d1 = channels d ∧ memberships d1 = memberships d) by (by rewrite Hmoney).
  destruct Hch as [Hch Hme].
  assert (Hjn : ∀ u c, may_join d u c → may_join (d1 <| pendings := p |>) u c).
  { intros u c. unfold may_join, outsider, active_member. simpl. by rewrite Hch, Hme. }
  split; simpl; rewrite ?Hat; try done.
  - intros k b [[<- <-]|[_ Hb]]%lookup_insert_Some; [done|by apply Hinv].
  - intros j k b b' [[<- <-]|[_ Hb]]%lookup_insert_Some [[<- <-]|[_ Hb']]%lookup_insert_Some E;
      [done|by destruct (Hnew _ _ Hb')|by destruct (Hnew _ _ Hb)|by eapply (ai_unique d Hinv)].
  - intros k b [[<- <-]|[_ Hb]]%lookup_insert_Some; apply Hjn; [done|].
    by apply (ai_outsider d Hinv k).
  - intros k b [[<- <-]|[_ Hb]]%lookup_insert_Some.
    + destruct (payable a); [|by rewrite Hl]. destruct Hl as (en & -> & Hd & Hk & Hr).
      exists en. split_and!; [|done..]. by apply find_entry_snoc.
    + rewrite Hkeep by (by eapply Hnew). by apply (ai_bonus d Hinv k b Hb).
  - intros en u Hen Hk. apply attributed_true. simpl. rewrite Hat.
    destruct (Hin en u Hen Hk) as [->|Hin'].
    + exists (attr_id a), a. by rewrite lookup_insert_eq.
    + apply (ai_keys d Hinv _ _ Hin') in Hk. apply attributed_true in Hk as (k & b & Hb & Hu).
      exists k, b. split; [|done]. rewrite lookup_insert_ne; [done|congruence].
Qed.

Lemma attribution_inv_step d d' : attr_step d d' → attribution_inv d → attribution_inv d'.
Proof.
  intros [p Hp ->|a d1 p Hnew Hfresh Hjoin Hpaid Hp ->|k a c Ha Hjoin ->] Hinv.
  - destruct (pending_change_inv _ _ Hp Hinv). by destruct Hinv; split.
  - by eapply attribution_inv_insert.
  - assert (Hold : ∀ j b, <[k:=a <| attr_partner_channel := c |>]> (attributions d) !! j = Some b →
      ∃ b', attributions d !! j = Some b' ∧ attr_user b = attr_user b' ∧ attr_id b = attr_id b' ∧
        payable b = payable b').
    { intros j b [[<- <-]|[_ Hb]]%lookup_insert_Some; eauto. }
    split; simpl; try apply Hinv.
    + intros j b Hb. destruct (Hold j b Hb) as (b' & Hb' & _ & -> & _). by apply Hinv.
    + intros i j b b' Hb Hb' E. destruct (Hold i b Hb) as (x & Hx & Ex & _).
      destruct (Hold j b' Hb') as (y & Hy & Ey & _). eapply (ai_unique d Hinv); [done..|congruence].
    + intros j b [[<- <-]|[_ Hb]]%lookup_insert_Some; [done|]. by apply (ai_outsider d Hinv j).
    + intros j b Hb. destruct (Hold j b Hb) as (b' & Hb' & -> & _ & ->). by apply (ai_bonus d Hinv).
    + intros en u Hen Hk. apply (ai_keys d Hinv _ _ Hen) in Hk.
      apply attributed_true in Hk as (j & b & Hb & Hu). apply attributed_true. simpl.
      destruct (decide (k = j)) as [<-|].
      * exists k. rewrite lookup_insert_eq. simplify_eq. eauto.
      * exists j, b. by rewrite lookup_insert_ne.
Qed.

Lemma ledger_inv_step d d' : attr_step d d' → ledger_inv d → ledger_inv d'.
Proof.
  intros [p Hp ->|a d1 p _ _ _ Hpaid _ ->|k a c _ _ ->] Hinv; [by destruct Hinv; split| |by destruct Hinv; split].
  apply bonus_paid_ledger_inv in Hpaid; [|by destruct Hinv; split].
  by destruct Hpaid; split.
Qed.

(** ** Runs of the flows *)

Lemma lock_rows_Ok user chs e w u w' : lock_self_referral_rows user chs e w = (Ok u, w') → w' = w.
Proof. unfold lock_self_referral_rows. intros H. by inv_run H. Qed.

Lemma ensure_Ok user channel e w u w' :
  ensure_current_attribution_allowed user channel e w = (Ok u, w') →
  w' = w ∧ outsider (db w) channel user.
Proof.
  unfold ensure_current_attribution_allowed, outsider. intros H. inv_run H;
    inv_call lock_rows_Ok as ->; (split; [done|]); bool_to_prop.
  - destruct_or?; bool_to_prop; done.
  - intros o Ho. by simplify_eq.
  - intros o Ho. congruence.
Qed.

Lemma lock_visit_Ok v check e w r w' :
  _lock_visit v check e w = (Ok r, w') →
  db w' = db w ∧ aborted w' = false ∧
  match r with
  | None => True
  | Some (visit, link) => ∃ row, visits (db w) !! v = Some row ∧
      invite_links (db w) !! vis_invite_link row = Some link ∧
      visits (db w) !! vis_id row = Some visit ∧
      ∃ current, invite_links (db w) !! vis_invite_link visit = Some current ∧
        link_is_active current = true ∧ visit_predates_regeneration visit current = false ∧
        (check = true → clock e (tick w) - ATTRIBUTION_WINDOW ≤ vis_created_at visit)
  end.
Proof.
  unfold _lock_visit, validate_invite_visit, visit_and_link. intros H. inv_run H; try done.
  apply bind_Some in Hmatch1 as (i' & Hi & (p' & Hp & [= -> ->])%bind_Some).
  split_and!; [done..|]. apply negb_false_iff in Hif.
  eexists. split_and!; [done..|]. eexists. split_and!; [done..|]. intros ->. simpl in *.
  bool_to_prop. lia.
Qed.

Lemma insert_Ok user visit link reg e w a w' :
  _insert_attribution user visit link reg e w = (Ok a, w') →
  attr_user a = user ∧ attr_partner_channel a = link_partner_channel link ∧
  attr_source a = INVITE_LINK ∧ attr_invite_link a = Some (link_id link) ∧
  attr_registered_via_invite a = reg ∧
  attr_bonus_amount_snapshot a = (if reg then Some (link_bonus_amount link) else None) ∧
  attr_attributed_at a = clock e (tick w) ∧
  (∃ l, invite_links (db w) !! vis_invite_link visit = Some l ∧
     attr_snapshot a = mkSnapshot (Some (vis_id visit)) (Some (link_token l)) (link_name l)
       (link_source l) (link_campaign l) (link_content l) (vis_utm_source visit)
       (vis_utm_medium visit) (vis_utm_campaign visit) (vis_utm_content visit)) ∧
  attributions (db w) !! attr_id a = None ∧ attribution_verdict (db w) a = None ∧
  may_join (db w) user (link_partner_channel link) ∧
  db w' = put attributions (attr_id a) a (db w) ∧ aborted w' = false.
Proof.
  unfold _insert_attribution, invite_snapshot_from_visit. intros H. inv_run H;
    inv_call ensure_Ok as [-> Hout]; simpl in *; split_and!; eauto; intros c Hc; by simplify_eq.
Qed.

Lemma bonus_Ok a e w u w' :
  credit_registration_invite_bonus a e w = (Ok u, w') → bonus_paid a (db w) (db w').
Proof.
  unfold credit_registration_invite_bonus, bonus_paid, payable, credit. intros H.
  destruct (attr_registered_via_invite a); simpl in H; [|by inv_run H].
  destruct (attr_bonus_amount_snapshot a) as [m|]; [|by inv_run H].
  destruct (Z.leb_spec m 0), (Z.ltb_spec 0 m); try lia; [by inv_run H|]. inv_run H.
  inv_call apply_money as (Happ & _ & _). eauto.
Qed.

Lemma clean_lock_visit v check : clean (_lock_visit v check).
Proof. unfold _lock_visit, validate_invite_visit. solve_clean. Qed.
Lemma clean_ensure_allowed user channel : clean (ensure_current_attribution_allowed user channel).
Proof. unfold ensure_current_attribution_allowed, lock_self_referral_rows. solve_clean. Qed.
#[export] Hint Resolve clean_lock_visit clean_ensure_allowed : effects.
Lemma clean_insert user visit link reg : clean (_insert_attribution user visit link reg).
Proof. unfold _insert_attribution, invite_snapshot_from_visit. solve_clean. Qed.
Lemma clean_bonus a : clean (credit_registration_invite_bonus a).
Proof. unfold credit_registration_invite_bonus. solve_clean. Qed.
#[export] Hint Resolve clean_insert clean_bonus : effects.

Section Respects.
Context (R : relation Db) `{!PreOrder R}.

Lemma respects_lock_visit v check : respects R (_lock_visit v check).
Proof. unfold _lock_visit, validate_invite_visit. solve_respects. Qed.
Lemma respects_ensure_allowed user channel :
  respects R (ensure_current_attribution_allowed user channel).
Proof. unfold ensure_current_attribution_allowed, lock_self_referral_rows. solve_respects. Qed.
End Respects.
#[export] Hint Resolve respects_lock_visit respects_ensure_allowed : effects.

(** An insertion with its bonus is one step, whatever becomes of the pending
    rows. *)
Lemma insert_step a p d d1 :
  attributed (attr_user a) d = false → attributions d !! attr_id a = None →
  may_join d (attr_user a) (attr_partner_channel a) →
  bonus_paid a (put attributions (attr_id a) a d) d1 → p ⊆ pendings d →
  attr_step d (d1 <| pendings := p |>).
Proof. intros. eapply step_insert; eauto. by left. Qed.

(** A refused insertion writes nothing. *)
Lemma refuses_insert user visit link reg : refuses (_insert_attribution user visit link reg).
Proof. unfold _insert_attribution, invite_snapshot_from_visit. solve_refuses. Qed.
#[export] Hint Resolve refuses_insert : effects.

Lemma step_same d : attr_step d d.
Proof. apply (step_pending _ _ (pendings d)); [by left|by destruct d]. Qed.

Lemma step_drop k d : attr_step d (drop pendings k d).
Proof. apply (step_pending _ _ (delete k (pendings d))); [left; apply delete_subseteq|done]. Qed.
#[export] Hint Resolve step_same step_drop : roamkit.

(** The guard refuses exactly the user's own program. *)
Lemma ensure_conflict user channel e w w' :
  ensure_current_attribution_allowed user channel e w = (Raise PartnerSelfReferralConflict, w') →
  w' = w ∧ ¬ outsider (db w) channel user.
Proof.
  unfold ensure_current_attribution_allowed, lock_self_referral_rows, get_locked, locked_query,
    query, found, raise_if, ret, raise, bind, outsider. intros H.
  repeat (case_match; simplify_eq/=); (split; [done|]); intros Hout; bool_to_prop; try done;
    try congruence.
  all: specialize (Hout _ eq_refl); congruence.
Qed.

Lemma verdict_no_conflict d a : attribution_verdict d a ≠ Some PartnerSelfReferralConflict.
Proof. unfold attribution_verdict. by repeat case_match. Qed.

Lemma insert_conflict user visit link reg e w w' :
  _insert_attribution user visit link reg e w = (Raise PartnerSelfReferralConflict, w') →
  w' = w ∧ ∃ c, channels (db w) !! link_partner_channel link = Some c ∧ ¬ outsider (db w) c user.
Proof.
  unfold _insert_attribution. intros H.
  apply bind_Raise in H as [H|(c & w1 & (Ha & Hc & ->)%get_Ok & H)].
  { revert H. unfold get, query, found, ret, raise, bind. repeat case_match; intros; by simplify_eq/=. }
  apply bind_Raise in H as [H|(u & w1 & [-> _]%ensure_Ok & H)].
  { apply ensure_conflict in H as [-> H]. split; [done|]. by exists c. }
  exfalso. apply bind_Raise in H as [?|(t & w1 & _ & H)]; [done|].
  apply bind_Raise in H as [[H|(l & w2 & _ & ?)]%bind_Raise|(s & w2 & _ & H)]; [|done|].
  { apply get_Raise in H as [?|?]; done. }
  apply bind_Raise in H as [?|(id & w3 & _ & H)]; [done|].
  apply bind_Raise in H as [H|(v & w4 & _ & ?)]; [|done].
  apply create_Raise in H as [?|[?|H]]; [done..|]. by apply verdict_no_conflict in H.
Qed.

(** [try: a = _insert_attribution(...) except PartnerSelfReferralConflict] *)
Lemma guarded_insert_Ok user visit link e w r w' :
  try_except (let! a := _insert_attribution user visit link true in ret (Some a))
    (λ x, match x with PartnerSelfReferralConflict => Some (ret None) | _ => None end) e w
    = (Ok r, w') →
  match r with
  | None => db w' = db w ∧
      ∃ c, channels (db w) !! link_partner_channel link = Some c ∧ ¬ outsider (db w) c user
  | Some a => _insert_attribution user visit link true e w = (Ok a, w')
  end.
Proof.
  intros [H|(x & k & w1 & H & Hx & Hk)]%try_Ok; [by inv_run H|].
  apply bind_Raise in H as [H|(a & w2 & _ & H)]; [|done]. destruct x; simplify_eq/=.
  inv_run Hk. by apply insert_conflict in H as [-> H].
Qed.

Lemma clean_guarded_insert user visit link :
  clean (try_except (let! a := _insert_attribution user visit link true in ret (Some a))
    (λ x, match x with PartnerSelfReferralConflict => Some (ret None) | _ => None end)).
Proof.
  intros e w r w' Hw [H|(x & k & w1 & H & Hx & Hk)]%try_Ok.
  - revert H. apply clean_bind; [apply clean_insert|intros; apply clean_ret|done].
  - apply bind_Raise in H as [H|(a & w2 & _ & H)]; [|done]. destruct x; simplify_eq/=. inv_run Hk.
    by apply insert_conflict in H as [-> _].
Qed.
#[export] Hint Resolve clean_guarded_insert : effects.

(** The part shared by activation and the invite registration: insert, pay. *)
Lemma insert_and_pay user visit link a e w w1 u w2 :
  _insert_attribution user visit link true e w = (Ok a, w1) →
  credit_registration_invite_bonus a e w1 = (Ok u, w2) → attributed user (db w) = false →
  attr_user a = user ∧ attributed (attr_user a) (db w) = false ∧
  attributions (db w) !! attr_id a = None ∧
  may_join (db w) (attr_user a) (attr_partner_channel a) ∧
  bonus_paid a (put attributions (attr_id a) a (db w)) (db w2).
Proof.
  intros (<- & Hpc & _ & _ & _ & _ & _ & _ & Hf & _ & Hj & Hdb & Hab)%insert_Ok Hb Hn.
  apply bonus_Ok in Hb. rewrite Hdb in Hb. by rewrite Hpc.
Qed.

Lemma apply_pending_locked_Ok user pending v e w u w' :
  apply_pending_locked user pending v e w = (Ok u, w') → attr_step (db w) (db w').
Proof.
  unfold apply_pending_locked. intros H. inv_run H; eauto with roamkit;
    inv_call lock_visit_Ok as (Hdb & Hab & _); simpl in *;
    try (inv_call guarded_insert_Ok as Hins; simpl in * ).
  - match goal with Hc : credit_registration_invite_bonus _ _ _ = _ |- _ =>
      eapply insert_and_pay in Hc as (_ & Hn & Hf & Hj & Hb); [|exact Hins|by rewrite Hdb] end.
    rewrite Hdb in *. eapply step_insert; [done..|left; apply delete_subseteq|].
    assert (Hp : pendings (db w2) = pendings (db w)); [|by rewrite <- Hp].
    unfold bonus_paid in Hb. destruct (payable c); [|by rewrite Hb].
    destruct Hb as (? & ? & _ & Hb). by apply applied_only_money in Hb as ->.
  - destruct Hins as [-> _]. rewrite Hdb. apply step_same.
  - rewrite Hdb. apply step_drop.
Qed.

(** An insertion that pays no bonus is one step. *)
Lemma insert_step_free user visit link e w a w1 p :
  _insert_attribution user visit link false e w = (Ok a, w1) → attributed user (db w) = false →
  p ⊆ pendings (db w1) → attr_step (db w) ((db w1) <| pendings := p |>).
Proof.
  intros (<- & Hpc & _ & _ & Hreg & _ & _ & _ & Hf & _ & Hj & Hdb & Hab)%insert_Ok Hn Hp.
  rewrite Hdb in *. eapply step_insert; [done|done|by rewrite Hpc| |by left|done].
  unfold bonus_paid, payable. by rewrite Hreg.
Qed.

Lemma db_same_pendings (d : Db) : d <| pendings := pendings d |> = d.
Proof. by destruct d. Qed.

Lemma attribution_new_step (d d' : Db) a p :
  attributed (attr_user a) d = false → attributions d !! attr_id a = None →
  may_join d (attr_user a) (attr_partner_channel a) → attr_registered_via_invite a = false →
  p ⊆ pendings d → d' = (put attributions (attr_id a) a d) <| pendings := p |> → attr_step d d'.
Proof.
  intros. eapply step_insert; [done..| |by left|done]. unfold bonus_paid, payable.
  by replace (attr_registered_via_invite a) with false.
Qed.

(** The instance handed to the operation has the ownership of its row. *)
Definition owned (channel : PartnerChannel) (d : Db) : Prop :=
  ∀ c, channels d !! ch_id channel = Some c → same_ownership c channel = true.

Lemma owned_may_join channel d user :
  owned channel d → outsider d channel user → may_join d user (ch_id channel).
Proof. intros Ho Hout c Hc. by eapply outsider_same; [apply Ho|]. Qed.

Section Flows.
Context (unsign_pending : string → instant → option pk).
Context (R : relation Db) `{!PreOrder R}.
Hypothesis HR : ∀ d d', attr_step d d' → R d d'.

Lemma respects_delete_pending k : respects R (delete_row pendings k).
Proof. apply respects_delete_row; [apply _|]. intros d. apply HR, step_drop. Qed.

Lemma respects_legacy user pending : respects R (_apply_legacy_pending user pending).
Proof.
  unfold _apply_legacy_pending, _current_link, canonical_invite_link.
  pose proof respects_delete_pending as Hdel. solve_outer; auto.
  apply respects_atomic_Ok; [apply _|]. intros e w u w' Hx. apply HR.
  inv_run Hx; eauto with roamkit.
  all: inv_call try_Ok as [Hrun|(x & k & w2 & Hrun & Hh & Hk)];
    [inv_run Hrun; inv_call ensure_Ok as [-> Hout]; simpl in *
    |apply refuses_last in Hrun; [|solve_refuses]; destruct x; simplify_eq/=; inv_run Hk].
  - rewrite Hrun. apply step_same.
  - match goal with |- context [put attributions _ ?a _] =>
      eapply (attribution_new_step (db w) _ a) end;
      simpl; [done|done| |done|apply delete_subseteq|done].
    intros c Hc. by simplify_eq.
Qed.

Lemma respects_apply_pending user : respects R (apply_pending_on_activation user).
Proof.
  unfold apply_pending_on_activation.
  pose proof respects_delete_pending as Hdel. pose proof respects_legacy as Hleg.
  solve_outer; auto.
  apply respects_atomic_Ok; [apply _|]. intros e w u w' Hx. by eapply HR, apply_pending_locked_Ok.
Qed.

Lemma respects_record_pending user signed :
  respects R (record_pending_for_new_user unsign_pending user signed).
Proof.
  unfold record_pending_for_new_user, read_cookie. solve_outer.
  apply respects_atomic_Ok; [apply _|]. intros e w u w' Hx. apply HR. unfold pending_expires_at in Hx.
  inv_run Hx; inv_call lock_visit_Ok as (Hdb & Hab & _); simpl in *;
    [|rewrite Hdb; apply step_same].
  rewrite Hdb in *. match goal with |- context [put pendings _ ?q _] =>
    eapply (step_pending _ _ (<[pend_id q := q]> (pendings (db w)))); [right; exists q|] end; simpl.
  - split_and!; [done| |done]. intros k r Hr E.
    match goal with Hv : pending_verdict _ _ = None |- _ =>
      unfold pending_verdict in Hv; simpl in Hv; split_cases end.
    match goal with Hq : qexists _ (pendings (db w)) = false |- _ =>
      rewrite qexists_false in Hq; specialize (Hq k r Hr) end.
    simpl in *. bool_to_prop. congruence.
  - done.
Qed.

Lemma respects_attribute_created user signed :
  respects R (attribute_created_invite unsign_pending user signed).
Proof.
  unfold attribute_created_invite, read_cookie. solve_outer.
  apply respects_atomic_Ok; [apply _|]. intros e w u w' Hx. apply HR.
  inv_run Hx; eauto with roamkit; inv_call lock_visit_Ok as (Hdb & Hab & _); simpl in *;
    [|rewrite Hdb; apply step_same].
  match goal with Hi : _insert_attribution _ _ _ _ _ _ = _, Hc : credit_registration_invite_bonus _ _ _ = _ |- _ =>
    eapply insert_and_pay in Hc as (_ & Hn & Hf & Hj & Hb); [|exact Hi|by rewrite Hdb] end.
  rewrite Hdb in *. rewrite <- (db_same_pendings (db w')).
  eapply step_insert; [done..|left|done].
  unfold bonus_paid in Hb. destruct (payable _); [|by rewrite Hb].
  destruct Hb as (? & ? & _ & Hb). by apply applied_only_money in Hb as ->.
Qed.

Lemma consume_locked_step user v e w r w' :
  consume_locked user v e w = (Ok r, w') →
  match r with
  | _CREATED => attr_step (db w) (db w')
  | _ => db w' = db w
  end.
Proof.
  unfold consume_locked. intros H. inv_run H; try done;
    inv_call lock_visit_Ok as (Hdb & Hab & _); simpl in *; [|done].
  match goal with Hi : _insert_attribution _ _ _ _ _ _ = (_, ?w1) |- attr_step _ (db ?w1) =>
    rewrite <- (db_same_pendings (db w1)); eapply insert_step_free in Hi; [|by rewrite Hdb|done] end.
  by rewrite <- Hdb.
Qed.

Lemma respects_consume user signed :
  respects R (consume_partner_pending unsign_pending user signed).
Proof.
  unfold consume_partner_pending, read_cookie. solve_outer.
  apply respects_atomic_Ok; [apply _|]. intros e w r w' Hx%consume_locked_step.
  destruct r; [by apply HR|rewrite Hx; reflexivity..].
Qed.
End Flows.

Lemma step_channels d d' :
  attr_step d d' → channels d' = channels d ∧ memberships d' = memberships d.
Proof.
  intros [p _ ->|a d1 p _ _ _ Hb _ ->|k a c _ _ ->]; [done| |done]. simpl.
  unfold bonus_paid in Hb. destruct (payable a); [|by rewrite Hb].
  destruct Hb as (? & ? & _ & Hb). by apply applied_only_money in Hb as ->.
Qed.

Lemma assign_Ok user channel actor e w a w' :
  assign_customer_attribution user channel actor e w = (Ok a, w') → aborted w = false →
  owned channel (db w) →
  a = mkAttribution (attr_id a) user (ch_id channel) SOURCE_ADMIN None false empty_snapshot None
        (attr_attributed_at a) ∧
  attributed user (db w) = false ∧ attributions (db w) !! attr_id a = None ∧
  may_join (db w) user (ch_id channel) ∧ db w' = put attributions (attr_id a) a (db w).
Proof.
  unfold assign_customer_attribution. intros H Hw Ho. inv_run H.
  match goal with Hr : atomic _ _ _ = _ |- _ =>
    apply atomic_clean_Ok in Hr as (w1 & Hr & ->); [|solve_clean|done]; inv_run Hr end.
  inv_call ensure_Ok as [-> Hout]. simpl in *. split_and!; try done.
  by apply owned_may_join.
Qed.

Lemma transfer_Ok user channel e w a w' :
  transfer_customer_attribution user channel e w = (Ok a, w') → aborted w = false →
  owned channel (db w) →
  ∃ k b, attributions (db w) !! k = Some b ∧ attr_user b = user ∧
    a = b <| attr_partner_channel := ch_id channel |> ∧
    (attr_partner_channel b = ch_id channel ∧ db w' = db w ∨
     may_join (db w) user (ch_id channel) ∧
     ∃ row, attributions (db w) !! attr_id b = Some row ∧
       db w' = put attributions (attr_id b) (row <| attr_partner_channel := ch_id channel |>) (db w)).
Proof.
  unfold transfer_customer_attribution, save_partner_channel. intros H Hw Ho.
  apply atomic_clean_Ok in H as (w1 & H & ->);
    [|unfold attribution_save_guard, lock_self_referral_rows; solve_clean|done].
  inv_run H;
    match goal with Hq : qfirst _ _ = Some ?b |- _ =>
      apply qfirst_Some in Hq as (k & Hk & Hb); exists k, b end; bool_to_prop.
  - split_and!; [done..| |by left]. match goal with E : attr_partner_channel _ = _ |- _ => rewrite <- E end.
    match goal with |- ?b = _ => by destruct b end.
  - inv_call lock_rows_Ok as ->. inv_call ensure_Ok as [-> Hout].
    match goal with Hg : attribution_save_guard _ _ _ _ = _ |- _ =>
      unfold attribution_save_guard in Hg; inv_run Hg end. simpl in *.
    split_and!; try done. right. split; [by apply owned_may_join|eauto].
Qed.

(** The user is no customer of the organization's team program. *)
Definition no_customer (user organization : pk) (d : Db) : Prop :=
  ∀ k c j a, channels d !! k = Some c → ch_kind c = TEAM → ch_organization c = Some organization →
    attributions d !! j = Some a → attr_user a = user → attr_partner_channel a ≠ k.

(** What the membership guard has checked. *)
Lemma guard_Ok user organization e w u w' :
  ensure_active_membership_allowed user organization e w = (Ok u, w') →
  (∀ k c, channels (db w) !! k = Some c → ch_id c = k) →
  (∀ j k b c, channels (db w) !! j = Some b → channels (db w) !! k = Some c →
     ch_organization b = Some organization → ch_organization c = Some organization → j = k) →
  w' = w ∧ no_customer user organization (db w).
Proof.
  unfold ensure_active_membership_allowed. intros H Hkeyed Huniq. inv_run H.
  - inv_call lock_rows_Ok as ->. split; [done|].
    intros k c j att Hc Hkind Horg Ha Hu Hpc.
    match goal with Hf : List.find _ _ = Some ?c0 |- _ =>
      apply List.find_some in Hf as [Hin HP] end.
    apply list_elem_of_In, elem_of_rows_by_pk in Hin as [k0 Hk0].
    unfold is_team_channel in HP. bool_to_prop.
    pose proof (Huniq _ _ _ _ Hk0 Hc) as E. rewrite E in Hk0 by done. simplify_eq.
    match goal with Hq : qexists _ _ = false |- _ => rewrite qexists_false in Hq; specialize (Hq j att Ha) end.
    rewrite (Hkeyed _ _ Hc) in *. bool_to_prop. destruct_or?; bool_to_prop; done.
  - split; [done|]. intros k c j att Hc Hkind Horg _ _ _.
    match goal with Hf : List.find _ _ = None |- _ =>
      eapply List.find_none in Hf; [|apply list_elem_of_In, elem_of_rows_by_pk; eauto] end.
    unfold is_team_channel in *. bool_to_prop. destruct_or?; bool_to_prop; done.
Qed.

(** Storing a membership row keeps the invariant if no customer of the team's
    program becomes active by it. *)
Lemma attribution_inv_member d m :
  attribution_inv d →
  (mem_status m = MEM_ACTIVE → no_customer (mem_user m) (mem_organization m) d) →
  attribution_inv (put memberships (mem_id m) m d).
Proof.
  intros Hinv Hm. split; try apply Hinv. simpl. intros k a Ha c Hc. simpl in Hc.
  pose proof (ai_outsider _ Hinv _ _ Ha c Hc) as Hout. unfold outsider in *.
  destruct (ch_kind c) eqn:Ek; [done|]. intros o Ho. specialize (Hout o Ho).
  unfold active_member in *. apply qexists_false. simpl.
  intros j n [[<- <-]|[_ Hn]]%lookup_insert_Some; [|by eapply qexists_false in Hout].
  destruct (N.eqb_spec (mem_organization m) o) as [E|], (N.eqb_spec (mem_user m) (attr_user a)) as [E'|];
    simpl; try done.
  apply bool_decide_eq_false. intros Hact.
  eapply (Hm Hact); [exact Hc|done|congruence|exact Ha|congruence|done].
Qed.

(** An active member is no customer. *)
Lemma active_no_customer d k m :
  attribution_inv d → memberships d !! k = Some m → mem_status m = MEM_ACTIVE →
  no_customer (mem_user m) (mem_organization m) d.
Proof.
  intros Hinv Hm Hact j c i a Hc Hk Ho Ha Hu <-.
  pose proof (ai_outsider _ Hinv _ _ Ha c Hc) as Hout. unfold outsider in Hout. rewrite Hk in Hout.
  specialize (Hout _ Ho). unfold active_member in Hout. rewrite qexists_false in Hout.
  specialize (Hout _ _ Hm). by rewrite N.eqb_refl, Hu, N.eqb_refl, bool_decide_eq_true_2 in Hout.
Qed.

(** ** Properties *)

(** C9: Every flow that writes attributions, registration, activation, invite
    registration, consuming the cookie, assigning and transferring, keeps the
    attribution and ledger invariants however it ends: a user has one
    attribution and one pending row, is never a customer of the program they
    own or are an active member of, and each registration bonus is in the
    ledger once, in full and filed under its attribution. *)
Theorem attribution_system_invariant unsign user u signed channel actor :
  let R := preserves (λ d, owned channel d ∧ attribution_inv d ∧ ledger_inv d) in
  respects R (record_pending_for_new_user unsign u signed) ∧
  respects R (apply_pending_on_activation user) ∧
  respects R (attribute_created_invite unsign user signed) ∧
  respects R (consume_partner_pending unsign user signed) ∧
  respects R (assign_customer_attribution user channel actor) ∧
  respects R (transfer_customer_attribution user channel).
Proof.
  intros R. assert (Hpre : PreOrder R) by apply preserves_preorder.
  assert (HR : ∀ d d', attr_step d d' → R d d').
  { intros d d' Hs (Ho & Ha & Hl). destruct (step_channels _ _ Hs) as [Hc _].
    split_and!; [unfold owned; by rewrite Hc|by eapply attribution_inv_step|by eapply ledger_inv_step]. }
  split_and!; [by apply respects_record_pending|by apply respects_apply_pending
    |by apply respects_attribute_created|by apply respects_consume| |].
  - intros e w [a|x] w' H Hi.
    + destruct (aborted w) eqn:Hw.
      * exfalso. unfold assign_customer_attribution in H. inv_run H.
        match goal with Hr : atomic _ _ _ = _ |- _ =>
          apply atomic_Ok in Hr as (w1 & Hr & _); inv_run Hr end. simpl in *. congruence.
      * destruct (assign_Ok _ _ _ _ _ _ _ H Hw) as (Ha & Hn & Hf & Hj & Hdb); [apply Hi|].
        rewrite Hdb, <- (db_same_pendings (put _ _ _ _)). eapply HR; [|exact Hi].
        destruct a; simpl in *. injection Ha; intros; subst.
        match goal with |- attr_step _ (update _ _ (put attributions _ ?a _)) =>
          by apply (attribution_new_step (db w) _ a (pendings (db w))) end.
    + unfold assign_customer_attribution in H. apply refuses_bind in H; [by rewrite H|solve_respects|].
      intros ?. apply refuses_atomic.
  - intros e w [a|x] w' H Hi.
    + destruct (aborted w) eqn:Hw.
      * exfalso. unfold transfer_customer_attribution in H.
        apply atomic_Ok in H as (w1 & Hrun & _). inv_run Hrun; simpl in *; congruence.
      * destruct (transfer_Ok _ _ _ _ _ _ H Hw) as (k & b & Hk & Hu & -> & Hc); [apply Hi|].
        destruct Hc as [[_ ->]|[Hj (row & Hrow & ->)]]; [done|].
        pose proof (ai_keyed _ (proj1 (proj2 Hi)) _ _ Hk) as <-. simplify_eq.
        eapply HR; [|exact Hi]. by eapply step_move.
    + apply refuses_atomic in H. by rewrite H.
Qed.

(** The click and link are good for an activation. *)
Definition live_click (d : Db) (v : InviteVisit) (l : PartnerInviteLink) : Prop :=
  visits d !! vis_id v = Some v ∧ invite_links d !! vis_invite_link v = Some l ∧
  link_is_active l = true ∧ visit_predates_regeneration v l = false.

Lemma lock_visit_live v l e w :
  live_click (db w) v l → aborted w = false → depth w ≠ 0%nat →
  ∃ w1, _lock_visit (vis_id v) false e w = (Ok (Some (v, l)), w1) ∧ db w1 = db w.
Proof.
  intros (Hv & Hl & Ha & Hp) Hab Hd.
  unfold _lock_visit, validate_invite_visit, visit_and_link, locked_query, query, bind, ret, now.
  rewrite Hab, Hv. simpl. rewrite decide_False by done.
  repeat progress (rewrite ?Hab, ?Hl, ?Hv, ?Ha, ?Hp; simpl). eauto.
Qed.

(** The attribution a click turns into, its bonus paid and the pending row
    gone. *)
Definition registered (user k : pk) (v : InviteVisit) (l : PartnerInviteLink) (d d' : Db) : Prop :=
  ∃ a d1, attr_user a = user ∧ attr_partner_channel a = link_partner_channel l ∧
    attr_source a = INVITE_LINK ∧ attr_invite_link a = Some (link_id l) ∧
    attr_registered_via_invite a = true ∧ attr_bonus_amount_snapshot a = Some (link_bonus_amount l) ∧
    attr_snapshot a = mkSnapshot (Some (vis_id v)) (Some (link_token l)) (link_name l)
      (link_source l) (link_campaign l) (link_content l) (vis_utm_source v) (vis_utm_medium v)
      (vis_utm_campaign v) (vis_utm_content v) ∧
    attributions d !! attr_id a = None ∧
    bonus_paid a (put attributions (attr_id a) a d) d1 ∧ d' = drop pendings k d1 ∧
    (0 < link_bonus_amount l → ∃ en, ledger d' = ledger d ++ [en] ∧
       le_delta en = link_bonus_amount l ∧ le_reference_id en = str (attr_id a)) ∧
    (link_bonus_amount l ≤ 0 → ledger d' = ledger d).

Lemma apply_pending_live user p v l e w u w' :
  apply_pending_locked user p (vis_id v) e w = (Ok u, w') →
  attribution_inv (db w) → pendings (db w) !! pend_id p = Some p →
  pend_invite_visit p = Some (vis_id v) → clock e (tick w) < pend_expires_at p →
  attributed user (db w) = false → depth w ≠ 0%nat → live_click (db w) v l →
  db w' = db w ∧ (∃ c, channels (db w) !! link_partner_channel l = Some c ∧ ¬ outsider (db w) c user) ∨
  registered user (pend_id p) v l (db w) (db w').
Proof.
  intros H Hinv Hp Hpv Ht Hn Hdep Hlive. unfold apply_pending_locked in H.
  apply bind_Ok in H as (usr & w1 & (Hab & _ & ->)%get_locked_Ok & H).
  apply bind_Ok in H as (o & w1 & (_ & -> & ->)%locked_query_Ok & H). rewrite Hp in H.
  apply bind_Ok in H as (t & w1 & [= <- <-] & H).
  rewrite (proj2 (Z.leb_gt _ _)) in H by done.
  apply bind_Ok in H as (b & w1 & (_ & -> & ->)%query_Ok & H). simpl in H. rewrite Hn, Hpv in H.
  destruct (lock_visit_live v l e (w <| tick := S (tick w) |>)) as (w1 & Hl & Hdb1); [done..|].
  rewrite bind_run, Hl in H. simpl in Hdb1.
  apply bind_Ok in H as (r & w2 & Hins%guarded_insert_Ok & H). rewrite Hdb1 in Hins.
  destruct r as [a|]; [right|left; inv_run H; by destruct Hins as [-> ?]].
  apply bind_Ok in H as (u1 & w3 & Hbonus & H). inv_run H.
  pose proof (insert_Ok _ _ _ _ _ _ _ _ Hins)
    as (Hu & Hpc & Hsrc & Hlk & Hreg & Hbon & _ & (l' & Hl' & Hsnap) & _).
  eapply insert_and_pay in Hbonus as (_ & Hna & Hf & _ & Hb); [|exact Hins|by rewrite Hdb1].
  rewrite Hdb1 in *. destruct Hlive as (_ & Hll & _). simplify_eq.
  assert (Hnone : find_entry (bonus_key (attr_user a)) (ledger (db w)) = None).
  { apply find_entry_None. intros (en & Hk & Hin)%list_elem_of_fmap.
    apply eq_sym, (ai_keys _ Hinv _ _ Hin) in Hk. congruence. }
  destruct (bonus_paid_shape _ _ _ Hb Hnone) as [_ Hled]. simpl in Hled.
  exists a, (db w3). split_and!; try done; unfold payable in Hled; rewrite Hreg, Hbon in Hled; simpl.
  - intros Hpos. rewrite (proj2 (Z.ltb_lt _ _)) in Hled by done.
    destruct Hled as (en & -> & ? & _ & ?). by exists en.
  - intros Hneg. by rewrite (proj2 (Z.ltb_ge _ _)) in Hled by done.
Qed.

(** Activation turns a live invite into its attribution in one piece: with
    an unexpired pending row whose click is still good, it either raises and
    leaves the database untouched, or refuses the user's own program and
    leaves the pending row in place, or records the click and link as they
    are, pays the link's bonus with exactly one ledger entry (none when the
    bonus is zero) and removes the pending row. *)
Theorem activation_outcome user p v l e w :
  aborted w = false → attribution_inv (db w) → PARTNER_CHANNEL_ENABLED (settings e) = true →
  pending_of user (db w) = Some p → pend_invite_visit p = Some (vis_id v) →
  clock e (tick w) < pend_expires_at p → clock e (S (tick w)) < pend_expires_at p →
  attributed user (db w) = false → live_click (db w) v l →
  match apply_pending_on_activation user e w with
  | (Raise _, w') => db w' = db w
  | (Ok _, w') =>
      db w' = db w ∧
        (∃ c, channels (db w) !! link_partner_channel l = Some c ∧ ¬ outsider (db w) c user) ∨
      registered user (pend_id p) v l (db w) (db w')
  end.
Proof.
  intros Hab Hinv Hen Hp Hpv Ht1 Ht2 Hn Hlive.
  unfold apply_pending_on_activation. rewrite bind_run. unfold query at 1. rewrite Hab, Hp.
  rewrite bind_run. unfold now at 1. rewrite (proj2 (Z.leb_gt _ _)) by done.
  rewrite bind_run. unfold query at 1. simpl. rewrite Hab, Hn.
  rewrite bind_run. unfold asks at 1. rewrite Hen, Hpv. simpl.
  destruct (atomic _ e _) as [[u|x] w'] eqn:E; [|by apply refuses_atomic in E].
  apply atomic_clean_Ok in E as (w1 & E & ->);
    [|unfold apply_pending_locked; solve_clean|done].
  apply qfirst_Some in Hp as (k & Hk & _). pose proof (ai_pending_keyed _ Hinv _ _ Hk) as <-.
  by apply (apply_pending_live _ _ _ l) in E.
Qed.

(** Consuming the cookie and transferring a customer tell the truth: the
    cookie attributes a user, without any bonus or other movement of money,
    exactly when it reports [created], and writes nothing when it reports
    anything else or raises; a transfer changes the partner channel of the
    user's attribution and nothing else. *)
Theorem consume_and_transfer_outcome unsign user signed channel e w :
  aborted w = false → attribution_inv (db w) → owned channel (db w) →
  match consume_partner_pending unsign user signed e w with
  | (Ok _CREATED, w') => ∃ a, attr_user a = user ∧ attr_registered_via_invite a = false ∧
      attr_bonus_amount_snapshot a = None ∧ attributed user (db w) = false ∧
      may_join (db w) user (attr_partner_channel a) ∧
      db w' = put attributions (attr_id a) a (db w)
  | (_, w') => db w' = db w
  end ∧
  match transfer_customer_attribution user channel e w with
  | (Raise _, w') => db w' = db w
  | (Ok a, w') => ∃ b, attributions (db w) !! attr_id b = Some b ∧ attr_user b = user ∧
      a = b <| attr_partner_channel := ch_id channel |> ∧
      db w' = put attributions (attr_id b) a (db w)
  end.
Proof.
  intros Hab Hinv Ho. split.
  - destruct (consume_partner_pending _ _ _ e w) as [[r|x] w'] eqn:E.
    + unfold consume_partner_pending, read_cookie in E. inv_run E; try done.
      inv_call try_Ok as [Hrun|(x & k & w2 & Hrun & Hx & Hk)].
      * apply atomic_clean_Ok in Hrun as (w1 & Hrun & ->);
          [|unfold consume_locked; solve_clean|done]. simpl in *.
        unfold consume_locked in Hrun. inv_run Hrun; try done;
          inv_call lock_visit_Ok as (Hdb & _ & _); simpl in *; [|done].
        inv_call insert_Ok as (? & Hpc & _ & _ & ? & ? & _ & _ & _ & _ & Hj & Hdb' & _).
        rewrite Hdb in *. eexists. split_and!; [done..| |done]. by rewrite Hpc.
      * apply refuses_atomic in Hrun. destruct x; simplify_eq/=. by inv_run Hk.
    + revert E. apply (refuses_bind (query _)); [solve_respects|]. intros b.
      destruct b; [apply refuses_readonly; solve_respects|]. unfold read_cookie. solve_refuses.
  - destruct (transfer_customer_attribution _ _ e w) as [[a|x] w'] eqn:E;
      [|by apply refuses_atomic in E].
    destruct (transfer_Ok _ _ _ _ _ _ E Hab Ho) as (k & b & Hk & Hu & -> & Hc).
    pose proof (ai_keyed _ Hinv _ _ Hk) as <-. exists b. split_and!; try done.
    destruct Hc as [[Hpc ->]|[_ (row & Hrow & ->)]]; [|by simplify_eq].
    destruct b; simpl in *. subst. destruct w as [[]]; unfold put, update; simpl in *.
    rewrite insert_id; [done|]. done.
Qed.

(** The membership side of the guard is sound: once it has let a user in,
    activating the membership, whatever its role, keeps the attribution
    invariant, so no customer of a team's program becomes one of its
    members. *)
Theorem membership_guard_sound user organization m e w u w' :
  ensure_active_membership_allowed user organization e w = (Ok u, w') →
  attribution_inv (db w) →
  (∀ k c, channels (db w) !! k = Some c → ch_id c = k) →
  (∀ j k b c, channels (db w) !! j = Some b → channels (db w) !! k = Some c →
     ch_organization b = Some organization → ch_organization c = Some organization → j = k) →
  mem_user m = user → mem_organization m = organization →
  db w' = db w ∧ attribution_inv (put memberships (mem_id m) m (db w)).
Proof.
  intros H Hinv Hkeyed Huniq <- <-.
  apply guard_Ok in H as [-> Hguard]; [|done..]. split; [done|].
  by apply attribution_inv_member.
Qed.

(** ** A concrete customer *)

(** User 9 registered through the link of user 8's program, whose bonus is 5. *)
Definition invited_db : Db :=
  invite_db <| users := {[ 8%N := mkUser 8 true "" false; 9%N := mkUser 9 false "" false ]} |>
    <| accounts := {[ 3%N := mkAccount 3 (Some 9%N) PERSONAL 0 0 None ]} |>
    <| invite_links := {[ 50%N := mkInviteLink 50 31 "tok" "" 5000000 "spring" "" "" true (-9) None ]} |>.

Lemma invited_inv : attribution_inv invited_db.
Proof.
  split; simpl; try (intros; by rewrite lookup_empty in *).
  - intros en u Hin. by apply elem_of_nil in Hin.
  - intros k p [<- <-]%lookup_singleton_Some. done.
  - intros j k p q [<- <-]%lookup_singleton_Some [<- <-]%lookup_singleton_Some. done.
Qed.

Lemma activation_outcome_witness :
  ∃ u w', apply_pending_on_activation 9 sample_env (world_of invited_db) = (Ok u, w') ∧
    length (ledger (db w')) = 1%nat.
Proof.
  destruct (apply_pending_on_activation 9 sample_env (world_of invited_db)) as [[u|x] w'] eqn:E;
    [|vm_compute in E; discriminate E].
  exists u, w'. split; [reflexivity|].
  pose proof (activation_outcome 9 (mkPending 52 9 31 "tok" (Some 51%N) 100)
    (mkVisit 51 50 "" "" "" "" (-5)) (mkInviteLink 50 31 "tok" "" 5000000 "spring" "" "" true (-9) None)
    sample_env (world_of invited_db) eq_refl invited_inv eq_refl eq_refl eq_refl eq_refl eq_refl
    eq_refl) as H.
  rewrite E in H. destruct H as [[_ (c & Hc & Hout)]|H]; [split_and!; reflexivity| |].
  - destruct Hout. vm_compute in Hc. injection Hc as <-. discriminate.
  - destruct H as (a & d1 & _ & _ & _ & _ & _ & _ & _ & _ & _ & _ & Hpos & _).
    destruct Hpos as (en & -> & _); reflexivity.
Defined.

Lemma attribution_inv_channels d m :
  attributions d = ∅ → attribution_inv d → attribution_inv (d <| channels := m |>).
Proof.
  intros He []. split; try done. simpl. rewrite He. by intros k a ?%lookup_empty_Some.
Qed.

Lemma consume_and_transfer_outcome_witness :
  ∃ a, attr_user a = 8%N ∧
    db (consume_partner_pending (λ _ _, Some 51%N) 8 (Some "cookie") sample_env
          (world_of (invited_db <| channels := {[ 31%N := team_channel <| ch_id := 31%N |> ]} |>))).2
    = put attributions (attr_id a) a
        (invited_db <| channels := {[ 31%N := team_channel <| ch_id := 31%N |> ]} |>).
Proof.
  pose (d := invited_db <| channels := {[ 31%N := team_channel <| ch_id := 31%N |> ]} |>).
  pose proof (attribution_inv_channels invited_db _ eq_refl invited_inv : attribution_inv d) as Hinv.
  destruct (consume_and_transfer_outcome (λ _ _, Some 51%N) 8 (Some "cookie")
    (team_channel <| ch_id := 31%N |>) sample_env (world_of d) eq_refl Hinv) as [H _].
  { intros c Hc. vm_compute in Hc. injection Hc as <-. reflexivity. }
  destruct (consume_partner_pending _ 8 _ sample_env (world_of d)) as [[[]|x] w'] eqn:E;
    try (vm_compute in E; discriminate E).
  destruct H as (a & Hu & _ & _ & _ & _ & Hdb). exists a. split; [exact Hu|].
  change (invited_db <| channels := {[ 31%N := team_channel <| ch_id := 31%N |> ]} |>) with d.
  rewrite E. exact Hdb.
Defined.

Lemma membership_guard_sound_witness :
  attribution_inv (put memberships 71%N (mkMembership 71 4 9 VIEWER MEM_ACTIVE) invited_db).
Proof.
  destruct (ensure_active_membership_allowed 9 4 sample_env (world_of invited_db)) as [[u|x] w'] eqn:E;
    [|vm_compute in E; discriminate E].
  apply (membership_guard_sound 9 4 (mkMembership 71 4 9 VIEWER MEM_ACTIVE) sample_env
    (world_of invited_db) u w' E invited_inv).
  - simpl. intros k c [<- <-]%lookup_singleton_Some. reflexivity.
  - simpl. intros j k b c [<- <-]%lookup_singleton_Some [<- <-]%lookup_singleton_Some. reflexivity.
  - reflexivity.
  - reflexivity.
Defined.
