(* ===== verification/Memberships.v ===== *)
(** * Organizations, memberships and invites

    [apps/organizations]: [permissions.py], [services/context.py],
    [services/authz.py], [services/account_binding.py],
    [services/membership.py], [services/invites.py] and the constraints of
    [models.py].  Teams, what each role may do, and how people join. *)

From S2P Require Import Prelude Strings Tables Money Models EsimModels World Effects Credit Settlement Margin Grants Invites Attribution.
#[local] Open Scope Z_scope.

(** ** Roles and permissions *)

Record OrgPermissions := mkPermissions {
  can_view : bool;
  can_spend : bool;
  can_manage_members : bool;
  can_invite : bool;
  can_transfer_ownership : bool;
  can_archive_org : bool;
  can_assign_esim : bool;
  can_device_bind : bool;
}.

(** The text of a [MembershipRole]. *)
Definition role_text (r : MembershipRole) : string :=
  match r with OWNER => "owner" | ADMIN => "admin" | MEMBER => "member" | VIEWER => "viewer" end.

Definition _MATRIX : list (string * OrgPermissions) :=
  [(role_text OWNER, mkPermissions true true true true true true true true);
   (role_text ADMIN, mkPermissions true true true true false false true true);
   (role_text MEMBER, mkPermissions true true false false false false true false);
   (role_text VIEWER, mkPermissions true false false false false false false false)].

Definition permissions_for_role (role : string) : Res OrgPermissions :=
  match List.find (λ row, bool_decide (row.1 = role)) _MATRIX with
  | Some (_, p) => Ok p
  | None => Raise (ValueError ("Unknown membership role: " +:+ role))
  end.

(** ** Table constraints *)

Definition org_verdict (d : Db) (o : Organization) : option Exn :=
  if qexists (λ p, negb (org_id p =? org_id o)%N && (org_account p =? org_account o)%N)
       (organizations d)
  then Some IntegrityError else None.

Definition active_owner (organization : pk) (m : Membership) : bool :=
  (mem_organization m =? organization)%N && bool_decide (mem_role m = OWNER) &&
  bool_decide (mem_status m = MEM_ACTIVE).

Definition membership_of (organization user : pk) (m : Membership) : bool :=
  (mem_organization m =? organization)%N && (mem_user m =? user)%N.

Definition membership_clash (m n : Membership) : bool :=
  membership_of (mem_organization m) (mem_user m) n ||
  active_owner (mem_organization m) m && active_owner (mem_organization m) n.

Definition membership_verdict (d : Db) (m : Membership) : option Exn :=
  if qexists (λ n, negb (mem_id n =? mem_id m)%N && membership_clash m n) (memberships d)
  then Some IntegrityError else None.

Definition pending_for (organization : pk) (email : string) (i : OrganizationInvite) : bool :=
  (inv_organization i =? organization)%N && bool_decide (inv_email_normalized i = email) &&
  bool_decide (inv_status i = INV_PENDING).

Definition invite_clash (i j : OrganizationInvite) : bool :=
  bool_decide (inv_token_hash j = inv_token_hash i) ||
  bool_decide (inv_status i = INV_PENDING) &&
  pending_for (inv_organization i) (inv_email_normalized i) j.

Definition invite_verdict (d : Db) (i : OrganizationInvite) : option Exn :=
  if bool_decide (inv_role i = OWNER) ||
     qexists (λ j, negb (inv_id j =? inv_id i)%N && invite_clash i j) (organization_invites d)
  then Some IntegrityError else None.

(** ** Account context *)

Record AccountContext := mkContext {
  ctx_kind : string;
  ctx_account : Account;
  ctx_organization : option Organization;
  ctx_membership : option Membership;
  ctx_role : option MembershipRole;
  ctx_permissions : option OrgPermissions;
}.

Definition resolve_personal_context (user : pk) : M AccountContext :=
  let! account := ensure_billing_account user in
  ret (mkContext "personal" account None None None None).

(** [select_related("account").get(pk=...)] *)
Definition organization_with_account (organization : pk) (d : Db)
    : option (Organization * Account) :=
  match organizations d !! organization with
  | Some o => match accounts d !! org_account o with Some a => Some (o, a) | None => None end
  | None => None
  end.

Definition resolve_organization_context (user organization_id : pk) : M AccountContext :=
  let! found_ := query (organization_with_account organization_id) in
  match found_ with
  | None => raise NotFound
  | Some (org, account) =>
      let! membership := query (λ d, qfirst (membership_of (org_id org) user) (memberships d)) in
      match membership with
      | None => raise NotFound
      | Some m =>
          raise_if (negb (bool_decide (mem_status m = MEM_ACTIVE))) PermissionDenied;;;
          let! permissions := lift (permissions_for_role (role_text (mem_role m))) in
          ret (mkContext "organization" account (Some org) (Some m) (Some (mem_role m))
                 (Some permissions))
      end
  end.

Definition require_org_mutation (context : AccountContext) : M unit :=
  match ctx_organization context with
  | None => raise PermissionDenied
  | Some org => raise_if (negb (bool_decide (org_status org = ORG_ACTIVE))) PermissionDenied
  end.

Definition resolve_account_context (user : pk) (organization_id : option pk) : M AccountContext :=
  match organization_id with
  | None => resolve_personal_context user
  | Some o => resolve_organization_context user o
  end.

(** [assert x is not None] *)
Definition asserted {A} (o : option A) : M A :=
  match o with Some a => ret a | None => raise AssertionError end.

(** ** Authorization gates *)

(** A permission is named by the field that holds it. *)
Definition require_permission (context : AccountContext) (permission : OrgPermissions → bool)
    : M unit :=
  match ctx_permissions context with
  | None => raise PermissionDenied
  | Some p => raise_if (negb (permission p)) PermissionDenied
  end.

Definition require_view (context : AccountContext) : M unit :=
  require_permission context can_view.
Definition require_spend (context : AccountContext) : M unit :=
  require_org_mutation context;;; require_permission context can_spend.
Definition require_assign_esim (context : AccountContext) : M unit :=
  require_org_mutation context;;; require_permission context can_assign_esim.
Definition require_manage_members (context : AccountContext) : M unit :=
  require_org_mutation context;;; require_permission context can_manage_members.
Definition require_transfer_ownership (context : AccountContext) : M unit :=
  require_org_mutation context;;; require_permission context can_transfer_ownership.
Definition require_archive_org (context : AccountContext) : M unit :=
  require_org_mutation context;;; require_permission context can_archive_org.
Definition require_invite (context : AccountContext) : M unit :=
  require_org_mutation context;;; require_permission context can_invite.
Definition require_device_bind (context : AccountContext) : M unit :=
  require_org_mutation context;;; require_permission context can_device_bind.

(** What an ordering or top-up view does before it spends. *)
Definition spending_context (user : pk) (organization_id : option pk) : M AccountContext :=
  let! context := resolve_account_context user organization_id in
  (if bool_decide (ctx_kind context = "organization") then require_spend context else ret tt);;;
  ret context.

(** ** Creating an organization *)

Definition create_organization (name : string) (actor : pk) (status : OrganizationStatus)
    : M Organization :=
  atomic (
    let trimmed := strip name in
    raise_if (bool_decide (trimmed = "")) (ValueError "Organization name is required.");;;
    let! account_id := uuid4 in
    create accounts new_account_verdict account_id
      (mkAccount account_id None ORGANIZATION 0 0 None);;;
    let! org_id := uuid4 in
    let org := mkOrganization org_id trimmed status account_id in
    create organizations org_verdict org_id org;;;
    let! mem_id := uuid4 in
    create memberships membership_verdict mem_id (mkMembership mem_id org_id actor OWNER MEM_ACTIVE);;;
    ret org).

(** ** Membership mutations *)

(** [_reject_attributed_member], and [_reject_self_referral_membership] of the
    invites. *)
Definition _reject_attributed_member (user : pk) (organization : Organization) : M unit :=
  try_except (ensure_active_membership_allowed user (org_id organization)) (λ x,
    match x with PartnerSelfReferralConflict => Some (raise InviteConflictError) | _ => None end).

Definition _active_owner_count (organization : pk) (d : Db) : nat :=
  qcount (active_owner organization) (memberships d).

Definition locked_membership (organization user : pk) : M (option Membership) :=
  locked_query (λ d, qfirst (membership_of organization user) (memberships d)).

Definition save_membership (m : Membership) (f : Membership → Membership) : M Membership :=
  save_fields memberships membership_verdict (mem_id m) f;;;
  ret (f m).

Definition active_row (m : Membership) : bool := bool_decide (mem_status m = MEM_ACTIVE).

Definition transfer_ownership (actor organization_id new_owner : pk) : M Membership :=
  atomic (
    let! ctx := resolve_organization_context actor organization_id in
    require_transfer_ownership ctx;;;
    let! org := asserted (ctx_organization ctx) in
    let! mine := asserted (ctx_membership ctx) in
    _reject_attributed_member new_owner org;;;
    let! target := locked_membership (org_id org) new_owner in
    match target with
    | None => raise NotAllowedError
    | Some target =>
        raise_if (negb (active_row target)) NotAllowedError;;;
        let! actor_membership := get_locked memberships (mem_id mine) in
        raise_if (negb (bool_decide (mem_role actor_membership = OWNER))) NotAllowedError;;;
        if (mem_id target =? mem_id actor_membership)%N then ret actor_membership
        else
          let! _ := save_membership actor_membership (λ m, m <| mem_role := ADMIN |>) in
          save_membership target (λ m, m <| mem_role := OWNER |>)
    end).

(** The roles a member may be given by [set_member_role] and an invite. *)
Definition grantable_role (role : string) : option MembershipRole :=
  List.find (λ r, bool_decide (role_text r = role)) [ADMIN; MEMBER; VIEWER].

Definition set_member_role (actor organization_id target_user : pk) (role : string)
    : M Membership :=
  atomic (
    raise_if (bool_decide (role = role_text OWNER)) NotAllowedError;;;
    let! ctx := resolve_organization_context actor organization_id in
    require_manage_members ctx;;;
    let! org := asserted (ctx_organization ctx) in
    _reject_attributed_member target_user org;;;
    let! target := locked_membership (org_id org) target_user in
    match target with
    | None => raise NotAllowedError
    | Some target =>
        raise_if (negb (active_row target)) NotAllowedError;;;
        raise_if (bool_decide (mem_role target = OWNER)) NotAllowedError;;;
        match grantable_role role with
        | None => raise NotAllowedError
        | Some r => save_membership target (λ m, m <| mem_role := r |>)
        end
    end).

Definition revoke_membership (actor organization_id target_user : pk) : M Membership :=
  atomic (
    let! ctx := resolve_organization_context actor organization_id in
    require_manage_members ctx;;;
    let! org := asserted (ctx_organization ctx) in
    let! target := locked_membership (org_id org) target_user in
    match target with
    | None => raise NotAllowedError
    | Some target =>
        if bool_decide (mem_status target = MEM_REVOKED) then ret target
        else
          (if bool_decide (mem_role target = OWNER) && active_row target then
             let! owners := query (_active_owner_count (org_id org)) in
             raise_if (owners <=? 1)%nat LastOwnerError;;;
             raise_if (negb (bool_decide (ctx_role ctx = Some OWNER))) NotAllowedError
           else ret tt);;;
          save_membership target (λ m, m <| mem_status := MEM_REVOKED |>)
    end).

(** The text of an [OrganizationStatus], read back. *)
Definition status_of_text (status : string) : option OrganizationStatus :=
  if bool_decide (status = "active") then Some ORG_ACTIVE
  else if bool_decide (status = "suspended") then Some ORG_SUSPENDED
  else if bool_decide (status = "archived") then Some ORG_ARCHIVED
  else None.

Definition set_organization_status (actor organization_id : pk) (status : string)
    : M Organization :=
  atomic (
    match status_of_text status with
    | None => raise NotAllowedError
    | Some s =>
        let! ctx := resolve_organization_context actor organization_id in
        let! org := asserted (ctx_organization ctx) in
        (if bool_decide (org_status org = ORG_ACTIVE) then require_archive_org ctx
         else raise_if (negb (bool_decide (ctx_role ctx = Some OWNER))) NotAllowedError);;;
        save_fields organizations org_verdict (org_id org) (λ o, o <| org_status := s |>);;;
        ret (org <| org_status := s |>)
    end).

(** ** Invites *)

Section Invites.
(** [hashlib.sha256(raw_token.encode("utf-8")).hexdigest()] *)
Context (_hash_token : string → string).

Definition normalize_invite_email (email : string) : string := lower (strip email).

(** [timedelta(seconds=...)] *)
Definition _invite_ttl (s : Settings) : Z := ORGANIZATION_INVITE_TTL_SECONDS s * 1000000.

(** [email__iexact] *)
Definition iexact (a b : string) : bool := bool_decide (upper a = upper b).

Definition user_with_email (email : string) (d : Db) : option User :=
  List.find (λ u, iexact (user_email u) email) (rows_by_pk (users d)).

(** An active member of the organization whose user has that e-mail. *)
Definition member_with_email (organization : pk) (email : string) (d : Db) (m : Membership) : bool :=
  (mem_organization m =? organization)%N && active_row m &&
  match users d !! mem_user m with Some u => iexact (user_email u) email | None => false end.

Record InviteCreateResult := mkInviteCreated {
  icr_invite : OrganizationInvite;
  icr_raw_token : string;
  icr_created : bool;
}.

(** The columns a second create writes. *)
Definition refresh_invite (email : string) (role : MembershipRole) (token_hash : string)
    (expires_at : instant) (actor : pk) (i : OrganizationInvite) : OrganizationInvite :=
  i <| inv_email := strip email |> <| inv_role := role |> <| inv_token_hash := token_hash |>
    <| inv_expires_at := expires_at |> <| inv_invited_by := actor |>.

Definition create_invite (actor organization_id : pk) (email role : string)
    : M InviteCreateResult :=
  atomic (
    match grantable_role role with
    | None => raise NotAllowedError
    | Some r =>
        let! ctx := resolve_organization_context actor organization_id in
        require_invite ctx;;;
        let! org := asserted (ctx_organization ctx) in
        raise_if (negb (bool_decide (org_status org = ORG_ACTIVE))) NotAllowedError;;;
        let email_normalized := normalize_invite_email email in
        raise_if (bool_decide (email_normalized = "")) NotAllowedError;;;
        let! known_user := query (user_with_email email_normalized) in
        match known_user with
        | Some u => _reject_attributed_member (user_id u) org
        | None => ret tt
        end;;;
        let! existing := query (λ d,
          qexists (member_with_email (org_id org) email_normalized d) (memberships d)) in
        raise_if existing InviteConflictError;;;
        let! now_ := now in
        let! ttl := asks _invite_ttl in
        let expires_at := now_ + ttl in
        let! raw_token := draw in
        let token_hash := _hash_token raw_token in
        let! pending := locked_query (λ d,
          qfirst (pending_for (org_id org) email_normalized) (organization_invites d)) in
        match pending with
        | Some p =>
            let f := refresh_invite email r token_hash expires_at actor in
            save_fields organization_invites invite_verdict (inv_id p) f;;;
            ret (mkInviteCreated (f p) raw_token false)
        | None =>
            let! id := uuid4 in
            let i := mkInvite id (org_id org) (strip email) email_normalized r INV_PENDING
                       token_hash expires_at actor None None None in
            create organization_invites invite_verdict id i;;;
            ret (mkInviteCreated i raw_token true)
        end
    end).

Definition revoke_invite (actor organization_id invite_id : pk) : M OrganizationInvite :=
  atomic (
    let! ctx := resolve_organization_context actor organization_id in
    require_invite ctx;;;
    let! org := asserted (ctx_organization ctx) in
    let! invite := locked_query (λ d,
      qfirst (λ i, (inv_id i =? invite_id)%N && (inv_organization i =? org_id org)%N)
        (organization_invites d)) in
    match invite with
    | None => raise NotFound
    | Some i =>
        if negb (bool_decide (inv_status i = INV_PENDING)) then ret i
        else
          let! t := now in
          let f := λ i, i <| inv_status := INV_REVOKED |> <| inv_revoked_at := Some t |> in
          save_fields organization_invites invite_verdict (inv_id i) f;;;
          ret (f i)
    end).

Record InviteAcceptResult := mkInviteAccepted {
  iar_membership : Membership;
  iar_invite : OrganizationInvite;
  iar_already_accepted : bool;
}.

(** The invite of a token, with its organization. *)
Definition invite_by_token (token_hash : string) (d : Db)
    : option (OrganizationInvite * Organization) :=
  match qfirst (λ i, bool_decide (inv_token_hash i = token_hash)) (organization_invites d) with
  | Some i => match organizations d !! inv_organization i with Some o => Some (i, o) | None => None end
  | None => None
  end.

(** [Membership.objects.get_or_create(...)] *)
Definition get_or_create_membership (organization user : pk) (role : MembershipRole)
    : M Membership :=
  let! found_ := query (λ d, qfirst (membership_of organization user) (memberships d)) in
  match found_ with
  | Some m => ret m
  | None =>
      try_except
        (atomic (
          let! id := uuid4 in
          let m := mkMembership id organization user role MEM_ACTIVE in
          create memberships membership_verdict id m;;;
          ret m))
        (on_integrity_error (
          let! again := query (λ d, qfirst (membership_of organization user) (memberships d)) in
          match again with Some m => ret m | None => raise IntegrityError end))
  end.

(** Joining: the membership is active with the invite's role, the invite is
    spent. *)
Definition join_organization (actor : pk) (invite : OrganizationInvite) (now_ : instant)
    : M InviteAcceptResult :=
  let! membership := get_or_create_membership (inv_organization invite) actor (inv_role invite) in
  let f := λ m, m <| mem_status := MEM_ACTIVE |> <| mem_role := inv_role invite |> in
  let! membership :=
    (if negb (active_row membership) || negb (bool_decide (mem_role membership = inv_role invite))
     then save_membership membership f else ret membership) in
  let g := λ i, i <| inv_status := INV_ACCEPTED |> <| inv_accepted_by := Some actor |>
                  <| inv_accepted_at := Some now_ |> in
  save_fields organization_invites invite_verdict (inv_id invite) g;;;
  ret (mkInviteAccepted membership (g invite) false).

(** The [with transaction.atomic()] block; [None] when it falls through with an
    expired invite. *)
Definition accept_locked (actor : pk) (token_hash : string) : M (option InviteAcceptResult) :=
  let! user := get_locked users actor in
  let! found_ := locked_query (invite_by_token token_hash) in
  match found_ with
  | None => raise InviteInvalidError
  | Some (invite, organization) =>
      let! now_ := now in
      match inv_status invite with
      | INV_ACCEPTED =>
          if bool_decide (inv_accepted_by invite = Some actor) then
            let! m := query (λ d,
              qfirst (membership_of (inv_organization invite) actor) (memberships d)) in
            let! m := found m in
            ret (Some (mkInviteAccepted m invite true))
          else raise InviteInvalidError
      | INV_REVOKED => raise InviteInvalidError
      | INV_EXPIRED => ret None
      | INV_PENDING =>
          if inv_expires_at invite <=? now_ then
            save_fields organization_invites invite_verdict (inv_id invite)
              (λ i, i <| inv_status := INV_EXPIRED |>);;;
            ret None
          else
            raise_if (negb (bool_decide (org_status organization = ORG_ACTIVE))) InviteInvalidError;;;
            raise_if (negb (bool_decide
              (normalize_invite_email (user_email user) = inv_email_normalized invite)))
              InviteInvalidError;;;
            _reject_attributed_member actor organization;;;
            let! joined := join_organization actor invite now_ in
            ret (Some joined)
      end
  end.

Definition accept_invite (actor : pk) (raw_token : string) : M InviteAcceptResult :=
  raise_if (bool_decide (strip raw_token = "")) InviteInvalidError;;;
  let token_hash := _hash_token (strip raw_token) in
  let! outcome := atomic (accept_locked actor token_hash) in
  match outcome with
  | Some r => ret r
  | None => raise InviteInvalidError
  end.

(** Without the ordering by [created_at]. *)
Definition list_pending_invites (actor organization_id : pk) : M (list OrganizationInvite) :=
  let! ctx := resolve_organization_context actor organization_id in
  require_invite ctx;;;
  let! org := asserted (ctx_organization ctx) in
  query (λ d, qall (λ i, (inv_organization i =? org_id org)%N &&
                         bool_decide (inv_status i = INV_PENDING)) (organization_invites d)).
End Invites.

(** ** The contract

    What a team's data promises, and the only ways a call may change it. *)

(** The tables' keys and references. *)
Record team_keys (d : Db) : Prop := {
  tk_org : ∀ k o, organizations d !! k = Some o → org_id o = k;
  tk_mem : ∀ k m, memberships d !! k = Some m → mem_id m = k;
  tk_inv : ∀ k i, organization_invites d !! k = Some i → inv_id i = k;
  tk_mem_org : ∀ k m, memberships d !! k = Some m → is_Some (organizations d !! mem_organization m);
  tk_inv_org : ∀ k i, organization_invites d !! k = Some i →
    is_Some (organizations d !! inv_organization i);
  tk_channel : ∀ k c, channels d !! k = Some c → ch_id c = k;
  tk_channel_org : ∀ k c o, channels d !! k = Some c → ch_organization c = Some o →
    is_Some (organizations d !! o);
  tk_channel_unique : ∀ j k b c o, channels d !! j = Some b → channels d !! k = Some c →
    ch_organization b = Some o → ch_organization c = Some o → j = k;
  tk_email : ∀ k u, users d !! k = Some u → strip (user_email u) = user_email u;
}.

(** Exactly one active owner. *)
Definition one_owner (d : Db) (organization : pk) : Prop :=
  ∃ k m, memberships d !! k = Some m ∧ active_owner organization m = true ∧
    ∀ j n, memberships d !! j = Some n → active_owner organization n = true → j = k.

(** An account of its own, with no user. *)
Definition dedicated_account (d : Db) (o : Organization) : Prop :=
  (∃ a, accounts d !! org_account o = Some a ∧ acc_kind a = ORGANIZATION ∧ acc_user a = None) ∧
  ∀ k p, organizations d !! k = Some p → org_account p = org_account o → k = org_id o.

Record team_core (d : Db) : Prop := {
  tc_keys : team_keys d;
  tc_unique : ∀ j k m n, memberships d !! j = Some m → memberships d !! k = Some n →
    mem_organization m = mem_organization n → mem_user m = mem_user n → j = k;
  tc_account : ∀ k o, organizations d !! k = Some o → dedicated_account d o;
  tc_role : ∀ k i, organization_invites d !! k = Some i → inv_role i ≠ OWNER;
  tc_token : ∀ j k i i', organization_invites d !! j = Some i → organization_invites d !! k = Some i' →
    inv_token_hash i = inv_token_hash i' → j = k;
  tc_pending : ∀ j k i i', organization_invites d !! j = Some i → organization_invites d !! k = Some i' →
    inv_organization i = inv_organization i' → inv_email_normalized i = inv_email_normalized i' →
    inv_status i = INV_PENDING → inv_status i' = INV_PENDING → j = k;
  (** Nobody who is already in is invited. *)
  tc_stranger : ∀ j k i m u, organization_invites d !! j = Some i → memberships d !! k = Some m →
    inv_status i = INV_PENDING → mem_organization m = inv_organization i → active_row m = true →
    users d !! mem_user m = Some u → normalize_invite_email (user_email u) ≠ inv_email_normalized i;
}.

Definition owners (d : Db) : Prop :=
  ∀ k o, organizations d !! k = Some o → one_owner d k.

Definition team_inv (d : Db) : Prop := team_core d ∧ owners d.

(** The actor is an active member of an active organization, in a role with the
    permission. *)
Definition acts (actor : pk) (permission : OrgPermissions → bool) (o : Organization)
    (m : Membership) (d : Db) : Prop :=
  organizations d !! org_id o = Some o ∧ memberships d !! mem_id m = Some m ∧
  mem_organization m = org_id o ∧ mem_user m = actor ∧ active_row m = true ∧
  org_status o = ORG_ACTIVE ∧
  ∃ p, permissions_for_role (role_text (mem_role m)) = Ok p ∧ permission p = true.

(** The row of a member of [o]. *)
Definition member_row (o : Organization) (user : pk) (t : Membership) (d : Db) : Prop :=
  memberships d !! mem_id t = Some t ∧ mem_organization t = org_id o ∧ mem_user t = user.

Definition put_member (m : Membership) : Db → Db := put memberships (mem_id m) m.
Definition put_invite (i : OrganizationInvite) : Db → Db := put organization_invites (inv_id i) i.

(** The membership a person joining gets: their row made active in the role, or
    a new one. *)
Definition joining (o user : pk) (role : MembershipRole) (m : Membership) (d : Db) : Prop :=
  mem_organization m = o ∧ mem_user m = user ∧ mem_role m = role ∧ active_row m = true ∧
  match memberships d !! mem_id m with
  | Some t => mem_organization t = o ∧ mem_user t = user
  | None => ∀ k n, memberships d !! k = Some n → membership_of o user n = false
  end.

Inductive team_step (actor : pk) (d : Db) : Db → Prop :=
  | team_founded name s o m :
      strip name ≠ "" → org_name o = strip name → org_status o = s →
      accounts d !! org_account o = None → organizations d !! org_id o = None →
      memberships d !! mem_id m = None →
      (∀ k p, organizations d !! k = Some p → org_account p ≠ org_account o) →
      mem_organization m = org_id o → mem_user m = actor → mem_role m = OWNER → active_row m = true →
      team_step actor d (put_member m (put organizations (org_id o) o
        (put accounts (org_account o) (mkAccount (org_account o) None ORGANIZATION 0 0 None) d)))
  | team_handed_over o m t :
      acts actor can_transfer_ownership o m d → mem_role m = OWNER →
      member_row o (mem_user t) t d → active_row t = true → mem_id t ≠ mem_id m →
      team_step actor d (put_member (t <| mem_role := OWNER |>)
        (put_member (m <| mem_role := ADMIN |>) d))
  | team_role_set o m t r :
      acts actor can_manage_members o m d → member_row o (mem_user t) t d → active_row t = true →
      mem_role t ≠ OWNER → r ≠ OWNER →
      team_step actor d (put_member (t <| mem_role := r |>) d)
  | team_revoked o m t :
      acts actor can_manage_members o m d → member_row o (mem_user t) t d →
      active_owner (org_id o) t = false →
      team_step actor d (put_member (t <| mem_status := MEM_REVOKED |>) d)
  | team_status_set o m s :
      organizations d !! org_id o = Some o → member_row o actor m d → active_row m = true →
      mem_role m = OWNER →
      team_step actor d (put organizations (org_id o) (o <| org_status := s |>) d)
  | team_invited o m i :
      acts actor can_invite o m d → organization_invites d !! inv_id i = None →
      inv_organization i = org_id o → inv_status i = INV_PENDING → inv_role i ≠ OWNER →
      inv_email_normalized i = normalize_invite_email (inv_email i) →
      inv_email_normalized i ≠ "" → inv_invited_by i = actor →
      (∀ k n, memberships d !! k = Some n →
         member_with_email (org_id o) (inv_email_normalized i) d n = false) →
      (∀ k j, organization_invites d !! k = Some j → invite_clash i j = false) →
      team_step actor d (put_invite i d)
  | team_reinvited o m i email r hash t :
      acts actor can_invite o m d → organization_invites d !! inv_id i = Some i →
      inv_organization i = org_id o → inv_status i = INV_PENDING → r ≠ OWNER →
      inv_email_normalized i = normalize_invite_email email →
      (∀ k j, organization_invites d !! k = Some j → inv_token_hash j = hash → k = inv_id i) →
      team_step actor d (put_invite (refresh_invite email r hash t actor i) d)
  | team_uninvited o m i t :
      acts actor can_invite o m d → organization_invites d !! inv_id i = Some i →
      inv_organization i = org_id o → inv_status i = INV_PENDING →
      team_step actor d
        (put_invite (i <| inv_status := INV_REVOKED |> <| inv_revoked_at := Some t |>) d)
  | team_joined u o i m t :
      users d !! actor = Some u → normalize_invite_email (user_email u) = inv_email_normalized i →
      organization_invites d !! inv_id i = Some i → inv_status i = INV_PENDING →
      t < inv_expires_at i → organizations d !! inv_organization i = Some o →
      org_status o = ORG_ACTIVE → no_customer actor (inv_organization i) d →
      joining (inv_organization i) actor (inv_role i) m d →
      team_step actor d (put_invite (i <| inv_status := INV_ACCEPTED |> <| inv_accepted_by := Some actor |>
        <| inv_accepted_at := Some t |>) (put_member m d))
  | team_expired i t :
      organization_invites d !! inv_id i = Some i → inv_status i = INV_PENDING →
      inv_expires_at i ≤ t →
      team_step actor d (put_invite (i <| inv_status := INV_EXPIRED |>) d).

(** ** Steps keep the promise *)

Lemma upper_lower s : upper (lower s) = upper s.
Proof.
  unfold upper, lower. induction s as [|c s IH]; simpl; [done|]. rewrite IH.
  f_equal. destruct c as [[] [] [] [] [] [] [] []]; vm_compute; reflexivity.
Qed.

Lemma normalized_iexact u email d k :
  team_keys d → users d !! k = Some u → normalize_invite_email (user_email u) = email →
  iexact (user_email u) email = true.
Proof.
  intros Hk Hu <-. unfold iexact, normalize_invite_email. apply bool_decide_eq_true.
  by rewrite (tk_email _ Hk _ _ Hu), upper_lower.
Qed.

Lemma active_owner_spec o m :
  active_owner o m = true ↔ mem_organization m = o ∧ mem_role m = OWNER ∧ active_row m = true.
Proof.
  unfold active_owner, active_row. rewrite !andb_true_iff, N.eqb_eq, bool_decide_eq_true. tauto.
Qed.

Lemma membership_of_spec o user m :
  membership_of o user m = true ↔ mem_organization m = o ∧ mem_user m = user.
Proof. unfold membership_of. by rewrite andb_true_iff, !N.eqb_eq. Qed.

Lemma core_account d a :
  accounts d !! acc_id a = None → team_core d → team_core (put accounts (acc_id a) a d).
Proof.
  intros Hn Hc. split; try apply Hc.
  - destruct Hc as [[]]. by split.
  - intros k o Ho. destruct (tc_account _ Hc k o Ho) as [(b & Hb & Hk & Hu) Hinj]. split; [|done].
    exists b. split; [|done]. simpl. rewrite lookup_insert_ne; [done|congruence].
Qed.

Lemma core_new_org d o a :
  organizations d !! org_id o = None → accounts d !! org_account o = Some a →
  acc_kind a = ORGANIZATION → acc_user a = None →
  (∀ k p, organizations d !! k = Some p → org_account p ≠ org_account o) →
  team_core d → team_core (put organizations (org_id o) o d).
Proof.
  intros Hn Ha Hk Hu Hfresh Hc. split; try apply Hc.
  - destruct Hc as [[]]. split; simpl; try done; intros;
      try (apply lookup_insert_is_Some'; right; by eauto).
    match goal with H : <[_:=_]> _ !! _ = Some _ |- _ => apply lookup_insert_Some in H as [[<- <-]|[_ ?]] end;
      eauto.
  - simpl. intros k p [[<- <-]|[_ Hp]]%lookup_insert_Some; (split; [|simpl]).
    + by exists a.
    + intros j q [[<- <-]|[_ Hq]]%lookup_insert_Some E; [done|]. by destruct (Hfresh _ _ Hq).
    + apply (tc_account _ Hc _ _ Hp).
    + intros j q [[<- <-]|[_ Hq]]%lookup_insert_Some E; [by destruct (Hfresh _ _ Hp)|].
      by eapply (tc_account _ Hc _ _ Hp).
Qed.

Lemma core_org_status d o s :
  organizations d !! org_id o = Some o → team_core d →
  team_core (put organizations (org_id o) (o <| org_status := s |>) d).
Proof.
  intros Ho Hc. split; try apply Hc.
  - destruct Hc as [[]]. split; simpl; try done; intros;
      try (apply lookup_insert_is_Some'; right; by eauto).
    match goal with H : <[_:=_]> _ !! _ = Some _ |- _ => apply lookup_insert_Some in H as [[<- <-]|[_ ?]] end;
      eauto.
  - assert (Hinj : ∀ k p j q, organizations d !! k = Some p → 
      <[org_id o := o <| org_status := s |>]> (organizations d) !! j = Some q →
      org_account q = org_account p → j = org_id p).
    { intros k p j q Hp [[<- <-]|[_ Hq]]%lookup_insert_Some; intros E;
        by eapply (tc_account _ Hc _ _ Hp). }
    simpl. intros k p [[<- <-]|[_ Hp]]%lookup_insert_Some; split;
      try apply (tc_account _ Hc _ _ Ho); try apply (tc_account _ Hc _ _ Hp);
      intros j q Hq E; [by eapply (Hinj _ o)|by eapply (Hinj _ p)].
Qed.

Lemma core_member d m :
  is_Some (organizations d !! mem_organization m) →
  (∀ k n, memberships d !! k = Some n → mem_organization n = mem_organization m →
     mem_user n = mem_user m → k = mem_id m) →
  (∀ u j i, active_row m = true → users d !! mem_user m = Some u →
     organization_invites d !! j = Some i → inv_status i = INV_PENDING →
     inv_organization i = mem_organization m →
     normalize_invite_email (user_email u) ≠ inv_email_normalized i) →
  team_core d → team_core (put_member m d).
Proof.
  intros Ho Hu Hs Hc. split; try apply Hc.
  - destruct Hc as [[]]. split; simpl; try done; intros k n [[<- <-]|[_ Hn]]%lookup_insert_Some; eauto.
  - simpl. intros j k a b [[<- <-]|[_ Ha]]%lookup_insert_Some [[<- <-]|[_ Hb]]%lookup_insert_Some E1 E2;
      [done|symmetry; by eapply Hu|by eapply Hu|by eapply (tc_unique _ Hc)].
  - simpl. intros j k i n u Hi [[<- <-]|[_ Hn]]%lookup_insert_Some; intros; [|by eapply (tc_stranger _ Hc)].
    by eapply Hs.
Qed.

(** A row that stays the same person's keeps the core. *)
Lemma core_member_again d m t :
  memberships d !! mem_id m = Some t → mem_organization t = mem_organization m →
  mem_user t = mem_user m → (active_row m = true → active_row t = true) →
  team_core d → team_core (put_member m d).
Proof.
  intros Ht E1 E2 Ha Hc. apply core_member; [..|done].
  - rewrite <- E1. by eapply (tk_mem_org _ (tc_keys _ Hc)).
  - intros k n Hn ? ?. eapply (tc_unique _ Hc); [done..| |]; congruence.
  - intros u j i Hm Hu Hi Hp Ho. rewrite <- E2 in Hu. eapply (tc_stranger _ Hc); [done..| |by auto|done].
    congruence.
Qed.

Lemma core_invite d i :
  is_Some (organizations d !! inv_organization i) → inv_role i ≠ OWNER →
  (∀ k j, organization_invites d !! k = Some j → inv_token_hash j = inv_token_hash i → k = inv_id i) →
  (∀ k j, inv_status i = INV_PENDING → organization_invites d !! k = Some j →
     inv_organization j = inv_organization i → inv_email_normalized j = inv_email_normalized i →
     inv_status j = INV_PENDING → k = inv_id i) →
  (∀ k m u, inv_status i = INV_PENDING → memberships d !! k = Some m →
     mem_organization m = inv_organization i → active_row m = true → users d !! mem_user m = Some u →
     normalize_invite_email (user_email u) ≠ inv_email_normalized i) →
  team_core d → team_core (put_invite i d).
Proof.
  intros Ho Hr Ht Hp Hs Hc. split; try apply Hc.
  - destruct Hc as [[]]. split; simpl; try done; intros k n [[<- <-]|[_ Hn]]%lookup_insert_Some; eauto.
  - simpl. intros k j [[<- <-]|[_ Hj]]%lookup_insert_Some; [done|by eapply (tc_role _ Hc)].
  - simpl. intros j k a b [[<- <-]|[_ Ha]]%lookup_insert_Some [[<- <-]|[_ Hb]]%lookup_insert_Some E;
      [done|symmetry; by eapply Ht|by eapply Ht|by eapply (tc_token _ Hc)].
  - simpl. intros j k a b [[<- <-]|[_ Ha]]%lookup_insert_Some [[<- <-]|[_ Hb]]%lookup_insert_Some; intros;
      [done|symmetry; by eapply Hp|by eapply Hp|by eapply (tc_pending _ Hc)].
  - simpl. intros j k a m u [[<- <-]|[_ Ha]]%lookup_insert_Some; intros; [by eapply Hs|by eapply (tc_stranger _ Hc)].
Qed.

(** An invite that leaves the pending state, or keeps its address, is safe to
    store. *)
Lemma core_invite_again d i t :
  organization_invites d !! inv_id i = Some t → inv_organization i = inv_organization t →
  inv_role i ≠ OWNER →
  (∀ k j, organization_invites d !! k = Some j → inv_token_hash j = inv_token_hash i → k = inv_id i) →
  (inv_status i = INV_PENDING → inv_status t = INV_PENDING ∧
     inv_email_normalized i = inv_email_normalized t) →
  team_core d → team_core (put_invite i d).
Proof.
  intros Ht Ho Hr Hh Hs Hc. apply core_invite; [..|done]; [|done|done| |].
  - rewrite Ho. by eapply (tk_inv_org _ (tc_keys _ Hc)).
  - intros k j [Hp He]%Hs Hj E1 E2 E3. eapply (tc_pending _ Hc); [done..| | |done|done]; congruence.
  - intros k m u [Hp He]%Hs Hm E Ha Hu. rewrite He. rewrite Ho in E. by eapply (tc_stranger _ Hc).
Qed.

Lemma owner_kept d m o :
  active_owner o m = false →
  (∀ t, memberships d !! mem_id m = Some t → active_owner o t = false) →
  one_owner d o → one_owner (put_member m d) o.
Proof.
  intros Hm Hold (k & n & Hk & Hn & Huniq). exists k, n. split_and!; [|done|].
  - simpl. rewrite lookup_insert_ne; [done|]. intros <-. by rewrite (Hold _ Hk) in Hn.
  - simpl. intros j p [[<- <-]|[_ Hp]]%lookup_insert_Some Ho; [congruence|by eapply Huniq].
Qed.

(** Invites do not touch the members. *)
Lemma team_inv_invite d i : team_core (put_invite i d) → owners d → team_inv (put_invite i d).
Proof. by split. Qed.

(** A row that neither is nor was the active owner's leaves the owners. *)
Lemma owners_kept d m :
  (∀ o, active_owner o m = false) →
  (∀ t o, memberships d !! mem_id m = Some t → active_owner o t = false) →
  owners d → owners (put_member m d).
Proof. intros Hm Ht Ho k o Hk. apply owner_kept; eauto. Qed.

Lemma role_not_owner m o : mem_role m ≠ OWNER → active_owner o m = false.
Proof.
  intros Hr. destruct (active_owner o m) eqn:E; [|done]. by apply active_owner_spec in E as (_ & ? & _).
Qed.

Lemma inactive_not_owner m o : active_row m = false → active_owner o m = false.
Proof.
  intros Hr. destruct (active_owner o m) eqn:E; [|done]. apply active_owner_spec in E as (_ & _ & ?). congruence.
Qed.

Lemma elsewhere_not_owner m o o' :
  active_owner o m = false → mem_organization m = o → active_owner o' m = false.
Proof.
  intros Hm <-. destruct (active_owner o' m) eqn:E; [|done].
  pose proof E as (E' & _)%active_owner_spec. congruence.
Qed.

(** One active owner: the actor's row in [handed_over]. *)
Lemma owners_handed_over d o m t :
  memberships d !! mem_id m = Some m → memberships d !! mem_id t = Some t →
  mem_organization m = o → mem_organization t = o → mem_role m = OWNER →
  active_row m = true → active_row t = true → mem_id t ≠ mem_id m → owners d →
  owners (put_member (t <| mem_role := OWNER |>) (put_member (m <| mem_role := ADMIN |>) d)).
Proof.
  intros Hm Ht Hmo Hto Hmr Hma Hta Hne Ho k org Hk.
  destruct (Ho k org Hk) as (j & n & Hj & Hn & Huniq). simpl in *.
  destruct (decide (k = o)) as [->|Hko].
  - exists (mem_id t), (t <| mem_role := OWNER |>). simpl. rewrite lookup_insert_eq.
    split_and!; [done|by apply active_owner_spec|].
    intros j' p [[<- <-]|[_ [[<- <-]|[Hjm Hp]]%lookup_insert_Some]]%lookup_insert_Some; [done| |].
    + by rewrite role_not_owner.
    + intros Hop. destruct Hjm. rewrite (Huniq _ _ Hp Hop). apply (Huniq _ m); [done|].
      by apply active_owner_spec.
  - assert (Hout : ∀ x, mem_organization x = o → active_owner k x = false).
    { intros x Hx. destruct (active_owner k x) eqn:E; [|done].
      apply active_owner_spec in E as (E & _). congruence. }
    apply owner_kept; [by apply Hout| |apply owner_kept; [by apply Hout| |by exists j, n]]; simpl; intros x.
    + rewrite lookup_insert_ne by done. intros Hx. simplify_eq. by apply Hout.
    + intros Hx. simplify_eq. by apply Hout.
Qed.

Lemma grantable_not_owner role r : grantable_role role = Some r → r ≠ OWNER.
Proof. unfold grantable_role. simpl. by repeat case_match; intros [= <-]. Qed.

(** A pending invite's addressee is not an active member. *)
Lemma joining_inactive d actor u i m t :
  team_core d → users d !! actor = Some u →
  normalize_invite_email (user_email u) = inv_email_normalized i →
  organization_invites d !! inv_id i = Some i → inv_status i = INV_PENDING →
  joining (inv_organization i) actor (inv_role i) m d → memberships d !! mem_id m = Some t →
  active_row t = false.
Proof.
  intros Hc Hu He Hi Hp (Ho & Hmu & _ & _ & Hj) Ht. rewrite Ht in Hj. destruct Hj as [Hto Htu].
  destruct (active_row t) eqn:Ea; [|done]. exfalso.
  by eapply (tc_stranger _ Hc); [exact Hi|exact Ht|done|done|done|rewrite Htu; exact Hu|].
Qed.

Lemma team_inv_joined d actor u i m o t :
  team_inv d → users d !! actor = Some u →
  normalize_invite_email (user_email u) = inv_email_normalized i →
  organization_invites d !! inv_id i = Some i → inv_status i = INV_PENDING →
  organizations d !! inv_organization i = Some o →
  joining (inv_organization i) actor (inv_role i) m d →
  team_inv (put_invite (i <| inv_status := INV_ACCEPTED |> <| inv_accepted_by := Some actor |>
    <| inv_accepted_at := Some t |>) (put_member m d)).
Proof.
  intros [Hc Hw] Hu He Hi Hp Ho Hj.
  assert (Hold : ∀ x, memberships d !! mem_id m = Some x → active_row x = false).
  { intros x Hx. by eapply joining_inactive. }
  destruct Hj as (Hmo & Hmu & Hmr & Hma & Hj).
  set (i' := i <| inv_status := _ |> <| inv_accepted_by := _ |> <| inv_accepted_at := _ |>).
  change (team_inv (put_member m (put_invite i' d))).
  assert (Hc' : team_core (put_invite i' d)).
  { eapply core_invite_again; [exact Hi|done| | |done|done]; simpl.
    - by eapply (tc_role _ Hc).
    - intros k j Hjj. by eapply (tc_token _ Hc). }
  split.
  - apply core_member; [..|done]; simpl.
    + rewrite Hmo. eauto.
    + intros k n Hn E1 E2. destruct (memberships d !! mem_id m) as [x|] eqn:Ex.
      * destruct Hj. eapply (tc_unique _ Hc); [exact Hn|exact Ex| |]; congruence.
      * specialize (Hj _ _ Hn). rewrite (proj2 (membership_of_spec _ _ _)) in Hj; [done|].
        split; congruence.
    + intros v j x _ Hv [[<- <-]|[Hne Hx]]%lookup_insert_Some Hp' Ho' E; [done|]. apply Hne.
      eapply (tc_pending _ Hc); [exact Hi|exact Hx|congruence| |done|done].
      rewrite <- E, <- He. congruence.
  - assert (Hr : mem_role m ≠ OWNER) by (rewrite Hmr; by eapply (tc_role _ Hc)).
    apply owners_kept; [intros o'; by apply role_not_owner| |done].
    intros x o' Hx. apply inactive_not_owner. by apply Hold.
Qed.

(** A new organization's first member. *)
Lemma owners_founded d o m a :
  team_keys d → owners d → organizations d !! org_id o = None → memberships d !! mem_id m = None →
  mem_organization m = org_id o → mem_role m = OWNER → active_row m = true →
  owners (put_member m (put organizations (org_id o) o (put accounts (org_account o) a d))).
Proof.
  intros Hk Hw Hn Hm Hmo Hmr Hma k p. simpl. intros [[<- <-]|[Hne Hp]]%lookup_insert_Some.
  - exists (mem_id m), m. split_and!; [by apply lookup_insert_eq|by apply active_owner_spec|].
    simpl. intros j n [[<- _]|[_ Hj]]%lookup_insert_Some Ho; [done|].
    apply active_owner_spec in Ho as (Ho & _).
    destruct (tk_mem_org _ Hk _ _ Hj) as [q Hq]. congruence.
  - apply owner_kept; simpl.
    + destruct (active_owner k m) eqn:E; [|done]. apply active_owner_spec in E as (E & _). congruence.
    + intros t Ht. congruence.
    + by apply (Hw k p).
Qed.

(** Every step keeps the invariant. *)
Lemma team_inv_step actor d d' : team_step actor d d' → team_inv d → team_inv d'.
Proof.
  intros Hstep [Hc Hw]. destruct Hstep as
    [name s o m Hname Hon Hos Ha Ho Hm Hfresh Hmo Hmu Hmr Hma
    |o m t (Ho & Hm & Hmo & Hmu & Hma & Hos & _) Hmr (Ht & Hto & _) Hta Hne
    |o m t r _ (Ht & Hto & _) Hta Htr Hr
    |o m t _ (Ht & Hto & _) Hnot
    |o m s Ho _ _ _
    |o m i (Ho & _) Hi Hio Hip Hir Hie _ _ Hmem Hcl
    |o m i email r h t (Ho & _) Hi Hio Hip Hr He Hh
    |o m i t _ Hi Hio Hip
    |u o i m t Hu He Hi Hp _ Ho _ _ Hj
    |i t Hi Hp _].
  - split; [|by apply owners_founded; [apply Hc|..]].
    assert (Hc1 : team_core (put accounts (org_account o)
      (mkAccount (org_account o) None ORGANIZATION 0 0 None) d)) by (by apply core_account).
    eapply (core_new_org _ o) in Hc1; [|done|apply lookup_insert_eq|done..].
    apply core_member; [..|done]; simpl; rewrite Hmo.
    + apply lookup_insert_is_Some'. by left.
    + intros k n Hn E _. destruct (tk_mem_org _ (tc_keys _ Hc) _ _ Hn) as [q Hq]. congruence.
    + intros u j i _ _ Hi _ E. destruct (tk_inv_org _ (tc_keys _ Hc) _ _ Hi) as [q Hq]. congruence.
  - split; [|by eapply owners_handed_over].
    apply (core_member_again _ _ t); [|done..|].
    { simpl. by rewrite lookup_insert_ne. }
    by apply (core_member_again _ _ m).
  - split; [by apply (core_member_again _ _ t)|].
    apply owners_kept; [intros ?; by apply role_not_owner| |done].
    simpl. intros x o' Hx. simplify_eq. by apply role_not_owner.
  - split; [by apply (core_member_again _ _ t)|].
    apply owners_kept; [intros ?; by apply inactive_not_owner| |done].
    simpl. intros x o' Hx. simplify_eq. by eapply elsewhere_not_owner.
  - split; [by apply core_org_status|].
    intros k p. simpl. intros [[<- <-]|[_ Hp]]%lookup_insert_Some; [by apply (Hw _ o)|by apply (Hw _ p)].
  - apply team_inv_invite; [|done]. apply core_invite; [rewrite Hio; eauto|done|..|done].
    + intros k j Hj E. specialize (Hcl _ _ Hj). unfold invite_clash in Hcl. bool_to_prop. congruence.
    + intros k j _ Hj E1 E2 E3. specialize (Hcl _ _ Hj). unfold invite_clash, pending_for in Hcl.
      apply orb_false_iff in Hcl as [_ Hcl].
      by rewrite Hip, E1, E2, E3, N.eqb_refl, !bool_decide_eq_true_2 in Hcl.
    + intros k n u _ Hn E Hna Hu E'. specialize (Hmem _ _ Hn). unfold member_with_email in Hmem.
      rewrite E, Hio, N.eqb_refl, Hna, Hu in Hmem. simpl in Hmem.
      by rewrite (normalized_iexact _ _ _ _ (tc_keys _ Hc) Hu E') in Hmem.
  - apply team_inv_invite; [|done]. apply (core_invite_again _ _ i); try done.
  - apply team_inv_invite; [|done]. apply (core_invite_again _ _ i); try done; simpl.
    + by eapply (tc_role _ Hc).
    + intros k j Hj. by eapply (tc_token _ Hc).
  - by eapply team_inv_joined.
  - apply team_inv_invite; [|done]. apply (core_invite_again _ _ i); try done; simpl.
    + by eapply (tc_role _ Hc).
    + intros k j Hj. by eapply (tc_token _ Hc).
Qed.

(** Team changes keep the attributions and the books: members are never
    customers of their own team's program, and a new account is empty. *)
Lemma team_books_step actor d d' :
  team_step actor d d' → team_inv d → attribution_inv d → ledger_inv d →
  attribution_inv d' ∧ ledger_inv d'.
Proof.
  intros Hstep [Hc _] Ha Hl.
  assert (Hput : ∀ d m, attribution_inv d → ledger_inv d →
    (active_row m = true → no_customer (mem_user m) (mem_organization m) d) →
    attribution_inv (put_member m d) ∧ ledger_inv (put_member m d)).
  { intros d0 m Ha0 Hl0 Hm. split; [|by destruct Hl0; split].
    apply attribution_inv_member; [done|]. intros Hs. apply Hm. by apply bool_decide_eq_true. }
  destruct Hstep as
    [name s o m _ _ _ Hacc Ho _ _ Hmo _ _ _
    |o m t (_ & Hm & _ & _ & Hma & _) _ (Ht & _) Hta Hne
    |o m t r _ (Ht & _) Hta _ _
    |o m t _ _ _
    |
    |
    |
    |
    |u o i m t _ _ _ _ _ _ _ Hnc Hj
    |]; try (by split; [destruct Ha; split|destruct Hl; split]).
  - apply Hput; [by destruct Ha; split| |].
    + cut (ledger_inv (put accounts (org_account o)
        (mkAccount (org_account o) None ORGANIZATION 0 0 None) d)); [by intros []; split|].
      by apply ledger_inv_new_account.
    + intros _ k c j a Hch _ Hco. rewrite Hmo in Hco.
      destruct (tk_channel_org _ (tc_keys _ Hc) _ _ _ Hch Hco) as [q Hq]. congruence.
  - assert (Hact : ∀ k x, memberships d !! k = Some x → active_row x = true →
      no_customer (mem_user x) (mem_organization x) d).
    { intros k x Hx ?%bool_decide_eq_true. by eapply active_no_customer. }
    destruct (Hput d (m <| mem_role := ADMIN |>) Ha Hl) as [Ha1 Hl1]; [by intros _; eapply (Hact _ m)|].
    apply Hput; [done..|]. intros _. by eapply (Hact _ t).
  - apply Hput; [done..|]. intros _. apply bool_decide_eq_true in Hta.
    by eapply (active_no_customer _ _ t).
  - by apply Hput.
  - destruct Hj as (Hmo & Hmu & _).
    destruct (Hput d m Ha Hl) as [[] []]; [by rewrite Hmo, Hmu|]. by split; split.
Qed.

(** ** What the gates let through *)

Lemma context_Ok actor organization e w ctx w' :
  resolve_organization_context actor organization e w = (Ok ctx, w') → team_keys (db w) →
  w' = w ∧ ∃ o a m p,
    ctx = mkContext "organization" a (Some o) (Some m) (Some (mem_role m)) (Some p) ∧
    org_id o = organization ∧ organizations (db w) !! org_id o = Some o ∧
    accounts (db w) !! org_account o = Some a ∧ member_row o actor m (db w) ∧ active_row m = true ∧
    permissions_for_role (role_text (mem_role m)) = Ok p.
Proof.
  unfold resolve_organization_context. intros H Hk. inv_run H.
  match goal with Hr : lift ?r _ _ = _ |- _ => destruct r as [p|] eqn:Ep; simpl in Hr; inv_run Hr end.
  apply qfirst_Some in Hmatch0 as (k & Hm & [Hmo Hmu]%membership_of_spec).
  pose proof (tk_mem _ Hk _ _ Hm) as <-. unfold organization_with_account in Hmatch.
  destruct (organizations (db w) !! organization) as [o'|] eqn:Ho; [|done].
  destruct (accounts (db w) !! org_account o') eqn:Ha; [|done]. injection Hmatch as -> ->.
  pose proof (tk_org _ Hk _ _ Ho) as <-. bool_to_prop. split; [done|].
  exists o, a, m, p. split_and!; try done. by apply bool_decide_eq_true.
Qed.

Lemma mutation_Ok ctx e w u w' o :
  ctx_organization ctx = Some o → require_org_mutation ctx e w = (Ok u, w') →
  w' = w ∧ org_status o = ORG_ACTIVE.
Proof. unfold require_org_mutation. intros -> H. inv_run H. by bool_to_prop. Qed.

Lemma permission_Ok ctx perm e w u w' p :
  ctx_permissions ctx = Some p → require_permission ctx perm e w = (Ok u, w') →
  w' = w ∧ perm p = true.
Proof. unfold require_permission. intros -> H. inv_run H. by bool_to_prop. Qed.

(** The two lines each mutation starts with. *)
Lemma admission actor organization perm e w ctx w1 u w2 :
  resolve_organization_context actor organization e w = (Ok ctx, w1) →
  (require_org_mutation ctx;;; require_permission ctx perm) e w1 = (Ok u, w2) →
  team_keys (db w) →
  w2 = w ∧ ∃ o a m p,
    ctx = mkContext "organization" a (Some o) (Some m) (Some (mem_role m)) (Some p) ∧
    org_id o = organization ∧ acts actor perm o m (db w).
Proof.
  intros H H' Hk. apply context_Ok in H
    as (-> & o & a & m & p & -> & Ho & Hoo & _ & (Hm & Hmo & Hmu) & Hma & Hp); [|done].
  apply bind_Ok in H' as (u1 & w3 & H1 & H2).
  apply (mutation_Ok _ _ _ _ _ o) in H1 as [-> Hs]; [|done].
  apply (permission_Ok _ _ _ _ _ _ p) in H2 as [-> Hpp]; [|done].
  split; [done|]. exists o, a, m, p. split_and!; [done..|]. by split_and!; eauto.
Qed.

Lemma reject_Ok user o e w u w' :
  _reject_attributed_member user o e w = (Ok u, w') → team_keys (db w) →
  w' = w ∧ no_customer user (org_id o) (db w).
Proof.
  unfold _reject_attributed_member. intros H Hk. apply try_Ok in H as [H|(x & k & w1 & _ & Hx & H)].
  - eapply guard_Ok; [exact H|apply Hk|]. intros. by eapply (tk_channel_unique _ Hk).
  - destruct x; by simplify_eq/=.
Qed.

Lemma clean_reject user o : clean (_reject_attributed_member user o).
Proof.
  intros e w u w' Hw [H|(x & k & w1 & _ & Hx & H)]%try_Ok; [|by destruct x; simplify_eq/=].
  revert H. apply (λ H, H e w u w' Hw).
  unfold ensure_active_membership_allowed, lock_self_referral_rows. solve_clean.
Qed.
Lemma clean_mutation ctx : clean (require_org_mutation ctx).
Proof. unfold require_org_mutation. solve_clean. Qed.
Lemma clean_permission ctx perm : clean (require_permission ctx perm).
Proof. unfold require_permission. solve_clean. Qed.
Lemma clean_gate ctx perm : clean (require_org_mutation ctx;;; require_permission ctx perm).
Proof. apply clean_bind; [apply clean_mutation|intros _; apply clean_permission]. Qed.
Lemma clean_asserted {A} (o : option A) : clean (asserted o).
Proof. unfold asserted. solve_clean. Qed.
Lemma clean_context actor o : clean (resolve_organization_context actor o).
Proof. unfold resolve_organization_context, lift. solve_clean. Qed.
Lemma clean_locked_membership o user : clean (locked_membership o user).
Proof. unfold locked_membership. solve_clean. Qed.
Lemma clean_save_membership m f : clean (save_membership m f).
Proof. unfold save_membership. solve_clean. Qed.
#[local] Hint Resolve clean_reject clean_mutation clean_permission clean_asserted clean_context
  clean_locked_membership clean_save_membership : effects.

Lemma locked_membership_Ok organization user e w t w' :
  locked_membership organization user e w = (Ok (Some t), w') → team_keys (db w) →
  w' = w ∧ memberships (db w) !! mem_id t = Some t ∧ mem_organization t = organization ∧
  mem_user t = user ∧ aborted w = false.
Proof.
  unfold locked_membership. intros H Hk. apply locked_query_Ok in H as (? & Hq & ->).
  symmetry in Hq. apply qfirst_Some in Hq as (k & Hm & [? ?]%membership_of_spec).
  by pose proof (tk_mem _ Hk _ _ Hm) as <-.
Qed.

Lemma save_membership_Ok m f e w r w' :
  save_membership m f e w = (Ok r, w') → memberships (db w) !! mem_id m = Some m →
  mem_id (f m) = mem_id m → r = f m ∧ w' = w <| db := put_member (f m) (db w) |>.
Proof.
  unfold save_membership. intros H Hm Hf. inv_run H. unfold put_member. by rewrite Hf.
Qed.

(** The actor's row is the one the gate saw. *)
Lemma acts_row actor perm o m d : acts actor perm o m d → member_row o actor m d.
Proof. by intros (_ & ? & ? & ? & _). Qed.

(** ** The mutations *)

Lemma create_organization_Ok name actor s e w o w' :
  create_organization name actor s e w = (Ok o, w') → aborted w = false → team_inv (db w) →
  org_name o = strip name ∧ org_status o = s ∧ organizations (db w) !! org_id o = None ∧
  team_step actor (db w) (db w').
Proof.
  unfold create_organization. intros H Hw [Hc _].
  apply atomic_clean_Ok in H as (w1 & H & ->); [|solve_clean|done]. inv_run H.
  match goal with Ha : accounts _ !! _ = None, Ho : organizations _ !! _ = None,
    Hv : org_verdict _ _ = None |- _ => simpl in Ha, Ho, Hv; rename Ha into Hacc; rename Ho into Horg;
    rename Hv into Hver end.
  bool_to_prop. split_and!; try done.
  match goal with |- team_step _ _ (put memberships ?k ?m _) =>
    apply (team_founded actor _ name s (mkOrganization (mem_organization m) (strip name) s (next_uuid w)) m) end;
    simpl; try done.
  intros k p Hp E. unfold org_verdict in Hver. destruct (qexists _ _) eqn:Eq; [done|].
  rewrite qexists_false in Eq. specialize (Eq k p Hp). simpl in Eq.
  pose proof (tk_org _ (tc_keys _ Hc) _ _ Hp) as Hpk.
  apply andb_false_iff in Eq as [Eq|Eq]; bool_to_prop; congruence.
Qed.

(** A read that found a row with a given key. *)
Lemma acting_row_unique d m t :
  team_core d → memberships d !! mem_id m = Some m → memberships d !! mem_id t = Some t →
  mem_organization m = mem_organization t → mem_user m = mem_user t → m = t.
Proof.
  intros Hc Hm Ht E1 E2. pose proof (tc_unique _ Hc _ _ _ _ Hm Ht E1 E2) as E.
  rewrite E in Hm. congruence.
Qed.

Lemma ret_bind {A B} (a : A) (f : A → M B) e w : bind (ret a) f e w = f a e w.
Proof. done. Qed.

Ltac leave_world :=
  repeat match goal with
  | H : context [db (enter ?w)] |- _ => change (db (enter w)) with (db w) in H
  | |- context [db (?w <| depth := ?n |>)] => change (db (w <| depth := n |>)) with (db w)
  end.

(** Open a gated mutation: the facts of its gate, and the rest of the run. *)
Ltac enter_gate H Hc :=
  let ctx := fresh "ctx" in let Hctx := fresh "Hctx" in let Hgate := fresh "Hgate" in
  apply bind_Ok in H as (ctx & ? & Hctx & H); apply bind_Ok in H as (? & ? & Hgate & H);
  destruct (admission _ _ _ _ _ _ _ _ _ Hctx Hgate (tc_keys _ Hc))
    as [-> (o & acc & m & p & -> & <- & Hacts)];
  pose proof (acts_row _ _ _ _ _ Hacts) as (Hm & Hmo & Hmu); clear Hctx Hgate;
  cbv [asserted ctx_organization ctx_membership] in H; rewrite ?ret_bind in H; cbv beta in H;
  leave_world.

(** The guard, then the row it is about. *)
Ltac read_target H Hc :=
  let tgt := fresh "tgt" in let Htgt := fresh "Htgt" in
  apply bind_Ok in H as (tgt & ? & Htgt & H); destruct tgt as [t|]; [|done];
  apply locked_membership_Ok in Htgt as (-> & Ht & Hto & Htu & _); [|exact (tc_keys _ Hc)];
  leave_world.
Ltac pass_guard H Hc :=
  let Hrej := fresh "Hrej" in
  apply bind_Ok in H as (? & ? & Hrej & H);
  apply reject_Ok in Hrej as [-> Hnc]; [|exact (tc_keys _ Hc)]; leave_world.

Lemma transfer_ownership_Ok actor organization new_owner e w r w' :
  transfer_ownership actor organization new_owner e w = (Ok r, w') → aborted w = false →
  team_inv (db w) →
  ∃ o m t, acts actor can_transfer_ownership o m (db w) ∧ org_id o = organization ∧
    mem_role m = OWNER ∧ member_row o new_owner t (db w) ∧ active_row t = true ∧
    (t = m ∧ r = m ∧ db w' = db w ∨
     mem_id t ≠ mem_id m ∧ r = t <| mem_role := OWNER |> ∧
     db w' = put_member r (put_member (m <| mem_role := ADMIN |>) (db w))).
Proof.
  unfold transfer_ownership. intros H Hw [Hc _].
  apply atomic_clean_Ok in H as (w1 & H & ->); [|solve_clean|done].
  enter_gate H Hc. pass_guard H Hc. read_target H Hc.
  exists o, m, t. inv_run H; leave_world; simplify_eq; bool_to_prop; (split_and!; [done..|]).
  - left. split_and!; [congruence|done|done].
  - right. split; [done|].
    apply save_membership_Ok in Hrun as [-> ->]; [|done..].
    apply save_membership_Ok in Hrun1 as [-> ->]; [done| |done].
    simpl. by rewrite lookup_insert_ne.
Qed.

Lemma set_member_role_Ok actor organization user role e w r w' :
  set_member_role actor organization user role e w = (Ok r, w') → aborted w = false →
  team_inv (db w) →
  ∃ o m t x, acts actor can_manage_members o m (db w) ∧ org_id o = organization ∧
    member_row o user t (db w) ∧ active_row t = true ∧ mem_role t ≠ OWNER ∧
    grantable_role role = Some x ∧ r = t <| mem_role := x |> ∧ db w' = put_member r (db w).
Proof.
  unfold set_member_role. intros H Hw [Hc _].
  apply atomic_clean_Ok in H as (w1 & H & ->); [|solve_clean|done].
  apply bind_Ok in H as (u & w2 & [_ ->]%raise_if_Ok & H).
  enter_gate H Hc. pass_guard H Hc. read_target H Hc.
  inv_run H. leave_world. inv_call save_membership_Ok as [-> ->]; [|done|done].
  bool_to_prop. by eexists o, m, t, _.
Qed.

Lemma active_owner_count o d : one_owner d o → (_active_owner_count o d ≤ 1)%nat.
Proof. intros (k & m & _ & _ & Hu). by apply (qcount_at_most_one _ _ k). Qed.

Lemma revoke_membership_Ok actor organization user e w r w' :
  revoke_membership actor organization user e w = (Ok r, w') → aborted w = false →
  team_inv (db w) →
  ∃ o m t, acts actor can_manage_members o m (db w) ∧ org_id o = organization ∧
    member_row o user t (db w) ∧ 
    (mem_status t = MEM_REVOKED ∧ r = t ∧ db w' = db w ∨
     mem_status t ≠ MEM_REVOKED ∧ active_owner (org_id o) t = false ∧
     r = t <| mem_status := MEM_REVOKED |> ∧ db w' = put_member r (db w)).
Proof.
  unfold revoke_membership. intros H Hw [Hc Ho].
  apply atomic_clean_Ok in H as (w1 & H & ->); [|solve_clean|done].
  enter_gate H Hc. read_target H Hc.
  assert (Hcount : (_active_owner_count (org_id o) (db w) ≤ 1)%nat).
  { apply active_owner_count. destruct Hacts as (Hoo & _). by eapply Ho. }
  exists o, m, t. inv_run H; leave_world; (split_and!; [done..|]); bool_to_prop.
  - by left.
  - match goal with Hq : (_ <=? 1)%nat = false |- _ => apply Nat.leb_gt in Hq; lia end.
  - right. inv_call save_membership_Ok as [-> ->]; [|done..]. split_and!; [done| |done..].
    destruct (active_owner (org_id o) t) eqn:E; [|done].
    apply active_owner_spec in E as (_ & Er & Ea).
    match goal with Hq : _ ∨ _ |- _ => destruct Hq as [Hq|Hq]; bool_to_prop; congruence end.
Qed.

Lemma set_organization_status_Ok actor organization status e w r w' :
  set_organization_status actor organization status e w = (Ok r, w') → aborted w = false →
  team_inv (db w) →
  ∃ o m s, organizations (db w) !! org_id o = Some o ∧ org_id o = organization ∧
    member_row o actor m (db w) ∧ active_row m = true ∧ mem_role m = OWNER ∧
    status_of_text status = Some s ∧ r = o <| org_status := s |> ∧
    db w' = put organizations (org_id o) r (db w).
Proof.
  unfold set_organization_status. intros H Hw [Hc _].
  apply atomic_clean_Ok in H as (w1 & H & ->); [|unfold require_archive_org; solve_clean|done].
  destruct (status_of_text status) as [s|] eqn:Es; [|done].
  apply bind_Ok in H as (ctx & w2 & Hctx & H).
  apply context_Ok in Hctx as (-> & o & a & m & p & -> & <- & Ho & _ & Hrow & Hma & Hp); [|apply Hc].
  cbv [asserted ctx_organization ctx_role] in H. rewrite ret_bind in H. cbv beta in H. leave_world.
  apply bind_Ok in H as (u & w2 & Hgate & H).
  assert (w2 = enter w ∧ mem_role m = OWNER) as [-> Hr].
  { case_match; [|apply raise_if_Ok in Hgate as [? ->]; bool_to_prop; by simplify_eq].
    apply bind_Ok in Hgate as (u1 & w3 & H1 & H2).
    apply (mutation_Ok _ _ _ _ _ o) in H1 as [-> _]; [|done].
    apply (permission_Ok _ _ _ _ _ _ p) in H2 as [-> Hpp]; [|done]. split; [done|].
    destruct (mem_role m); [done|..]; vm_compute in Hp; injection Hp as <-; discriminate. }
  inv_run H. leave_world. simplify_eq. exists o, m, s. by split_and!.
Qed.

(** ** The invites *)

Section InviteRuns.
Context (_hash_token : string → string).

Lemma known_user_Ok (known : option User) o e w u w' :
  match known with Some x => _reject_attributed_member (user_id x) o | None => ret tt end e w
    = (Ok u, w') → team_keys (db w) → w' = w.
Proof. destruct known; intros H Hk; [by apply reject_Ok in H as [-> _]|by inv_run H]. Qed.

Lemma pending_for_spec o email i :
  pending_for o email i = true ↔
  inv_organization i = o ∧ inv_email_normalized i = email ∧ inv_status i = INV_PENDING.
Proof. unfold pending_for. rewrite !andb_true_iff, N.eqb_eq, !bool_decide_eq_true. tauto. Qed.

(** What a returned create has done: a fresh row, or the pending one with a new
    token. *)
Definition invited (actor : pk) (email : string) (role : MembershipRole) (e : Env) (w : World)
    (o : Organization) (r : InviteCreateResult) (d : Db) : Prop :=
  let i := icr_invite r in
  icr_raw_token r = entropy e (draws w) ∧ inv_token_hash i = _hash_token (icr_raw_token r) ∧
  inv_organization i = org_id o ∧ inv_email_normalized i = normalize_invite_email email ∧
  inv_email i = strip email ∧ inv_role i = role ∧ inv_status i = INV_PENDING ∧
  inv_invited_by i = actor ∧ inv_expires_at i = clock e (tick w) + _invite_ttl (settings e) ∧
  normalize_invite_email email ≠ "" ∧
  (∀ k n, memberships (db w) !! k = Some n →
     member_with_email (org_id o) (normalize_invite_email email) (db w) n = false) ∧
  (∀ k j, organization_invites (db w) !! k = Some j → inv_token_hash j = inv_token_hash i → k = inv_id i) ∧
  d = put_invite i (db w) ∧
  if icr_created r
  then organization_invites (db w) !! inv_id i = None ∧
    (∀ k j, organization_invites (db w) !! k = Some j →
       pending_for (org_id o) (normalize_invite_email email) j = false)
  else ∃ p, organization_invites (db w) !! inv_id p = Some p ∧ inv_status p = INV_PENDING ∧
    inv_organization p = org_id o ∧ inv_email_normalized p = normalize_invite_email email ∧
    i = refresh_invite email role (_hash_token (entropy e (draws w)))
          (clock e (tick w) + _invite_ttl (settings e)) actor p.

Lemma invite_verdict_None d i :
  invite_verdict d i = None → team_keys d →
  inv_role i ≠ OWNER ∧ ∀ k j, organization_invites d !! k = Some j → k ≠ inv_id i → invite_clash i j = false.
Proof.
  unfold invite_verdict. intros H Hk. destruct (_ || _) eqn:E; [done|].
  apply orb_false_iff in E as [Hr%bool_decide_eq_false E]. split; [done|].
  rewrite qexists_false in E. intros k j Hj Hne. specialize (E k j Hj).
  rewrite (tk_inv _ Hk _ _ Hj) in E. apply andb_false_iff in E as [E|E]; [|done]. by bool_to_prop.
Qed.

Lemma create_invite_Ok actor organization email role e w r w' :
  create_invite _hash_token actor organization email role e w = (Ok r, w') → aborted w = false →
  team_inv (db w) →
  ∃ o m x, acts actor can_invite o m (db w) ∧ org_id o = organization ∧
    grantable_role role = Some x ∧ invited actor email x e w o r (db w').
Proof.
  unfold create_invite. intros H Hw [Hc _].
  apply atomic_clean_Ok in H as (w1 & H & ->); [|solve_clean|done].
  destruct (grantable_role role) as [x|] eqn:Ex; [|done].
  enter_gate H Hc. exists o, m, x. split_and!; [done..|].
  apply bind_Ok in H as (? & ? & [_ ->]%raise_if_Ok & H).
  apply bind_Ok in H as (? & ? & [Hne ->]%raise_if_Ok & H).
  apply bind_Ok in H as (known & ? & (_ & Hkn & ->)%query_Ok & H).
  apply bind_Ok in H as (? & ? & ->%known_user_Ok & H); [|apply Hc].
  apply bind_Ok in H as (? & ? & (_ & -> & ->)%query_Ok & H).
  apply bind_Ok in H as (? & ? & [Hmem ->]%raise_if_Ok & H). rewrite qexists_false in Hmem.
  inv_run H; leave_world; bool_to_prop.
  - match goal with Hq : qfirst _ _ = Some ?q |- _ => rename q into p0;
      apply qfirst_Some in Hq as (k & Hp & (Hpo & Hpe & Hps)%pending_for_spec) end.
    pose proof (tk_inv _ (tc_keys _ Hc) _ _ Hp) as <-. simplify_eq.
    match goal with Hv : invite_verdict _ ?i = None |- _ =>
      apply invite_verdict_None in Hv as [_ Hcl]; [|apply Hc] end.
    split_and!; simpl; try done.
    + intros k j Hj E. destruct (decide (k = inv_id p0)) as [|Hk]; [done|].
      specialize (Hcl _ _ Hj Hk). apply orb_false_iff in Hcl as [Hcl%bool_decide_eq_false _].
      by destruct Hcl.
    + by exists p0.
  - match goal with Hq : qfirst _ _ = None |- _ => rewrite qfirst_None in Hq end.
    match goal with Hv : invite_verdict _ ?i = None |- _ =>
      apply invite_verdict_None in Hv as [_ Hcl]; [|apply Hc] end.
    split_and!; simpl; try done.
    intros k j Hj E. destruct (decide (k = next_uuid w)) as [|Hk]; [done|].
    specialize (Hcl _ _ Hj Hk). apply orb_false_iff in Hcl as [Hcl%bool_decide_eq_false _].
      by destruct Hcl.
Qed.

Lemma revoke_invite_Ok actor organization invite e w r w' :
  revoke_invite actor organization invite e w = (Ok r, w') → aborted w = false → team_inv (db w) →
  ∃ o m i, acts actor can_invite o m (db w) ∧ org_id o = organization ∧
    organization_invites (db w) !! inv_id i = Some i ∧ inv_id i = invite ∧
    inv_organization i = org_id o ∧
    (inv_status i ≠ INV_PENDING ∧ r = i ∧ db w' = db w ∨
     inv_status i = INV_PENDING ∧
     r = i <| inv_status := INV_REVOKED |> <| inv_revoked_at := Some (clock e (tick w)) |> ∧
     db w' = put_invite r (db w)).
Proof.
  unfold revoke_invite. intros H Hw [Hc _].
  apply atomic_clean_Ok in H as (w1 & H & ->); [|unfold require_invite; solve_clean|done].
  enter_gate H Hc. 
  apply bind_Ok in H as (found_ & ? & (_ & Hf & ->)%locked_query_Ok & H). leave_world.
  destruct found_ as [i|]; [|done]. symmetry in Hf. apply qfirst_Some in Hf as (k & Hi & Hki).
  bool_to_prop. pose proof (tk_inv _ (tc_keys _ Hc) _ _ Hi) as <-.
  exists o, m, i. inv_run H; leave_world; bool_to_prop; (split_and!; [done..|]).
  - left. by split_and!.
  - right. simplify_eq. by split_and!.
Qed.

Lemma put_member_same m d : memberships d !! mem_id m = Some m → put_member m d = d.
Proof. intros H. destruct d. unfold put_member, put, update. simpl in *. by rewrite insert_id. Qed.

Lemma put_member_twice m n d :
  mem_id m = mem_id n → put_member m (put_member n d) = put_member m d.
Proof.
  intros H. destruct d. unfold put_member, put, update. simpl. by rewrite H, insert_insert_eq.
Qed.

Lemma get_or_create_membership_Ok o user role e w m w' :
  get_or_create_membership o user role e w = (Ok m, w') → aborted w = false → team_keys (db w) →
  mem_organization m = o ∧ mem_user m = user ∧ db w' = put_member m (db w) ∧
  match memberships (db w) !! mem_id m with
  | Some t => t = m
  | None => mem_role m = role ∧ active_row m = true ∧
      ∀ k n, memberships (db w) !! k = Some n → membership_of o user n = false
  end.
Proof.
  unfold get_or_create_membership. intros H Hw Hk.
  assert (Hfound : ∀ d, qfirst (membership_of o user) (memberships d) = Some m → team_keys d →
    mem_organization m = o ∧ mem_user m = user ∧ memberships d !! mem_id m = Some m).
  { intros d (k & Hm & [? ?]%membership_of_spec)%qfirst_Some Hk'.
    by pose proof (tk_mem _ Hk' _ _ Hm) as <-. }
  inv_run H.
  - destruct (Hfound _ Hmatch Hk) as (? & ? & Hm). rewrite Hm, put_member_same; done.
  - rewrite qfirst_None in Hmatch. inv_call try_Ok as [Hrun|(x & k & w1 & Hrun & Hx & Hq)].
    + apply atomic_clean_Ok in Hrun as (w1 & Hrun & ->); [|solve_clean|done].
      inv_run Hrun. match goal with Hn : _ !! _ = None |- _ => by rewrite Hn end.
    + apply atomic_Raise in Hrun as [Hdb _]. destruct x; simplify_eq/=. inv_run Hq.
      rewrite Hdb in *. match goal with Hf : qfirst _ _ = Some _ |- _ =>
        apply qfirst_Some in Hf as (k & Hm & Ho) end. by rewrite (Hmatch _ _ Hm) in Ho.
Qed.

(** The invite, spent. *)
Definition accepted (actor : pk) (t : instant) (i : OrganizationInvite) : OrganizationInvite :=
  i <| inv_status := INV_ACCEPTED |> <| inv_accepted_by := Some actor |> <| inv_accepted_at := Some t |>.

Lemma join_organization_Ok actor i t e w r w' :
  join_organization actor i t e w = (Ok r, w') → aborted w = false → team_keys (db w) →
  organization_invites (db w) !! inv_id i = Some i →
  ∃ m, joining (inv_organization i) actor (inv_role i) m (db w) ∧
    r = mkInviteAccepted m (accepted actor t i) false ∧
    db w' = put_invite (accepted actor t i) (put_member m (db w)).
Proof.
  unfold join_organization. intros H Hw Hk Hi.
  apply bind_Ok in H as (m & w1 & Hm & H).
  pose proof (get_or_create_membership_Ok _ _ _ _ _ _ _ Hm Hw Hk) as (Ho & Hu & Hdb & Hrow).
  set (f := λ m, m <| mem_status := MEM_ACTIVE |> <| mem_role := inv_role i |>).
  assert (Hsaved : ∃ m', (m' = m ∧ active_row m = true ∧ mem_role m = inv_role i ∨ m' = f m) ∧
    ∃ w2, db w2 = put_member m' (db w) ∧
      (save_fields organization_invites invite_verdict (inv_id i) (accepted actor t);;;
       ret (mkInviteAccepted m' (accepted actor t i) false)) e w2 = (Ok r, w')).
  { apply bind_Ok in H as (m' & w2 & Hs & H). destruct (_ || _) eqn:E in Hs.
    - apply save_membership_Ok in Hs as [-> ->];
        [|by rewrite Hdb; apply lookup_insert_eq|done].
      exists (f m). split; [by right|]. eexists. split; [|exact H]. simpl. rewrite Hdb.
      by apply put_member_twice.
    - apply ret_Ok in Hs as [-> ->]. apply orb_false_iff in E as [E1 E2]. bool_to_prop.
      exists m. split; [by left|]. by exists w1. }
  destruct Hsaved as (m' & Hm' & w2 & Hdb2 & Hrun). exists m'. inv_run Hrun.
  rewrite Hdb2 in *. simplify_eq/=. split_and!; [|done|done].
  destruct Hm' as [(-> & Ha & Hr)| ->]; (split_and!; [done..|]); unfold f; simpl;
    destruct (memberships (db w) !! mem_id m); by destruct_and?; subst.
Qed.

(** The invite a token opens: the one whose hash it has. *)
Definition opens (raw_token : string) (i : OrganizationInvite) (d : Db) : Prop :=
  organization_invites d !! inv_id i = Some i ∧ inv_token_hash i = _hash_token (strip raw_token).

Lemma invite_by_token_Some h d i o :
  invite_by_token h d = Some (i, o) → team_keys d →
  organization_invites d !! inv_id i = Some i ∧ inv_token_hash i = h ∧
  organizations d !! inv_organization i = Some o.
Proof.
  unfold invite_by_token. intros H Hk. destruct (qfirst _ _) as [j|] eqn:E; [|done].
  case_match; simplify_eq. apply qfirst_Some in E as (k & Hi & Hh). bool_to_prop.
  by pose proof (tk_inv _ Hk _ _ Hi) as <-.
Qed.

Inductive admitted (actor : pk) (raw_token : string) (t : instant) (d : Db)
    : InviteAcceptResult → Db → Prop :=
  | admitted_before i m :
      opens raw_token i d → inv_status i = INV_ACCEPTED → inv_accepted_by i = Some actor →
      memberships d !! mem_id m = Some m → mem_organization m = inv_organization i →
      mem_user m = actor → admitted actor raw_token t d (mkInviteAccepted m i true) d
  | admitted_now u o i m :
      opens raw_token i d → users d !! actor = Some u →
      normalize_invite_email (user_email u) = inv_email_normalized i →
      inv_status i = INV_PENDING → t < inv_expires_at i →
      organizations d !! inv_organization i = Some o → org_status o = ORG_ACTIVE →
      no_customer actor (inv_organization i) d → joining (inv_organization i) actor (inv_role i) m d →
      admitted actor raw_token t d (mkInviteAccepted m (accepted actor t i) false)
        (put_invite (accepted actor t i) (put_member m d)).

Lemma accept_locked_Ok actor raw_token e w r w' :
  accept_locked actor (_hash_token (strip raw_token)) e w = (Ok r, w') →
  aborted w = false → team_keys (db w) →
  match r with
  | Some r => admitted actor raw_token (clock e (tick w)) (db w) r (db w')
  | None => db w' = db w ∨ ∃ i, opens raw_token i (db w) ∧ inv_status i = INV_PENDING ∧
      inv_expires_at i ≤ clock e (tick w) ∧ db w' = put_invite (i <| inv_status := INV_EXPIRED |>) (db w)
  end.
Proof.
  unfold accept_locked. intros H Hw Hk.
  apply bind_Ok in H as (u & w1 & (_ & Hu & ->)%get_locked_Ok & H).
  apply bind_Ok in H as (found_ & w1 & (_ & Hf & ->)%locked_query_Ok & H).
  destruct found_ as [[i o]|]; [|done]. symmetry in Hf.
  apply invite_by_token_Some in Hf as (Hi & Hh & Ho); [|done].
  apply bind_Ok in H as (t & w1 & [= <- <-] & H). destruct (inv_status i) eqn:Es.
  - destruct (_ <=? _) eqn:Et in H; bool_to_prop.
    + inv_run H. right. exists i. by split_and!.
    + apply bind_Ok in H as (? & ? & [Hs ->]%raise_if_Ok & H).
      apply bind_Ok in H as (? & ? & [He ->]%raise_if_Ok & H).
      apply bind_Ok in H as (? & ? & [-> Hnc]%reject_Ok & H); [|done].
      apply bind_Ok in H as (j & ? & Hj & [-> ->]%ret_Ok). bool_to_prop.
      apply join_organization_Ok in Hj as (m & Hj & -> & ->); [|done..].
      rewrite (tk_org _ Hk _ _ Ho) in Hnc. by eapply (admitted_now _ _ _ _ u o).
  - inv_run H. match goal with Hq : qfirst _ _ = Some ?m |- _ =>
      apply qfirst_Some in Hq as (k & Hm & [? ?]%membership_of_spec);
      pose proof (tk_mem _ Hk _ _ Hm) as <- end.
    bool_to_prop. by apply admitted_before.
  - done.
  - apply ret_Ok in H as [-> ->]. by left.
Qed.

Lemma accept_invite_run actor raw_token e w r w' :
  accept_invite _hash_token actor raw_token e w = (r, w') → aborted w = false → team_keys (db w) →
  match r with
  | Ok r => admitted actor raw_token (clock e (tick w)) (db w) r (db w')
  | Raise _ => db w' = db w ∨ ∃ i, opens raw_token i (db w) ∧ inv_status i = INV_PENDING ∧
      inv_expires_at i ≤ clock e (tick w) ∧ db w' = put_invite (i <| inv_status := INV_EXPIRED |>) (db w)
  end.
Proof.
  unfold accept_invite. intros H Hw Hk. rewrite bind_run in H.
  destruct (raise_if _ _ _ _) as [[u|x] w1] eqn:E; apply raise_if_world in E as ->;
    [|injection H as <- <-; by left].
  rewrite bind_run in H. destruct (atomic _ e w) as [[o|x] w1] eqn:Ea.
  - apply atomic_clean_Ok in Ea as (w2 & Ea & ->);
      [|unfold accept_locked, join_organization, get_or_create_membership; solve_clean|done].
    apply accept_locked_Ok in Ea; [|done..]. leave_world.
    destruct o as [o|]; injection H as <- <-; exact Ea.
  - injection H as <- <-. left. by apply atomic_Raise in Ea as [-> _].
Qed.

End InviteRuns.

(** ** Calls *)

(** The operations a person can ask for, by their arguments. *)
Inductive TeamCall :=
  | CreateOrganization (name : string) (status : OrganizationStatus)
  | TransferOwnership (organization new_owner : pk)
  | SetMemberRole (organization user : pk) (role : string)
  | RevokeMembership (organization user : pk)
  | SetOrganizationStatus (organization : pk) (status : string)
  | CreateInvite (organization : pk) (email role : string)
  | RevokeInvite (organization invite : pk)
  | AcceptInvite (raw_token : string).

Section Calls.
Context (_hash_token : string → string).

Definition team_call (actor : pk) (c : TeamCall) : M unit :=
  match c with
  | CreateOrganization name status => create_organization name actor status;;; ret tt
  | TransferOwnership o new_owner => transfer_ownership actor o new_owner;;; ret tt
  | SetMemberRole o user role => set_member_role actor o user role;;; ret tt
  | RevokeMembership o user => revoke_membership actor o user;;; ret tt
  | SetOrganizationStatus o status => set_organization_status actor o status;;; ret tt
  | CreateInvite o email role => create_invite _hash_token actor o email role;;; ret tt
  | RevokeInvite o invite => revoke_invite actor o invite;;; ret tt
  | AcceptInvite raw_token => accept_invite _hash_token actor raw_token;;; ret tt
  end.

Lemma forget_run {A} (m : M A) e w r w' :
  (m;;; ret tt) e w = (r, w') →
  (∃ a, m e w = (Ok a, w')) ∨ (∃ x, m e w = (Raise x, w')).
Proof. rewrite bind_run. destruct (m e w) as [[a|x] w1]; intros [= _ <-]; eauto. Qed.

(** A transaction either did nothing or returned. *)
Lemma atomic_call {A} (m : M A) (Q : Prop) e w r w' :
  (∀ a, atomic m e w = (Ok a, w') → Q) → (db w' = db w → Q) →
  (atomic m;;; ret tt) e w = (r, w') → Q.
Proof.
  intros Hm Hq [[a Ha]|[x Hx]]%forget_run; [by eapply Hm|].
  apply Hq. by apply atomic_Raise in Hx as [-> _].
Qed.

Lemma invited_step actor email role x e w o m r d :
  acts actor can_invite o m (db w) → grantable_role role = Some x →
  invited _hash_token actor email x e w o r d → team_step actor (db w) d.
Proof.
  intros Hacts Hx%grantable_not_owner.
  intros (Hraw & Hh & Ho & Hn & Hem & Hr & Hs & Hby & Hexp & Hne & Hmem & Hcl & -> & Hc).
  destruct (icr_created r).
  - destruct Hc as [Hi Hp]. eapply (team_invited actor (db w) o m); try done; try congruence.
    + rewrite Hn, Hem. unfold normalize_invite_email. by rewrite strip_idem.
    + by rewrite Hn.
    + intros k j Hj. unfold invite_clash. rewrite Ho, Hn, (Hp _ _ Hj), andb_false_r, orb_false_r.
      apply bool_decide_eq_false. intros E. specialize (Hcl _ _ Hj E). congruence.
  - destruct Hc as (p & Hp & Hps & Hpo & Hpn & Hri). rewrite Hri in *.
    apply (team_reinvited actor (db w) o m); try done.
Qed.

Lemma admitted_step actor raw_token t d r d' :
  admitted _hash_token actor raw_token t d r d' → d' = d ∨ team_step actor d d'.
Proof.
  intros [i m|u o i m [Hi _]]; [by left|right]. by eapply (team_joined actor d u o).
Qed.

Lemma call_step actor c e w r w' :
  team_call actor c e w = (r, w') → aborted w = false → team_inv (db w) →
  db w' = db w ∨ team_step actor (db w) (db w').
Proof.
  intros H Hw Hi. pose proof (tc_keys _ (proj1 Hi)) as Hk.
  destruct c; unfold team_call in H.
  1-7: revert H; apply atomic_call; [intros a H|by left].
  - apply create_organization_Ok in H as (_ & _ & _ & ?); [by right|done..].
  - apply transfer_ownership_Ok in H as (o & m & t & Ha & _ & Hr & [Ht [Hto _]] & Hta & Hc); [|done..].
    destruct Hc as [(_ & _ & ->)|(Hne & -> & ->)]; [by left|right].
    by apply (team_handed_over _ _ o).
  - apply set_member_role_Ok in H as (o & m & t & x & Ha & _ & [Ht [Hto _]] & Hta & Hr & Hx & -> & ->);
      [|done..].
    right. apply (team_role_set _ _ o m); try done. by eapply grantable_not_owner.
  - apply revoke_membership_Ok in H as (o & m & t & Ha & _ & [Ht [Hto _]] & Hc); [|done..].
    destruct Hc as [(_ & _ & ->)|(_ & Hn & -> & ->)]; [by left|right].
    by apply (team_revoked _ _ o m).
  - apply set_organization_status_Ok in H as (o & m & s & Ho & _ & Hm & Hma & Hr & _ & -> & ->); [|done..].
    right. by apply (team_status_set _ _ o m).
  - apply create_invite_Ok in H as (o & m & x & Ha & _ & Hx & Hinv); [|done..].
    right. by eapply invited_step.
  - apply revoke_invite_Ok in H as (o & m & i & Ha & _ & Hii & _ & Hio & Hc); [|done..].
    destruct Hc as [(_ & _ & ->)|(Hs & -> & ->)]; [by left|right].
    by apply (team_uninvited _ _ o m).
  - apply forget_run in H as [[a Ha]|[x Hx]].
    + apply accept_invite_run in Ha; [|done..]. by eapply admitted_step.
    + apply accept_invite_run in Hx as [->|(i & [Hii _] & Hs & Ht & ->)]; [by left|right|done..].
      by eapply (team_expired _ _ i).
Qed.

Definition team_books (d : Db) : Prop := team_inv d ∧ attribution_inv d ∧ ledger_inv d.

Lemma books_step actor d d' : team_step actor d d' → team_books d → team_books d'.
Proof.
  intros Hs (Ht & Ha & Hl). split; [by eapply team_inv_step|]. by eapply team_books_step.
Qed.

(** A history: people's calls one after the other, each with its own answer. *)
Definition run_calls (calls : list (pk * TeamCall)) : M unit :=
  for_each calls (λ ac, try_except (team_call ac.1 ac.2) (λ _, Some (ret tt))).

Definition step_by (actors : list pk) (d d' : Db) : Prop :=
  ∃ actor, actor ∈ actors ∧ team_step actor d d'.

(** A call leaves the connection as it found it. *)
Lemma call_settles actor c : outside (λ _ _, True) (team_call actor c).
Proof.
  set (R := λ _ _ : Db, True). assert (HR : PreOrder R) by by split.
  assert (Hat : ∀ A (m : M A), outside R (atomic m)).
  { intros A m. apply (outside_atomic R). by intros e w r w'. }
  assert (Hreads : ∀ A (m : M A), only_reads m → outside R m).
  { intros A m. by apply (outside_reads R). }
  destruct c; simpl; apply (outside_bind R);
    try (intros ?; by apply Hreads, only_reads_ret); try apply Hat.
  unfold accept_invite. apply (outside_bind R); [apply Hreads, only_reads_raise_if|intros _].
  apply (outside_bind R); [apply Hat|intros [r|]]; apply Hreads;
    [apply only_reads_ret|apply only_reads_raise].
Qed.

Lemma run_calls_reach calls e w r w' :
  run_calls calls e w = (r, w') → depth w = 0%nat → aborted w = false → team_inv (db w) →
  r = Ok tt ∧ depth w' = 0%nat ∧ aborted w' = false ∧
  rtc (step_by calls.*1) (db w) (db w').
Proof.
  unfold run_calls. revert w. induction calls as [|[actor c] calls IH]; intros w H Hd Hw Hi; simpl in H.
  - injection H as <- <-. by split_and!; [..|apply rtc_refl].
  - rewrite bind_run in H. unfold try_except in H. simpl in H.
    destruct (team_call actor c e w) as [x w1] eqn:Ec.
    destruct (call_settles _ _ _ _ _ _ Hd Hw Ec) as (_ & Hd1 & Hw1).
    pose proof (call_step _ _ _ _ _ _ Ec Hw Hi) as Hs.
    assert (Hi1 : team_inv (db w1)) by (destruct Hs as [->|Hs]; [done|by eapply team_inv_step]).
    assert (Hrest : for_each calls (λ ac, try_except (team_call ac.1 ac.2) (λ _, Some (ret tt))) e w1
      = (r, w')) by (destruct x; exact H).
    destruct (IH _ Hrest Hd1 Hw1 Hi1) as (-> & Hd' & Hw' & Hr). split_and!; [done..|].
    assert (Hr' : rtc (step_by (actor :: calls.*1)) (db w1) (db w')).
    { eapply rtc_subrel; [|exact Hr]. intros ? ? (a & Ha & Has). exists a. split; [by right|done]. }
    destruct Hs as [<-|Hs]; [done|]. eapply rtc_l; [|exact Hr']. exists actor. split; [by left|done].
Qed.

Lemma reach_books actors d d' : rtc (step_by actors) d d' → team_books d → team_books d'.
Proof. induction 1 as [|d1 d2 d3 (a & _ & Hs) _ IH]; [done|]. intros Hb. by eapply IH, books_step. Qed.

(** ** Properties *)

(** C30: Any history of calls on teams, by anyone and with any arguments, keeps
    the teams' data sound however each call ends: one membership row per person
    and team, exactly one active owner in every team, a zero-user account of
    its own for each, invites never for the owner's role nor to somebody who is
    already in, one pending invite per address and one invite per token.  No
    customer of a team's partner program becomes its active member, and every
    balance stays the sum of its ledger. *)
Theorem team_system_invariant calls : keeps team_books (run_calls calls).
Proof.
  intros e w r w' Hb Hd Hw H.
  destruct (run_calls_reach _ _ _ _ _ H Hd Hw (proj1 Hb)) as (_ & ? & ? & Hr).
  split; [|done]. by eapply reach_books.
Qed.

(** C31: Histories refine the contract: whatever the calls of a history are, it
    runs to its end, and it has moved the database only by the contract's steps
    ([team_step]), each taken by one of the callers with the standing it asks
    for: members' roles, revocations and invites by an active owner or admin of
    an active team, a hand-over or a change of status by its owner, joining by
    the addressee of a pending, unexpired invite. *)
Theorem histories_refine_contract calls e w :
  depth w = 0%nat → aborted w = false → team_inv (db w) →
  ∃ w', run_calls calls e w = (Ok tt, w') ∧ rtc (step_by calls.*1) (db w) (db w').
Proof.
  intros Hd Hw Hi. destruct (run_calls calls e w) as [r w'] eqn:E. exists w'.
  destruct (run_calls_reach _ _ _ _ _ E Hd Hw Hi) as (-> & _ & _ & ?). done.
Qed.
End Calls.

(** Who owns a team. *)
Definition owned_by (organization user : pk) (d : Db) : Prop :=
  ∃ k m, memberships d !! k = Some m ∧ active_owner organization m = true ∧ mem_user m = user.

Lemma owned_unique o u v d : team_inv d → owned_by o u d → owned_by o v d → u = v.
Proof.
  intros [Hc Hw] (k & m & Hm & Hmo & <-) (j & n & Hn & Hno & <-).
  destruct (tk_mem_org _ (tc_keys _ Hc) _ _ Hm) as [org Horg].
  pose proof Hmo as (E & _)%active_owner_spec. rewrite E in Horg.
  destruct (Hw _ _ Horg) as (i & p & _ & _ & Hu).
  rewrite (Hu _ _ Hm Hmo), <- (Hu _ _ Hn Hno) in Hm. congruence.
Qed.

Lemma owned_kept d m o u :
  active_owner o m = false →
  (∀ t, memberships d !! mem_id m = Some t → active_owner o t = false) →
  owned_by o u d → owned_by o u (put_member m d).
Proof.
  intros Hm Hold (k & n & Hk & Hn & Hu). exists k, n. split_and!; [|done..].
  simpl. rewrite lookup_insert_ne; [done|]. intros <-. by rewrite (Hold _ Hk) in Hn.
Qed.

(** A step leaves every owner in place, except the owner's own hand-over. *)
Lemma owned_step actor d d' o u v :
  team_step actor d d' → team_inv d → owned_by o u d → owned_by o v d' →
  u = v ∨ u = actor ∧ active_member o v d = true.
Proof.
  intros Hstep Hi Hu Hv. pose proof (team_inv_step _ _ _ Hstep Hi) as Hi'.
  assert (Hsame : owned_by o u d' → u = v) by (intros Hu'; by eapply owned_unique).
  destruct Hi as [Hc Hw]. destruct Hstep as
    [name s og m _ _ _ Ha Ho Hm Hfresh Hmo _ Hmr Hma
    |og m t (Ho & Hm & Hmo & Hmu & Hma & _ & _) Hmr (Ht & Hto & _) Hta Hne
    |og m t r _ (Ht & Hto & _) Hta Htr Hr
    |og m t _ (Ht & Hto & _) Hnot
    | | | | |a og i m t Hau He Hii Hp _ Hog _ _ Hj| ]; try (by left; apply Hsame).
  - left. apply Hsame. apply owned_kept; [|simpl; intros; congruence|done].
    destruct Hu as (k & n & Hn & (<- & _)%active_owner_spec & _).
    destruct (tk_mem_org _ (tc_keys _ Hc) _ _ Hn) as [q Hq].
    destruct (active_owner _ m) eqn:E; [|done]. apply active_owner_spec in E as (E & _). congruence.
  - destruct (decide (org_id og = o)) as [<-|Hneo].
    + right. assert (Hum : u = actor).
      { rewrite <- Hmu. eapply (owned_unique (org_id og)); [by split|done|].
        exists (mem_id m), m. split_and!; [done|by apply active_owner_spec|done]. }
      split; [done|]. assert (v = mem_user t) as ->.
      { eapply (owned_unique (org_id og)); [done|done|]. exists (mem_id t), (t <| mem_role := OWNER |>).
        split_and!; [by apply lookup_insert_eq|by apply active_owner_spec|done]. }
      apply qexists_true. exists (mem_id t), t. split; [done|].
      by rewrite Hto, !N.eqb_refl.
    + left. apply Hsame. assert (Hout : ∀ x, mem_organization x = org_id og → active_owner o x = false).
      { intros x Hx. destruct (active_owner o x) eqn:E; [|done].
        apply active_owner_spec in E as (E & _). congruence. }
      apply owned_kept; [by apply Hout| |apply owned_kept; [by apply Hout| |done]]; simpl; intros x.
      * rewrite lookup_insert_ne by done. intros Hx. simplify_eq. by apply Hout.
      * intros Hx. simplify_eq. by apply Hout.
  - left. apply Hsame, owned_kept; [by apply role_not_owner| |done].
    simpl. intros x Hx. simplify_eq. by apply role_not_owner.
  - left. apply Hsame, owned_kept; [by apply inactive_not_owner| |done].
    simpl. intros x Hx. simplify_eq. by eapply elsewhere_not_owner.
  - left. apply Hsame. apply (owned_kept d m); [| |done].
    + apply role_not_owner. destruct Hj as (_ & _ & -> & _). by eapply (tc_role _ Hc).
    + intros x Hx. apply inactive_not_owner. by eapply joining_inactive.
Qed.

(** Teams are never deleted. *)
Lemma step_organization actor d d' k o :
  team_step actor d d' → organizations d !! k = Some o → is_Some (organizations d' !! k).
Proof. intros [] Ho; simpl; rewrite ?lookup_insert_is_Some'; eauto. Qed.

(** C32: Ownership is the owner's to give: a team has one owner at a time, and if
    a call, whatever it is and however it ends, leaves the team with another
    one, then the caller was the owner and the new owner was an active member
    of the team.  Nobody else can take a team over, no role change, invite or
    revocation can demote its owner. *)
Theorem ownership_moves_by_owner _hash_token actor c e w r w' o u :
  team_call _hash_token actor c e w = (r, w') → aborted w = false → team_inv (db w) →
  owned_by o u (db w) →
  ∃ v, owned_by o v (db w') ∧ (∀ v', owned_by o v' (db w') → v' = v) ∧
    (v = u ∨ u = actor ∧ active_member o v (db w) = true).
Proof.
  intros H Hw Hi Hu. pose proof (call_step _ _ _ _ _ _ _ H Hw Hi) as Hs.
  assert (Hi' : team_inv (db w')) by (destruct Hs as [->|Hs]; [done|by eapply team_inv_step]).
  destruct Hs as [Hs|Hs].
  - exists u. split_and!; [by rewrite Hs| |by left]. intros v' Hv'. rewrite Hs in Hv'. exact (owned_unique o v' u _ Hi Hv' Hu).
  - assert (∃ v, owned_by o v (db w')) as [v Hv].
    { destruct Hu as (k & n & Hn & (<- & _)%active_owner_spec & _).
      destruct (tk_mem_org _ (tc_keys _ (proj1 Hi)) _ _ Hn) as [q Hq].
      destruct (step_organization _ _ _ _ _ Hs Hq) as [q' Hq'].
      destruct (proj2 Hi' _ _ Hq') as (j & p & Hp & Hpo & _). by exists (mem_user p), j, p. }
    exists v. split_and!; [done| |].
    + intros v' Hv'. exact (owned_unique o v' v _ Hi' Hv' Hv).
    + destruct (owned_step _ _ _ _ _ _ Hs Hi Hu Hv) as [->|?]; auto.
Qed.

(** What a person may spend from a team's account: an active member who is not
    a viewer, while the team is active. *)
Definition may_spend (o : Organization) (m : Membership) : Prop :=
  org_status o = ORG_ACTIVE ∧ mem_status m = MEM_ACTIVE ∧ mem_role m ≠ VIEWER.

#[export] Instance may_spend_dec o m : Decision (may_spend o m).
Proof. unfold may_spend. apply _. Defined.

(** The answer to a person who names a team to spend for: "not found" unless
    the team exists and has a row for the person, whatever its status;
    "permission denied" when that row or the team may not spend; and otherwise
    the team's own account, with the membership and its permissions. *)
Inductive spending_answer (user organization : pk) (d : Db) : Res AccountContext → Prop :=
  | answer_hidden :
      (∀ o m, organizations d !! organization = Some o → ¬ member_row o user m d) →
      spending_answer user organization d (Raise NotFound)
  | answer_denied o m :
      organizations d !! organization = Some o → member_row o user m d → ¬ may_spend o m →
      spending_answer user organization d (Raise PermissionDenied)
  | answer_granted o a m p :
      organizations d !! organization = Some o → member_row o user m d → may_spend o m →
      accounts d !! org_account o = Some a → acc_user a = None →
      permissions_for_role (role_text (mem_role m)) = Ok p → can_spend p = true →
      spending_answer user organization d
        (Ok (mkContext "organization" a (Some o) (Some m) (Some (mem_role m)) (Some p))).

Lemma may_spend_role r p :
  permissions_for_role (role_text r) = Ok p → can_spend p = true ↔ r ≠ VIEWER.
Proof. destruct r; vm_compute; intros [= <-]; simpl; split; congruence. Qed.

Lemma membership_found d o user m :
  team_core d → member_row o user m d →
  qfirst (membership_of (org_id o) user) (memberships d) = Some m.
Proof.
  intros Hc (Hm & Ho & Hu). apply (qfirst_unique _ _ (mem_id m)); [done|by apply membership_of_spec|].
  intros k n Hn [E1 E2]%membership_of_spec. symmetry.
  pose proof (tk_mem _ (tc_keys _ Hc) _ _ Hn) as <-.
  by eapply acting_row_unique; [..|congruence|congruence].
Qed.

Lemma spending_team_run user organization e w :
  aborted w = false → team_core (db w) →
  ∃ r, spending_context user (Some organization) e w = (r, w) ∧
    spending_answer user organization (db w) r.
Proof.
  intros Hw Hc. unfold spending_context, resolve_account_context, resolve_organization_context.
  rewrite bind_run, bind_run, query_run by done. unfold organization_with_account.
  destruct (organizations (db w) !! organization) as [o|] eqn:Ho.
  2: { eexists. split; [done|]. apply answer_hidden. congruence. }
  pose proof (tk_org _ (tc_keys _ Hc) _ _ Ho) as <-.
  destruct (tc_account _ Hc _ _ Ho) as [(a & Ha & _ & Hau) _]. rewrite Ha.
  rewrite bind_run, query_run by done.
  destruct (qfirst _ _) as [m|] eqn:Hm.
  2: { eexists. split; [done|]. apply answer_hidden. intros o' m E Hr. simplify_eq.
       by rewrite (membership_found _ _ _ _ Hc Hr) in Hm. }
  assert (Hrow : member_row o user m (db w)).
  { apply qfirst_Some in Hm as (k & Hm & [? ?]%membership_of_spec).
    by pose proof (tk_mem _ (tc_keys _ Hc) _ _ Hm) as <-. }
  rewrite bind_run. unfold raise_if at 1.
  destruct (bool_decide (mem_status m = MEM_ACTIVE)) eqn:Hma; simpl; bool_to_prop.
  2: { eexists. split; [done|]. eapply answer_denied; [done..|]. by intros (? & ? & _). }
  destruct (permissions_for_role (role_text (mem_role m))) as [p|] eqn:Hp;
    [|by destruct (mem_role m)].
  simpl. rewrite bind_run. unfold require_spend, require_org_mutation, require_permission. simpl.
  rewrite bind_run. unfold raise_if at 1.
  destruct (bool_decide (org_status o = ORG_ACTIVE)) eqn:Hs; simpl; bool_to_prop.
  2: { eexists. split; [done|]. eapply answer_denied; [done..|]. by intros (? & ? & _). }
  unfold raise_if. pose proof (may_spend_role _ _ Hp) as Hv.
  destruct (can_spend p) eqn:Hcs; simpl; eexists; (split; [done|]).
  - apply answer_granted; try done. split_and!; [done|done|by apply Hv].
  - eapply answer_denied; [done..|]. intros (_ & _ & Hnv). apply Hv in Hnv. congruence.
Qed.

(** C33: The account a purchase is charged to, decided exactly.  Without an
    organization it is always the caller's own account, in a personal context
    without role or permissions: the one stored, or one provisioned empty when
    the caller has none (its key being new).  With one, nothing changes and the
    answer is the declarative one: "not found" to anybody without a row in that
    team, and for no other reason; "permission denied" to a suspended or revoked
    member, a viewer, or anyone while the team is not active; and to every other
    member the team's own account, which is no person's, with the membership,
    its role and that role's permissions. *)
Theorem spending_context_decides user organization_id e w :
  aborted w = false → team_inv (db w) →
  (account_of_user user (db w) = None → accounts (db w) !! next_uuid w = None) →
  ∃ r w', spending_context user organization_id e w = (r, w') ∧
    match organization_id with
    | None => ∃ a, r = Ok (mkContext "personal" a None None None None) ∧
        acc_user a = Some user ∧ provisioned user (db w) (db w') a
    | Some o => w' = w ∧ spending_answer user o (db w) r
    end.
Proof.
  intros Hw [Hc _] Hn. destruct organization_id as [o|].
  - destruct (spending_team_run user o e w Hw Hc) as (r & H & Hr). by exists r, w.
  - destruct (ensure_account_run user e w Hw Hn) as (a & w' & E).
    exists (Ok (mkContext "personal" a None None None None)), w'.
    unfold spending_context, resolve_account_context, resolve_personal_context.
    rewrite !bind_run, E. simpl. split; [done|]. exists a. apply ensure_account_Ok in E as [Hp _]; [|done].
    split_and!; [done| |done]. destruct Hp as [[_ Ha]|[-> _]]; [|done].
    apply qfirst_Some in Ha as (k & _ & Ha). by bool_to_prop.
Qed.

(** ** Running an acceptance forward *)

(** The guard lets a non-customer in. *)
Lemma guard_run user organization e w u :
  aborted w = false → depth w ≠ 0%nat → team_keys (db w) → users (db w) !! user = Some u →
  no_customer user organization (db w) →
  ensure_active_membership_allowed user organization e w = (Ok tt, w).
Proof.
  intros Hw Hd Hk Hu Hnc. unfold ensure_active_membership_allowed, lock_self_referral_rows.
  rewrite bind_run, query_run by done.
  destruct (List.find _ _) as [c|] eqn:Hc; [|done].
  apply List.find_some in Hc as [Hin HP].
  apply list_elem_of_In, elem_of_rows_by_pk in Hin as [k Hck]. unfold is_team_channel in HP. bool_to_prop.
  rewrite bind_run, bind_run. erewrite get_locked_run by done.
  rewrite bind_run, locked_query_run by done. simpl. rewrite bind_run, query_run by done.
  destruct (qexists _ _) eqn:E; [|done]. apply qexists_true in E as (j & a & Ha & HP). bool_to_prop.
  exfalso. eapply Hnc; [exact Hck|done|done|exact Ha|done|].
  by rewrite <- (tk_channel _ Hk _ _ Hck).
Qed.

Lemma reject_run user o e w u :
  aborted w = false → depth w ≠ 0%nat → team_keys (db w) → users (db w) !! user = Some u →
  no_customer user (org_id o) (db w) →
  _reject_attributed_member user o e w = (Ok tt, w).
Proof. intros. unfold _reject_attributed_member. apply try_run. by eapply guard_run. Qed.

(** A row that is not an active owner's clashes only with the same person's. *)
Lemma membership_verdict_run d m :
  mem_role m ≠ OWNER →
  (∀ k n, memberships d !! k = Some n → mem_organization n = mem_organization m →
     mem_user n = mem_user m → mem_id n = mem_id m) →
  membership_verdict d m = None.
Proof.
  intros Hr Hu. unfold membership_verdict. destruct (qexists _ _) eqn:E; [|done].
  apply qexists_true in E as (k & n & Hn & HP). apply andb_true_iff in HP as [Hne HP].
  unfold membership_clash in HP. rewrite (role_not_owner m) in HP by done.
  rewrite orb_false_r in HP. apply membership_of_spec in HP as [? ?].
  rewrite (Hu _ _ Hn), N.eqb_refl in Hne by done. done.
Qed.

Lemma get_or_create_membership_run o user role e w :
  aborted w = false → team_core (db w) → role ≠ OWNER →
  memberships (db w) !! next_uuid w = None →
  ∃ m w', get_or_create_membership o user role e w = (Ok m, w') ∧ aborted w' = false ∧
    db w' = put_member m (db w) ∧
    ∀ k n, memberships (db w') !! k = Some n → mem_organization n = mem_organization m →
      mem_user n = mem_user m → mem_id n = mem_id m.
Proof.
  intros Hw Hc Hr Hn. unfold get_or_create_membership. rewrite bind_run, query_run by done.
  destruct (qfirst _ _) as [m|] eqn:Hf.
  - apply qfirst_Some in Hf as (k & Hm & _).
    pose proof (tk_mem _ (tc_keys _ Hc) _ _ Hm) as <-. exists m, w. split_and!; try done.
    + by rewrite put_member_same.
    + intros j n Hj ? ?. rewrite (tk_mem _ (tc_keys _ Hc) _ _ Hj). by eapply (tc_unique _ Hc).
  - rewrite qfirst_None in Hf.
    assert (Hnone : ∀ k n, memberships (db w) !! k = Some n → mem_organization n = o → mem_user n = user → False).
    { intros k n Hk <- <-. specialize (Hf _ _ Hk). unfold membership_of in Hf. by rewrite !N.eqb_refl in Hf. }
    eexists _, _. split.
    { apply try_run, atomic_run; [|].
      - erewrite bind_step by done. erewrite bind_step; [done|]. apply create_run; [done..|].
        apply membership_verdict_run; [done|]. simpl. intros k n Hk ? ?. by destruct (Hnone k n).
      - done. }
    simpl. split_and!; try done. intros k n [[<- <-]|[_ Hk]]%lookup_insert_Some ? ?; [done|].
    by destruct (Hnone k n).
Qed.

Lemma invite_verdict_run d i :
  inv_role i ≠ OWNER → inv_status i ≠ INV_PENDING →
  (∀ k j, organization_invites d !! k = Some j → inv_token_hash j = inv_token_hash i → inv_id j = inv_id i) →
  invite_verdict d i = None.
Proof.
  intros Hr Hs Hu. unfold invite_verdict. rewrite bool_decide_eq_false_2 by done.
  destruct (qexists _ _) eqn:E; [|done]. apply qexists_true in E as (k & j & Hj & HP).
  unfold invite_clash in HP. rewrite (bool_decide_eq_false_2 (inv_status i = _)) in HP by done.
  rewrite orb_false_r in HP. bool_to_prop. by destruct (Hu _ _ Hj).
Qed.

Lemma join_organization_run actor i t e w :
  aborted w = false → team_core (db w) → organization_invites (db w) !! inv_id i = Some i →
  memberships (db w) !! next_uuid w = None →
  ∃ r w', join_organization actor i t e w = (Ok r, w') ∧ aborted w' = false.
Proof.
  intros Hw Hc Hi Hn. pose proof (tc_role _ Hc _ _ Hi) as Hr. unfold join_organization.
  destruct (get_or_create_membership_run (inv_organization i) actor (inv_role i) e w)
    as (m & w1 & Hrun & Hw1 & Hdb & Huniq); [done..|].
  rewrite bind_run, Hrun. rewrite bind_run.
  set (f := λ m : Membership, _). assert (∃ m' w2,
    (if negb (active_row m) || negb (bool_decide (mem_role m = inv_role i))
     then save_membership m f else ret m) e w1 = (Ok m', w2) ∧ aborted w2 = false ∧
    organization_invites (db w2) = organization_invites (db w)) as (m' & w2 & -> & Hw2 & Hinv).
  { case_match; [|exists m, w1; by rewrite Hdb].
    eexists _, _. split_and!.
    - unfold save_membership. erewrite bind_step; [done|]. apply save_fields_run; [done| |].
      + rewrite Hdb. apply lookup_insert_eq.
      + by apply membership_verdict_run.
    - done.
    - simpl. by rewrite Hdb. }
  eexists _, _. split; [|].
  - erewrite bind_step; [done|]. apply save_fields_run; [done|by rewrite Hinv|].
    apply invite_verdict_run; [done|done|]. simpl. rewrite Hinv. intros k j Hj E.
    rewrite (tk_inv _ (tc_keys _ Hc) _ _ Hj). by eapply (tc_token _ Hc).
  - done.
Qed.

(** ** Inviting and accepting *)

Section RoundTrip.
Context (_hash_token : string → string).

Lemma invite_found d i o :
  team_core d → organization_invites d !! inv_id i = Some i →
  organizations d !! inv_organization i = Some o →
  invite_by_token (inv_token_hash i) d = Some (i, o).
Proof.
  intros Hc Hi Ho. unfold invite_by_token. rewrite (qfirst_unique _ _ (inv_id i) i); [by rewrite Ho|done| |].
  - by apply bool_decide_eq_true.
  - intros k j Hj E. bool_to_prop.
    assert (k = inv_id i) as -> by (by eapply (tc_token _ Hc)). congruence.
Qed.

(** The addressee's token opens the door. *)
Lemma accept_invite_succeeds actor raw_token u o i e w :
  aborted w = false → team_core (db w) → strip raw_token ≠ "" → opens _hash_token raw_token i (db w) →
  inv_status i = INV_PENDING → clock e (tick w) < inv_expires_at i →
  organizations (db w) !! inv_organization i = Some o → org_status o = ORG_ACTIVE →
  users (db w) !! actor = Some u →
  normalize_invite_email (user_email u) = inv_email_normalized i →
  no_customer actor (inv_organization i) (db w) → memberships (db w) !! next_uuid w = None →
  ∃ r w', accept_invite _hash_token actor raw_token e w = (Ok r, w') ∧ aborted w' = false.
Proof.
  intros Hw Hc Hraw [Hi Hh] Hs Ht Ho Hos Hu He Hnc Hn. unfold accept_invite.
  rewrite bind_run. unfold raise_if at 1. rewrite bool_decide_eq_false_2 by done.
  assert (∃ r w1, accept_locked actor (_hash_token (strip raw_token)) e (enter w) = (Ok (Some r), w1) ∧
    aborted w1 = false) as (r & w1 & Hrun & Hw1).
  { unfold accept_locked. erewrite bind_step by (by apply get_locked_run).
    erewrite bind_step by (by apply locked_query_run). simpl. rewrite <- Hh.
    rewrite (invite_found _ _ _ Hc Hi Ho), bind_run. unfold now at 1. rewrite Hs.
    rewrite (proj2 (Z.leb_gt _ _)) by done. rewrite Hos, He.
    rewrite bind_run. unfold raise_if at 1. rewrite bool_decide_eq_true_2 by done. simpl.
    rewrite bind_run. unfold raise_if at 1. rewrite bool_decide_eq_true_2 by done. simpl.
    erewrite bind_step; [|eapply reject_run; try done; [by apply Hc|]].
    2: { by rewrite (tk_org _ (tc_keys _ Hc) _ _ Ho). }
    destruct (join_organization_run actor i (clock e (tick w)) e
      (enter w <| tick := S (tick w) |>)) as (r & w2 & Hj & Hw2); [done..|].
    exists r, w2. split; [|done]. by erewrite bind_step. }
  exists r. eexists. split; [|].
  - simpl. erewrite bind_step by (by apply atomic_run). done.
  - done.
Qed.

(** Anybody else's hand does not, and nobody's does after the deadline, when
    the invite is marked expired. *)
Lemma accept_invite_refused actor raw_token u o i e w :
  aborted w = false → team_core (db w) → strip raw_token ≠ "" → opens _hash_token raw_token i (db w) →
  inv_status i = INV_PENDING →
  organizations (db w) !! inv_organization i = Some o → org_status o = ORG_ACTIVE →
  users (db w) !! actor = Some u →
  let late := bool_decide (inv_expires_at i ≤ clock e (tick w)) in
  late = true ∨ normalize_invite_email (user_email u) ≠ inv_email_normalized i →
  ∃ w', accept_invite _hash_token actor raw_token e w = (Raise InviteInvalidError, w') ∧
    db w' = (if late then put_invite (i <| inv_status := INV_EXPIRED |>) (db w) else db w).
Proof.
  intros Hw Hc Hraw [Hi Hh] Hs Ho Hos Hu late Hwhy. unfold accept_invite.
  rewrite bind_run. unfold raise_if at 1. rewrite bool_decide_eq_false_2 by done. simpl.
  assert (Hpre : accept_locked actor (_hash_token (strip raw_token)) e (enter w) =
    (if late then
       (save_fields organization_invites invite_verdict (inv_id i)
          (λ i, i <| inv_status := INV_EXPIRED |>);;; ret None) e (enter w <| tick := S (tick w) |>)
     else (Raise InviteInvalidError, enter w <| tick := S (tick w) |>))).
  { unfold accept_locked. erewrite bind_step by (by apply get_locked_run).
    erewrite bind_step by (by apply locked_query_run). simpl. rewrite <- Hh.
    rewrite (invite_found _ _ _ Hc Hi Ho), bind_run. unfold now at 1. rewrite Hs.
    unfold late in *. case_bool_decide as Hl.
    - by rewrite (proj2 (Z.leb_le _ _)).
    - destruct Hwhy as [|Hne]; [done|]. rewrite (proj2 (Z.leb_gt _ _)) by (simpl; lia). rewrite Hos.
      rewrite bind_run. unfold raise_if at 1. rewrite bool_decide_eq_true_2 by done. simpl.
      rewrite bind_run. unfold raise_if at 1. by rewrite bool_decide_eq_false_2. }
  destruct late; rewrite bind_run.
  - assert (Hsave : save_fields organization_invites invite_verdict (inv_id i)
        (λ i, i <| inv_status := INV_EXPIRED |>) e (enter w <| tick := S (tick w) |>) =
      (Ok tt, enter w <| tick := S (tick w) |> <| db := put_invite (i <| inv_status := INV_EXPIRED |>) (db w) |>)).
    { rewrite (save_fields_run organization_invites invite_verdict _ _ _ _ i); [done|done|exact Hi|].
      apply invite_verdict_run; [exact (tc_role _ Hc _ _ Hi)|done|].
      intros k j Hj E. rewrite (tk_inv _ (tc_keys _ Hc) _ _ Hj). by eapply (tc_token _ Hc). }
    rewrite bind_run, Hsave in Hpre. erewrite atomic_run by (exact Hpre || done). by eexists.
  - unfold atomic. fold (enter w). rewrite Hpre. by eexists.
Qed.

(** A spent token answers only the person who spent it. *)
Lemma accept_again actor raw_token o i m e w :
  aborted w = false → team_core (db w) → strip raw_token ≠ "" → opens _hash_token raw_token i (db w) →
  inv_status i = INV_ACCEPTED → is_Some (users (db w) !! actor) →
  organizations (db w) !! inv_organization i = Some o →
  (inv_accepted_by i = Some actor → member_row o actor m (db w)) →
  ∃ w', accept_invite _hash_token actor raw_token e w =
    (if bool_decide (inv_accepted_by i = Some actor) then Ok (mkInviteAccepted m i true)
     else Raise InviteInvalidError, w') ∧ db w' = db w.
Proof.
  intros Hw Hc Hraw [Hi Hh] Hs [u Hu] Ho Hm. unfold accept_invite.
  rewrite bind_run. unfold raise_if at 1. rewrite bool_decide_eq_false_2 by done.
  assert (accept_locked actor (_hash_token (strip raw_token)) e (enter w) =
    (if bool_decide (inv_accepted_by i = Some actor) then Ok (Some (mkInviteAccepted m i true))
     else Raise InviteInvalidError, enter w <| tick := S (tick w) |>)) as Hrun.
  { unfold accept_locked. erewrite bind_step by (by apply get_locked_run).
    erewrite bind_step by (by apply locked_query_run). simpl. rewrite <- Hh.
    rewrite (invite_found _ _ _ Hc Hi Ho), bind_run. unfold now at 1. rewrite Hs.
    case_bool_decide as Hby; [|done]. rewrite bind_run, query_run by done. simpl.
    specialize (Hm Hby). rewrite <- (tk_org _ (tc_keys _ Hc) _ _ Ho).
    by rewrite (membership_found _ _ _ _ Hc Hm). }
  simpl. rewrite bind_run. unfold atomic. fold (enter w). rewrite Hrun.
  case_bool_decide; [|by eexists]. simpl. rewrite Hw. by eexists.
Qed.

Lemma opens_unique raw_token i j d :
  team_core d → opens _hash_token raw_token i d → opens _hash_token raw_token j d → i = j.
Proof.
  intros Hc [Hi Ei] [Hj Ej]. assert (E : inv_id i = inv_id j).
  { eapply (tc_token _ Hc); [exact Hi|exact Hj|congruence]. }
  rewrite E in Hi. congruence.
Qed.

(** A created invite is on file, under the token that was handed out. *)
Lemma created_opens actor organization email role e w r w1 :
  create_invite _hash_token actor organization email role e w = (Ok r, w1) →
  aborted w = false → team_inv (db w) → strip (icr_raw_token r) = icr_raw_token r →
  let i := icr_invite r in
  team_inv (db w1) ∧ opens _hash_token (icr_raw_token r) i (db w1) ∧
  inv_status i = INV_PENDING ∧ grantable_role role = Some (inv_role i) ∧
  inv_organization i = organization ∧ inv_email_normalized i = normalize_invite_email email ∧
  ∃ o, organizations (db w1) !! inv_organization i = Some o ∧ org_status o = ORG_ACTIVE.
Proof.
  intros H Hw Hi Hraw. apply create_invite_Ok in H as (o & m & x & Hacts & Ho & Hx & Hinv); [|done..].
  pose proof (invited_step _ _ _ _ _ _ _ _ _ _ _ Hacts Hx Hinv) as Hs.
  split; [by eapply team_inv_step|].
  destruct Hinv as (_ & Hh & Hio & Hn & _ & Hr & Hst & _ & _ & _ & _ & _ & Hdb & _).
  rewrite Hdb. split_and!; try done.
  - split; [apply lookup_insert_eq|]. by rewrite Hraw.
  - by rewrite Hr.
  - congruence.
  - exists o. destruct Hacts as (Hoo & _ & _ & _ & _ & Hos & _). by rewrite Hio.
Qed.

(** What a pending invite's token does is join. *)
Lemma admitted_pending actor raw_token t d r d' i :
  admitted _hash_token actor raw_token t d r d' → team_core d → opens _hash_token raw_token i d →
  inv_status i = INV_PENDING →
  ∃ m, joining (inv_organization i) actor (inv_role i) m d ∧
    r = mkInviteAccepted m (accepted actor t i) false ∧
    d' = put_invite (accepted actor t i) (put_member m d).
Proof.
  intros [j m Hj Hs|v o j m Hj _ _ _ _ _ _ _ Hjoin] Hc Hi Hp;
    rewrite (opens_unique _ _ _ _ Hc Hi Hj) in *; [congruence|]. by exists m.
Qed.

(** C34: Inviting and accepting are inverse, for exactly the addressee: the
    token a create returns, given back before it expires by a person whose
    e-mail is the one it was addressed to, makes that person an active member of
    that team in exactly the invited role; given back once more it answers the
    same person with the same membership and anybody else with "invalid", and
    writes nothing.  Given back in time by a person with any other e-mail it
    answers "invalid" and writes nothing; given back too late it answers
    everybody "invalid", and all it writes is that the invite has expired. *)
Theorem invite_round_trip inviter organization email role e w r w1 w2 :
  create_invite _hash_token inviter organization email role e w = (Ok r, w1) →
  aborted w = false → team_inv (db w) →
  strip (icr_raw_token r) = icr_raw_token r → icr_raw_token r ≠ "" →
  db w2 = db w1 → aborted w2 = false →
  let i0 := icr_invite r in
  ∀ actor u, users (db w2) !! actor = Some u →
  if decide (inv_expires_at i0 ≤ clock e (tick w2)) then
    ∃ w3, accept_invite _hash_token actor (icr_raw_token r) e w2 = (Raise InviteInvalidError, w3) ∧
      db w3 = put_invite (i0 <| inv_status := INV_EXPIRED |>) (db w2)
  else if decide (normalize_invite_email (user_email u) = normalize_invite_email email) then
    no_customer actor organization (db w2) → memberships (db w2) !! next_uuid w2 = None →
    ∃ m i w3, accept_invite _hash_token actor (icr_raw_token r) e w2 =
        (Ok (mkInviteAccepted m i false), w3) ∧
      mem_organization m = organization ∧ mem_user m = actor ∧ role_text (mem_role m) = role ∧
      active_row m = true ∧ memberships (db w3) !! mem_id m = Some m ∧
      ∀ person w4, db w4 = db w3 → aborted w4 = false → is_Some (users (db w4) !! person) →
        ∃ w5, accept_invite _hash_token person (icr_raw_token r) e w4 =
          (if bool_decide (person = actor) then Ok (mkInviteAccepted m i true)
           else Raise InviteInvalidError, w5) ∧ db w5 = db w4
  else
    ∃ w3, accept_invite _hash_token actor (icr_raw_token r) e w2 = (Raise InviteInvalidError, w3) ∧
      db w3 = db w2.
Proof.
  intros H Hw Hi Hraw Hne Hdb Hw2 i actor u Hu.
  destruct (created_opens _ _ _ _ _ _ _ _ H Hw Hi Hraw)
    as (Hi1 & Hopen & Hs & Hrole & Horg & Hem & o & Ho & Hos).
  fold i in Hopen, Hs, Hrole, Horg, Hem, Ho. rewrite <- Hdb in Hi1, Hopen, Ho.
  pose proof (accept_invite_refused actor (icr_raw_token r) u o i e w2 Hw2 (proj1 Hi1)
    ltac:(by rewrite Hraw) Hopen Hs Ho Hos Hu) as Hrefused. simpl in Hrefused.
  destruct (decide (inv_expires_at i ≤ _)) as [Ht|Ht].
  { rewrite bool_decide_eq_true_2 in Hrefused by done. apply Hrefused. by left. }
  rewrite bool_decide_eq_false_2 in Hrefused by done.
  destruct (decide (normalize_invite_email (user_email u) = _)) as [He|He].
  2: { apply Hrefused. right. by rewrite Hem. }
  intros Hnc Hn.
  destruct (accept_invite_succeeds actor (icr_raw_token r) u o i e w2)
    as (res & w3 & Hacc & Hw3);
    try done; [apply Hi1|by rewrite Hraw|lia|by rewrite Hem|by rewrite Horg|].
  pose proof (accept_invite_run _ _ _ _ _ _ _ Hacc Hw2 (tc_keys _ (proj1 Hi1))) as Had.
  assert (Hi3 : team_inv (db w3)).
  { destruct (admitted_step _ _ _ _ _ _ _ Had) as [->|Hst]; [done|by eapply team_inv_step]. }
  destruct (admitted_pending _ _ _ _ _ _ i Had (proj1 Hi1) Hopen Hs)
    as (m & (Hmo & Hmu & Hmr & Hma & _) & -> & Hdb3).
  exists m, (accepted actor (clock e (tick w2)) i), w3. split; [done|].
  assert (Hrt : role_text (mem_role m) = role).
  { rewrite Hmr. unfold grantable_role in Hrole. apply List.find_some in Hrole as [_ E].
    by bool_to_prop. }
  assert (Hrow : memberships (db w3) !! mem_id m = Some m).
  { rewrite Hdb3. apply lookup_insert_eq. }
  split_and!; [congruence|done|done|done|done|].
  intros person w4 Hdb4 Hw4 Hp.
  destruct (accept_again person (icr_raw_token r) o (accepted actor (clock e (tick w2)) i) m e w4)
    as (w5 & -> & ?); rewrite ?Hdb4 in *; try done.
  - apply Hi3.
  - congruence.
  - split; [|by destruct Hopen]. rewrite Hdb3. apply lookup_insert_eq.
  - by rewrite Hdb3.
  - simpl. intros [= <-]. split_and!; [done| |done].
    rewrite Hmo. symmetry. by apply (tk_org _ (tc_keys _ (proj1 Hi1))).
  - exists w5. split; [|done]. simpl.
    destruct (decide (person = actor)) as [->|Hpa].
    + by rewrite !bool_decide_eq_true_2.
    + rewrite !bool_decide_eq_false_2; congruence.
Qed.
End RoundTrip.

(** ** A concrete team *)

(** Ann and Bob, before any team. *)
Definition people_db : Db :=
  empty_db <| users := {[ 1%N := mkUser 1 true "ann@acme.io" false; 2%N := mkUser 2 true "Bob@acme.io" false ]} |>.

Ltac no_row Hno :=
  intros; match goal with H : _ !! _ = Some _ |- _ => destruct (Hno _ _ _ H) end.

Lemma people_inv : team_books people_db.
Proof.
  assert (Hno : ∀ V k (v : V), (∅ : gmap pk V) !! k = Some v → False).
  { intros V k v. by rewrite lookup_empty. }
  split; [split|split].
  - split; simpl; try no_row Hno. split; simpl; try no_row Hno.
    intros k u [[<- <-]|[_ [<- <-]%lookup_singleton_Some]]%lookup_insert_Some; reflexivity.
  - intros k o Hk. destruct (Hno _ _ _ Hk).
  - split; simpl; try no_row Hno. intros en u Hin. by apply elem_of_nil in Hin.
  - split; simpl; try no_row Hno; try done; try (intros en Hin; by apply elem_of_nil in Hin).
    constructor.
Qed.

(** Ann founds a team, invites Bob, Bob joins with the token, the first text
    drawn. *)
Definition acme_calls : list (pk * TeamCall) :=
  [(1%N, CreateOrganization " Acme " ORG_ACTIVE); (1%N, CreateInvite 1001 "bob@acme.io" "member");
   (2%N, AcceptInvite "0")].
Definition acme : World := (run_calls (λ s, s) acme_calls sample_env (world_of people_db)).2.

Example acme_runs :
  memberships (db acme) = {[ 1002%N := mkMembership 1002 1001 1 OWNER MEM_ACTIVE;
                             1004%N := mkMembership 1004 1001 2 MEMBER MEM_ACTIVE ]} ∧
  org_name <$> (organizations (db acme) !! 1001%N) = Some "Acme".
Proof. split; vm_compute; reflexivity. Qed.

Lemma acme_inv : team_inv (db acme) ∧ aborted acme = false ∧ depth acme = 0%nat.
Proof.
  destruct (run_calls (λ s, s) acme_calls sample_env (world_of people_db)) as [r w] eqn:E.
  destruct (run_calls_reach _ _ _ _ _ _ E eq_refl eq_refl (proj1 people_inv)) as (_ & ? & ? & Hr).
  unfold acme. rewrite E. split_and!; [|done..]. by destruct (reach_books _ _ _ Hr people_inv).
Qed.

Lemma histories_refine_contract_witness :
  ∃ w', run_calls (λ s, s) acme_calls sample_env (world_of people_db) = (Ok tt, w') ∧
    rtc (step_by [1; 1; 2]%N) people_db (db w').
Proof.
  apply (histories_refine_contract (λ s, s) acme_calls sample_env (world_of people_db)
    eq_refl eq_refl (proj1 people_inv)).
Defined.

(** Ann hands the team to Bob. *)
Lemma ownership_moves_by_owner_witness :
  ∃ v, owned_by 1001 v
      (db (team_call (λ s, s) 1 (TransferOwnership 1001 2) sample_env acme).2) ∧
    (v = 1%N ∨ 1%N = 1%N ∧ active_member 1001 v (db acme) = true).
Proof.
  destruct (team_call (λ s, s) 1 (TransferOwnership 1001 2) sample_env acme) as [r w'] eqn:E.
  destruct (ownership_moves_by_owner (λ s, s) 1 _ sample_env acme r w' 1001 1 E
    (proj1 (proj2 acme_inv)) (proj1 acme_inv)) as (v & Hv & _ & Hor).
  - exists 1002%N, (mkMembership 1002 1001 1 OWNER MEM_ACTIVE). split_and!; vm_compute; reflexivity.
  - exists v. split; [exact Hv|]. destruct Hor as [->|[_ H]]; [by left|right; by split].
Defined.

(** The hand-over did happen. *)
Example acme_handed_over :
  memberships (db (team_call (λ s, s) 1 (TransferOwnership 1001 2) sample_env acme).2) =
  {[ 1002%N := mkMembership 1002 1001 1 ADMIN MEM_ACTIVE;
     1004%N := mkMembership 1004 1001 2 OWNER MEM_ACTIVE ]}.
Proof. vm_compute. reflexivity. Qed.

(** Bob, a member, spends from the team's account; a stranger does not see the
    team; and Bob's own purchases provision him an account of his own. *)
Lemma spending_context_decides_witness :
  (∃ r w', spending_context 2 (Some 1001%N) sample_env acme = (r, w') ∧
     spending_answer 2 1001 (db acme) r ∧ r ≠ Raise NotFound ∧ r ≠ Raise PermissionDenied) ∧
  (∃ w', spending_context 3 (Some 1001%N) sample_env acme = (Raise NotFound, w')) ∧
  ∃ a w', spending_context 2 None sample_env acme =
    (Ok (mkContext "personal" a None None None None), w') ∧ acc_user a = Some 2%N.
Proof.
  pose proof (λ u o H, spending_context_decides u o sample_env acme (proj1 (proj2 acme_inv))
      (proj1 acme_inv) H) as H. split; [|split].
  - destruct (H 2%N (Some 1001%N)) as (r & w' & E & _ & Hr); [reflexivity|].
    exists r, w'. split; [exact E|split; [exact Hr|]]. vm_compute in E. injection E as <- _.
    split; discriminate.
  - destruct (H 3%N (Some 1001%N)) as (r & w' & E & _); [reflexivity|].
    exists w'. rewrite E. vm_compute in E. injection E as <- _. reflexivity.
  - destruct (H 2%N None) as (r & w' & E & a & -> & Hu & _); [reflexivity|].
    exists a, w'. split; [exact E|exact Hu].
Defined.

(** Bob's invite, from the founding of the team. *)
Definition founded : World :=
  (run_calls (λ s, s) [(1%N, CreateOrganization "Acme" ORG_ACTIVE)] sample_env (world_of people_db)).2.

Lemma founded_inv : team_inv (db founded) ∧ aborted founded = false.
Proof.
  destruct (run_calls (λ s, s) [(1%N, CreateOrganization "Acme" ORG_ACTIVE)] sample_env
    (world_of people_db)) as [r w] eqn:E.
  destruct (run_calls_reach _ _ _ _ _ _ E eq_refl eq_refl (proj1 people_inv)) as (_ & ? & ? & Hr).
  unfold founded. rewrite E. split; [|done]. by destruct (reach_books _ _ _ Hr people_inv).
Qed.

Lemma invite_round_trip_witness :
  ∃ r w1 m i w3,
    create_invite (λ s, s) 1 1001 "Bob@Acme.io" "viewer" sample_env founded = (Ok r, w1) ∧
    accept_invite (λ s, s) 2 (icr_raw_token r) sample_env w1 = (Ok (mkInviteAccepted m i false), w3) ∧
    mem_user m = 2%N ∧ role_text (mem_role m) = "viewer" ∧
    ∃ w4, accept_invite (λ s, s) 1 (icr_raw_token r) sample_env w1 = (Raise InviteInvalidError, w4).
Proof.
  destruct (create_invite (λ s, s) 1 1001 "Bob@Acme.io" "viewer" sample_env founded)
    as [[r|x] w1] eqn:E; [|vm_compute in E; discriminate E].
  assert (Hc : strip (icr_raw_token r) = icr_raw_token r ∧ icr_raw_token r ≠ "" ∧ aborted w1 = false ∧
    users (db w1) !! 2%N = Some (mkUser 2 true "Bob@acme.io" false) ∧
    users (db w1) !! 1%N = Some (mkUser 1 true "ann@acme.io" false) ∧
    clock sample_env (tick w1) < inv_expires_at (icr_invite r) ∧
    qall (λ _, true) (channels (db w1)) = [] ∧ memberships (db w1) !! next_uuid w1 = None).
  { vm_compute in E. injection E as <- <-. vm_compute. split_and!; (reflexivity || discriminate). }
  destruct Hc as (H1 & H2 & H3 & Hbob & Hann & Hlt & Hch & Hn).
  pose proof (invite_round_trip (λ s, s) 1 1001 "Bob@Acme.io" "viewer" sample_env founded r w1 w1 E
    (proj2 founded_inv) (proj1 founded_inv) H1 H2 eq_refl H3) as H. cbv zeta in H.
  pose proof (H _ _ Hbob) as Hb. pose proof (H _ _ Hann) as Ha.
  rewrite decide_False in Ha, Hb by (apply Z.lt_nge; exact Hlt).
  rewrite decide_True in Hb by (vm_compute; reflexivity).
  rewrite decide_False in Ha by (vm_compute; discriminate).
  destruct Hb as (m & i & w3 & Hacc & _ & Hu & Hr & _); [|exact Hn|].
  { vm_compute in E. injection E as _ <-. vm_compute. intros k c ?. discriminate. }
  destruct Ha as (w4 & Ha & _).
  exists r, w1, m, i, w3. split_and!; [reflexivity|exact Hacc|exact Hu|exact Hr|exists w4; exact Ha].
Defined.
