(* ===== verification/Devices.v ===== *)
(** * Device bindings, fleet credentials and device lookup

    [apps/organizations/services]: [device_binding.py], [fleet_credential.py],
    [uem_serial.py], [uem_iccid.py], the authentication of [device_status.py],
    and the device search of [apps/integrations/blackberry_uem/client.py].
    Which eSIM a device stands for, the secrets that prove it, and finding a
    device in the fleet's inventory. *)

From S2P Require Import Prelude Strings Tables Money Models JsonValues EsimModels World Effects Credit Margin Attribution Memberships.
#[local] Open Scope Z_scope.

(** ** Table constraints *)

Definition binding_is_active (b : DeviceBinding) : bool :=
  bool_decide (bnd_status b = BINDING_ACTIVE).

Definition binding_clash (a b : DeviceBinding) : bool :=
  binding_is_active a && binding_is_active b &&
  ((bnd_esim a =? bnd_esim b)%N ||
   (bnd_organization a =? bnd_organization b)%N &&
   (bool_decide (bnd_device_external_id a = bnd_device_external_id b) ||
    negb (bool_decide (bnd_uem_serial_number a = "")) &&
    bool_decide (bnd_uem_serial_number a = bnd_uem_serial_number b))).

Definition binding_verdict (d : Db) (b : DeviceBinding) : option Exn :=
  if qexists (λ a, negb (bnd_id a =? bnd_id b)%N && binding_clash a b) (device_bindings d)
  then Some IntegrityError else None.

Definition fleet_verdict (d : Db) (f : OrganizationFleetCredential) : option Exn :=
  if bool_decide (flt_fleet_external_id f = "") || bool_decide (flt_current_credential_hash f = "") ||
     qexists (λ g, negb (flt_id g =? flt_id f)%N &&
       ((flt_organization g =? flt_organization f)%N ||
        bool_decide (flt_fleet_external_id g = flt_fleet_external_id f))) (fleet_credentials d)
  then Some IntegrityError else None.

Section Credentials.
(** [hashlib.sha256(raw.encode("utf-8")).hexdigest()] *)
Context (_hash_credential : string → string).

(** ** Device bindings *)

Definition _team_esim_or_404 (organization : Organization) (esim : pk) : M Esim :=
  let! found_ := query (λ d, esims d !! esim) in
  match found_ with
  | Some s => raise_if (negb (esim_account s =? org_account organization)%N) NotFound;;; ret s
  | None => raise NotFound
  end.

Definition _record_binding_event (b : DeviceBinding) (action : DeviceBindingEventAction)
    (actor : option pk) (previous : option pk) : M unit :=
  let! id := uuid4 in
  create device_binding_events unchecked id
    (mkBindingEvent id (bnd_organization b) (bnd_id b) (bnd_esim b) action actor
       (bnd_device_external_id b) previous).

Definition save_binding (b : DeviceBinding) (f : DeviceBinding → DeviceBinding) : M DeviceBinding :=
  save_fields device_bindings binding_verdict (bnd_id b) f;;;
  ret (f b).

Definition _clear_credential (b : DeviceBinding) : M DeviceBinding :=
  save_binding b (λ b, b <| bnd_credential_hash := "" |> <| bnd_credential_issued_at := None |>).

(** The binding as it leaves it, and the secret. *)
Definition _set_credential (b : DeviceBinding) (actor : option pk) (rotate : bool)
    : M (DeviceBinding * string) :=
  let! raw := draw in
  let! t := now in
  let! b := save_binding b (λ b, b <| bnd_credential_hash := _hash_credential raw |>
                                   <| bnd_credential_issued_at := Some t |>) in
  _record_binding_event b (if rotate then CREDENTIAL_ROTATE else CREDENTIAL_ISSUE) actor None;;;
  ret (b, raw).

Record DeviceBindingCreateResult := mkBindingCreated {
  dbr_binding : DeviceBinding;
  dbr_credential : string;
}.

(** Without the ordering by [created_at]. *)
Definition list_device_bindings (actor organization_id : pk) : M (list DeviceBinding) :=
  let! ctx := resolve_organization_context actor organization_id in
  require_view ctx;;;
  let! org := asserted (ctx_organization ctx) in
  query (λ d, qall (λ b, (bnd_organization b =? org_id org)%N) (device_bindings d)).

Definition binding_of (binding organization : pk) (d : Db) : option DeviceBinding :=
  match device_bindings d !! binding with
  | Some b => if (bnd_organization b =? organization)%N then Some b else None
  | None => None
  end.

Definition get_device_binding (actor organization_id binding_id : pk) : M DeviceBinding :=
  let! ctx := resolve_organization_context actor organization_id in
  require_view ctx;;;
  let! org := asserted (ctx_organization ctx) in
  let! found_ := query (binding_of binding_id (org_id org)) in
  match found_ with Some b => ret b | None => raise NotFound end.

(** The columns that close a binding. *)
Definition close_binding (status : DeviceBindingStatus) (t : instant) (actor : pk)
    (b : DeviceBinding) : DeviceBinding :=
  b <| bnd_status := status |> <| bnd_unbound_at := Some t |> <| bnd_unbound_by := Some actor |>
    <| bnd_credential_hash := "" |> <| bnd_credential_issued_at := None |>.

(** The eSIM's active binding, replaced when [replace] is given. *)
Definition replace_existing (actor : pk) (esim : Esim) (replace : bool)
    : M (option DeviceBinding) :=
  let! existing := locked_query (λ d,
    qfirst (λ b, (bnd_esim b =? esim_id esim)%N && binding_is_active b) (device_bindings d)) in
  match existing with
  | None => ret None
  | Some b =>
      raise_if (negb replace) DeviceBindingConflictError;;;
      let! t := now in
      let! b := save_binding b (close_binding BINDING_REPLACED t actor) in
      ret (Some b)
  end.

Definition create_device_binding (actor organization_id esim_id_ : pk) (replace : bool)
    : M DeviceBindingCreateResult :=
  atomic (
    let! ctx := resolve_organization_context actor organization_id in
    require_device_bind ctx;;;
    let! org := asserted (ctx_organization ctx) in
    let! esim := _team_esim_or_404 org esim_id_ in
    let! previous := replace_existing actor esim replace in
    let! external := uuid4 in
    let! id := uuid4 in
    let binding := mkBinding id (org_id org) (esim_id esim) (str external) "" "" "" None
                     BINDING_ACTIVE (Some actor) None None None in
    try_except (create device_bindings binding_verdict id binding)
      (on_integrity_error (raise DeviceBindingConflictError));;;
    match previous with
    | Some p => let! _ := save_binding p (λ p, p <| bnd_replaced_by := Some id |>) in ret tt
    | None => ret tt
    end;;;
    _record_binding_event binding
      (match previous with Some _ => REBIND | None => BIND end) (Some actor)
      (bnd_id <$> previous);;;
    let! binding := get device_bindings id in
    let! issued := _set_credential binding (Some actor) false in
    ret (mkBindingCreated issued.1 issued.2)).

(** [select_for_update().filter(pk=..., organization=org).first()], the guards *)
Definition lock_binding (binding_id organization : pk) : M DeviceBinding :=
  let! found_ := locked_query (binding_of binding_id organization) in
  match found_ with
  | None => raise NotFound
  | Some b => raise_if (negb (binding_is_active b)) DeviceBindingNotFoundError;;; ret b
  end.

Definition rotate_device_credential (actor organization_id binding_id : pk)
    : M DeviceBindingCreateResult :=
  atomic (
    let! ctx := resolve_organization_context actor organization_id in
    require_device_bind ctx;;;
    let! org := asserted (ctx_organization ctx) in
    let! binding := lock_binding binding_id (org_id org) in
    let! issued := _set_credential binding (Some actor) true in
    ret (mkBindingCreated issued.1 issued.2)).

Definition unbind_device_binding (actor organization_id binding_id : pk) : M DeviceBinding :=
  atomic (
    let! ctx := resolve_organization_context actor organization_id in
    require_device_bind ctx;;;
    let! org := asserted (ctx_organization ctx) in
    let! binding := lock_binding binding_id (org_id org) in
    let! t := now in
    let! binding := save_binding binding (close_binding BINDING_UNBOUND t actor) in
    _record_binding_event binding UNBIND (Some actor) None;;;
    ret binding).

(** The authentication of [_resolve_binding_and_esim_by_credential]. *)
Definition authenticate_device (device_external_id credential : string) : M DeviceBinding :=
  let external := strip device_external_id in
  raise_if (bool_decide (external = "") || bool_decide (credential = "")) NotFound;;;
  let digest := _hash_credential credential in
  let! found_ := query (λ d,
    qfirst (λ b, bool_decide (bnd_device_external_id b = external) && binding_is_active b)
      (device_bindings d)) in
  match found_ with
  | None => raise NotFound
  | Some b =>
      raise_if (bool_decide (bnd_credential_hash b = "")) NotFound;;;
      raise_if (negb (bool_decide (bnd_credential_hash b = digest))) NotFound;;;
      ret b
  end.

(** ** Fleet credentials *)

Definition _grace_seconds (override : option Z) : M Z :=
  match override with
  | Some n => raise_if (n <? 0) (ValueError "grace_seconds must be >= 0");;; ret n
  | None => asks FLEET_CREDENTIAL_GRACE_SECONDS
  end.

Definition _record_fleet_event (f : OrganizationFleetCredential)
    (action : FleetCredentialEventAction) (actor : option pk) : M unit :=
  let! id := uuid4 in
  create fleet_credential_events unchecked id
    (mkFleetEvent id (flt_organization f) (flt_id f) action actor (flt_fleet_external_id f)
       (flt_previous_valid_until f)).

Record FleetCredentialIssueResult := mkFleetIssued {
  fir_fleet : OrganizationFleetCredential;
  fir_fleet_external_id : string;
  fir_credential : string;
}.

Definition fleet_of (organization : pk) (d : Db) : option OrganizationFleetCredential :=
  qfirst (λ f, (flt_organization f =? organization)%N) (fleet_credentials d).

Definition issue_fleet_credential (organization : pk) (actor : option pk)
    (grace_seconds : option Z) : M FleetCredentialIssueResult :=
  atomic (
    let! _ := _grace_seconds grace_seconds in
    let! existing := query (λ d,
      qexists (λ f, (flt_organization f =? organization)%N) (fleet_credentials d)) in
    raise_if existing FleetCredentialConflictError;;;
    let! raw := draw in
    let! t := now in
    let! external := draw in
    let! id := uuid4 in
    let fleet := mkFleet id organization external (_hash_credential raw) t "" None in
    create fleet_credentials fleet_verdict id fleet;;;
    raise_if (bool_decide (external = str organization)) FleetCredentialConflictError;;;
    _record_fleet_event fleet FLEET_ISSUE actor;;;
    ret (mkFleetIssued fleet external raw)).

(** The columns a rotation writes. *)
Definition rotated_fleet (hash : string) (t grace : Z) (f : OrganizationFleetCredential)
    : OrganizationFleetCredential :=
  f <| flt_previous_credential_hash := flt_current_credential_hash f |>
    <| flt_previous_valid_until := Some (if 0 <? grace then t + grace * 1000000 else t) |>
    <| flt_current_credential_hash := hash |> <| flt_current_issued_at := t |>.

Definition rotate_fleet_credential (organization : pk) (actor : option pk)
    (grace_seconds : option Z) : M FleetCredentialIssueResult :=
  atomic (
    let! found_ := locked_query (fleet_of organization) in
    match found_ with
    | None => raise FleetCredentialInvalidError
    | Some fleet =>
        let! grace := _grace_seconds grace_seconds in
        let! raw := draw in
        let! t := now in
        let f := λ row, row <| flt_previous_credential_hash := flt_current_credential_hash fleet |>
          <| flt_previous_valid_until := flt_previous_valid_until (rotated_fleet "" t grace fleet) |>
          <| flt_current_credential_hash := _hash_credential raw |>
          <| flt_current_issued_at := t |> in
        save_fields fleet_credentials fleet_verdict (flt_id fleet) f;;;
        let fleet := rotated_fleet (_hash_credential raw) t grace fleet in
        _record_fleet_event fleet FLEET_ROTATE actor;;;
        ret (mkFleetIssued fleet (flt_fleet_external_id fleet) raw)
    end).

Definition verify_fleet_credential (fleet_external_id credential : string)
    : M OrganizationFleetCredential :=
  let external := strip fleet_external_id in
  raise_if (bool_decide (external = "") || bool_decide (credential = "")) FleetCredentialInvalidError;;;
  let! found_ := query (λ d,
    qfirst (λ f, bool_decide (flt_fleet_external_id f = external)) (fleet_credentials d)) in
  match found_ with
  | None => raise FleetCredentialInvalidError
  | Some fleet =>
      let digest := _hash_credential credential in
      if bool_decide (flt_current_credential_hash fleet = digest) then ret fleet
      else
        match flt_previous_valid_until fleet with
        | Some until =>
            if bool_decide (flt_previous_credential_hash fleet = "")
            then raise FleetCredentialInvalidError
            else
              let! t := now in
              if (t <=? until) && bool_decide (flt_previous_credential_hash fleet = digest)
              then ret fleet else raise FleetCredentialInvalidError
        | None => raise FleetCredentialInvalidError
        end
  end.
End Credentials.

(** ** The UEM inventory *)

Section Uem.
(** [str] of a JSON value, and the decoded answer of [GET /devices]: an object,
    or the client's own error. *)
Context (str_json : Json → string) (_request : M (list (string * Json))).

Definition is_object (j : Json) : bool := match j with JObj _ => true | _ => false end.

(** [str(device.get(k) or "").strip()] *)
Definition field_text (k : string) (device : Json) : string :=
  match device with
  | JObj fields =>
      match jget k fields with
      | Some v => if truthy v then strip (text_of str_json v) else ""
      | None => ""
      end
  | _ => ""
  end.

Definition list_devices : M (list Json) :=
  let! payload := _request in
  match jget "devices" payload with
  | Some (JArr devices) => ret (List.filter is_object devices)
  | _ => raise (BlackberryUemClientError "UEM /devices response missing devices list")
  end.

Definition get_device_by_guid (device_guid : string) : M (option Json) :=
  let guid := lower (strip device_guid) in
  if bool_decide (guid = "") then ret None
  else
    let! devices := list_devices in
    ret (List.find (λ d, bool_decide (lower (field_text "guid" d) = guid)) devices).

Definition get_device_by_serial (serial_number : string) : M Json :=
  let serial := strip serial_number in
  raise_if (bool_decide (serial = "")) (BlackberryUemClientError "UEM serialNumber is required");;;
  let! devices := list_devices in
  match List.filter (λ d, bool_decide (field_text "serialNumber" d = serial)) devices with
  | [] => raise (BlackberryUemClientError "UEM serialNumber match count is 0 (fail closed)")
  | [device] => ret device
  | matches => raise (BlackberryUemClientError
      ("UEM serialNumber match count is " +:+ pretty (length matches) +:+ " (fail closed)"))
  end.

Definition resolve_uem_device_by_serial (serial_number : string) : M Json :=
  let serial := strip serial_number in
  raise_if (bool_decide (serial = "")) DeviceNotFoundError;;;
  let! enabled := asks BLACKBERRY_UEM_ENABLED in
  raise_if (negb enabled) (UemSerialMatchError "BlackBerry UEM integration is disabled");;;
  try_except (get_device_by_serial serial) (λ x,
    match x with
    | BlackberryUemClientError msg => Some (
        if contains "match count is 0" msg then raise DeviceNotFoundError
        else if contains "match count is" msg then raise DeviceAmbiguousError
        else raise (UemSerialMatchError msg))
    | _ => None
    end).

Definition refresh_binding_uem_guid_from_serial (b : DeviceBinding) : M (DeviceBinding * Json) :=
  let serial := strip (bnd_uem_serial_number b) in
  raise_if (bool_decide (serial = "")) (UemSerialMatchError "DeviceBinding.uem_serial_number is empty");;;
  let! device := try_except (resolve_uem_device_by_serial serial) (λ x,
    match x with
    | DeviceNotFoundError => Some (raise (UemSerialMatchError "Device not found in UEM."))
    | DeviceAmbiguousError =>
        Some (raise (UemSerialMatchError "Multiple UEM devices match this serial."))
    | _ => None
    end) in
  let guid := field_text "guid" device in
  raise_if (bool_decide (guid = "")) (UemSerialMatchError "UEM device match missing guid");;;
  if negb (bool_decide (bnd_uem_device_guid b = guid)) then
    let! b := save_binding b (λ b, b <| bnd_uem_device_guid := guid |>) in ret (b, device)
  else ret (b, device).

Definition resolve_top_level_iccid (device : Json) : Res string :=
  match device with
  | JObj fields =>
      let iccid := field_text "iccid" device in
      if bool_decide (iccid = "") then Raise UemInventoryUnavailableError
      else
        match jget "sims" fields with
        | None | Some JNull => Ok iccid
        | Some (JArr []) => Raise UemInventoryUnavailableError
        | Some (JArr sims) =>
            let sim_iccids := List.filter (λ s, negb (bool_decide (s = "")))
              (field_text "iccid" <$> List.filter is_object sims) in
            if bool_decide (iccid ∈ sim_iccids) then Ok iccid
            else Raise UemInventoryUnavailableError
        | Some _ => Raise UemInventoryUnavailableError
        end
  | _ => Raise UemInventoryUnavailableError
  end.
End Uem.

(** ** The bindings' invariant

    On the table alone; [n] bounds the identifiers drawn so far. *)

Definition clashing (m : gmap pk DeviceBinding) : Prop :=
  ∃ j k a b, m !! j = Some a ∧ m !! k = Some b ∧ j ≠ k ∧ binding_clash a b = true.

Record bindings_inv (n : pk) (m : gmap pk DeviceBinding) : Prop := {
  bi_key : ∀ k b, m !! k = Some b → bnd_id b = k;
  (** One active binding per eSIM, per team and external id, per team and serial. *)
  bi_apart : ¬ clashing m;
  (** A binding has a secret exactly while it is active. *)
  bi_secret : ∀ k b, m !! k = Some b → binding_is_active b = true ↔ bnd_credential_hash b ≠ "";
  bi_minted : ∀ k b, m !! k = Some b → ∃ j, (j < n)%N ∧ bnd_device_external_id b = str j;
  bi_external : ∀ j k a b, m !! j = Some a → m !! k = Some b →
    bnd_device_external_id a = bnd_device_external_id b → j = k;
}.

Record fleets_inv (m : gmap pk OrganizationFleetCredential) : Prop := {
  fi_key : ∀ k f, m !! k = Some f → flt_id f = k;
  fi_team : ∀ j k f g, m !! j = Some f → m !! k = Some g →
    flt_organization f = flt_organization g → j = k;
  fi_external : ∀ j k f g, m !! j = Some f → m !! k = Some g →
    flt_fleet_external_id f = flt_fleet_external_id g → j = k;
  fi_secret : ∀ k f, m !! k = Some f → flt_current_credential_hash f ≠ "" ∧
    (flt_previous_credential_hash f = "" ↔ flt_previous_valid_until f = None);
}.

Lemma clash_sym a b : binding_clash a b = binding_clash b a.
Proof.
  assert (Hsym : ∀ x y : string, bool_decide (x = y) = bool_decide (y = x))
    by (intros x y; by apply bool_decide_ext).
  unfold binding_clash. rewrite (andb_comm (binding_is_active a)), (N.eqb_sym (bnd_esim a)),
    (N.eqb_sym (bnd_organization a)), (Hsym (bnd_device_external_id a)). f_equal. f_equal. f_equal. f_equal.
  destruct (decide (bnd_uem_serial_number a = bnd_uem_serial_number b)) as [->|Hne]; [done|].
  assert (Hne' : bnd_uem_serial_number b ≠ bnd_uem_serial_number a) by congruence.
  by rewrite (bool_decide_eq_false_2 _ Hne), (bool_decide_eq_false_2 _ Hne'), !andb_false_r.
Qed.

Lemma clash_inactive a b : binding_is_active a = false → binding_clash a b = false.
Proof. unfold binding_clash. by intros ->. Qed.

(** What a rewrite of a row leaves alone. *)
Definition same_slot (b b' : DeviceBinding) : Prop :=
  bnd_id b' = bnd_id b ∧ bnd_organization b' = bnd_organization b ∧ bnd_esim b' = bnd_esim b ∧
  bnd_device_external_id b' = bnd_device_external_id b ∧
  bnd_uem_serial_number b' = bnd_uem_serial_number b ∧
  (binding_is_active b' = true → binding_is_active b = true).

Lemma clash_slot a b b' :
  same_slot b b' → binding_clash a b' = true → binding_clash a b = true.
Proof.
  intros (_ & Ho & He & Hx & Hs & Ha). unfold binding_clash. rewrite Ho, He, Hx, Hs.
  intros [[-> Hb]%andb_true_iff ->]%andb_true_iff. by rewrite (Ha Hb).
Qed.

Lemma bindings_inv_mono n n' m : (n ≤ n')%N → bindings_inv n m → bindings_inv n' m.
Proof.
  intros Hn [Hk Ha Hs Hm Hx]. split; try done. intros k b Hb.
  destruct (Hm _ _ Hb) as (j & ? & ?). exists j. split; [lia|done].
Qed.

Lemma bindings_inv_rewrite n m b b' :
  bindings_inv n m → m !! bnd_id b = Some b → same_slot b b' →
  (binding_is_active b' = true ↔ bnd_credential_hash b' ≠ "") →
  bindings_inv n (<[bnd_id b := b']> m).
Proof.
  intros [Hk Ha Hs Hm Hx] Hb Hslot Hsec. pose proof Hslot as (Hid & _ & _ & He & _).
  split.
  - intros k c [[<- <-]|[_ Hc]]%lookup_insert_Some; [done|by apply Hk].
  - intros (j & k & c & c' & Hc & Hc' & Hjk & Hcl). apply Ha.
    apply lookup_insert_Some in Hc as [[<- <-]|[Hj Hc]];
      apply lookup_insert_Some in Hc' as [[<- <-]|[Hj' Hc']]; [done| | |by exists j, k, c, c'].
    + exists (bnd_id b), k, b, c'. split_and!; try done. rewrite clash_sym in Hcl |- *.
      by eapply clash_slot.
    + exists j, (bnd_id b), c, b. split_and!; try done. by eapply clash_slot.
  - intros k c [[<- <-]|[_ Hc]]%lookup_insert_Some; [done|by eapply Hs].
  - intros k c [[<- <-]|[_ Hc]]%lookup_insert_Some; [|by eapply Hm]. rewrite He. by eapply Hm.
  - intros j k c c' [[<- <-]|[_ Hc]]%lookup_insert_Some [[<- <-]|[_ Hc']]%lookup_insert_Some;
      [done|rewrite He; by apply Hx|rewrite He; by apply Hx|by apply Hx].
Qed.

Lemma bindings_inv_new n n' j m b :
  bindings_inv n m → m !! bnd_id b = None → bnd_device_external_id b = str j →
  (n ≤ j < n')%N → (∀ k a, m !! k = Some a → binding_clash a b = false) →
  (binding_is_active b = true ↔ bnd_credential_hash b ≠ "") →
  bindings_inv n' (<[bnd_id b := b]> m).
Proof.
  intros [Hk Ha Hs Hm Hx] Hb He Hj Hv Hsec.
  assert (Hnew : ∀ k a, m !! k = Some a → bnd_device_external_id a ≠ bnd_device_external_id b).
  { intros k a Hka E. destruct (Hm _ _ Hka) as (i & Hi & Ei). rewrite Ei, He in E.
    apply str_inj in E. lia. }
  split.
  - intros k c [[<- <-]|[_ Hc]]%lookup_insert_Some; [done|by apply Hk].
  - intros (i & k & c & c' & Hc & Hc' & Hjk & Hcl).
    apply lookup_insert_Some in Hc as [[<- <-]|[Hi Hc]];
      apply lookup_insert_Some in Hc' as [[<- <-]|[Hi' Hc']]; [done| | |].
    + rewrite clash_sym in Hcl. by rewrite (Hv _ _ Hc') in Hcl.
    + by rewrite (Hv _ _ Hc) in Hcl.
    + apply Ha. by exists i, k, c, c'.
  - intros k c [[<- <-]|[_ Hc]]%lookup_insert_Some; [done|by eapply Hs].
  - intros k c [[<- <-]|[_ Hc]]%lookup_insert_Some; [exists j; split; [lia|done]|].
    destruct (Hm _ _ Hc) as (i & ? & ?). exists i. split; [lia|done].
  - intros i k c c' [[<- <-]|[_ Hc]]%lookup_insert_Some [[<- <-]|[_ Hc']]%lookup_insert_Some E;
      [done|by destruct (Hnew _ _ Hc')|by destruct (Hnew _ _ Hc)|by eapply Hx].
Qed.

Lemma fleets_inv_new m f :
  fleets_inv m → m !! flt_id f = None →
  (∀ k g, m !! k = Some g → flt_organization g ≠ flt_organization f ∧
     flt_fleet_external_id g ≠ flt_fleet_external_id f) →
  flt_current_credential_hash f ≠ "" →
  (flt_previous_credential_hash f = "" ↔ flt_previous_valid_until f = None) →
  fleets_inv (<[flt_id f := f]> m).
Proof.
  intros [Hk Ht Hx Hs] Hf Hv Hc Hp. split.
  - intros k c [[<- <-]|[_ H]]%lookup_insert_Some; [done|by apply Hk].
  - intros i k c c' [[<- <-]|[_ H]]%lookup_insert_Some [[<- <-]|[_ H']]%lookup_insert_Some E;
      [done|by destruct (Hv _ _ H')|by destruct (Hv _ _ H)|by eapply Ht].
  - intros i k c c' [[<- <-]|[_ H]]%lookup_insert_Some [[<- <-]|[_ H']]%lookup_insert_Some E;
      [done|by destruct (Hv _ _ H')|by destruct (Hv _ _ H)|by eapply Hx].
  - intros k c [[<- <-]|[_ H]]%lookup_insert_Some; [done|by eapply Hs].
Qed.

Lemma fleets_inv_rewrite m f f' :
  fleets_inv m → m !! flt_id f = Some f → flt_id f' = flt_id f →
  flt_organization f' = flt_organization f → flt_fleet_external_id f' = flt_fleet_external_id f →
  flt_current_credential_hash f' ≠ "" →
  (flt_previous_credential_hash f' = "" ↔ flt_previous_valid_until f' = None) →
  fleets_inv (<[flt_id f := f']> m).
Proof.
  intros [Hk Ht Hx Hs] Hf Hid Ho He Hc Hp. split.
  - intros k c [[<- <-]|[_ H]]%lookup_insert_Some; [done|by apply Hk].
  - intros i k c c' [[<- <-]|[_ H]]%lookup_insert_Some [[<- <-]|[_ H']]%lookup_insert_Some;
      rewrite ?Ho; eauto.
  - intros i k c c' [[<- <-]|[_ H]]%lookup_insert_Some [[<- <-]|[_ H']]%lookup_insert_Some;
      rewrite ?He; eauto.
  - intros k c [[<- <-]|[_ H]]%lookup_insert_Some; [done|by eapply Hs].
Qed.

(** ** The mutations *)

(** Only the bindings' tables moved, the bindings to [m]. *)
Definition rows_move (m : gmap pk DeviceBinding) (d d' : Db) : Prop :=
  ∃ evs, d' = d <| device_bindings := m |> <| device_binding_events := evs |>.

Lemma rows_move_trans m m' d d1 d2 : rows_move m d d1 → rows_move m' d1 d2 → rows_move m' d d2.
Proof. intros [evs ->] [evs' ->]. exists evs'. by destruct d. Qed.

Lemma rows_move_event k v d : rows_move (device_bindings d) d (put device_binding_events k v d).
Proof. exists (<[k := v]> (device_binding_events d)). by destruct d. Qed.

Lemma rows_move_binding k b d : rows_move (<[k := b]> (device_bindings d)) d (put device_bindings k b d).
Proof. exists (device_binding_events d). by destruct d. Qed.

Lemma rows_move_lookup m d d' : rows_move m d d' → device_bindings d' = m.
Proof. by intros [evs ->]. Qed.

(** Only the fleet credentials' tables moved, the credentials to [m]. *)
Definition fleet_moves (m : gmap pk OrganizationFleetCredential) (d d' : Db) : Prop :=
  ∃ evs, d' = d <| fleet_credentials := m |> <| fleet_credential_events := evs |>.

Ltac team_frame :=
  intros [evs ->] [[[] ? ? ? ? ? ?] ?]; split; [split; [split; assumption|assumption..]|assumption].
Lemma team_inv_rows_move m d d' : rows_move m d d' → team_inv d → team_inv d'.
Proof. team_frame. Qed.
Lemma team_inv_fleet_moves m d d' : fleet_moves m d d' → team_inv d → team_inv d'.
Proof. team_frame. Qed.

Section Mutations.
Context (_hash_credential : string → string).
(** [hexdigest()] is 64 characters long. *)
Hypothesis digest_nonempty : ∀ s, _hash_credential s ≠ "".

Abbreviation set_credential := (_set_credential _hash_credential).

Lemma save_binding_Ok b f e w r w' :
  save_binding b f e w = (Ok r, w') → device_bindings (db w) !! bnd_id b = Some b →
  r = f b ∧ w' = w <| db := put device_bindings (bnd_id b) (f b) (db w) |>.
Proof. unfold save_binding. intros H Hb. by inv_run H. Qed.

Lemma clean_save_binding b f : clean (save_binding b f).
Proof. unfold save_binding. solve_clean. Qed.
Lemma clean_record b a actor p : clean (_record_binding_event b a actor p).
Proof. unfold _record_binding_event. solve_clean. Qed.
Lemma clean_set_credential b actor r : clean (set_credential b actor r).
Proof. unfold _set_credential. solve_clean; auto using clean_save_binding, clean_record. Qed.
Lemma clean_esim o s : clean (_team_esim_or_404 o s).
Proof. unfold _team_esim_or_404. solve_clean. Qed.
Lemma clean_replace actor s r : clean (replace_existing actor s r).
Proof. unfold replace_existing. solve_clean; auto using clean_save_binding. Qed.
Lemma clean_lock b o : clean (lock_binding b o).
Proof. unfold lock_binding. solve_clean. Qed.
Lemma clean_try_raise {A} (m : M A) h :
  clean m → (∀ x k, h x = Some k → ∃ y, k = raise y) → clean (try_except m h).
Proof.
  intros Hm Hh e w a w' Hw [H|(x & k & w1 & _ & Hk & H)]%try_Ok; [by eapply Hm|].
  by destruct (Hh _ _ Hk) as [y ->].
Qed.
#[local] Hint Resolve clean_mutation clean_permission clean_asserted clean_context
  clean_save_binding clean_record clean_set_credential clean_esim clean_replace clean_lock : effects.

Lemma record_Ok b a actor p e w u w' :
  _record_binding_event b a actor p e w = (Ok u, w') →
  rows_move (device_bindings (db w)) (db w) (db w') ∧ (next_uuid w ≤ next_uuid w')%N.
Proof.
  unfold _record_binding_event. intros H. inv_run H. split; [|lia].
  apply rows_move_event.
Qed.

(** The columns a new secret writes. *)
Definition credentialed (hash : string) (t : instant) (b : DeviceBinding) : DeviceBinding :=
  b <| bnd_credential_hash := hash |> <| bnd_credential_issued_at := Some t |>.

Lemma set_credential_Ok b actor rotate e w r w' :
  set_credential b actor rotate e w = (Ok r, w') → device_bindings (db w) !! bnd_id b = Some b →
  ∃ t, r.1 = credentialed (_hash_credential r.2) t b ∧
    rows_move (<[bnd_id b := r.1]> (device_bindings (db w))) (db w) (db w') ∧
    (next_uuid w ≤ next_uuid w')%N.
Proof.
  unfold _set_credential. intros H Hb.
  apply bind_Ok in H as (raw & w1 & Hraw & H). injection Hraw as <- <-.
  apply bind_Ok in H as (t & w2 & Ht & H). injection Ht as <- <-.
  apply bind_Ok in H as (b1 & w3 & Hs & H). apply save_binding_Ok in Hs as [-> ->]; [|done].
  apply bind_Ok in H as (u & w4 & [Hm Hn]%record_Ok & [-> ->]%ret_Ok).
  eexists. split; [done|]. split; [|exact Hn].
  eapply rows_move_trans; [apply (rows_move_binding (bnd_id b))|exact Hm].
Qed.

Lemma team_esim_Ok o s e w r w' :
  _team_esim_or_404 o s e w = (Ok r, w') →
  w' = w ∧ esims (db w) !! s = Some r ∧ esim_account r = org_account o.
Proof. unfold _team_esim_or_404. intros H. inv_run H. by bool_to_prop. Qed.

Lemma replace_existing_Ok actor s replace e w r w' n :
  replace_existing actor s replace e w = (Ok r, w') →
  bindings_inv n (device_bindings (db w)) →
  match r with
  | None => w' = w ∧ ∀ k b, device_bindings (db w) !! k = Some b → bnd_esim b = esim_id s →
      binding_is_active b = false
  | Some p => next_uuid w' = next_uuid w ∧ replace = true ∧
      ∃ b t, device_bindings (db w) !! bnd_id b = Some b ∧ binding_is_active b = true ∧
        bnd_esim b = esim_id s ∧ p = close_binding BINDING_REPLACED t actor b ∧
        db w' = put device_bindings (bnd_id b) p (db w)
  end.
Proof.
  unfold replace_existing. intros H Hi.
  apply bind_Ok in H as (existing & w1 & (_ & Hq & ->)%locked_query_Ok & H). symmetry in Hq.
  destruct existing as [b|].
  - apply qfirst_Some in Hq as (k & Hb & [Hes Hact]%andb_true_iff). pose proof (bi_key _ _ Hi _ _ Hb) as <-.
    apply bind_Ok in H as (u & w2 & [Hr ->]%raise_if_Ok & H).
    apply bind_Ok in H as (t & w3 & Ht & H). injection Ht as <- <-.
    apply bind_Ok in H as (p & w4 & Hs & H). apply save_binding_Ok in Hs as [-> ->]; [|done].
    apply ret_Ok in H as [-> ->]. bool_to_prop. split; [done|]. split; [done|]. by eexists b, _.
  - apply ret_Ok in H as [-> ->]. split; [done|]. intros k b Hb Hes. rewrite qfirst_None in Hq.
    specialize (Hq k b Hb). by rewrite Hes, N.eqb_refl in Hq.
Qed.

Lemma closed_slot status t actor b :
  status ≠ BINDING_ACTIVE → same_slot b (close_binding status t actor b).
Proof. intros Hs. split_and!; try done. unfold binding_is_active. by rewrite bool_decide_eq_true. Qed.

Lemma closed_inactive status t actor b :
  status ≠ BINDING_ACTIVE → binding_is_active (close_binding status t actor b) = false.
Proof. intros Hs. by apply bool_decide_eq_false. Qed.

Lemma binding_verdict_None d b :
  binding_verdict d b = None →
  ∀ k a, device_bindings d !! k = Some a → bnd_id a ≠ bnd_id b → binding_clash a b = false.
Proof.
  unfold binding_verdict. destruct (qexists _ _) eqn:E; [done|]. intros _ k a Ha Hne.
  rewrite qexists_false in E. specialize (E k a Ha). apply andb_false_iff in E as [E|E]; [|done].
  by bool_to_prop.
Qed.

(** What [create_device_binding] does to the table. *)
Definition replacing (actor : pk) (esim id : pk) (replace : bool)
    (m m' : gmap pk DeviceBinding) : Prop :=
  m' = m ∧ (∀ k b, m !! k = Some b → bnd_esim b = esim → binding_is_active b = false) ∨
  replace = true ∧ ∃ p t, m !! bnd_id p = Some p ∧ binding_is_active p = true ∧ bnd_esim p = esim ∧
    m' = <[bnd_id p := close_binding BINDING_REPLACED t actor p <| bnd_replaced_by := Some id |>]> m.

Definition created_binding (actor organization esim : pk) (replace : bool)
    (r : DeviceBindingCreateResult) (d d' : Db) : Prop :=
  let b := dbr_binding r in
  ∃ o m s t ext rest, acts actor can_device_bind o m d ∧ org_id o = organization ∧
    esims d !! esim = Some s ∧ esim_account s = org_account o ∧
    b = mkBinding (bnd_id b) organization (esim_id s) ext "" ""
          (_hash_credential (dbr_credential r)) (Some t) BINDING_ACTIVE (Some actor) None None None ∧
    replacing actor (esim_id s) (bnd_id b) replace (device_bindings d) rest ∧
    rest !! bnd_id b = None ∧ rows_move (<[bnd_id b := b]> rest) d d'.

Lemma replacing_inv actor esim id replace n m m' :
  replacing actor esim id replace m m' → bindings_inv n m → bindings_inv n m'.
Proof.
  intros [[-> _]|(_ & p & t & Hp & _ & _ & ->)] Hi; [done|]. apply bindings_inv_rewrite; [done..| |].
  - by apply (closed_slot BINDING_REPLACED t actor p).
  - by split.
Qed.

Definition linked (previous : option DeviceBinding) (id : pk) (m : gmap pk DeviceBinding) :
    gmap pk DeviceBinding :=
  match previous with
  | Some p => <[bnd_id p := p <| bnd_replaced_by := Some id |>]> m
  | None => m
  end.

(** The rows written once the new binding is in. *)
Lemma issue_tail previous b action actor prev e w r w' :
  (match previous with
   | Some p => let! _ := save_binding p (λ p, p <| bnd_replaced_by := Some (bnd_id b) |>) in ret tt
   | None => ret tt
   end;;;
   _record_binding_event b action (Some actor) prev;;;
   let! binding := get device_bindings (bnd_id b) in
   let! issued := set_credential binding (Some actor) false in
   ret (mkBindingCreated issued.1 issued.2)) e w = (Ok r, w') →
  device_bindings (db w) !! bnd_id b = Some b →
  (∀ p, previous = Some p → device_bindings (db w) !! bnd_id p = Some p ∧ bnd_id p ≠ bnd_id b) →
  (∃ t, dbr_binding r = credentialed (_hash_credential (dbr_credential r)) t b) ∧
  rows_move (<[bnd_id b := dbr_binding r]> (linked previous (bnd_id b) (device_bindings (db w))))
    (db w) (db w') ∧ (next_uuid w ≤ next_uuid w')%N.
Proof.
  intros H Hb Hp. apply bind_Ok in H as (u & w1 & Hlink & H).
  assert (H1 : rows_move (linked previous (bnd_id b) (device_bindings (db w))) (db w) (db w1) ∧
    next_uuid w1 = next_uuid w).
  { destruct previous as [p|]; [|apply ret_Ok in Hlink as [_ ->]; split; [|done]].
    - apply bind_Ok in Hlink as (p' & w2 & Hs & [_ ->]%ret_Ok).
      apply save_binding_Ok in Hs as [-> ->]; [|by apply Hp]. split; [|done]. apply rows_move_binding.
    - exists (device_binding_events (db w)). by destruct (db w). }
  destruct H1 as [Hm1 Hn1]. pose proof (rows_move_lookup _ _ _ Hm1) as Hd1.
  apply bind_Ok in H as (u2 & w2 & [Hm2 Hn2]%record_Ok & H).
  pose proof (rows_move_lookup _ _ _ Hm2) as Hd2.
  apply bind_Ok in H as (b' & w3 & (_ & Hb' & ->)%get_Ok & H).
  assert (Hsame : linked previous (bnd_id b) (device_bindings (db w)) !! bnd_id b = Some b).
  { unfold linked. destruct previous as [p|]; [|done].
    rewrite lookup_insert_ne; [done|by apply Hp]. }
  rewrite Hd2, Hd1, Hsame in Hb'. injection Hb' as <-.
  apply bind_Ok in H as (issued & w4 & Hs & [-> ->]%ret_Ok).
  apply set_credential_Ok in Hs as (t & Ht & Hm & Hn); [|by rewrite Hd2, Hd1].
  simpl. split; [by exists t|]. split; [|lia]. rewrite Hd2, Hd1 in Hm.
  eapply rows_move_trans; [exact Hm1|]. by eapply rows_move_trans.
Qed.

(** The table between the replacement and the new row. *)
Lemma replaced_rest actor s replace previous n m m2 new :
  bindings_inv n m →
  match previous with
  | None => m2 = m ∧ ∀ k b, m !! k = Some b → bnd_esim b = s → binding_is_active b = false
  | Some p => replace = true ∧ ∃ b t, m !! bnd_id b = Some b ∧ binding_is_active b = true ∧
      bnd_esim b = s ∧ p = close_binding BINDING_REPLACED t actor b ∧ m2 = <[bnd_id b := p]> m
  end →
  m2 !! bnd_id new = None →
  (∀ k a, m2 !! k = Some a → bnd_id a ≠ bnd_id new → binding_clash a new = false) →
  let rest := linked previous (bnd_id new) m in
  replacing actor s (bnd_id new) replace m rest ∧ rest !! bnd_id new = None ∧
  (∀ k a, rest !! k = Some a → binding_clash a new = false) ∧
  (∀ q, previous = Some q → <[bnd_id new := new]> m2 !! bnd_id q = Some q ∧ bnd_id q ≠ bnd_id new) ∧
  ∀ b, <[bnd_id new := b]> (linked previous (bnd_id new) (<[bnd_id new := new]> m2)) =
       <[bnd_id new := b]> rest.
Proof.
  intros Hi Hprev Hnone Hclash. simpl.
  assert (Hne : ∀ k a, m !! k = Some a → m2 !! k = Some a → bnd_id a ≠ bnd_id new).
  { intros k a Ha H2 E. pose proof (bi_key _ _ Hi _ _ Ha) as <-. congruence. }
  destruct previous as [p|]; simpl.
  - destruct Hprev as (Hr & b & t & Hb & Hact & Hes & -> & ->). simpl.
    assert (Hid : bnd_id b ≠ bnd_id new).
    { intros E. by rewrite <- E, lookup_insert_eq in Hnone. }
    rewrite lookup_insert_ne in Hnone by done. split_and!.
    + right. split; [done|]. by exists b, t.
    + by rewrite lookup_insert_ne.
    + intros k a [[<- <-]|[Hk Ha]]%lookup_insert_Some; [by apply clash_inactive|].
      eapply Hclash; [by rewrite lookup_insert_ne|].
      eapply Hne; [done|by rewrite lookup_insert_ne].
    + intros q [= <-]. simpl. split; [|done]. by rewrite lookup_insert_ne, lookup_insert_eq.
    + intros b'. rewrite (insert_insert_ne _ (bnd_id b) (bnd_id new)) by done.
      by rewrite insert_insert_eq, insert_insert_eq.
  - destruct Hprev as [-> Hfree]. split_and!; [by left|done| |done|].
    + intros k a Ha. eapply Hclash; [done|by eapply Hne].
    + intros b. by rewrite insert_insert_eq.
Qed.

Lemma create_device_binding_Ok actor organization esim replace e w r w' :
  create_device_binding _hash_credential actor organization esim replace e w = (Ok r, w') →
  aborted w = false → team_inv (db w) → bindings_inv (next_uuid w) (device_bindings (db w)) →
  created_binding actor organization esim replace r (db w) (db w') ∧
  bindings_inv (next_uuid w') (device_bindings (db w')).
Proof.
  unfold create_device_binding. intros H Hw [Hc _] Hi.
  apply atomic_clean_Ok in H as (w1 & H & ->); [| |done].
  2: solve_clean; apply clean_try_raise; [solve_clean|intros [] k [= <-]; eauto].
  enter_gate H Hc.
  apply bind_Ok in H as (s & w2 & (-> & Hs & Hsa)%team_esim_Ok & H). leave_world.
  apply bind_Ok in H as (previous & w2 & Hprev & H).
  eapply (replace_existing_Ok _ _ _ _ _ _ _ (next_uuid w)) in Hprev; [|exact Hi].
  apply bind_Ok in H as (ext & w3 & Hext & H). injection Hext as <- <-.
  apply bind_Ok in H as (id & w4 & Hid & H). injection Hid as <- <-. cbv zeta in H.
  apply bind_Ok in H as (u & w5 & Hcr & H).

  match type of Hcr with try_except (create _ _ ?id ?b) _ _ _ = _ => set (new := b) in * end.
  assert (Hcr' : create device_bindings binding_verdict (bnd_id new) new e _ = (Ok u, w5))
    by (apply try_Ok in Hcr as [Hcr|(y & k & w6 & _ & Hk & Hx)]; [exact Hcr|by destruct y; simplify_eq/=]).
  apply create_Ok in Hcr' as (_ & Hnone & Hver & ->). clear Hcr. simpl in Hnone, Hver.
  pose proof (binding_verdict_None _ _ Hver) as Hclash.
  assert (Hw2 : next_uuid w2 = next_uuid w ∧ rows_move (device_bindings (db w2)) (db w) (db w2)).
  { destruct previous; [destruct Hprev as (-> & _ & b & t & _ & _ & _ & _ & ->)|destruct Hprev as [-> _]].
    - split; [done|]. apply rows_move_binding.
    - split; [done|]. exists (device_binding_events (db w)). simpl. by destruct (db w). }
  destruct Hw2 as [Hn2 Hm2].
  destruct (replaced_rest actor (esim_id s) replace previous (next_uuid w) (device_bindings (db w))
    (device_bindings (db w2)) new) as (Hrep & Hrn & Hrc & Hq & Hmap); [done| |done|done|].
  { destruct previous; [|by destruct Hprev as [-> ?]].
    destruct Hprev as (_ & ? & b & t & ? & ? & ? & ? & Hd). split; [done|]. exists b, t. by rewrite Hd. }
  apply (issue_tail previous new) in H as ((t & Hb) & Hmv & Hn); [|by apply lookup_insert_eq|exact Hq].
  assert (Hfinal : rows_move (<[bnd_id new := dbr_binding r]>
    (linked previous (bnd_id new) (device_bindings (db w)))) (db w) (db w1)).
  { rewrite <- Hmap. eapply rows_move_trans; [exact Hm2|]. eapply rows_move_trans; [apply rows_move_binding|exact Hmv]. }
  simpl in Hn. assert (Hidr : bnd_id (dbr_binding r) = bnd_id new) by (by rewrite Hb).
  split.
  - exists o, m, s, t, (str (next_uuid w2)), (linked previous (bnd_id new) (device_bindings (db w))).
    rewrite Hidr. by split_and!.
  - rewrite (rows_move_lookup _ _ _ Hfinal), <- Hidr.
    eapply (bindings_inv_new (next_uuid w) _ (next_uuid w2)); rewrite ?Hidr; [|done|by rewrite Hb| | |].
    + by eapply replacing_inv.
    + simpl. lia.
    + intros k a Ha. rewrite Hb. by apply (Hrc k).
    + rewrite Hb. simpl. split; [intros _; apply digest_nonempty|done].
Qed.

Lemma lock_binding_Ok binding o e w b w' n :
  lock_binding binding o e w = (Ok b, w') → bindings_inv n (device_bindings (db w)) →
  w' = w ∧ device_bindings (db w) !! bnd_id b = Some b ∧ bnd_id b = binding ∧
  bnd_organization b = o ∧ binding_is_active b = true.
Proof.
  unfold lock_binding. intros H Hi. apply bind_Ok in H as (found_ & w1 & (_ & Hq & ->)%locked_query_Ok & H).
  destruct found_ as [b'|]; [|done]. apply bind_Ok in H as (u & w1 & [Ha ->]%raise_if_Ok & [-> ->]%ret_Ok).
  unfold binding_of in Hq. destruct (device_bindings (db w) !! binding) as [c|] eqn:E; [|done].
  destruct (bnd_organization c =? o)%N eqn:Eo; [|done]. injection Hq as ->.
  pose proof (bi_key _ _ Hi _ _ E) as <-. by bool_to_prop.
Qed.

(** The binding a call acted on, and what became of it. *)
Definition acted (actor organization binding : pk) (b b' : DeviceBinding) (d d' : Db) : Prop :=
  ∃ o m, acts actor can_device_bind o m d ∧ org_id o = organization ∧
    device_bindings d !! bnd_id b = Some b ∧ bnd_id b = binding ∧
    bnd_organization b = organization ∧ binding_is_active b = true ∧
    rows_move (<[binding := b']> (device_bindings d)) d d'.

Lemma acted_inv actor organization binding b b' d d' n :
  acted actor organization binding b b' d d' → bindings_inv n (device_bindings d) →
  same_slot b b' → (binding_is_active b' = true ↔ bnd_credential_hash b' ≠ "") →
  bindings_inv n (device_bindings d').
Proof.
  intros (o & m & _ & _ & Hb & <- & _ & _ & Hm) Hi Hs Hsec.
  rewrite (rows_move_lookup _ _ _ Hm). by apply bindings_inv_rewrite.
Qed.

Lemma credentialed_slot hash t b : same_slot b (credentialed hash t b).
Proof. by split_and!. Qed.

Lemma rotate_device_credential_Ok actor organization binding e w r w' :
  rotate_device_credential _hash_credential actor organization binding e w = (Ok r, w') →
  aborted w = false → team_inv (db w) → bindings_inv (next_uuid w) (device_bindings (db w)) →
  (∃ b t, dbr_binding r = credentialed (_hash_credential (dbr_credential r)) t b ∧
    acted actor organization binding b (dbr_binding r) (db w) (db w')) ∧
  bindings_inv (next_uuid w') (device_bindings (db w')).
Proof.
  unfold rotate_device_credential. intros H Hw [Hc _] Hi.
  apply atomic_clean_Ok in H as (w1 & H & ->); [|solve_clean|done].
  enter_gate H Hc.
  apply bind_Ok in H as (b & w2 & Hl & H).
  eapply (lock_binding_Ok _ _ _ _ _ _ (next_uuid w)) in Hl as (-> & Hb & <- & Hbo & Hact); [|exact Hi].
  leave_world. apply bind_Ok in H as (issued & w3 & Hs & [-> ->]%ret_Ok).
  apply set_credential_Ok in Hs as (t & Ht & Hmv & Hn); [|done]. simpl in *. rewrite Ht in *.
  split; [exists b, t; split; [done|]; by exists o, m|].
  eapply bindings_inv_mono; [exact Hn|]. rewrite (rows_move_lookup _ _ _ Hmv).
  apply bindings_inv_rewrite; [done..|apply credentialed_slot|].
  split; [intros _; apply digest_nonempty|done].
Qed.

Lemma unbind_device_binding_Ok actor organization binding e w r w' :
  unbind_device_binding actor organization binding e w = (Ok r, w') →
  aborted w = false → team_inv (db w) → bindings_inv (next_uuid w) (device_bindings (db w)) →
  (∃ b t, r = close_binding BINDING_UNBOUND t actor b ∧
    acted actor organization binding b r (db w) (db w')) ∧
  bindings_inv (next_uuid w') (device_bindings (db w')).
Proof.
  unfold unbind_device_binding. intros H Hw [Hc _] Hi.
  apply atomic_clean_Ok in H as (w1 & H & ->); [|solve_clean|done].
  enter_gate H Hc.
  apply bind_Ok in H as (b & w2 & Hl & H).
  eapply (lock_binding_Ok _ _ _ _ _ _ (next_uuid w)) in Hl as (-> & Hb & <- & Hbo & Hact); [|exact Hi].
  leave_world. apply bind_Ok in H as (t & w3 & Ht & H). injection Ht as <- <-.
  apply bind_Ok in H as (c & w4 & Hs & H). apply save_binding_Ok in Hs as [-> ->]; [|done].
  apply bind_Ok in H as (u & w5 & [Hmv Hn]%record_Ok & [-> ->]%ret_Ok). simpl in *.
  assert (Hfinal : rows_move (<[bnd_id b := close_binding BINDING_UNBOUND (clock e (tick (enter w))) actor b]>
    (device_bindings (db w))) (db w) (db w5)).
  { eapply rows_move_trans; [apply rows_move_binding|exact Hmv]. }
  split; [eexists b, _; split; [done|]; by exists o, m|].
  eapply bindings_inv_mono; [exact Hn|]. rewrite (rows_move_lookup _ _ _ Hfinal).
  apply bindings_inv_rewrite; [done..|by apply closed_slot|]. by split.
Qed.

(** ** Fleet credentials *)

Lemma grace_Ok g e w n w' :
  _grace_seconds g e w = (Ok n, w') →
  w' = w ∧ n = match g with Some k => k | None => FLEET_CREDENTIAL_GRACE_SECONDS (settings e) end.
Proof. unfold _grace_seconds. intros H. by inv_run H. Qed.

Lemma fleet_event_Ok f action actor e w u w' :
  _record_fleet_event f action actor e w = (Ok u, w') →
  fleet_moves (fleet_credentials (db w)) (db w) (db w') ∧ (next_uuid w ≤ next_uuid w')%N.
Proof.
  unfold _record_fleet_event. intros H. inv_run H. split; [|lia].
  match goal with |- fleet_moves _ ?d (put _ ?k ?v _) =>
    exists (<[k := v]> (fleet_credential_events d)); by destruct d end.
Qed.

Lemma clean_grace g : clean (_grace_seconds g).
Proof. unfold _grace_seconds. solve_clean. Qed.
Lemma clean_fleet_event f action actor : clean (_record_fleet_event f action actor).
Proof. unfold _record_fleet_event. solve_clean. Qed.
#[local] Hint Resolve clean_grace clean_fleet_event : effects.

Lemma fleet_put_moves m k f d d' :
  fleet_moves m (put fleet_credentials k f d) d' → fleet_moves m d d'.
Proof. intros [evs ->]. exists evs. by destruct d. Qed.

Lemma fleet_verdict_None d f :
  fleet_verdict d f = None → flt_fleet_external_id f ≠ "" ∧
  ∀ k g, fleet_credentials d !! k = Some g → flt_id g ≠ flt_id f →
    flt_organization g ≠ flt_organization f ∧ flt_fleet_external_id g ≠ flt_fleet_external_id f.
Proof.
  unfold fleet_verdict. intros H. destruct (_ || _) eqn:E in H; [done|]. bool_to_prop.
  split; [done|]. intros k g Hg Hne.
  match goal with Hq : qexists _ _ = false |- _ => rewrite qexists_false in Hq; specialize (Hq k g Hg) end.
  match goal with Hq : _ && _ = false |- _ => apply andb_false_iff in Hq as [Hq|Hq] end; by bool_to_prop.
Qed.

Lemma issue_fleet_credential_Ok organization actor grace e w r w' :
  issue_fleet_credential _hash_credential organization actor grace e w = (Ok r, w') →
  aborted w = false → fleets_inv (fleet_credentials (db w)) →
  let f := fir_fleet r in
  (∃ t, f = mkFleet (flt_id f) organization (fir_fleet_external_id r)
      (_hash_credential (fir_credential r)) t "" None) ∧
  (∀ k g, fleet_credentials (db w) !! k = Some g → flt_organization g ≠ organization) ∧
  fleet_moves (<[flt_id f := f]> (fleet_credentials (db w))) (db w) (db w') ∧
  fleets_inv (fleet_credentials (db w')).
Proof.
  unfold issue_fleet_credential. intros H Hw Hi.
  apply atomic_clean_Ok in H as (w1 & H & ->); [|solve_clean|done].
  apply bind_Ok in H as (g & w2 & [-> _]%grace_Ok & H).
  apply bind_Ok in H as (ex & w2 & (_ & Hq & ->)%query_Ok & H). symmetry in Hq.
  apply bind_Ok in H as (u & w2 & [-> ->]%raise_if_Ok & H). rewrite qexists_false in Hq.
  apply bind_Ok in H as (raw & w2 & Hraw & H). injection Hraw as <- <-.
  apply bind_Ok in H as (t & w2 & Ht & H). injection Ht as <- <-.
  apply bind_Ok in H as (ext & w2 & Hx & H). injection Hx as <- <-.
  apply bind_Ok in H as (id & w2 & Hid & H). injection Hid as <- <-. cbv zeta in H.
  apply bind_Ok in H as (u2 & w2 & (_ & Hnone & Hver & ->)%create_Ok & H). simpl in Hnone.
  apply bind_Ok in H as (u3 & w3 & [_ ->]%raise_if_Ok & H).
  apply bind_Ok in H as (u4 & w3 & [Hm _]%fleet_event_Ok & [-> ->]%ret_Ok). simpl.
  apply fleet_put_moves in Hm. destruct (fleet_verdict_None _ _ Hver) as [_ Hv].
  assert (Hdistinct : ∀ k g', fleet_credentials (db w) !! k = Some g' → flt_id g' ≠ next_uuid w).
  { intros k g' Hg' E. pose proof (fi_key _ Hi _ _ Hg') as <-. rewrite E in Hg'. congruence. }
  split_and!; [by eexists|intros k g' Hg'; specialize (Hq k g' Hg'); by bool_to_prop|exact Hm|].
  destruct Hm as [evs ->]. apply fleets_inv_new; simpl; [done|done| |apply digest_nonempty|done].
  intros k g' Hg'. apply (Hv k g' Hg'). by eapply Hdistinct.
Qed.

Lemma rotate_fleet_credential_Ok organization actor grace e w r w' :
  rotate_fleet_credential _hash_credential organization actor grace e w = (Ok r, w') →
  aborted w = false → fleets_inv (fleet_credentials (db w)) →
  ∃ f g, fleet_credentials (db w) !! flt_id f = Some f ∧ fleet_of organization (db w) = Some f ∧
    g = match grace with Some k => k | None => FLEET_CREDENTIAL_GRACE_SECONDS (settings e) end ∧
    fir_fleet r = rotated_fleet (_hash_credential (fir_credential r)) (clock e (tick w)) g f ∧
    fir_fleet_external_id r = flt_fleet_external_id f ∧
    fleet_moves (<[flt_id f := fir_fleet r]> (fleet_credentials (db w))) (db w) (db w') ∧
    fleets_inv (fleet_credentials (db w')).
Proof.
  unfold rotate_fleet_credential. intros H Hw Hi.
  apply atomic_clean_Ok in H as (w1 & H & ->); [|solve_clean|done].
  apply bind_Ok in H as (f & w2 & (_ & Hq & ->)%locked_query_Ok & H). destruct f as [f|]; [|done].
  symmetry in Hq. pose proof Hq as Hfo.
  apply qfirst_Some in Hq as (k & Hf & Ho). pose proof (fi_key _ Hi _ _ Hf) as <-.
  leave_world. apply bind_Ok in H as (g & w2 & [-> Hg]%grace_Ok & H).
  apply bind_Ok in H as (raw & w2 & Hraw & H). injection Hraw as <- <-.
  apply bind_Ok in H as (t & w2 & Ht & H). injection Ht as <- <-. cbv zeta in H.
  apply bind_Ok in H as (u2 & w2 & (_ & v & Hv & _ & ->)%save_fields_Ok & H).
  assert (v = f) as -> by (change (fleet_credentials (db w) !! flt_id f = Some v) in Hv; congruence).
  apply bind_Ok in H as (u4 & w3 & [Hm _]%fleet_event_Ok & [-> ->]%ret_Ok).
  apply fleet_put_moves in Hm. exists f, g.
  split_and!; [done..|exact Hm|]. destruct Hm as [evs ->].
  apply fleets_inv_rewrite; [done..|apply digest_nonempty|]. simpl.
  destruct (fi_secret _ Hi _ _ Hf) as [Hc _]. by split.
Qed.

(** ** Histories *)

Context (_hash_token : string → string).

(** A call on teams, devices or the fleet's credential. *)
Inductive DeviceCall :=
  | OnTeam (c : TeamCall)
  | CreateBinding (organization esim : pk) (replace : bool)
  | RotateCredential (organization binding : pk)
  | UnbindBinding (organization binding : pk)
  | IssueFleet (organization : pk) (grace_seconds : option Z)
  | RotateFleet (organization : pk) (grace_seconds : option Z).

Definition device_call (actor : pk) (c : DeviceCall) : M unit :=
  match c with
  | OnTeam c => team_call _hash_token actor c
  | CreateBinding o s replace => create_device_binding _hash_credential actor o s replace;;; ret tt
  | RotateCredential o b => rotate_device_credential _hash_credential actor o b;;; ret tt
  | UnbindBinding o b => unbind_device_binding actor o b;;; ret tt
  | IssueFleet o g => issue_fleet_credential _hash_credential o (Some actor) g;;; ret tt
  | RotateFleet o g => rotate_fleet_credential _hash_credential o (Some actor) g;;; ret tt
  end.

(** People's calls one after the other, each with its own answer. *)
Definition run_device_calls (calls : list (pk * DeviceCall)) : M unit :=
  for_each calls (λ ac, try_except (device_call ac.1 ac.2) (λ _, Some (ret tt))).

(** What holds between calls. *)
Definition sound (w : World) : Prop :=
  team_inv (db w) ∧ bindings_inv (next_uuid w) (device_bindings (db w)) ∧
  fleets_inv (fleet_credentials (db w)).

Lemma grows_team_call actor c : grows (team_call _hash_token actor c).
Proof.
  unfold team_call, create_organization, transfer_ownership, set_member_role, revoke_membership,
    set_organization_status, create_invite, revoke_invite, accept_invite, accept_locked,
    join_organization, get_or_create_membership, save_membership, locked_membership,
    _reject_attributed_member, ensure_active_membership_allowed, lock_self_referral_rows,
    resolve_organization_context, require_transfer_ownership,
    require_manage_members, require_archive_org, require_invite, require_org_mutation, require_permission, asserted, lift.
  destruct c; solve_grows.
Qed.

Lemma grows_device_call actor c : grows (device_call actor c).
Proof.
  destruct c; simpl; [apply grows_team_call|..];
    unfold create_device_binding, rotate_device_credential, unbind_device_binding,
      issue_fleet_credential, rotate_fleet_credential, _set_credential, lock_binding,
      replace_existing, save_binding, _record_binding_event, _record_fleet_event, _grace_seconds,
      _team_esim_or_404, resolve_organization_context, require_device_bind, require_org_mutation,
      require_permission, asserted, lift; solve_grows.
Qed.

Lemma device_call_settles actor c : outside (λ _ _, True) (device_call actor c).
Proof.
  set (R := λ _ _ : Db, True). assert (HR : PreOrder R) by by split.
  destruct c; simpl; [apply call_settles|..]; apply (outside_bind R);
    try (intros ?; by apply (outside_reads R), only_reads_ret); apply (outside_atomic R); by intros e w r w'.
Qed.

Lemma team_step_frame actor d d' :
  team_step actor d d' → device_bindings d' = device_bindings d ∧ fleet_credentials d' = fleet_credentials d.
Proof. by destruct 1. Qed.

Lemma sound_frame d n w' :
  (n ≤ next_uuid w')%N → device_bindings (db w') = device_bindings d →
  fleet_credentials (db w') = fleet_credentials d → team_inv (db w') →
  bindings_inv n (device_bindings d) → fleets_inv (fleet_credentials d) → sound w'.
Proof. intros Hn Hb Hf Ht ? ?. split; [done|]. rewrite Hb, Hf. split; [by eapply bindings_inv_mono|done]. Qed.

Lemma sound_rows_move m w w' :
  sound w → rows_move m (db w) (db w') → bindings_inv (next_uuid w') (device_bindings (db w')) → sound w'.
Proof.
  intros (Ht & _ & Hf) Hm Hb. split; [by eapply team_inv_rows_move|]. split; [done|].
  by destruct Hm as [evs ->].
Qed.

Lemma sound_fleet_moves m w w' :
  sound w → fleet_moves m (db w) (db w') → (next_uuid w ≤ next_uuid w')%N →
  fleets_inv (fleet_credentials (db w')) → sound w'.
Proof.
  intros (Ht & Hb & _) Hm Hn Hf. split; [by eapply team_inv_fleet_moves|]. split; [|done].
  destruct Hm as [evs ->]. by eapply bindings_inv_mono.
Qed.

Lemma device_call_sound actor c e w r w' :
  device_call actor c e w = (r, w') → aborted w = false → sound w → sound w'.
Proof.
  intros H Hw Hs. pose proof (grows_device_call _ _ _ _ _ _ H) as Hn. pose proof Hs as (Ht & Hb & Hf).
  assert (Hsame : db w' = db w → sound w') by (intros E; by apply (sound_frame (db w) (next_uuid w)); rewrite ?E).
  destruct c; simpl in H; [|revert H; apply atomic_call; [intros a H|exact Hsame]..].
  - destruct (call_step _ _ _ _ _ _ _ H Hw Ht) as [E|Hst]; [by apply Hsame|].
    destruct (team_step_frame _ _ _ Hst) as [Eb Ef].
    apply (sound_frame (db w) (next_uuid w)); try done. by eapply team_inv_step.
  - apply create_device_binding_Ok in H as [(?&?&?&?&?&?&?&?&?&?&?&?&?&Hm) Hi]; [|done..].
    by eapply sound_rows_move.
  - apply rotate_device_credential_Ok in H as [(?&?&_&?&?&?&?&?&?&?&?&Hm) Hi]; [|done..].
    by eapply sound_rows_move.
  - apply unbind_device_binding_Ok in H as [(?&?&_&?&?&?&?&?&?&?&?&Hm) Hi]; [|done..].
    by eapply sound_rows_move.
  - apply issue_fleet_credential_Ok in H as (_ & _ & Hm & Hi); [|done..]. by eapply sound_fleet_moves.
  - apply rotate_fleet_credential_Ok in H as (?&?&?&?&?&?&?&Hm&Hi); [|done..].
    by eapply sound_fleet_moves.
Qed.

Lemma run_device_calls_ind (P : World → Prop) calls e w r w' :
  (∀ actor c e w r w', device_call actor c e w = (r, w') → depth w = 0%nat → aborted w = false →
     P w → P w') →
  run_device_calls calls e w = (r, w') → depth w = 0%nat → aborted w = false → P w →
  P w' ∧ depth w' = 0%nat ∧ aborted w' = false ∧ r = Ok tt.
Proof.
  intros Hstep. unfold run_device_calls. revert w.
  induction calls as [|[actor c] calls IH]; intros w H Hd Hw HP; simpl in H; [by injection H as <- <-|].
  rewrite bind_run in H. unfold try_except in H. simpl in H.
  destruct (device_call actor c e w) as [x w1] eqn:Ec.
  destruct (device_call_settles _ _ _ _ _ _ Hd Hw Ec) as (_ & Hd1 & Hw1).
  apply (IH w1); [by destruct x|done..|by eapply Hstep].
Qed.

(** ** Authentication *)

Lemma authenticate_run external s e w n :
  aborted w = false → bindings_inv n (device_bindings (db w)) →
  ∃ r, authenticate_device _hash_credential external s e w = (r, w) ∧
    (r = Raise NotFound ∨ ∃ b, r = Ok b) ∧
    ∀ b, r = Ok b ↔
      device_bindings (db w) !! bnd_id b = Some b ∧ binding_is_active b = true ∧
      bnd_device_external_id b = strip external ∧ s ≠ "" ∧
      bnd_credential_hash b = _hash_credential s.
Proof.
  intros Hw Hi. unfold authenticate_device. cbv zeta.
  destruct (bool_decide (strip external = "") || bool_decide (s = "")) eqn:Ein.
  { exists (Raise NotFound). split_and!; [done|by left|]. intros b. split; [done|].
    intros (Hb & _ & Hx & Hs & _). apply orb_true_iff in Ein as [E|E]; bool_to_prop; [|done].
    destruct (bi_minted _ _ Hi _ _ Hb) as (j & _ & Hj). by destruct (str_nonempty j); congruence. }
  unfold raise_if. rewrite ret_bind. erewrite bind_step by (by apply query_run). bool_to_prop.
  destruct (qfirst _ _) as [b|] eqn:Eq.
  - apply qfirst_Some in Eq as (k & Hb & [Hx Hact]%andb_true_iff). bool_to_prop.
    pose proof (bi_key _ _ Hi _ _ Hb) as <-. pose proof (proj1 (bi_secret _ _ Hi _ _ Hb) Hact) as Hne.
    assert (Hu : ∀ c, device_bindings (db w) !! bnd_id c = Some c →
      bnd_device_external_id c = strip external → c = b).
    { intros c Hc Hcx. assert (E : bnd_id c = bnd_id b) by (eapply bi_external; eauto; congruence).
      rewrite E in Hc. congruence. }
    rewrite (bool_decide_eq_false_2 _ Hne), ret_bind.
    destruct (bool_decide (bnd_credential_hash b = _hash_credential s)) eqn:Eh; simpl; bool_to_prop.
    + exists (Ok b). split_and!; [done|right; by exists b|]. intros c. split.
      * by intros [= <-].
      * intros (Hc & _ & Hcx & _). by rewrite (Hu c).
    + exists (Raise NotFound). split_and!; [done|by left|]. intros c. split; [done|].
      intros (Hc & _ & Hcx & _ & Hh). by rewrite (Hu c) in Hh.
  - exists (Raise NotFound). split_and!; [done|by left|]. intros c. split; [done|].
    intros (Hc & Hact & Hcx & _). rewrite qfirst_None in Eq. specialize (Eq _ _ Hc). simpl in Eq.
    by rewrite Hcx, Hact, bool_decide_eq_true_2 in Eq.
Qed.

Lemma authenticate_refused external s e w n :
  aborted w = false → bindings_inv n (device_bindings (db w)) →
  (∀ k b, device_bindings (db w) !! k = Some b → bnd_device_external_id b = strip external →
     binding_is_active b = true → bnd_credential_hash b ≠ _hash_credential s) →
  authenticate_device _hash_credential external s e w = (Raise NotFound, w).
Proof.
  intros Hw Hi Hno. destruct (authenticate_run external s e w n Hw Hi) as (r & -> & [->|(b & ->)] & Hb);
    [done|]. destruct (proj1 (Hb b) eq_refl) as (Hbb & Hact & Hx & _ & Hh). by destruct (Hno _ _ Hbb Hx Hact).
Qed.

Lemma external_strip n m k b :
  bindings_inv n m → m !! k = Some b → strip (bnd_device_external_id b) = bnd_device_external_id b.
Proof.
  intros Hi Hb. destruct (bi_minted _ _ Hi _ _ Hb) as (j & _ & ->).
  apply strip_spaceless, str_spaceless.
Qed.

(** [b] is the row of an active binding, and [s] its secret. *)
Definition opens_with (b : DeviceBinding) (s : string) (d : Db) : Prop :=
  device_bindings d !! bnd_id b = Some b ∧ binding_is_active b = true ∧
  bnd_credential_hash b = _hash_credential s.

Lemma opens_only b s e w n :
  aborted w = false → bindings_inv n (device_bindings (db w)) → opens_with b s (db w) →
  (s ≠ "" → authenticate_device _hash_credential (bnd_device_external_id b) s e w = (Ok b, w)) ∧
  ∀ s', _hash_credential s' ≠ _hash_credential s →
    authenticate_device _hash_credential (bnd_device_external_id b) s' e w = (Raise NotFound, w).
Proof.
  intros Hw Hi (Hb & Hact & Hh). pose proof (external_strip _ _ _ _ Hi Hb) as Hx. split.
  - intros Hs. destruct (authenticate_run (bnd_device_external_id b) s e w n Hw Hi) as (r & -> & _ & Hr).
    f_equal. by apply (Hr b).
  - intros s' Hs'. eapply authenticate_refused; [done..|]. intros k c Hc Hcx _ E. rewrite Hx in Hcx.
    pose proof (bi_external _ _ Hi _ _ _ _ Hc Hb Hcx) as ->. congruence.
Qed.

(** Nothing opens a binding that is no longer active. *)
Lemma dead_refused b s e w n :
  aborted w = false → bindings_inv n (device_bindings (db w)) →
  device_bindings (db w) !! bnd_id b = Some b → binding_is_active b = false →
  authenticate_device _hash_credential (bnd_device_external_id b) s e w = (Raise NotFound, w).
Proof.
  intros Hw Hi Hb Hact. eapply authenticate_refused; [done..|]. intros k c Hc Hcx Hc'.
  rewrite (external_strip _ _ _ _ Hi Hb) in Hcx.
  pose proof (bi_external _ _ Hi _ _ _ _ Hc Hb Hcx) as ->. congruence.
Qed.

(** A closed row is never written again. *)
Lemma device_call_dead actor c e w r w' b :
  device_call actor c e w = (r, w') → aborted w = false → sound w →
  device_bindings (db w) !! bnd_id b = Some b → binding_is_active b = false →
  device_bindings (db w') !! bnd_id b = Some b.
Proof.
  intros H Hw Hs Hb Hact. pose proof Hs as (Ht & Hi & Hf).
  assert (Hsame : db w' = db w → device_bindings (db w') !! bnd_id b = Some b) by (by intros ->).
  assert (Hacted : ∀ o i c c', acted actor o i c c' (db w) (db w') →
    device_bindings (db w') !! bnd_id b = Some b).
  { intros o i x x' (? & ? & _ & _ & Hx & <- & _ & Hxa & Hm). rewrite (rows_move_lookup _ _ _ Hm).
    rewrite lookup_insert_ne; [done|]. intros E. rewrite E in Hx. congruence. }
  destruct c; simpl in H; [|revert H; apply atomic_call; [intros a H|exact Hsame]..].
  - destruct (call_step _ _ _ _ _ _ _ H Hw Ht) as [E|Hst]; [by apply Hsame|].
    by destruct (team_step_frame _ _ _ Hst) as [-> _].
  - apply create_device_binding_Ok in H as [(?&?&?&?&?&rest&_&_&_&_&_&Hr&Hnone&Hm) _]; [|done..].
    assert (Hrest : rest !! bnd_id b = Some b).
    { destruct Hr as [[-> _]|(_ & p & t & Hp & Hpa & _ & ->)]; [done|].
      rewrite lookup_insert_ne; [done|]. intros E. rewrite E in Hp. congruence. }
    rewrite (rows_move_lookup _ _ _ Hm), lookup_insert_ne; [done|]. intros E. rewrite E in Hnone. congruence.
  - apply rotate_device_credential_Ok in H as [(?&?&_&Ha) _]; [|done..]. by eapply Hacted.
  - apply unbind_device_binding_Ok in H as [(?&?&_&Ha) _]; [|done..]. by eapply Hacted.
  - apply issue_fleet_credential_Ok in H as (_ & _ & [evs ->] & _); [|done..]. done.
  - apply rotate_fleet_credential_Ok in H as (?&?&?&?&?&?&?&[evs ->]&_); [|done..]. done.
Qed.

(** ** Properties *)

(** C35: Any history of calls on teams, device bindings and fleet credentials,
    by anyone and however each call ends, keeps the data sound: an eSIM has at
    most one active device, no team has an external id or a serial number
    active twice, a binding holds a secret exactly while it is active, external
    ids are never issued twice even across rolled-back calls, and a team has at
    most one fleet credential. *)
Theorem device_history_sound calls e w r w' :
  run_device_calls calls e w = (r, w') → depth w = 0%nat → aborted w = false → sound w →
  sound w' ∧ depth w' = 0%nat ∧ aborted w' = false ∧ r = Ok tt.
Proof.
  apply (run_device_calls_ind sound). intros actor c e' v s v' H _ Hv. by eapply device_call_sound.
Qed.

(** C36: Authenticating a device decides: the answer is the binding whose row is
    active, has the (stripped) external id given and the hash of the secret
    given, and when there is none, or when the id or the secret is empty, the
    answer is the one "not found" error, whatever was wrong. *)
Theorem authentication_decides external s e w :
  aborted w = false → sound w →
  ∃ r, authenticate_device _hash_credential external s e w = (r, w) ∧
    (r = Raise NotFound ∨ ∃ b, r = Ok b) ∧
    ∀ b, r = Ok b ↔
      device_bindings (db w) !! bnd_id b = Some b ∧ binding_is_active b = true ∧
      bnd_device_external_id b = strip external ∧ s ≠ "" ∧
      bnd_credential_hash b = _hash_credential s.
Proof. intros Hw (_ & Hi & _). by eapply authenticate_run. Qed.

(** C37: The secret a person gets for a device is the device's only key: when a
    binding was created, or its secret rotated, by an active member of the
    active team with the device permission, the secret returned authenticates
    that binding, any secret with another hash (the previous one included) does
    not, and no secret authenticates another binding of the same eSIM. *)
Theorem issued_secret_is_only_key actor organization x replace e w r w' :
  create_device_binding _hash_credential actor organization x replace e w = (Ok r, w') ∨
  rotate_device_credential _hash_credential actor organization x e w = (Ok r, w') →
  aborted w = false → sound w →
  let b := dbr_binding r in
  (∃ o m, acts actor can_device_bind o m (db w) ∧ org_id o = organization ∧
     bnd_organization b = organization) ∧
  aborted w' = false ∧
  ∀ e', (dbr_credential r ≠ "" → authenticate_device _hash_credential (bnd_device_external_id b)
           (dbr_credential r) e' w' = (Ok b, w')) ∧
    (∀ s, _hash_credential s ≠ _hash_credential (dbr_credential r) →
       authenticate_device _hash_credential (bnd_device_external_id b) s e' w' = (Raise NotFound, w')) ∧
    ∀ k p s, device_bindings (db w') !! k = Some p → bnd_esim p = bnd_esim b → k ≠ bnd_id b →
      authenticate_device _hash_credential (bnd_device_external_id p) s e' w' = (Raise NotFound, w').
Proof.
  intros H Hw Hs. pose proof Hs as (Ht & Hi & _). cbv zeta.
  assert (Hw' : aborted w' = false) by (by destruct H as [H|H]; apply clean_atomic in H).
  assert (Hopen : (∃ o m, acts actor can_device_bind o m (db w) ∧ org_id o = organization ∧
      bnd_organization (dbr_binding r) = organization) ∧
    opens_with (dbr_binding r) (dbr_credential r) (db w') ∧
    bindings_inv (next_uuid w') (device_bindings (db w'))).
  { destruct H as [H|H].
    - apply create_device_binding_Ok in H as [(o & m & v & t & ext & rest & ? & ? & _ & _ & Hb & _ & _ & Hm) Hi'];
        [|done..]. split; [exists o, m; by rewrite Hb|]. split; [|done]. unfold opens_with.
      rewrite (rows_move_lookup _ _ _ Hm), lookup_insert_eq. split; [done|]. by rewrite Hb.
    - apply rotate_device_credential_Ok in H as [(b & t & Hb & o & m & Ha & Ho & _ & Hid & Hbo & Hact & Hm) Hi'];
        [|done..]. split; [exists o, m; by rewrite Hb|]. split; [|done]. unfold opens_with.
      assert (Hx : bnd_id (dbr_binding r) = x) by (by rewrite Hb).
      rewrite (rows_move_lookup _ _ _ Hm), Hx, lookup_insert_eq. split; [done|]. by rewrite Hb. }
  destruct Hopen as (Hacts & Hopen & Hi'). split; [done|]. split; [done|]. intros e'.
  destruct (opens_only _ _ e' w' _ Hw' Hi' Hopen) as [Hyes Hno]. split_and!; [done..|].
  intros k p s Hp Hes Hk. pose proof (bi_key _ _ Hi' _ _ Hp) as <-.
  eapply dead_refused; [done..|]. destruct (binding_is_active p) eqn:Hpa; [|done].
  destruct Hopen as (Hb & Hact & _). destruct (bi_apart _ _ Hi').
  exists (bnd_id p), (bnd_id (dbr_binding r)), p, (dbr_binding r). split_and!; try done.
  unfold binding_clash. by rewrite Hpa, Hact, Hes, N.eqb_refl.
Qed.

(** C38: Unbinding is final.  The row of an unbound binding (and of any other
    that is no longer active, a replaced one say) is never written again by any
    history of calls on teams, devices and credentials, and from then on no
    secret authenticates its external id. *)
Theorem unbinding_is_final actor organization x e w b w1 calls e' r w2 :
  unbind_device_binding actor organization x e w = (Ok b, w1) →
  depth w = 0%nat → aborted w = false → sound w → run_device_calls calls e' w1 = (r, w2) →
  let dead p := device_bindings (db w1) !! bnd_id p = Some p ∧ binding_is_active p = false in
  bnd_id b = x ∧ dead b ∧
  ∀ p, dead p → device_bindings (db w2) !! bnd_id p = Some p ∧
    ∀ s e'', authenticate_device _hash_credential (bnd_device_external_id p) s e'' w2 =
      (Raise NotFound, w2).
Proof.
  intros H Hd Hw Hs Hrun. cbv zeta.
  assert (Hcall : device_call actor (UnbindBinding organization x) e w = (Ok tt, w1)) by (simpl; by rewrite bind_run, H).
  destruct (device_call_settles _ _ _ _ _ _ Hd Hw Hcall) as (_ & Hd1 & Hw1).
  pose proof (device_call_sound _ _ _ _ _ _ Hcall Hw Hs) as Hs1.
  pose proof Hs as (Ht & Hi & _).
  apply unbind_device_binding_Ok in H as [(p & t & Hb & o & m & _ & _ & _ & Hid & _ & _ & Hm) _]; [|done..].
  assert (Hbx : bnd_id b = x) by (by rewrite Hb). split; [done|]. split.
  - rewrite (rows_move_lookup _ _ _ Hm), Hbx, lookup_insert_eq, Hb. split; [done|]. by apply closed_inactive.
  - intros q [Hq Hqa].
    destruct (run_device_calls_ind (λ w, sound w ∧ device_bindings (db w) !! bnd_id q = Some q)
      calls e' w1 r w2) as ([(_ & Hi2 & _) Hq2] & _ & Hw2 & _); [|done..|].
    { intros a c ec wc rc wc' Hc _ Hwc [Hsc Hqc]. split; [by eapply device_call_sound|].
      by eapply device_call_dead. }
    split; [done|]. intros s e''. by eapply dead_refused.
Qed.

Lemma verify_run external s e w f :
  aborted w = false → fleets_inv (fleet_credentials (db w)) →
  fleet_credentials (db w) !! flt_id f = Some f → flt_fleet_external_id f = strip external →
  strip external ≠ "" → s ≠ "" → ∀ until, flt_previous_valid_until f = Some until →
  (verify_fleet_credential _hash_credential external s e w).1 =
    if decide (_hash_credential s = flt_current_credential_hash f ∨
               _hash_credential s = flt_previous_credential_hash f ∧ clock e (tick w) ≤ until)
    then Ok f else Raise FleetCredentialInvalidError.
Proof.
  intros Hw Hi Hf Hx Hne Hs until Hu. unfold verify_fleet_credential, raise_if. cbv zeta.
  rewrite (bool_decide_eq_false_2 _ Hne), (bool_decide_eq_false_2 _ Hs). simpl orb. cbv iota. rewrite ret_bind.
  erewrite bind_step by (by apply query_run).
  rewrite (qfirst_unique _ _ (flt_id f) f); [|done|by apply bool_decide_eq_true|].
  2: { intros k g Hg Hgx%bool_decide_eq_true. assert (k = flt_id f) as ->
         by (eapply fi_external; eauto; congruence). congruence. }
  destruct (fi_secret _ Hi _ _ Hf) as [Hc Hp]. rewrite Hu.
  assert (Hpn : flt_previous_credential_hash f ≠ "") by (intros E; apply Hp in E; congruence).
  rewrite (bool_decide_eq_false_2 _ Hpn). destruct (bool_decide (_ = _)) eqn:Ec; bool_to_prop.
  - by rewrite decide_True by (by left).
  - rewrite bind_run. simpl. destruct (_ && _) eqn:E; simpl.
    + bool_to_prop. rewrite decide_True; [done|right; split; [congruence|done]].
    + rewrite decide_False; [done|]. intros [?|[Eq Ht]]; [congruence|].
      apply andb_false_iff in E as [E|E]; bool_to_prop; [lia|congruence].
Qed.

(** C39: Rotating a fleet credential opens a grace window and nothing more.
    Whatever is sent later under the fleet's external id, the new secret is
    accepted; the secret that was current before is accepted up to and
    including the end of the window (the seconds asked for, or the setting;
    none when that is not positive); every other secret, older ones included,
    is refused. *)
Theorem fleet_rotation_grace organization actor grace e w r w' :
  rotate_fleet_credential _hash_credential organization actor grace e w = (Ok r, w') →
  aborted w = false → fleets_inv (fleet_credentials (db w)) →
  let seconds := match grace with Some k => k | None => FLEET_CREDENTIAL_GRACE_SECONDS (settings e) end in
  ∃ old, fleet_of organization (db w) = Some old ∧
    ∀ external s e2 w2, fleet_credentials (db w2) = fleet_credentials (db w') → aborted w2 = false →
      strip external = fir_fleet_external_id r → strip external ≠ "" → s ≠ "" →
      (verify_fleet_credential _hash_credential external s e2 w2).1 =
        if decide (_hash_credential s = _hash_credential (fir_credential r) ∨
                   _hash_credential s = flt_current_credential_hash old ∧
                   clock e2 (tick w2) ≤ clock e (tick w) + Z.max 0 seconds * 1000000)
        then Ok (fir_fleet r) else Raise FleetCredentialInvalidError.
Proof.
  intros H Hw Hi. cbv zeta.
  apply rotate_fleet_credential_Ok in H as (f & g & Hf & Hfo & -> & Hr & Hx & [evs ->] & Hi'); [|done..].
  exists f. split; [done|]. intros external s e2 w2 Hd Hw2 Hext Hne Hs. simpl in Hd, Hi'.
  rewrite (verify_run external s e2 w2 (fir_fleet r)) with (until := clock e (tick w) +
    Z.max 0 (match grace with Some k => k | None => FLEET_CREDENTIAL_GRACE_SECONDS (settings e) end) * 1000000).
  - by rewrite Hr.
  - done.
  - by rewrite Hd.
  - rewrite Hd. replace (flt_id (fir_fleet r)) with (flt_id f) by (by rewrite Hr). apply lookup_insert_eq.
  - by rewrite Hext, Hx, Hr.
  - done.
  - done.
  - rewrite Hr. simpl. f_equal. match goal with |- context [0 <? ?g] => destruct (Z.ltb_spec 0 g) end; lia.
Qed.
End Mutations.

(** ** Finding a device by its serial number *)

Lemma startswith_prefix p q s : startswith (p +:+ q) s = true → startswith p s = true.
Proof.
  unfold startswith. revert s. induction p as [|c p IH]; intros s; [by destruct s|].
  destruct s as [|d s]; simpl; [done|]. destruct (Ascii.ascii_dec c d); [apply IH|done].
Qed.

Lemma contains_app p q s : contains (p +:+ q) s = true → contains p s = true.
Proof.
  assert (Heq : ∀ sub s, contains sub s =
    startswith sub s || match s with EmptyString => false | String _ s => contains sub s end) by by intros sub [].
  induction s as [|c s IH]; rewrite (Heq (p +:+ q)), (Heq p), !orb_true_iff; (intros [H|H]; [left; by apply (startswith_prefix p q)|]);
    [done|right; auto].
Qed.

Lemma contains_step sub c s : contains sub (String c s) = startswith sub (String c s) || contains sub s.
Proof. done. Qed.

(** A text that does not have the first letter of [sub] is skipped. *)
Lemma contains_skip c sub t s :
  has_char c t = false → contains (String c sub) (t +:+ s) = contains (String c sub) s.
Proof.
  induction t as [|d t IH]; [done|]. change (String d t +:+ s) with (String d (t +:+ s)). simpl.
  intros [Hc Ht]%orb_false_iff. bool_to_prop. destruct (Ascii.ascii_dec c d); [done|]. by apply IH.
Qed.

Lemma has_char_leading n : ∃ c t, str n = String c t ∧ (n ≠ 0%N → c ≠ "0"%char).
Proof.
  destruct (str n) as [|c t] eqn:E; [by destruct (str_nonempty n)|]. exists c, t. split; [done|].
  intros Hn. revert E. unfold str, pretty, pretty_N. rewrite decide_False by done. intros E.
  pose proof (pretty_N_go_leading n "" ltac:(lia)) as Hl. rewrite E in Hl. by destruct Hl.
Qed.

Lemma pretty_N_go_char d x s :
  (∀ n, pretty_N_char n ≠ d) → has_char d s = false → has_char d (pretty_N_go x s) = false.
Proof.
  intros Hd. revert s. induction (N.lt_wf_0 x) as [x _ IH]; intros s Hs.
  destruct (decide (0 < x)%N) as [Hx|Hx].
  - rewrite pretty_N_go_step by done. apply IH; [by apply N.div_lt|].
    simpl. by rewrite Hs, orb_false_r, bool_decide_eq_false_2 by (intros E; by destruct (Hd (x `mod` 10)%N)).
  - by replace x with 0%N by lia.
Qed.

(** The message for [n] matches is told apart by its wording. *)
Definition count_message (n : nat) : string :=
  "UEM serialNumber match count is " +:+ pretty n +:+ " (fail closed)".

Lemma count_message_counts n : contains "match count is" (count_message n) = true.
Proof. done. Qed.

Lemma count_message_some n : (n ≠ 0)%nat → contains "match count is 0" (count_message n) = false.
Proof.
  intros Hn. unfold count_message. change (pretty n) with (str (N.of_nat n)).
  destruct (has_char_leading (N.of_nat n)) as (c & t & E & Hc).
  assert (Hm : has_char "m"%char (str (N.of_nat n)) = false).
  { unfold str, pretty, pretty_N. case_decide; [done|]. apply pretty_N_go_char; [|done].
    intros x. unfold pretty_N_char. by repeat case_match. }
  assert (Hskip : contains "match count is 0" (str (N.of_nat n) +:+ " (fail closed)") = false)
    by (by rewrite contains_skip).
  rewrite E in *. change (String c t +:+ " (fail closed)") with (String c (t +:+ " (fail closed)")) in *.
  assert (Hc0 : "0"%char ≠ c) by (intros <-; by apply Hc; [lia|]).
  revert Hc0 Hskip. generalize (t +:+ " (fail closed)"). clear. intros u.
  by destruct c as [[] [] [] [] [] [] [] []]; intros ? Hskip; try exact Hskip.
Qed.

Section UemProperties.
Context (str_json : Json → string) (_request : M (list (string * Json))).
(** The transport's own errors do not speak of counting matches. *)
Hypothesis request_message : ∀ e w msg w1,
  _request e w = (Raise (BlackberryUemClientError msg), w1) → contains "match count is" msg = false.

(** The listed devices with a serial number. *)
Definition with_serial (serial : string) (devices : list Json) : list Json :=
  List.filter (λ d, is_object d && bool_decide (field_text str_json "serialNumber" d = serial)) devices.

Lemma filter_filter_and {A} (f g : A → bool) l :
  List.filter g (List.filter f l) = List.filter (λ x, f x && g x) l.
Proof. induction l as [|x l IH]; simpl; [done|]. destruct (f x); simpl; by rewrite IH. Qed.

Lemma no_count_no_zero msg :
  contains "match count is" msg = false → contains "match count is 0" msg = false.
Proof.
  intros H. apply not_true_is_false. intros H0.
  by rewrite (contains_app "match count is" " 0" _ H0) in H.
Qed.

(** C40: Finding a device by its serial number decides by the number of listed
    devices that carry it: exactly one is the answer, none is "device not
    found", several are "ambiguous"; an inventory without a device list or any
    error of the client becomes a match error carrying the client's message.
    (The code tells these cases apart by searching the message text.) *)
Theorem serial_lookup_counts serial e w :
  strip serial ≠ "" → BLACKBERRY_UEM_ENABLED (settings e) = true →
  resolve_uem_device_by_serial str_json _request serial e w =
  match _request e w with
  | (Ok payload, w1) =>
      (match jget "devices" payload with
       | Some (JArr devices) =>
           match with_serial (strip serial) devices with
           | [device] => Ok device
           | [] => Raise DeviceNotFoundError
           | _ => Raise DeviceAmbiguousError
           end
       | _ => Raise (UemSerialMatchError "UEM /devices response missing devices list")
       end, w1)
  | (Raise (BlackberryUemClientError msg), w1) => (Raise (UemSerialMatchError msg), w1)
  | (Raise x, w1) => (Raise x, w1)
  end.
Proof.
  intros Hs He. unfold resolve_uem_device_by_serial, raise_if. cbv zeta.
  rewrite (bool_decide_eq_false_2 _ Hs), ret_bind.
  erewrite bind_step by reflexivity. rewrite He. simpl negb. cbv iota. rewrite ret_bind.
  unfold try_except, get_device_by_serial, raise_if. rewrite strip_idem. cbv zeta.
  rewrite (bool_decide_eq_false_2 _ Hs), ret_bind. unfold list_devices. rewrite bind_bind, bind_run.
  destruct (_request e w) as [[payload|x] w1] eqn:Er.
  - destruct (jget "devices" payload) as [[| | | |devices|]|]; try done. rewrite ret_bind, filter_filter_and.
    fold (with_serial (strip serial) devices).
    destruct (with_serial (strip serial) devices) as [|d [|d' l]]; [done..|].
    fold (count_message (length (d :: d' :: l))). cbv [raise]. cbv beta iota.
    by rewrite (count_message_some (length (d :: d' :: l)) ltac:(done)), count_message_counts.
  - destruct x as []; try done. pose proof (request_message _ _ _ _ Er) as Hmsg.
    by rewrite (no_count_no_zero _ Hmsg), Hmsg.
Qed.
End UemProperties.

(** ** A concrete fleet *)

Definition h (s : string) : string := "h:" +:+ s.

Lemma h_nonempty s : h s ≠ "".
Proof. done. Qed.

Lemma team_inv_esims d m : team_inv d → team_inv (d <| esims := m |>).
Proof. intros [[[] ? ? ? ? ? ?] ?]; split; [split; [split; assumption|assumption..]|assumption]. Qed.

(** An eSIM of the account 1000. *)
Definition with_esim (w : World) : World := w <| db := (db w) <| esims := {[ 500%N :=
  mkEsim 500 1000 1 None 3 "8910" "" no_install PURCHASED POLICY_UNKNOWN "op" "" None None None no_usage 0 0 ]} |> |>.

Lemma with_esim_sound w :
  team_inv (db w) → device_bindings (db w) = ∅ → fleet_credentials (db w) = ∅ → sound (with_esim w).
Proof.
  intros Ht Hb Hf. split; [by apply team_inv_esims|]. simpl. rewrite Hb, Hf.
  assert (Hno : ∀ V k (v : V), (∅ : gmap pk V) !! k = Some v → False).
  { intros V k v. by rewrite lookup_empty. }
  split; split; try (intros ? ? ?%Hno; done); try (intros ? ? ? ? ?%Hno; done).
  by intros (? & ? & ? & ? & ?%Hno & _).
Qed.

Definition acme_esims : World := with_esim acme.

Lemma acme_sound : sound acme_esims ∧ aborted acme_esims = false ∧ depth acme_esims = 0%nat.
Proof.
  split; [|by split; vm_compute].
  apply with_esim_sound; [exact (proj1 acme_inv)|vm_compute; reflexivity|vm_compute; reflexivity].
Qed.

(** Ann binds a device, Bob (a member) rotates its secret, a stranger tries to;
    Ann rebinds the eSIM to another device, and Ann sets up the fleet. *)
Definition fleet_calls : list (pk * DeviceCall) :=
  [(1%N, CreateBinding 1001 500 false); (2%N, RotateCredential 1001 1006); (3%N, UnbindBinding 1001 1006);
   (1%N, CreateBinding 1001 500 false); (1%N, CreateBinding 1001 500 true);
   (1%N, IssueFleet 1001 None); (1%N, OnTeam (TransferOwnership 1001 2)); (2%N, RotateFleet 1001 None)].

Definition fleet_run : World := (run_device_calls h (λ s, s) fleet_calls sample_env acme_esims).2.

(** Bob's and the stranger's calls and the second binding are refused. *)
Example fleet_runs :
  (λ b, (bnd_device_external_id b, bnd_credential_hash b, bnd_status b)) <$> device_bindings (db fleet_run) =
    {[ 1006%N := ("1005", "", BINDING_REPLACED); 1010%N := ("1009", "h:2", BINDING_ACTIVE) ]} ∧
  (λ f, (flt_current_credential_hash f, flt_previous_credential_hash f)) <$> fleet_credentials (db fleet_run) =
    {[ 1013%N := ("h:5", "h:3") ]}.
Proof. split; vm_compute; reflexivity. Qed.

Lemma device_history_sound_witness :
  ∃ w', run_device_calls h (λ s, s) fleet_calls sample_env acme_esims = (Ok tt, w') ∧ sound w'.
Proof.
  destruct (run_device_calls h (λ s, s) fleet_calls sample_env acme_esims) as [r w'] eqn:E.
  destruct (device_history_sound h h_nonempty (λ s, s) fleet_calls sample_env acme_esims r w' E
    (proj2 (proj2 acme_sound)) (proj1 (proj2 acme_sound)) (proj1 acme_sound)) as (Hs & _ & _ & ->).
  exists w'. by split.
Defined.

(** The world after Ann's first call. *)
Definition bound : World := (device_call h (λ s, s) 1 (CreateBinding 1001 500 false) sample_env acme_esims).2.

Lemma bound_sound : sound bound ∧ aborted bound = false ∧ depth bound = 0%nat.
Proof.
  unfold bound. destruct (device_call h (λ s, s) 1 (CreateBinding 1001 500 false) sample_env acme_esims)
    as [r w'] eqn:E.
  destruct acme_sound as (Hs & Ha & Hd).
  destruct (device_call_settles h (λ s, s) 1 (CreateBinding 1001 500 false) sample_env acme_esims r w' Hd Ha E)
    as (_ & Hd' & Ha').
  split; [|by split].
  exact (device_call_sound h h_nonempty (λ s, s) 1 (CreateBinding 1001 500 false) sample_env acme_esims r w' E Ha Hs).
Qed.

Definition first_binding : DeviceBinding :=
  mkBinding 1006 1001 500 "1005" "" "" "h:1" (Some 2) BINDING_ACTIVE (Some 1%N) None None None.

Lemma bound_rows : device_bindings (db bound) = {[ 1006%N := first_binding ]}.
Proof. vm_compute. reflexivity. Qed.

Lemma authentication_decides_witness :
  authenticate_device h " 1005 " "1" sample_env bound = (Ok first_binding, bound) ∧
  authenticate_device h "1005" "0" sample_env bound = (Raise NotFound, bound).
Proof.
  destruct (authentication_decides h " 1005 " "1" sample_env bound (proj1 (proj2 bound_sound))
    (proj1 bound_sound)) as (r & E & _ & Hr).
  destruct (authentication_decides h "1005" "0" sample_env bound (proj1 (proj2 bound_sound))
    (proj1 bound_sound)) as (r' & E' & Hor & Hr').
  split.
  - rewrite E, (proj2 (Hr first_binding)); [reflexivity|]. rewrite bound_rows.
    split_and!; try reflexivity; try discriminate; vm_compute; reflexivity.
  - destruct Hor as [->|[b ->]]; [exact E'|]. destruct (proj1 (Hr' b) eq_refl) as (Hb & _ & _ & _ & Hh).
    rewrite bound_rows in Hb. apply lookup_singleton_Some in Hb as [_ <-]. discriminate Hh.
Defined.

(** Ann's secret for the device, then Bob's after he was given the team. *)
Lemma issued_secret_is_only_key_witness :
  authenticate_device h "1005" "1" sample_env bound = (Ok first_binding, bound) ∧
  authenticate_device h "1005" "guess" sample_env bound = (Raise NotFound, bound).
Proof.
  destruct (create_device_binding h 1 1001 500 false sample_env acme_esims) as [[r|x] w'] eqn:E;
    [|vm_compute in E; discriminate E].
  assert (Ew : w' = bound) by (unfold bound; simpl; by rewrite bind_run, E).
  destruct (issued_secret_is_only_key h h_nonempty 1 1001 500 false sample_env acme_esims r w'
    (or_introl E) (proj1 (proj2 acme_sound)) (proj1 acme_sound)) as (_ & _ & H).
  rewrite Ew in H. assert (Er : r = mkBindingCreated first_binding "1").
  { vm_compute in E. by injection E as <- _. }
  rewrite Er in H. destruct (H sample_env) as (Hyes & Hno & _). split.
  - apply Hyes. discriminate.
  - apply Hno. discriminate.
Defined.

(** Ann unbinds; later calls do not bring the device back. *)
Lemma unbinding_is_final_witness :
  ∃ b w1 w2, unbind_device_binding 1 1001 1006 sample_env bound = (Ok b, w1) ∧
    run_device_calls h (λ s, s) [(1%N, CreateBinding 1001 500 false); (1%N, RotateCredential 1001 1006)]
      sample_env w1 = (Ok tt, w2) ∧
    authenticate_device h "1005" "1" sample_env w2 = (Raise NotFound, w2).
Proof.
  destruct (unbind_device_binding 1 1001 1006 sample_env bound) as [[b|x] w1] eqn:E;
    [|vm_compute in E; discriminate E].
  destruct (run_device_calls h (λ s, s) [(1%N, CreateBinding 1001 500 false); (1%N, RotateCredential 1001 1006)]
    sample_env w1) as [r w2] eqn:E2.
  destruct (unbinding_is_final h h_nonempty (λ s, s) 1 1001 1006 sample_env bound b w1 _ sample_env r w2
    E (proj2 (proj2 bound_sound)) (proj1 (proj2 bound_sound)) (proj1 bound_sound) E2) as (_ & Hb & H).
  destruct (H b Hb) as [_ Hauth].
  assert (Hx : bnd_device_external_id b = "1005" ∧ r = Ok tt).
  { vm_compute in E. injection E as <- <-. split; [reflexivity|]. vm_compute in E2. by injection E2 as <- _. }
  destruct Hx as [Hx ->]. exists b, w1, w2. split; [reflexivity|]. split; [exact E2|].
  rewrite <- Hx. apply Hauth.
Defined.

(** The credential "1" of the fleet "2", rotated with an hour's grace. *)
Definition issued : World := (device_call h (λ s, s) 1 (IssueFleet 1001 None) sample_env acme_esims).2.

Lemma issued_sound : fleets_inv (fleet_credentials (db issued)) ∧ aborted issued = false.
Proof.
  unfold issued. destruct (device_call h (λ s, s) 1 (IssueFleet 1001 None) sample_env acme_esims)
    as [r w'] eqn:E.
  destruct acme_sound as (Hs & Ha & Hd).
  destruct (device_call_settles h (λ s, s) 1 (IssueFleet 1001 None) sample_env acme_esims r w' Hd Ha E)
    as (_ & _ & Ha').
  split; [|exact Ha'].
  exact (proj2 (proj2 (device_call_sound h h_nonempty (λ s, s) 1 (IssueFleet 1001 None) sample_env
    acme_esims r w' E Ha Hs))).
Qed.

Lemma fleet_rotation_grace_witness :
  ∃ r w', rotate_fleet_credential h 1001 None (Some 3600) sample_env issued = (Ok r, w') ∧
    (verify_fleet_credential h "2" (fir_credential r) sample_env w').1 = Ok (fir_fleet r) ∧
    (verify_fleet_credential h "2" "1" sample_env w').1 = Ok (fir_fleet r) ∧
    (verify_fleet_credential h "2" "1" (mkEnv sample_settings (λ _, 3600000009) 100 (λ _, "")) w').1 =
      Raise FleetCredentialInvalidError.
Proof.
  destruct (rotate_fleet_credential h 1001 None (Some 3600) sample_env issued) as [[r|x] w'] eqn:E;
    [|vm_compute in E; discriminate E].
  destruct (fleet_rotation_grace h h_nonempty 1001 None (Some 3600) sample_env issued r w' E
    (proj2 issued_sound) (proj1 issued_sound)) as (old & Hold & H).
  assert (Hr : fir_fleet_external_id r = "2" ∧ aborted w' = false ∧
    (h "1" ≠ h (fir_credential r) ∧ fir_credential r ≠ "") ∧ clock sample_env (tick w') = 4).
  { vm_compute in E. injection E as <- <-. split_and!; try reflexivity; discriminate. }
  destruct Hr as (Hx & Hw & [Hne Hc] & Ht).
  assert (Ho : flt_current_credential_hash old = h "1").
  { vm_compute in Hold. injection Hold as <-. reflexivity. }
  exists r, w'. split; [reflexivity|]. split_and!; (rewrite H; [|reflexivity|exact Hw|by rewrite Hx|done|done]).
  - rewrite decide_True; [reflexivity|by left].
  - rewrite decide_True; [reflexivity|]. right. rewrite Ho, Ht. split; [reflexivity|]. vm_compute. discriminate.
  - rewrite decide_False; [reflexivity|]. intros [?|[_ Hle]]; [by apply Hne|].
    vm_compute in Hle. by apply Hle.
Defined.

(** Two devices with the serial "S1", one with "S2". *)
Definition inventory : M (list (string * Json)) :=
  ret [("devices", JArr [JObj [("serialNumber", JStr "S1")]; JObj [("serialNumber", JStr " S2 "); ("guid", JStr "G")];
                         JNull; JObj [("serialNumber", JStr "S1")]])].

Lemma serial_lookup_counts_witness :
  let lookup serial := (resolve_uem_device_by_serial (λ _, "") inventory serial sample_env (world_of empty_db)).1 in
  lookup "S2" = Ok (JObj [("serialNumber", JStr " S2 "); ("guid", JStr "G")]) ∧
  lookup "S1 " = Raise DeviceAmbiguousError ∧ lookup "S3" = Raise DeviceNotFoundError.
Proof.
  assert (Hm : ∀ e w msg w1, inventory e w = (Raise (BlackberryUemClientError msg), w1) →
    contains "match count is" msg = false) by discriminate.
  cbv zeta. split_and!; rewrite (serial_lookup_counts (λ _, "") inventory Hm) by (discriminate || reflexivity);
    vm_compute; reflexivity.
Defined.
