(* ===== verification/Pricing.v ===== *)
(** * Pricing: quotes, charges and snapshots

    [apps/pricing/money.py], [hashing.py], [service.py], [snapshot.py],
    [charge.py], [presentation.py] and the profile model of [models.py].
    Prices are in micro-units, rounded to cents; discounts in hundredths of a
    percent.  [sha256] is the digest of a text and [slugify] Django's. *)

From S2P Require Import Prelude Strings Tables Money Models EsimModels World Effects.
#[local] Open Scope Z_scope.

(** ** Money *)

(** One cent in micro-units. *)
Definition cent : Z := 10000.

(** [money_round] *)
Definition money_round (amount : money) : money := half_up amount cent * cent.

Definition is_cents (m : money) : Prop := ∃ n, m = n * cent.

(** ** Values *)

Record PricingContext := mkContext {
  ctx_list_price : money;
  ctx_net_price : option money;
  ctx_order_type : OrderType;
  ctx_timestamp : instant;
  ctx_account : option Account;
  ctx_profile : option PricingProfile;
}.

Record PricingQuote := mkQuote {
  q_list_price : money;
  q_customer_price : money;
  q_discount_percent : percent;
  q_pricing_reason : PricingReason;
  q_floor_reason : FloorReason;
  q_profile_id : option pk;
  q_profile_version : option Z;
  q_context_hash : string;
  q_profile_slug : option string;
  q_profile_name : option string;
  q_schema_version : Z;
}.

Definition SNAPSHOT_SCHEMA_VERSION : Z := 1.

(** [PricingQuote.fingerprint] *)
Definition fingerprint (q : PricingQuote) : string :=
  (match q_profile_id q with Some k => str k | None => "-" end) +:+ "|" +:+
  (match q_profile_version q with Some v => pretty v | None => "-" end) +:+ "|" +:+
  q_context_hash q.

(** ** Hashing *)

Definition two_digits (n : Z) : string := if n <? 10 then "0" +:+ pretty n else pretty n.

(** [format(money_round(value), "f")] *)
Definition cents_text (value : money) : string :=
  let n := half_up value cent in
  (if value <? 0 then "-" else "") +:+ pretty (Z.abs n / 100) +:+ "." +:+ two_digits (Z.abs n mod 100).

Definition _dec (value : option money) : string :=
  match value with None => "" | Some v => cents_text v end.

Definition order_type_value (t : OrderType) : string :=
  match t with OT_PACKAGE => "package" | OT_TOPUP => "topup" end.

(** *** Updating profiles *)

(** The names [update_fields] may hold. *)
Inductive ProfileField :=
  | F_name | F_slug | F_discount_percent | F_floor_policy | F_is_active | F_effective_from
  | F_effective_until | F_archived_at.

#[export] Instance ProfileField_eq_dec : EqDecision ProfileField.
Proof. solve_decision. Defined.

Definition copy_field (from : PricingProfile) (f : ProfileField) (p : PricingProfile)
    : PricingProfile :=
  match f with
  | F_name => p <| prof_name := prof_name from |>
  | F_slug => p <| prof_slug := prof_slug from |>
  | F_discount_percent => p <| prof_discount_percent := prof_discount_percent from |>
  | F_floor_policy => p <| prof_floor_policy := prof_floor_policy from |>
  | F_is_active => p <| prof_is_active := prof_is_active from |>
  | F_effective_from => p <| prof_effective_from := prof_effective_from from |>
  | F_effective_until => p <| prof_effective_until := prof_effective_until from |>
  | F_archived_at => p <| prof_archived_at := prof_archived_at from |>
  end.

Section Pricing.
Context (sha256 : string → string) (slugify : string → string).

Definition context_payload (ctx : PricingContext) (flag_enabled : bool) : string :=
  let profile_id := match ctx_profile ctx with Some p => str (prof_id p) | None => "" end in
  let profile_version := match ctx_profile ctx with Some p => pretty (prof_version p) | None => "" end in
  let account_id := match ctx_account ctx with Some a => str (acc_id a) | None => "" end in
  "v1|" +:+ (if flag_enabled then "1" else "0") +:+ "|" +:+ account_id +:+ "|" +:+ profile_id +:+
  "|" +:+ profile_version +:+ "|" +:+ _dec (Some (ctx_list_price ctx)) +:+ "|" +:+
  _dec (ctx_net_price ctx) +:+ "|" +:+ order_type_value (ctx_order_type ctx) +:+ "|" +:+
  pretty (ctx_timestamp ctx).

Definition pricing_context_hash (ctx : PricingContext) (flag_enabled : bool) : string :=
  sha256 (context_payload ctx flag_enabled).

(** ** PricingService *)

Definition _profile_is_effective (profile : PricingProfile) (at_ : instant) : bool :=
  match prof_archived_at profile with
  | Some _ => false
  | None =>
      prof_is_active profile &&
      negb (match prof_effective_from profile with Some t => at_ <? t | None => false end) &&
      negb (match prof_effective_until profile with Some t => t <=? at_ | None => false end)
  end.

Definition _retail_quote (list_price : money) (context_hash : string) (reason : PricingReason)
    : PricingQuote :=
  mkQuote list_price list_price 0 reason REASON_NONE None None context_hash None None
    SNAPSHOT_SCHEMA_VERSION.

Definition _profile_quote (list_price customer_price : money) (discount : percent)
    (floor_reason : FloorReason) (profile : PricingProfile) (context_hash : string)
    : PricingQuote :=
  mkQuote list_price customer_price discount PRICING_PROFILE floor_reason
    (Some (prof_id profile)) (Some (prof_version profile)) context_hash
    (Some (prof_slug profile)) (Some (prof_name profile)) SNAPSHOT_SCHEMA_VERSION.

(** [money_round(list_price * (100 - discount) / 100)] *)
Definition _legacy_percent_off_list (list_price : money) (discount : percent) : money :=
  half_up (list_price * (10000 - discount)) (10000 * cent) * cent.

(** [money_round(net_price + margin * (100 - discount) / 100)] *)
Definition _margin_share_customer (list_price net_price : money) (discount : percent) : money :=
  let margin := Z.max 0 (list_price - net_price) in
  half_up (net_price * 10000 + margin * (10000 - discount)) (10000 * cent) * cent.

(** The profile of [ctx], or else the one assigned to its account. *)
Definition context_profile (ctx : PricingContext) : M (option PricingProfile) :=
  match ctx_profile ctx, ctx_account ctx with
  | None, Some a =>
      match acc_pricing_profile a with
      | Some k => query (λ d, pricing_profiles d !! k)
      | None => ret None
      end
  | p, _ => ret p
  end.

(** What an effective profile with a discount charges. *)
Definition quote_profile (profile : PricingProfile) (net_price : option money)
    (list_price : money) (context_hash : string) : M PricingQuote :=
  let discount := prof_discount_percent profile in
  if discount <=? 0 then
    ret (_profile_quote list_price list_price 0 REASON_NONE profile context_hash)
  else if bool_decide (prof_floor_policy profile = FLOOR_NONE) then
    ret (_profile_quote list_price (_legacy_percent_off_list list_price discount) discount
      REASON_DISCOUNT profile context_hash)
  else
    match net_price with
    | None =>
        incr "pricing.net_missing";;;
        ret (_retail_quote list_price context_hash RETAIL)
    | Some net =>
        let net := money_round net in
        if list_price <? net then
          (incr "pricing.invalid_margin";;;
           ret (_retail_quote list_price context_hash INVALID_MARGIN))
        else
          ret (_profile_quote list_price (_margin_share_customer list_price net discount) discount
            REASON_DISCOUNT profile context_hash)
    end.

(** [PricingService.resolve] *)
Definition resolve (ctx : PricingContext) : M PricingQuote :=
  let! flag_enabled := asks PRICING_PROFILES_ENABLED in
  let list_price := money_round (ctx_list_price ctx) in
  let! profile := context_profile ctx in
  let hash_ctx := mkContext list_price (ctx_net_price ctx) (ctx_order_type ctx)
    (ctx_timestamp ctx) (ctx_account ctx) profile in
  let context_hash := pricing_context_hash hash_ctx flag_enabled in
  if negb flag_enabled then ret (_retail_quote list_price context_hash RETAIL)
  else
    match profile with
    | None => ret (_retail_quote list_price context_hash RETAIL)
    | Some p =>
        if negb (_profile_is_effective p (ctx_timestamp ctx))
        then ret (_retail_quote list_price context_hash RETAIL)
        else quote_profile p (ctx_net_price ctx) list_price context_hash
    end.

(** ** Snapshots *)

(** The pricing columns [quote_to_order_snapshot_kwargs] sets: list price,
    charged price and the rest. *)
Record SnapshotKwargs := mkKwargs {
  kw_list_price_usd : money;
  kw_charged : money;
  kw_pricing : PricingSnapshot;
}.

Definition quote_to_snapshot (q : PricingQuote) : SnapshotKwargs :=
  mkKwargs (q_list_price q) (q_customer_price q)
    (mkPricing (Some (q_discount_percent q)) (Some (q_pricing_reason q)) (Some (q_floor_reason q))
      (q_profile_id q) (q_profile_version q) (default "" (q_profile_slug q))
      (default "" (q_profile_name q)) (q_context_hash q) (Some (q_schema_version q))).

Definition quote_to_order_snapshot_kwargs := quote_to_snapshot.
Definition quote_to_topup_snapshot_kwargs := quote_to_snapshot.

(** [text or None] *)
Definition or_none (s : string) : option string := if bool_decide (s = "") then None else Some s.

Definition quote_from_snapshot (list_price_usd customer_price : option money)
    (ps : PricingSnapshot) : Res PricingQuote :=
  match list_price_usd, customer_price with
  | Some list, Some customer =>
      if bool_decide (ps_context_hash ps = "")
      then Raise (ValueError "pricing_context_hash is required")
      else Ok (mkQuote (money_round list) (money_round customer)
             (default 0 (ps_discount_percent ps)) (default RETAIL (ps_pricing_reason ps))
             (default REASON_NONE (ps_floor_reason ps)) (ps_profile_id ps) (ps_profile_version ps)
             (ps_context_hash ps) (or_none (ps_profile_slug ps)) (or_none (ps_profile_name ps))
             (match ps_schema_version ps with
              | Some v => if v =? 0 then SNAPSHOT_SCHEMA_VERSION else v
              | None => SNAPSHOT_SCHEMA_VERSION end))
  | _, _ => Raise (ValueError "list_price_usd and customer_price are required")
  end.

Definition quote_from_order (o : Order) : Res PricingQuote :=
  quote_from_snapshot (ord_list_price_usd o) (ord_retail_price_usd o) (ord_pricing o).
Definition quote_from_topup (t : Topup) : Res PricingQuote :=
  quote_from_snapshot (top_list_price_usd t) (Some (top_amount t)) (top_pricing t).

(** ** Charges *)

(** [resolve_package_charge] and [resolve_topup_charge]: the amount, and the
    columns to store unless pricing profiles are off. *)
Definition resolve_charge (order_type : OrderType) (account : pk) (price : money)
    (net_price : option money) : M (money * option SnapshotKwargs) :=
  let! enabled := asks PRICING_PROFILES_ENABLED in
  if negb enabled then ret (price, None)
  else
    let! row := get accounts account in
    let! profile :=
      match acc_pricing_profile row with
      | Some k => query (λ d, pricing_profiles d !! k)
      | None => ret None
      end in
    let! timestamp := now in
    let! quote := resolve (mkContext price net_price order_type timestamp (Some row) profile) in
    ret (q_customer_price quote, Some (quote_to_snapshot quote)).

Definition resolve_package_charge (account : pk) (package : Package) :=
  resolve_charge OT_PACKAGE account (pkg_price_usd package) (pkg_net_price_usd package).
Definition resolve_topup_charge (account : pk) (package : TopupPackage) :=
  resolve_charge OT_TOPUP account (tp_price_usd package) (tp_net_price_usd package).

(** ** Presentation *)

Record PublicPrice := mkPublicPrice {
  pp_price_usd : money;
  pp_list_price_usd : money;
  pp_discount_percent : percent;
  pp_pricing_reason : PricingReason;
}.

Definition public_price_dict (q : PricingQuote) : PublicPrice :=
  mkPublicPrice (q_customer_price q) (q_list_price q) (q_discount_percent q) (q_pricing_reason q).

(** [resolve_package_quote], [resolve_topup_quote] and
    [resolve_preview_quote]: the quote for display at a time. *)
Definition display_quote (order_type : OrderType) (price : money) (net_price : option money)
    (account : option Account) (at_ : option instant) : M PricingQuote :=
  let! timestamp := match at_ with Some t => ret t | None => now end in
  let! profile :=
    match account with
    | Some a => match acc_pricing_profile a with
                | Some k => query (λ d, pricing_profiles d !! k) | None => ret None end
    | None => ret None
    end in
  resolve (mkContext price net_price order_type timestamp account profile).

Definition resolve_package_quote (package : Package) (account : option Account) at_ :=
  display_quote OT_PACKAGE (pkg_price_usd package) (pkg_net_price_usd package) account at_.
Definition resolve_topup_quote (package : TopupPackage) (account : option Account) at_ :=
  display_quote OT_TOPUP (tp_price_usd package) (tp_net_price_usd package) account at_.
Definition resolve_preview_quote (list_price : money) (net_price : option money)
    (order_type : OrderType) (account : option Account) at_ :=
  display_quote order_type list_price net_price account at_.

(** ** PricingProfile *)

(** The check constraints, and the slug unique among profiles not archived. *)
Definition profile_verdict (d : Db) (p : PricingProfile) : option Exn :=
  if negb (prof_version p <=? max_int32) then Some DataError
  else if negb (profile_checks p) then Some IntegrityError
  else if bool_decide (prof_archived_at p = None) &&
       qexists (λ q, bool_decide (prof_slug q = prof_slug p) &&
         bool_decide (prof_archived_at q = None) && negb (prof_id q =? prof_id p)%N)
         (pricing_profiles d)
  then Some IntegrityError else None.

(** [clean] *)
Definition profile_clean (p : PricingProfile) : Res unit :=
  match prof_effective_until p, prof_effective_from p with
  | Some until, Some from => if until <=? from then Raise ValidationError else Ok tt
  | _, _ => Ok tt
  end.

(** A new slug for a row without one. *)
Definition with_slug (p : PricingProfile) : PricingProfile :=
  if bool_decide (prof_slug p = "") && negb (bool_decide (prof_name p = ""))
  then p <| prof_slug := stake 128 (slugify (prof_name p)) |> else p.

Definition material_changed (previous p : PricingProfile) : bool :=
  negb (prof_discount_percent previous =? prof_discount_percent p) ||
  negb (bool_decide (prof_floor_policy previous = prof_floor_policy p)).

(** [save()] of all columns, [p] being the in-memory row. *)
Definition profile_save (p : PricingProfile) : M PricingProfile :=
  let p := with_slug p in
  let! previous := query (λ d, pricing_profiles d !! prof_id p) in
  let p := match previous with
           | Some q => if material_changed q p then p <| prof_version := prof_version q + 1 |> else p
           | None => p
           end in
  save_row pricing_profiles profile_verdict (prof_id p) p;;;
  ret p.

(** [archive], with its [save(update_fields=...)]. *)
Definition archive (p : PricingProfile) (at_ : option instant) : M PricingProfile :=
  match prof_archived_at p with
  | Some _ => ret p
  | None =>
      let! t := match at_ with Some t => ret t | None => now end in
      let f q := q <| prof_archived_at := Some t |> <| prof_is_active := false |> in
      save_fields pricing_profiles profile_verdict (prof_id p) f;;;
      ret (f p)
  end.

Definition is_material (f : ProfileField) : bool :=
  match f with F_discount_percent | F_floor_policy => true | _ => false end.

(** [save_optimistic]: the row is updated in one statement, provided it is
    still at the expected version. *)
Definition save_optimistic (p : PricingProfile) (expected_version : Z)
    (update_fields : list ProfileField) : M (bool * PricingProfile) :=
  let! _ := now in
  let bumped := existsb is_material update_fields in
  let updates q :=
    let q := foldr (copy_field p) q update_fields in
    if bumped then q <| prof_version := expected_version + 1 |> else q in
  let! row := query (λ d, pricing_profiles d !! prof_id p) in
  match row with
  | Some q =>
      if prof_version q =? expected_version then
        (save_fields pricing_profiles profile_verdict (prof_id p) updates;;;
         ret (true, updates p))
      else ret (false, if bumped then p <| prof_version := expected_version + 1 |> else p)
  | None => ret (false, if bumped then p <| prof_version := expected_version + 1 |> else p)
  end.

(** [assign_pricing_profile], without its audit row. *)
Definition assign_pricing_profile (account_ids : list pk) (profile : option PricingProfile) : M nat :=
  raise_if (100 <? Z.of_nat (length account_ids)) ValidationError;;;
  raise_if (match profile with
            | Some p => bool_decide (prof_archived_at p ≠ None) | None => false end) ValidationError;;;
  atomic (
    let! updated := query (λ d,
      qcount (λ a, bool_decide (acc_id a ∈ account_ids)) (accounts d)) in
    write (λ d, Ok (update accounts (fmap (λ a,
      if bool_decide (acc_id a ∈ account_ids)
      then a <| acc_pricing_profile := prof_id <$> profile |> else a)) d));;;
    ret updated).

(** ** Rounding *)

Lemma money_round_cents m : is_cents (money_round m).
Proof. by exists (half_up m cent). Qed.

Lemma money_round_id m : is_cents m → money_round m = m.
Proof. intros [n ->]. unfold money_round. by rewrite half_up_exact. Qed.

Lemma money_round_nonneg m : 0 ≤ m → 0 ≤ money_round m.
Proof.
  intros Hm. unfold money_round. rewrite half_up_nonneg by (unfold cent; lia).
  apply Z.mul_nonneg_nonneg; [|unfold cent; lia]. apply Z.div_pos; unfold cent; lia.
Qed.

(** Rounding a convex combination of two amounts in cents stays between them. *)
Lemma round_between lo hi x d :
  0 < d → 0 ≤ lo → is_cents lo → is_cents hi → lo * d ≤ x ≤ hi * d →
  lo ≤ half_up x (d * cent) * cent ≤ hi.
Proof.
  intros Hd Hlo [a ->] [b ->] Hx. unfold cent in *.
  assert (Hdc : 0 < d * 10000) by lia.
  assert (Ha : half_up (a * (d * 10000)) (d * 10000) = a) by (by apply half_up_exact).
  assert (Hb : half_up (b * (d * 10000)) (d * 10000) = b) by (by apply half_up_exact).
  assert (H1 : half_up (a * (d * 10000)) (d * 10000) ≤ half_up x (d * 10000))
    by (apply half_up_mono; lia).
  assert (H2 : half_up x (d * 10000) ≤ half_up (b * (d * 10000)) (d * 10000))
    by (apply half_up_mono; lia).
  lia.
Qed.

Lemma legacy_bounds list_price D :
  0 ≤ list_price → is_cents list_price → 0 ≤ D ≤ 10000 →
  0 ≤ _legacy_percent_off_list list_price D ≤ list_price.
Proof.
  intros Hl Hc HD. unfold _legacy_percent_off_list. apply round_between; [lia|lia|by exists 0|done|nia].
Qed.

Lemma margin_bounds list_price net D :
  0 ≤ net ≤ list_price → is_cents list_price → is_cents net → 0 ≤ D ≤ 10000 →
  net ≤ _margin_share_customer list_price net D ≤ list_price.
Proof.
  intros Hl Hc Hn HD. unfold _margin_share_customer. rewrite Z.max_r by lia.
  apply round_between; [lia|lia|done|done|nia].
Qed.

(** More discount never costs more. *)
Lemma margin_antitone list_price net D D' :
  0 ≤ net ≤ list_price → 0 ≤ D ≤ D' → D' ≤ 10000 →
  _margin_share_customer list_price net D' ≤ _margin_share_customer list_price net D.
Proof.
  intros Hl HD HD'. unfold _margin_share_customer. rewrite Z.max_r by lia.
  apply Z.mul_le_mono_nonneg_r; [unfold cent; lia|]. apply half_up_mono; [unfold cent; lia|]. nia.
Qed.

(** ** Resolution *)

(** Whatever it returns, resolution only reads. *)
Lemma resolve_reads ctx : respects eq (resolve ctx).
Proof. unfold resolve, context_profile, quote_profile. solve_respects. Qed.
#[local] Hint Resolve resolve_reads : effects.

(** The stored profiles satisfy their table. *)
Definition profiles_checked (d : Db) : Prop :=
  ∀ k p, pricing_profiles d !! k = Some p → profile_checks p = true.

(** The profile a context designates: its own, or else the one its account is
    assigned. *)
Definition assigned_profile (ctx : PricingContext) (d : Db) : option PricingProfile :=
  match ctx_profile ctx with
  | Some p => Some p
  | None => a ← ctx_account ctx; k ← acc_pricing_profile a; pricing_profiles d !! k
  end.

(** A profile is in effect at an instant: active, not archived, and within its
    window, whose end is excluded. *)
Record in_effect (p : PricingProfile) (at_ : instant) : Prop := {
  ie_live : prof_archived_at p = None;
  ie_active : prof_is_active p = true;
  ie_from : ∀ t, prof_effective_from p = Some t → t ≤ at_;
  ie_until : ∀ t, prof_effective_until p = Some t → at_ < t;
}.

Lemma effective_iff p t : _profile_is_effective p t = true ↔ in_effect p t.
Proof.
  unfold _profile_is_effective. split.
  - intros H. destruct (prof_archived_at p) eqn:Ha; [done|].
    apply andb_true_iff in H as [[Hact Hf]%andb_true_iff Hu]. split; [done|done|..];
      intros t' E; rewrite E in *; bool_to_prop; lia.
  - intros [-> -> Hf Hu]. repeat case_match; simpl; try done;
      repeat match goal with H : ∀ t, Some _ = Some t → _ |- _ => specialize (H _ eq_refl) end;
      bool_to_prop; lia.
Qed.

(** A quote at list price, on no profile's account. *)
Record at_retail (reason : PricingReason) (q : PricingQuote) : Prop := {
  ar_price : q_customer_price q = q_list_price q;
  ar_discount : q_discount_percent q = 0;
  ar_reason : q_pricing_reason q = reason;
  ar_floor : q_floor_reason q = REASON_NONE;
  ar_profile : q_profile_id q = None ∧ q_profile_version q = None;
  ar_names : q_profile_slug q = None ∧ q_profile_name q = None;
}.

(** A quote made by a profile. *)
Record by_profile (p : PricingProfile) (discount : percent) (floor : FloorReason)
    (q : PricingQuote) : Prop := {
  bp_discount : q_discount_percent q = discount;
  bp_reason : q_pricing_reason q = PRICING_PROFILE;
  bp_floor : q_floor_reason q = floor;
  bp_profile : q_profile_id q = Some (prof_id p) ∧ q_profile_version q = Some (prof_version p);
  bp_names : q_profile_slug q = Some (prof_slug p) ∧ q_profile_name q = Some (prof_name p);
}.

(** [c] is the amount [x / 10000] to the nearest cent. *)
Definition nearest_cent (c : money) (x : Z) : Prop := 2 * Z.abs (c * 10000 - x) ≤ 10000 * cent.

(** What a profile in effect makes of a context. *)
Definition profile_prices (p : PricingProfile) (ctx : PricingContext) (q : PricingQuote) : Prop :=
  let list := money_round (ctx_list_price ctx) in
  let D := prof_discount_percent p in
  if decide (D = 0) then by_profile p 0 REASON_NONE q ∧ q_customer_price q = list
  else
    match prof_floor_policy p, ctx_net_price ctx with
    | FLOOR_NONE, _ =>
        by_profile p D REASON_DISCOUNT q ∧ nearest_cent (q_customer_price q) (list * (10000 - D))
    | FLOOR_WHOLESALE, None => at_retail RETAIL q
    | FLOOR_WHOLESALE, Some net =>
        let net := money_round net in
        if decide (list < net) then at_retail INVALID_MARGIN q
        else by_profile p D REASON_DISCOUNT q ∧ net ≤ q_customer_price q ∧
             nearest_cent (q_customer_price q) (net * 10000 + (list - net) * (10000 - D))
    end.

(** What a quote promises about the context it was made for and the profile
    that context designates. *)
Record quote_sound (enabled : bool) (ctx : PricingContext) (profile : option PricingProfile)
    (q : PricingQuote) : Prop := {
  qs_list : q_list_price q = money_round (ctx_list_price ctx);
  qs_bounds : 0 ≤ q_customer_price q ≤ q_list_price q;
  qs_cents : is_cents (q_customer_price q);
  qs_hash : q_context_hash q = pricing_context_hash
    (mkContext (q_list_price q) (ctx_net_price ctx) (ctx_order_type ctx) (ctx_timestamp ctx)
       (ctx_account ctx) profile) enabled;
  qs_unpriced :
    (∀ p, enabled = true → profile = Some p → ¬ in_effect p (ctx_timestamp ctx)) →
    at_retail RETAIL q;
  qs_priced : ∀ p, enabled = true → profile = Some p → in_effect p (ctx_timestamp ctx) →
    profile_prices p ctx q;
}.

Lemma context_profile_run ctx e w :
  aborted w = false → context_profile ctx e w = (Ok (assigned_profile ctx (db w)), w).
Proof.
  intros Hw. unfold context_profile, assigned_profile.
  destruct (ctx_profile ctx) as [p|]; [done|].
  destruct (ctx_account ctx) as [a|]; simpl; [|done].
  destruct (acc_pricing_profile a) as [k|]; simpl; [|done]. by apply query_run.
Qed.

Lemma context_profile_Ok ctx e w r w' :
  context_profile ctx e w = (Ok r, w') → r = assigned_profile ctx (db w) ∧ w' = w.
Proof.
  unfold context_profile, assigned_profile.
  destruct (ctx_profile ctx) as [p|]; [by intros [-> ->]%ret_Ok|].
  destruct (ctx_account ctx) as [a|]; simpl; [|by intros [-> ->]%ret_Ok].
  destruct (acc_pricing_profile a) as [k|]; simpl; [|by intros [-> ->]%ret_Ok].
  by intros (_ & -> & ->)%query_Ok.
Qed.

Lemma half_up_nearest x : 0 ≤ x → nearest_cent (half_up x (10000 * cent) * cent) x.
Proof.
  intros Hx. unfold nearest_cent. rewrite half_up_nonneg by (unfold cent; lia). unfold cent.
  pose proof (Z.div_mod (2 * x + 10000 * 10000) (2 * (10000 * 10000)) ltac:(lia)).
  pose proof (Z.mod_pos_bound (2 * x + 10000 * 10000) (2 * (10000 * 10000)) ltac:(lia)).
  lia.
Qed.

Lemma retail_at_retail list hash reason : at_retail reason (_retail_quote list hash reason).
Proof. by split. Qed.

Lemma profile_by_profile list c D fr p hash :
  by_profile p D fr (_profile_quote list c D fr p hash).
Proof. by split. Qed.

Section Sound.
Context (ctx : PricingContext) (hash : string).
Let list := money_round (ctx_list_price ctx).
Hypothesis Hlist : 0 ≤ ctx_list_price ctx.
Hypothesis Hnet : ∀ net, ctx_net_price ctx = Some net → 0 ≤ net.

(** Every quote has the context's list price and hash, and a price in cents
    between zero and the list price. *)
Definition framed (q : PricingQuote) : Prop :=
  q_list_price q = list ∧ 0 ≤ q_customer_price q ≤ list ∧ is_cents (q_customer_price q) ∧
  q_context_hash q = hash.

Lemma retail_framed reason : framed (_retail_quote list hash reason).
Proof.
  pose proof (money_round_nonneg _ Hlist). unfold framed, list. simpl.
  split_and!; [done|done|done|apply money_round_cents|done].
Qed.

Lemma profile_framed c D fr p :
  0 ≤ c ≤ list → is_cents c → framed (_profile_quote list c D fr p hash).
Proof. unfold framed. by intros ? ?. Qed.

Lemma quote_profile_sound p e w q w' :
  profile_checks p = true → quote_profile p (ctx_net_price ctx) list hash e w = (Ok q, w') →
  framed q ∧ profile_prices p ctx q.
Proof.
  intros Hc H. unfold profile_checks in Hc. bool_to_prop.
  assert (Hl0 : 0 ≤ list) by by apply money_round_nonneg.
  assert (Hlc : is_cents list) by apply money_round_cents.
  unfold profile_prices, quote_profile in *. fold list. case_match; bool_to_prop.
  { apply ret_Ok in H as [-> _]. rewrite decide_True by lia.
    split; [by apply profile_framed|]. split; [apply profile_by_profile|done]. }
  rewrite decide_False by lia. case_bool_decide as Hfl.
  { rewrite Hfl. apply ret_Ok in H as [-> _].
    pose proof (legacy_bounds list (prof_discount_percent p) Hl0 Hlc ltac:(lia)).
    split; [apply profile_framed; [done|by eexists]|].
    split; [apply profile_by_profile|]. apply half_up_nearest. nia. }
  destruct (prof_floor_policy p); [done|]. destruct (ctx_net_price ctx) as [net|] eqn:Hn.
  2:{ apply bind_Ok in H as (u & w2 & _ & [-> _]%ret_Ok).
      split; [apply retail_framed|apply retail_at_retail]. }
  pose proof (money_round_nonneg net (Hnet net eq_refl)) as Hn0.
  destruct (list <? money_round net) eqn:Hln; bool_to_prop.
  { apply bind_Ok in H as (u & w2 & _ & [-> _]%ret_Ok). rewrite decide_True by lia.
    split; [apply retail_framed|apply retail_at_retail]. }
  rewrite decide_False by lia. apply ret_Ok in H as [-> _].
  pose proof (margin_bounds list (money_round net) (prof_discount_percent p) ltac:(lia) Hlc
    (money_round_cents net) ltac:(lia)) as [? ?].
  split; [apply profile_framed; [lia|by eexists]|].
  split_and!; [apply profile_by_profile|done|]. simpl. unfold _margin_share_customer.
  rewrite Z.max_r by lia. apply half_up_nearest. nia.
Qed.
End Sound.

Lemma framed_sound enabled ctx profile q :
  framed ctx (pricing_context_hash
    (mkContext (money_round (ctx_list_price ctx)) (ctx_net_price ctx) (ctx_order_type ctx)
       (ctx_timestamp ctx) (ctx_account ctx) profile) enabled) q ∧
  ((∀ p, enabled = true → profile = Some p → ¬ in_effect p (ctx_timestamp ctx)) →
   at_retail RETAIL q) ∧
  (∀ p, enabled = true → profile = Some p → in_effect p (ctx_timestamp ctx) →
   profile_prices p ctx q) →
  quote_sound enabled ctx profile q.
Proof. intros ((Hl & Hb & Hc & Hh) & ? & ?). split; rewrite ?Hl; done. Qed.

Lemma resolve_sound ctx e w q w' :
  resolve ctx e w = (Ok q, w') → 0 ≤ ctx_list_price ctx →
  (∀ net, ctx_net_price ctx = Some net → 0 ≤ net) → profiles_checked (db w) →
  (∀ p, ctx_profile ctx = Some p → profile_checks p = true) →
  quote_sound (PRICING_PROFILES_ENABLED (settings e)) ctx (assigned_profile ctx (db w)) q.
Proof.
  intros H Hl Hn Hd Hp. unfold resolve in H.
  apply bind_Ok in H as (en & w1 & [-> ->]%asks_Ok & H).
  apply bind_Ok in H as (profile & w1 & [-> ->]%context_profile_Ok & H).
  assert (Hc : ∀ p, assigned_profile ctx (db w) = Some p → profile_checks p = true).
  { intros p. unfold assigned_profile. destruct (ctx_profile ctx) as [p'|].
    { intros [= ->]. by apply Hp. }
    destruct (ctx_account ctx) as [a|]; simpl; [|done].
    destruct (acc_pricing_profile a) as [k|]; simpl; [|done]. apply (Hd k). }
  apply framed_sound. set (hash := pricing_context_hash _ _) in *.
  assert (Hret : framed ctx hash (_retail_quote (money_round (ctx_list_price ctx)) hash RETAIL))
    by by apply retail_framed.
  destruct (PRICING_PROFILES_ENABLED (settings e)) eqn:Hen; cbn [negb] in H;
    [|by apply ret_Ok in H as [-> _]].
  destruct (assigned_profile ctx (db w)) as [p|] eqn:Ha; [|by apply ret_Ok in H as [-> _]].
  pose proof (effective_iff p (ctx_timestamp ctx)) as Hie.
  destruct (_profile_is_effective p _) eqn:Heff; cbn [negb] in H.
  - apply quote_profile_sound in H as [Hf Hq]; [|done|done|by apply Hc].
    split_and!; [done|intros Hno; exfalso; apply (Hno p eq_refl eq_refl); by apply Hie|].
    by intros p' _ [= <-] _.
  - apply ret_Ok in H as [-> _]. split_and!; [done|done|]. intros p' _ [= <-] Hin. by apply Hie in Hin.
Qed.

Lemma resolve_returns ctx e w :
  aborted w = false → ∃ q w', resolve ctx e w = (Ok q, w').
Proof.
  intros Hw. unfold resolve. erewrite bind_step by done.
  erewrite bind_step by (by apply context_profile_run). set (hash := pricing_context_hash _ _).
  destruct (negb _); [by do 2 eexists|].
  destruct (assigned_profile ctx (db w)) as [p|]; [|by do 2 eexists].
  destruct (negb _); [by do 2 eexists|]. unfold quote_profile.
  repeat case_match; by do 2 eexists.
Qed.

(** The quote's columns survive being stored. *)
Record storable (q : PricingQuote) : Prop := {
  sb_list : is_cents (q_list_price q);
  sb_customer : is_cents (q_customer_price q);
  sb_hash : q_context_hash q ≠ "";
  sb_slug : q_profile_slug q ≠ Some "";
  sb_name : q_profile_name q ≠ Some "";
  sb_schema : q_schema_version q = SNAPSHOT_SCHEMA_VERSION;
}.

Lemma or_none_default s : s ≠ Some "" → or_none (default "" s) = s.
Proof.
  unfold or_none. destruct s as [s|]; simpl; [|done]. intros H. rewrite bool_decide_false; [done|].
  congruence.
Qed.

Lemma snapshot_inverse q :
  storable q →
  quote_from_snapshot (Some (kw_list_price_usd (quote_to_snapshot q)))
    (Some (kw_charged (quote_to_snapshot q))) (kw_pricing (quote_to_snapshot q)) = Ok q.
Proof.
  intros [Hl Hc Hh Hs Hn Hv]. unfold quote_from_snapshot, quote_to_snapshot. simpl.
  rewrite bool_decide_false by done. rewrite !money_round_id, !or_none_default, Hv by done.
  destruct q. simpl in *. by subst.
Qed.

Definition profiles_named (d : Db) : Prop :=
  ∀ k p, pricing_profiles d !! k = Some p → prof_slug p ≠ "" ∧ prof_name p ≠ "".

Lemma resolve_storable ctx e w q w' :
  resolve ctx e w = (Ok q, w') → (∀ s, sha256 s ≠ "") → profiles_named (db w) →
  (∀ p, ctx_profile ctx = Some p → prof_slug p ≠ "" ∧ prof_name p ≠ "") → storable q.
Proof.
  intros H Hsha Hd Hp. unfold resolve in H.
  apply bind_Ok in H as (en & w1 & [-> ->]%asks_Ok & H).
  apply bind_Ok in H as (profile & w1 & Hprof & H).
  assert (Hc : ∀ p, profile = Some p → prof_slug p ≠ "" ∧ prof_name p ≠ "").
  { intros p ->. unfold context_profile in Hprof.
    destruct (ctx_profile ctx) as [p'|]; [apply ret_Ok in Hprof as [[= ->] _]; by apply Hp|].
    destruct (ctx_account ctx) as [a|]; [|by apply ret_Ok in Hprof as [? _]].
    destruct (acc_pricing_profile a) as [k|]; [|by apply ret_Ok in Hprof as [? _]].
    apply query_Ok in Hprof as (_ & E & _). by apply (Hd k). }
  assert (Hh : ∀ ctx b, pricing_context_hash ctx b ≠ "") by (intros; apply Hsha).
  set (hash := pricing_context_hash _ _) in H.
  assert (Hret : ∀ r, storable (_retail_quote (money_round (ctx_list_price ctx)) hash r))
    by (intros; split; simpl; try done; [apply money_round_cents..|apply Hh]).
  assert (Hpq : ∀ p c D fr, profile = Some p → is_cents c →
    storable (_profile_quote (money_round (ctx_list_price ctx)) c D fr p hash)).
  { intros p c D fr E Hcc. destruct (Hc p E). split; simpl; try done;
      [apply money_round_cents|apply Hh|congruence..]. }
  unfold quote_profile in H. clear Hprof.
  repeat first [ case_match | apply bind_Ok in H as (? & ? & _ & H) ];
    apply ret_Ok in H as [-> _]; try apply Hret; apply Hpq; try done;
    try apply money_round_cents; eexists; reflexivity.
Qed.

(** C19: Resolving a price always returns a quote, without touching the
    database, and the quote is the one due to the profile the context designates
    in the database (its own, or the one its account is assigned).  It is at
    list price, on nobody's account, when the feature is off, no profile is
    designated, or the profile is archived, inactive or outside its window.
    Otherwise it carries that profile's identity, version, names and discount and
    costs the discounted amount to the nearest cent: of the list price without a
    floor; of the margin above the rounded wholesale price, and never below that
    price, under a wholesale floor, with a list-price fallback when the wholesale
    price is missing or exceeds the list price.  The price is in cents, between
    zero and the list price, and the context hash is that of the inputs used. *)
Theorem resolve_price_bounds ctx e w :
  aborted w = false → 0 ≤ ctx_list_price ctx →
  (∀ net, ctx_net_price ctx = Some net → 0 ≤ net) → profiles_checked (db w) →
  (∀ p, ctx_profile ctx = Some p → profile_checks p = true) →
  ∃ q w', resolve ctx e w = (Ok q, w') ∧ db w' = db w ∧
    quote_sound (PRICING_PROFILES_ENABLED (settings e)) ctx (assigned_profile ctx (db w)) q.
Proof.
  intros Hw Hl Hn Hd Hp. destruct (resolve_returns ctx e w Hw) as (q & w' & H).
  exists q, w'. split_and!; [done|symmetry; by eapply resolve_reads|by eapply resolve_sound].
Qed.

(** The context a charge prices: the account's row, its assigned profile and
    the instant. *)
Definition charge_context (ot : OrderType) (row : Account) (price : money) (net : option money)
    (t : instant) (d : Db) : PricingContext :=
  mkContext price net ot t (Some row) (acc_pricing_profile row ≫= λ k, pricing_profiles d !! k).

(** An order or a top-up with the columns of a charge. *)
Definition order_with (kw : SnapshotKwargs) (o : Order) : Order :=
  o <| ord_list_price_usd := Some (kw_list_price_usd kw) |>
    <| ord_retail_price_usd := Some (kw_charged kw) |> <| ord_pricing := kw_pricing kw |>.
Definition topup_with (kw : SnapshotKwargs) (t : Topup) : Topup :=
  t <| top_list_price_usd := Some (kw_list_price_usd kw) |> <| top_amount := kw_charged kw |>
    <| top_pricing := kw_pricing kw |>.

(** C20: The price snapshot is faithful: when a purchase is charged under
    pricing profiles, the amount charged is the customer price of the quote the
    pricing service returns for the account's stored row, its assigned profile
    and the time read, and the columns stored on an order or a top-up rebuild
    exactly that quote, every field of it, whatever the rest of the row. *)
Theorem charge_snapshot_round_trip ot account price net e w amount kw w' :
  (∀ s, sha256 s ≠ "") → profiles_named (db w) →
  resolve_charge ot account price net e w = (Ok (amount, Some kw), w') →
  ∃ row t w1 q, accounts (db w) !! account = Some row ∧ now e w = (Ok t, w1) ∧
    resolve (charge_context ot row price net t (db w)) e w1 = (Ok q, w') ∧
    amount = q_customer_price q ∧
    (∀ o, quote_from_order (order_with kw o) = Ok q) ∧
    (∀ t, quote_from_topup (topup_with kw t) = Ok q).
Proof.
  intros Hsha Hd H. unfold resolve_charge in H.
  apply bind_Ok in H as (en & w1 & [-> ->]%asks_Ok & H).
  destruct (negb _); [by apply ret_Ok in H as [[=] _]|].
  apply bind_Ok in H as (row & w1 & (_ & Hrow & ->)%get_Ok & H).
  apply bind_Ok in H as (profile & w1 & Hp & H).
  assert (Hprof : w1 = w ∧ profile = acc_pricing_profile row ≫= λ k, pricing_profiles (db w) !! k).
  { destruct (acc_pricing_profile row) as [k|]; [by apply query_Ok in Hp as (_ & -> & ->)|].
    by apply ret_Ok in Hp as [-> ->]. }
  destruct Hprof as [-> ->].
  apply bind_Ok in H as (t & w2 & Ht & H).
  apply bind_Ok in H as (q & w3 & Hq & [[= -> ->] ->]%ret_Ok).
  exists row, t, w2, q. split_and!; [done|done|done|done|..].
  all: apply resolve_storable in Hq; [by intros ?; apply snapshot_inverse|done|by injection Ht as <- <-|].
  all: intros p; simpl; destruct (acc_pricing_profile row) as [k|]; simpl; [apply (Hd k)|done].
Qed.

(** ** Profile versions *)

Lemma copy_field_id from f p : prof_id (copy_field from f p) = prof_id p.
Proof. by destruct f. Qed.
Lemma copy_field_version from f p : prof_version (copy_field from f p) = prof_version p.
Proof. by destruct f. Qed.
Lemma copy_fields_version from fs p : prof_version (foldr (copy_field from) p fs) = prof_version p.
Proof. induction fs; simpl; [done|by rewrite copy_field_version]. Qed.

(** The optimistic save is a compare-and-swap: it succeeds exactly when the
    stored row is at the expected version; a successful change of a material
    field leaves the row one version further, so that a second save expecting
    the old version is refused and changes nothing. *)
Theorem optimistic_save_swaps p v fields e w b p' w' :
  save_optimistic p v fields e w = (Ok (b, p'), w') →
  (b = true ↔ ∃ q, pricing_profiles (db w) !! prof_id p = Some q ∧ prof_version q = v) ∧
  (b = false → db w' = db w) ∧
  (b = true → existsb is_material fields = true →
   (∃ q, pricing_profiles (db w') !! prof_id p = Some q ∧ prof_version q = v + 1) ∧
   ∀ p2 fields2 e2 w2, prof_id p2 = prof_id p → db w2 = db w' → aborted w2 = false →
     ∃ p3 w3, save_optimistic p2 v fields2 e2 w2 = (Ok (false, p3), w3) ∧ db w3 = db w2).
Proof.
  intros H. unfold save_optimistic in H.
  apply bind_Ok in H as (t & w1 & [= <- <-] & H).
  apply bind_Ok in H as (row & w1 & (_ & Hrow & ->)%query_Ok & H). simpl in Hrow.
  destruct row as [q|].
  2:{ apply ret_Ok in H as [[= -> ->] ->]. split_and!; [|done|done].
      split; [done|]. intros (q & Hq & _). congruence. }
  destruct (prof_version q =? v) eqn:Ev; bool_to_prop.
  2:{ apply ret_Ok in H as [[= -> ->] ->]. split_and!; [|done|done].
      split; [done|]. intros (q' & Hq & ?). congruence. }
  apply bind_Ok in H as (u & w1 & (_ & q' & Hq' & _ & ->)%save_fields_Ok & [[= -> ->] ->]%ret_Ok).
  simpl in Hq'. rewrite Hq' in Hrow. injection Hrow as ->. subst v. split_and!; [split; [intros _; eauto|done]|done|].
  intros _ Hm. rewrite Hm. simpl.
  set (q2 := (foldr (copy_field p) q' fields) <| prof_version := prof_version q' + 1 |>).
  split; [exists q2; split; [apply lookup_insert_eq|done]|].
  intros p2 fields2 e2 w2 Hid Hd Hw2. do 2 eexists. split.
  - unfold save_optimistic. erewrite bind_step by done.
    erewrite bind_step by (by apply query_run). simpl. rewrite Hd, Hid. simpl. rewrite lookup_insert_eq.
    rewrite (proj2 (Z.eqb_neq _ _)) by (unfold q2; simpl; lia). done.
  - done.
Qed.
End Pricing.

(** ** A concrete quote *)

Definition sample_sha (s : string) : string := "digest".
Definition wholesale_profile : PricingProfile :=
  mkProfile 3 "VIP" "vip" 5000 FLOOR_WHOLESALE 1 true (Some 0) None None.
Definition pricing_db : Db :=
  empty_db <| accounts := {[ 1%N := mkAccount 1 (Some 7%N) PERSONAL 0 0 (Some 3%N) ]} |>
           <| pricing_profiles := {[ 3%N := wholesale_profile ]} |>.
Definition pricing_world : World := world_of pricing_db.
Definition pricing_env : Env := mkEnv (sample_settings <| PRICING_PROFILES_ENABLED := true |>)
  (λ n, Z.of_nat n) 100 (λ n, pretty (N.of_nat n)).
(** A ten-dollar package bought for four: half of the margin is given away. *)
Definition pricing_context : PricingContext :=
  mkContext 10000000 (Some 4000000) OT_PACKAGE 5 None (Some wholesale_profile).

Example resolve_example :
  (λ r, match r with (Ok q, _) => Some (q_customer_price q) | _ => None end)
    (resolve sample_sha pricing_context pricing_env pricing_world) = Some 7000000.
Proof. vm_compute. reflexivity. Qed.

Lemma pricing_db_checked : profiles_checked pricing_db ∧ profiles_named pricing_db.
Proof.
  assert (H : ∀ k p, pricing_profiles pricing_db !! k = Some p → p = wholesale_profile).
  { intros k p H. simpl in H. by apply lookup_singleton_Some in H as [_ <-]. }
  by split; intros k p ->%H.
Qed.

Lemma resolve_price_bounds_witness :
  ∃ q w', resolve sample_sha pricing_context pricing_env pricing_world = (Ok q, w') ∧
    db w' = db pricing_world ∧ 4000000 ≤ q_customer_price q ∧ q_profile_id q = Some 3%N.
Proof.
  destruct (resolve_price_bounds sample_sha pricing_context pricing_env pricing_world) as
    (q & w' & H & Hd & Hq).
  - reflexivity.
  - discriminate.
  - intros net [= <-]. discriminate.
  - apply pricing_db_checked.
  - intros p [= <-]. reflexivity.
  - exists q, w'. split; [exact H|split; [exact Hd|]].
    pose proof (qs_priced _ _ _ _ _ Hq wholesale_profile eq_refl eq_refl) as Hp.
    destruct Hp as (Hp & Hf & _); [|exact (conj Hf (proj1 (bp_profile _ _ _ _ Hp)))].
    split; [reflexivity|reflexivity|intros t [= <-]; discriminate|discriminate].
Defined.

Lemma charge_snapshot_round_trip_witness :
  ∃ amount kw w' q, resolve_charge sample_sha OT_TOPUP 1 10000000 (Some 4000000) pricing_env
      pricing_world = (Ok (amount, Some kw), w') ∧ q_customer_price q = amount ∧ amount = 7000000.
Proof.
  destruct (resolve_charge sample_sha OT_TOPUP 1 10000000 (Some 4000000) pricing_env pricing_world)
    as [[[amount [kw|]]|x] w'] eqn:E; [|revert E; vm_compute; discriminate..].
  destruct (charge_snapshot_round_trip sample_sha OT_TOPUP 1 10000000 (Some 4000000) pricing_env
    pricing_world amount kw w') as (row & t & w1 & q & _ & _ & _ & Hq & _);
    [discriminate|apply pricing_db_checked|exact E|].
  exists amount, kw, w', q. split; [reflexivity|split; [exact (eq_sym Hq)|]].
  revert E. vm_compute. by intros [= <-].
Defined.

Lemma optimistic_save_swaps_witness :
  let p := wholesale_profile <| prof_discount_percent := 2000 |> in
  ∃ p' w', save_optimistic p 1 [F_discount_percent] pricing_env pricing_world = (Ok (true, p'), w') ∧
    ∃ p3 w3, save_optimistic p 1 [F_name] pricing_env w' = (Ok (false, p3), w3) ∧ db w3 = db w'.
Proof.
  intros p.
  assert (Hr : match save_optimistic p 1 [F_discount_percent] pricing_env pricing_world with
               | (Ok (b, _), w') => b && negb (aborted w') | _ => false end = true)
    by (vm_compute; reflexivity).
  destruct (save_optimistic p 1 [F_discount_percent] pricing_env pricing_world)
    as [[[[] p']|x] w'] eqn:E; [|discriminate Hr..].
  destruct (optimistic_save_swaps p 1 [F_discount_percent] pricing_env pricing_world true p' w' E)
    as (_ & _ & H).
  exists p', w'. split; [reflexivity|].
  destruct (H eq_refl eq_refl) as [_ H2]. apply H2; [reflexivity|reflexivity|].
  by destruct (aborted w').
Defined.
