(* ===== verification/Spend.v ===== *)
(** * Prepaid spends

    What [order_service.py] and [topup_service.py] have in common: a row is
    reserved and its price debited under a key of its own; when the provider
    fails, the row is marked failed and the price refunded under another key.
    [Spend] is the interface of such a table; the invariant is proved against
    it once, and both services use it. *)

From S2P Require Import Prelude Tables Money Models EsimModels World Effects Credit.
#[local] Open Scope Z_scope.

(** ** The books *)

Definition books (d : Db) : gmap pk Account * list CreditLedgerEntry := (accounts d, ledger d).

Lemma ledger_inv_books d d' : same books d d' → ledger_inv d → ledger_inv d'.
Proof. unfold same, books. intros [= Ha Hl] []. by split; rewrite ?Ha, ?Hl. Qed.

(** ** The interface *)

Class Spend (V : Type) := {
  sp_amount : V → option money;
  sp_account : V → pk;
  sp_failed : V → bool;
  debit_key : pk → string;
  refund_key : pk → string;
  debit_key_inj :: Inj (=) (=) debit_key;
  refund_key_inj :: Inj (=) (=) refund_key;
  debit_refund_ne j k : debit_key j ≠ refund_key k;
}.

Section Spend.
Context `{Spend V}.
Implicit Types (m : gmap pk V) (l : list CreditLedgerEntry) (v : V).

(** ** The invariant *)

(** What the ledger holds for a row: nothing (a spend that was not paid), its
    debit while it is not failed, or its debit and its refund once it is. *)
Definition spend_ok v (debit refund : option CreditLedgerEntry) : Prop :=
  match debit, refund with
  | None, None => True
  | Some en, None =>
      sp_failed v = false ∧ le_account en = sp_account v ∧ sp_amount v = Some (- le_delta en)
  | Some en, Some en' =>
      sp_failed v = true ∧ le_account en = sp_account v ∧ sp_amount v = Some (- le_delta en) ∧
      le_account en' = sp_account v ∧ le_delta en' = - le_delta en
  | None, Some _ => False
  end.

Record spend_inv m l : Prop := {
  si_rows k v : m !! k = Some v →
    spend_ok v (find_entry (debit_key k) l) (find_entry (refund_key k) l);
  si_fresh k : m !! k = None →
    find_entry (debit_key k) l = None ∧ find_entry (refund_key k) l = None;
}.

(** What a row cost its account so far. *)
Definition net_cost (k : pk) l : money :=
  - (default 0 (le_delta <$> find_entry (debit_key k) l) +
     default 0 (le_delta <$> find_entry (refund_key k) l)).

(** A failed spend cost nothing; any other cost its price, or was not paid. *)
Lemma spend_net m l k v :
  spend_inv m l → m !! k = Some v →
  (sp_failed v = true → net_cost k l = 0) ∧
  (net_cost k l = 0 ∨ sp_failed v = false ∧ sp_amount v = Some (net_cost k l)).
Proof.
  intros Hi Hk. pose proof (si_rows m l Hi k v Hk) as Hok. unfold spend_ok, net_cost in *.
  destruct (find_entry (debit_key k) l) as [en|], (find_entry (refund_key k) l) as [en'|];
    simpl; [..|done|by split; [|left]].
  - destruct Hok as (Hf & _ & Ha & _ & ->). split; [lia|left; lia].
  - destruct Hok as (Hf & _ & ->). split; [congruence|]. right. split; [done|]. f_equal. lia.
Qed.

(** A key of no spend. *)
Definition foreign_key (key : string) : Prop := ∀ k, key ≠ debit_key k ∧ key ≠ refund_key k.

Lemma spend_inv_foreign m l en :
  foreign_key (le_idempotency_key en) → spend_inv m l → spend_inv m (l ++ [en]).
Proof.
  intros Hf Hi. split; intros k; destruct (Hf k) as [Hd Hr]; rewrite !find_entry_other by done; apply Hi.
Qed.

(** The ledger grew by entries of other services only. *)
Definition foreign_ext l l' : Prop :=
  ∃ ens, l' = l ++ ens ∧ Forall (λ en, foreign_key (le_idempotency_key en)) ens.

#[export] Instance foreign_ext_preorder : PreOrder foreign_ext.
Proof.
  split; [intros l; exists []; by rewrite app_nil_r|].
  intros l l1 l2 (es & -> & Hes) (es' & -> & Hes'). exists (es ++ es').
  by rewrite app_assoc, Forall_app.
Qed.

Lemma foreign_ext_find l l' k : foreign_ext l l' →
  find_entry (debit_key k) l' = find_entry (debit_key k) l ∧
  find_entry (refund_key k) l' = find_entry (refund_key k) l.
Proof.
  intros (es & -> & Hes). revert l. induction Hes as [|en es Hen _ IH]; intros l; [by rewrite app_nil_r|].
  destruct (Hen k) as [Hd Hr]. rewrite (cons_middle en l es).
  destruct (IH (l ++ [en])) as [IHd IHr]. rewrite <- app_assoc in IHd, IHr. simpl in *.
  by rewrite IHd, IHr, !find_entry_other by done.
Qed.

Lemma spend_inv_ext m l l' : foreign_ext l l' → spend_inv m l → spend_inv m l'.
Proof.
  intros Hl Hi. split; intros k; destruct (foreign_ext_find l l' k Hl) as [-> ->]; apply Hi.
Qed.

(** A ledger with no entry of a spend, and no spend. *)
Lemma spend_inv_empty l :
  Forall (λ en, foreign_key (le_idempotency_key en)) l → spend_inv ∅ l.
Proof.
  intros Hl. apply (spend_inv_ext _ []); [by exists l|].
  split; [by intros k v ?%lookup_empty_Some|done].
Qed.

Lemma net_cost_ext l l' k : foreign_ext l l' → net_cost k l' = net_cost k l.
Proof. intros Hl. unfold net_cost. by destruct (foreign_ext_find l l' k Hl) as [-> ->]. Qed.

Lemma applied_foreign account delta t rid key d d' en :
  applied account delta t rid key d d' en → foreign_key key → foreign_ext (ledger d) (ledger d').
Proof.
  intros [? ->|] Hkey; [reflexivity|]. subst. exists [en]. split; [done|]. by constructor.
Qed.

(** The price is debited under the key of a new row. *)
Lemma spend_inv_debit m l k v en :
  m !! k = None → spend_inv m l → le_idempotency_key en = debit_key k → sp_failed v = false →
  le_account en = sp_account v → sp_amount v = Some (- le_delta en) →
  spend_inv (<[k := v]> m) (l ++ [en]).
Proof.
  intros Hk Hi Hkey Hst Hacc Ham. destruct (si_fresh m l Hi k Hk) as [Hd Hr].
  split; intros j.
  - intros u [[<- <-]|[Hne Hu]]%lookup_insert_Some.
    + rewrite find_entry_snoc by done.
      rewrite find_entry_other by (rewrite Hkey; apply debit_refund_ne). by rewrite Hr.
    + rewrite !find_entry_other; [by apply (si_rows m l Hi)|..];
        rewrite Hkey; [apply debit_refund_ne|by intros ?%(inj _)].
  - intros [Hu Hne]%lookup_insert_None. rewrite !find_entry_other; [by apply (si_fresh m l Hi)|..];
      rewrite Hkey; [apply debit_refund_ne|by intros ?%(inj _)].
Qed.

(** A new row that is not paid. *)
Lemma spend_inv_unpaid m l k v : m !! k = None → spend_inv m l → spend_inv (<[k := v]> m) l.
Proof.
  intros Hk Hi. destruct (si_fresh m l Hi k Hk) as [Hd Hr]. split; intros j.
  - intros u [[<- <-]|[Hne Hu]]%lookup_insert_Some; [by rewrite Hd, Hr|by apply (si_rows m l Hi)].
  - intros [Hu Hne]%lookup_insert_None. by apply (si_fresh m l Hi).
Qed.

(** A change of a row that keeps its price, its account and whether it failed. *)
Definition same_spend (v u : V) : Prop :=
  sp_amount u = sp_amount v ∧ sp_account u = sp_account v ∧ sp_failed u = sp_failed v.

Lemma spend_inv_update m l k v u :
  m !! k = Some v → same_spend v u → spend_inv m l → spend_inv (<[k := u]> m) l.
Proof.
  intros Hk (Ha & Hc & Hf) Hi. split; intros j.
  - intros u' [[<- <-]|[Hne Hu]]%lookup_insert_Some; [|by apply (si_rows m l Hi)].
    pose proof (si_rows m l Hi k v Hk) as Hok. unfold spend_ok in *. by rewrite Ha, Hc, Hf.
  - intros [Hu Hne]%lookup_insert_None. by apply (si_fresh m l Hi).
Qed.

(** A row becomes failed and its debit is refunded. *)
Lemma spend_inv_refund m l k v u en den :
  m !! k = Some v → sp_failed v = false → sp_failed u = true → sp_amount u = sp_amount v →
  sp_account u = sp_account v → find_entry (debit_key k) l = Some den →
  le_idempotency_key en = refund_key k → le_account en = sp_account v →
  sp_amount v = Some (le_delta en) → spend_inv m l → spend_inv (<[k := u]> m) (l ++ [en]).
Proof.
  intros Hk Hv Hu Ha Hc Hden Hkey Hacc Ham Hi.
  pose proof (si_rows m l Hi k v Hk) as Hok. rewrite Hden in Hok. unfold spend_ok in Hok.
  destruct (find_entry (refund_key k) l) as [ren|] eqn:Er; [destruct Hok; congruence|].
  destruct Hok as (_ & Hda & Hdd).
  split; intros j.
  - intros u' [[<- <-]|[Hne Hu']]%lookup_insert_Some.
    + rewrite (find_entry_snoc (refund_key k)) by done.
      rewrite find_entry_other by (rewrite Hkey; apply not_eq_sym, debit_refund_ne).
      rewrite Hden. unfold spend_ok. rewrite Hu, Ha, Hc. rewrite Ham in Hdd. injection Hdd as Hdd.
      split_and!; try done; congruence.
    + rewrite !find_entry_other; [by apply (si_rows m l Hi)|..];
        rewrite Hkey; [by intros ?%(inj _)|apply not_eq_sym, debit_refund_ne].
  - intros [Hu' Hne]%lookup_insert_None. rewrite !find_entry_other; [by apply (si_fresh m l Hi)|..];
      rewrite Hkey; [by intros ?%(inj _)|apply not_eq_sym, debit_refund_ne].
Qed.

(** Posting an entry under an unused key. *)
Lemma applied_unused account delta t rid key d d' en :
  applied account delta t rid key d d' en → find_entry key (ledger d) = None →
  ledger d' = ledger d ++ [en] ∧ only_money d d' ∧ le_account en = account ∧ le_delta en = delta ∧
  le_idempotency_key en = key.
Proof.
  intros Happ Hf. pose proof (applied_only_money _ _ _ _ _ _ _ _ Happ).
  destruct Happ; [congruence|]. by subst.
Qed.

(** A row that was not paid becomes failed. *)
Lemma spend_inv_fail_unpaid m l k v u :
  m !! k = Some v → find_entry (debit_key k) l = None → spend_inv m l →
  spend_inv (<[k := u]> m) l.
Proof.
  intros Hk Hd Hi. split; intros j.
  - intros u' [[<- <-]|[Hne Hu]]%lookup_insert_Some; [|by apply (si_rows m l Hi)].
    pose proof (si_rows m l Hi k v Hk) as Hok. unfold spend_ok in *. rewrite Hd in *.
    by destruct (find_entry (refund_key k) l).
  - intros [Hu Hne]%lookup_insert_None. by apply (si_fresh m l Hi).
Qed.
End Spend.
