(* ===== verification/Lifecycle.v ===== *)
(** * eSIM lifecycle, usage and initial credit

    [apps/esims/services/lifecycle_service.py], [usage_service.py],
    [initial_credit.py] and the save rules of [apps/esims/models.py].  A method
    that mutates an [esim] object takes the in-memory row and returns the one
    it leaves behind. *)

From S2P Require Import Prelude Strings Tables Money Models EsimModels World Effects Credit Pricing.
#[local] Open Scope Z_scope.

(** ** The eSIM provider *)

(** [OrderProvider] and [TopupProvider] of [shared/providers/esim.py]: what the
    services rely on is that a call touches neither the database nor the
    transaction, and publishes nothing. *)
Class OrderProvider := {
  create_order : string → string → M OrderResult;
  create_order_reads package_id customer_ref : only_reads (create_order package_id customer_ref);
}.

Class TopupProvider := {
  list_topups : string → M (list TopupPackage);
  submit_topup : string → string → M TopupResult;
  provider_usage : string → M UsageDTO;
  list_topups_reads iccid : only_reads (list_topups iccid);
  submit_topup_reads iccid package_id : only_reads (submit_topup iccid package_id);
  provider_usage_reads iccid : only_reads (provider_usage iccid);
}.

(** ** The eSIM table *)

Definition fits_int32 (n : Z) : bool := (- max_int32 - 1 <=? n) && (n <=? max_int32).
Definition fits_opt (o : option Z) : bool := match o with Some n => fits_int32 n | None => true end.

(** Two rows may not share an ICCID, nor a matching id that is not blank. *)
Definition esim_clash (s t : Esim) : bool :=
  bool_decide (esim_iccid t = esim_iccid s) ||
  negb (bool_decide (esim_matching_id s = "")) && negb (bool_decide (esim_matching_id t = "")) &&
  bool_decide (strip (esim_matching_id t) = strip (esim_matching_id s)).

Definition esim_verdict (d : Db) (s : Esim) : option Exn :=
  if negb (fits_opt (us_remaining_mb (esim_usage s)) && fits_opt (us_total_mb (esim_usage s)))
  then Some DataError
  else if qexists (λ t, esim_clash s t && negb (esim_id t =? esim_id s)%N) (esims d)
  then Some IntegrityError else None.

(** [esim.<fields> = ...; esim.save(update_fields=[..., "updated_at"])] *)
Definition save_esim (s : Esim) (f : Esim → Esim) : M Esim :=
  let! t := now in
  let g := λ s, (f s) <| esim_updated_at := t |> in
  save_fields esims esim_verdict (esim_id s) g;;;
  ret (g s).

(** ** The top-up table *)

(** A [DecimalField(max_digits=10, decimal_places=2)] column: the value is
    rounded to cents when stored, and has at most eight digits before the
    point. *)
Definition price_bound : money := 10 ^ 8 * 10 ^ 6.
Definition fits_price (m : money) : bool := Z.abs (money_round m) <? price_bound.
Definition price_column (m : option money) : option money := money_round <$> m.
Definition fits_price_opt (m : option money) : bool :=
  match m with Some m => fits_price m | None => true end.

(** The row a top-up is stored as. *)
Definition topup_row (t : Topup) : Topup :=
  t <| top_list_price_usd := price_column (top_list_price_usd t) |>.

Definition topup_fits (t : Topup) : bool :=
  fits_numeric (top_amount t) && fits_price_opt (top_list_price_usd t) &&
  match top_net_price_usd t with Some m => fits_numeric m | None => true end &&
  match top_sequence t with Some n => n <=? max_int32 | None => true end.

Definition topup_clash (t u : Topup) : bool :=
  match top_idempotency_key t with
  | Some k => bool_decide (top_idempotency_key u = Some k) | None => false end ||
  match top_sequence t with
  | Some n => (top_esim u =? top_esim t)%N && bool_decide (top_sequence u = Some n)
  | None => false end.

Definition topup_verdict (d : Db) (t : Topup) : option Exn :=
  if negb (topup_fits t) then Some DataError
  else if negb (0 <? top_amount t) then Some IntegrityError
  else if qexists (λ u, topup_clash t u && negb (top_id u =? top_id t)%N) (topups d)
  then Some IntegrityError else None.

(** [aggregate(highest=Max("sequence"))["highest"]] over one eSIM's rows. *)
Definition sequences (esim : pk) (d : Db) : list Z :=
  omap top_sequence (qall (λ t, (top_esim t =? esim)%N) (topups d)).
Definition highest_sequence (esim : pk) (d : Db) : option Z :=
  match sequences esim d with [] => None | n :: l => Some (foldr Z.max n l) end.

(** [Topup.save] of a new row: a row without a sequence gets the next one. *)
Definition topup_create (t : Topup) : M Topup :=
  let! t := match top_sequence t with
            | Some _ => ret t
            | None =>
                let! current := query (highest_sequence (top_esim t)) in
                ret (t <| top_sequence :=
                       Some (match current with None => 1 | Some n => n + 1 end) |>)
            end in
  create topups topup_verdict (top_id t) (topup_row t);;;
  ret t.

(** [Topup.save] of a stored row, all columns: the wholesale price may not
    have changed. *)
Definition topup_save (t : Topup) : M Topup :=
  let! stored := query (λ d, topups d !! top_id t) in
  raise_if (negb (bool_decide ((stored ≫= top_net_price_usd) = top_net_price_usd t)))
    TopupNetPriceImmutable;;;
  let! now_ := now in
  let t := t <| top_updated_at := now_ |> in
  save_row topups topup_verdict (top_id t) (topup_row t);;;
  ret t.

(** The columns the services name in [save(update_fields=...)] and
    [update(...)]. *)
Inductive TopupField :=
  | T_status (s : TopupStatus) | T_external_order_id (id : string) | T_created_at (t : instant)
  | T_net_price_usd (m : option money).

Definition set_topup (f : TopupField) (t : Topup) : Topup :=
  match f with
  | T_status s => t <| top_status := s |>
  | T_external_order_id id => t <| top_external_order_id := id |>
  | T_created_at c => t <| top_created_at := c |>
  | T_net_price_usd m => t <| top_net_price_usd := m |>
  end.
Definition is_net (f : TopupField) : bool :=
  match f with T_net_price_usd _ => true | _ => false end.

(** [topup.<fields> = ...; topup.save(update_fields=[..., "updated_at"])] *)
Definition topup_save_fields (t : Topup) (fields : list TopupField) : M Topup :=
  let! stored := query (λ d, topups d !! top_id t) in
  let t' := foldr set_topup t fields in
  raise_if (existsb is_net fields &&
            negb (bool_decide ((stored ≫= top_net_price_usd) = top_net_price_usd t')))
    TopupNetPriceImmutable;;;
  let! now_ := now in
  let g := λ t, (foldr set_topup t fields) <| top_updated_at := now_ |> in
  save_fields topups topup_verdict (top_id t) g;;;
  ret (g t).

(** [TopupQuerySet.update] of one row. *)
Definition topup_update (id : pk) (fields : list TopupField) : M unit :=
  raise_if (existsb is_net fields) TopupNetPriceImmutable;;;
  let! row := query (λ d, topups d !! id) in
  match row with
  | Some _ => save_fields topups topup_verdict id (λ t, foldr set_topup t fields)
  | None => ret tt
  end.

(** ** The initial credit *)

Definition initial_credit_key (esim_id : pk) : string := "initial-credit:" +:+ str esim_id.

Definition topup_by_key (key : string) (d : Db) : option Topup :=
  qfirst (λ t, bool_decide (top_idempotency_key t = Some key)) (topups d).

(** [order] and [package] are [esim.order] and [esim.order.package]. *)
Definition ensure_initial_credit_topup (esim : Esim) (order : Order) (package : Package) : M Topup :=
  let key := initial_credit_key (esim_id esim) in
  let! existing := query (topup_by_key key) in
  match existing with
  | Some t => ret t
  | None =>
      let stripped := strip (prd_package_external_id (ord_product order)) in
      let external_id := if bool_decide (stripped = "") then pkg_external_id package else stripped in
      let amount := match ord_retail_price_usd order with
                    | Some a => if a <=? 0 then pkg_price_usd package else a
                    | None => pkg_price_usd package
                    end in
      raise_if (amount <=? 0) (ValueError "Cannot record initial credit");;;
      let! id := uuid4 in
      let! created_at := now in
      let! updated_at := now in
      let! topup := topup_create
        (mkTopup id (esim_account esim) (esim_id esim) external_id amount
           (ord_list_price_usd order) (ord_net_price_usd order) no_pricing TOP_FULFILLED (Some 0)
           (stake 64 (ord_external_order_id order)) (Some key) created_at updated_at) in
      topup_update (top_id topup) [T_created_at (ord_created_at order)];;;
      ret (topup <| top_created_at := ord_created_at order |>)
  end.

(** ** The state machine *)

Definition _ALLOWED (s : EsimStatus) : list EsimStatus :=
  match s with
  | PURCHASED => [INSTALLATION_STARTED; INSTALLED]
  | INSTALLATION_STARTED => [INSTALLED]
  | INSTALLED => [ACTIVATED; EXHAUSTED; ESIM_EXPIRED]
  | ACTIVATED => [IN_USE; EXHAUSTED; ESIM_EXPIRED]
  | IN_USE => [EXHAUSTED; ESIM_EXPIRED]
  | EXHAUSTED => [ESIM_EXPIRED; ACTIVATED; IN_USE]
  | ESIM_EXPIRED => [ACTIVATED; IN_USE]
  | ESIM_UNKNOWN =>
      [PURCHASED; INSTALLATION_STARTED; INSTALLED; ACTIVATED; IN_USE; EXHAUSTED; ESIM_EXPIRED]
  end.

Definition SETUP_VERSION : string := "1".

Definition CLIENT_EVENT_ALLOWLIST : list string :=
  ["install.opened"; "install.qr_rendered"; "install.qr_zoomed"; "install.apple_install_clicked";
   "install.manual_install_clicked"; "install.completed"; "install.roaming_checklist_viewed";
   "install.setup_confirmed"; "install.setup_skipped"].

(** [_PROVIDER_USAGE_STATUS.get(status)] *)
Definition _PROVIDER_USAGE_STATUS (status : string) : option EsimStatus :=
  if bool_decide (status = "ACTIVE") then Some IN_USE
  else if bool_decide (status = "FINISHED") then Some EXHAUSTED
  else if bool_decide (status = "EXPIRED") then Some ESIM_EXPIRED
  else if bool_decide (status = "NOT_ACTIVE") then Some PURCHASED
  else if bool_decide (status = "UNKNOWN") then Some ESIM_UNKNOWN
  else if bool_decide (status = "") then Some PURCHASED
  else None.

(** *** Lifecycle events *)

Definition event_by_key (esim : pk) (key : string) (d : Db) : option EsimLifecycleEvent :=
  qfirst (λ v, (lev_esim v =? esim)%N && bool_decide (lev_idempotency_key v = key))
    (lifecycle_events d).

(** [esims_lifecycle_event_esim_idem_uniq] *)
Definition event_verdict (d : Db) (v : EsimLifecycleEvent) : option Exn :=
  match event_by_key (lev_esim v) (lev_idempotency_key v) d with
  | Some _ => Some IntegrityError
  | None => None
  end.

Definition create_event (s : Esim) (event_type : string) (source : LifecycleSource) (key : string)
    : M EsimLifecycleEvent :=
  let! id := uuid4 in
  let v := mkLifecycleEvent id (esim_id s) (esim_user s) event_type source key in
  create lifecycle_events event_verdict id v;;;
  ret v.

(** [EsimLifecycleEvent.objects.get_or_create(...)] *)
Definition get_or_create_event (s : Esim) (event_type : string) (source : LifecycleSource)
    (key : string) : M unit :=
  let! existing := query (event_by_key (esim_id s) key) in
  match existing with
  | Some _ => ret tt
  | None =>
      try_except (let! _ := atomic (create_event s event_type source key) in ret tt)
        (on_integrity_error (
          let! again := query (event_by_key (esim_id s) key) in
          match again with Some _ => ret tt | None => raise IntegrityError end))
  end.

Definition _record_system_event (s : Esim) (event_type key : string) : M unit :=
  get_or_create_event s event_type SOURCE_SYSTEM key.
Definition _record_provider_event (s : Esim) (event_type key : string) : M unit :=
  get_or_create_event s event_type SOURCE_PROVIDER key.

(** The event of a status change: its key carries the time of the save. *)
Definition status_event (target : EsimStatus) : string :=
  "system.status." +:+ esim_status_value target.
Definition stamped_key (event_type : string) (s : Esim) : string :=
  event_type +:+ ":" +:+ str (esim_id s) +:+ ":" +:+ pretty (esim_updated_at s).

(** [esim.status = target; esim.save(...)], and its system event. *)
Definition set_status (s : Esim) (target : EsimStatus) : M Esim :=
  let! s := save_esim s (λ s, s <| esim_status := target |>) in
  _record_system_event s (status_event target) (stamped_key (status_event target) s);;;
  ret s.

(** [LifecycleService.transition] *)
Definition transition (s : Esim) (target : EsimStatus) : M Esim :=
  let current := esim_status s in
  if bool_decide (current = target) then ret s
  else if negb (bool_decide (target ∈ _ALLOWED current))
  then raise (InvalidLifecycleTransitionError current target)
  else set_status s target.

Definition _overwrite_provider_status (s : Esim) (target : EsimStatus) : M Esim :=
  set_status s target.

(** *** Purchase *)

Definition activation_policy_of (policy : string) : ActivationPolicy :=
  if bool_decide (policy = "first_usage") then FIRST_USAGE
  else if bool_decide (policy = "installation") then INSTALLATION
  else POLICY_UNKNOWN.

(** [LifecycleService.create_purchased] with its [account]; [package] is
    [order.package]. *)
Definition create_purchased (user account : pk) (order : Order) (package : Package)
    (sim : OrderedSimDTO) (manual_installation qrcode_installation installation_guide_url : string)
    (activation_policy : string) : M Esim :=
  let own := strip (prd_operator_title (ord_product order)) in
  let operator_title := if bool_decide (own = "") then strip (pkg_operator_title package) else own in
  atomic (
    let! id := uuid4 in
    let! created_at := now in
    let! updated_at := now in
    let esim := mkEsim id account user None (ord_id order) (sim_iccid sim)
      (strip (sim_matching_id sim))
      (mkInstall (sim_lpa sim) (sim_qrcode sim) (sim_qrcode_url sim)
         (sim_direct_apple_installation_url sim) manual_installation qrcode_installation
         installation_guide_url)
      PURCHASED (activation_policy_of activation_policy) operator_title "" None None None no_usage
      created_at updated_at in
    create esims esim_verdict id esim;;;
    let! _ := ensure_initial_credit_topup esim order package in
    _record_system_event esim "system.purchased" ("system.purchased:" +:+ str id);;;
    ret esim).

(** *** Client events *)

Definition esim_installed (s : Esim) : Event := EsimInstalled (esim_id s) (esim_iccid s) (esim_user s).

(** The transition an event asks for, and the columns it adds to the save. *)
Definition client_effect (s : Esim) (event_type : string) : M (Esim * option (Esim → Esim)) :=
  if bool_decide (event_type = "install.opened") then
    let! s := if bool_decide (esim_status s = PURCHASED)
              then transition s INSTALLATION_STARTED else ret s in
    ret (s, Some (λ s, s <| esim_setup_version := SETUP_VERSION |>))
  else if bool_decide (event_type = "install.completed") then
    let! s := if bool_decide (esim_status s ∈ [PURCHASED; INSTALLATION_STARTED])
              then transition s INSTALLED else ret s in
    publish (esim_installed s);;;
    ret (s, None)
  else if bool_decide (event_type = "install.setup_confirmed") then
    match esim_setup_completed_at s with
    | None => let! t := now in ret (s, Some (λ s, s <| esim_setup_completed_at := Some t |>))
    | Some _ => ret (s, None)
    end
  else if bool_decide (event_type = "install.setup_skipped") then
    match esim_setup_skipped_at s with
    | None => let! t := now in ret (s, Some (λ s, s <| esim_setup_skipped_at := Some t |>))
    | Some _ => ret (s, None)
    end
  else ret (s, None).

Definition resume_update (resume_step : option Z) : option (Esim → Esim) :=
  match resume_step with
  | Some n => if (1 <=? n) && (n <=? 4)
              then Some (λ s, s <| esim_setup_resume_step := Some n |>) else None
  | None => None
  end.

Definition _apply_client_side_effects (s : Esim) (event_type : string) (resume_step : option Z)
    : M Esim :=
  let resume := resume_update resume_step in
  let! effect := client_effect s event_type in
  match resume, effect.2 with
  | None, None => ret effect.1
  | _, _ => save_esim effect.1 (λ s, (default id effect.2) ((default id resume) s))
  end.

(** [record_client_event]: the event, whether it is new, and the [esim] left
    behind. *)
Definition record_client_event (s : Esim) (event_type idempotency_key : string)
    (resume_step : option Z) : M (EsimLifecycleEvent * bool * Esim) :=
  raise_if (negb (bool_decide (event_type ∈ CLIENT_EVENT_ALLOWLIST)))
    (UnknownLifecycleEventTypeError event_type);;;
  let! existing := query (event_by_key (esim_id s) idempotency_key) in
  match existing with
  | Some v => ret (v, false, s)
  | None =>
      atomic (
        let! event := create_event s event_type SOURCE_CLIENT idempotency_key in
        let! s := _apply_client_side_effects s event_type resume_step in
        ret (event, true, s))
  end.

(** *** Provider usage *)

Definition activates (previous : EsimStatus) : bool :=
  negb (bool_decide (previous ∈ [ACTIVATED; IN_USE; EXHAUSTED; ESIM_EXPIRED])).
Definition first_usage (previous : EsimStatus) : bool :=
  negb (bool_decide (previous = IN_USE)) &&
  negb (bool_decide (previous ∈ [EXHAUSTED; ESIM_EXPIRED])).

Definition apply_provider_usage (s : Esim) (usage : UsageDTO) : M Esim :=
  let provider_status := upper (strip (ud_status usage)) in
  match _PROVIDER_USAGE_STATUS provider_status with
  | None => ret s
  | Some target =>
      let previous := esim_status s in
      if bool_decide (previous = target) then ret s
      else
        let! s := _overwrite_provider_status s target in
        (if bool_decide (provider_status = "UNKNOWN")
         then _record_provider_event s "provider.usage_unknown"
                (stamped_key "provider.usage_unknown" s)
         else ret tt);;;
        let! row := get esims (esim_id s) in
        let s := s <| esim_status := esim_status row |> <| esim_updated_at := esim_updated_at row |>
                   <| esim_created_at := esim_created_at row |> in
        (if activates previous && bool_decide (esim_status s ∈ [ACTIVATED; IN_USE])
         then let! t := now in
              publish (EsimActivated (esim_id s) (esim_iccid s) (esim_user s) (t - esim_created_at s))
         else ret tt);;;
        (if bool_decide (esim_status s = IN_USE) && first_usage previous
         then publish (EsimFirstUsageDetected (esim_id s) (esim_iccid s) (esim_user s))
         else ret tt);;;
        ret s
  end.

(** ** Usage *)

(** [text.replace(" ", "T", 1)] *)
Fixpoint replace_first (from to : ascii) (s : string) : string :=
  match s with
  | EmptyString => EmptyString
  | String c s => if bool_decide (c = from) then String to s else String c (replace_first from to s)
  end.

Section Usage.
(** Django's [parse_datetime], made aware: [None] on a text of another shape,
    [ValueError] on a date that does not exist. *)
Context (parse_datetime : string → Res (option instant)).
Context {provider : TopupProvider}.

Definition _parse_expired_at (value : option string) : Res (option instant) :=
  match value with
  | None | Some "" => Ok None
  | Some value =>
      let normalized := strip value in
      parse_datetime
        (if has_char " " normalized && negb (has_char "T" normalized)
         then replace_first " " "T" normalized else normalized)
  end.

Definition _update_cache (s : Esim) (usage : UsageDTO) : M Esim :=
  let! expired_at := lift (_parse_expired_at (ud_expired_at usage)) in
  let! synced_at := now in
  let cache := mkUsage (Some (ud_remaining_mb usage)) (Some (ud_total_mb usage)) (ud_status usage)
    (ud_is_unlimited usage) expired_at (Some synced_at) in
  save_esim s (λ s, s <| esim_usage := cache |>).

(** [UsageService.get_usage]: the usage, and the [esim] left behind. *)
Definition get_usage (s : Esim) : M (UsageDTO * Esim) :=
  let! usage := provider_usage (esim_iccid s) in
  let! s := _update_cache s usage in
  let! s := apply_provider_usage s usage in
  ret (usage, s).
End Usage.

(** ** Stored rows *)

(** The columns the table's constraints read. *)
Definition same_key (s t : Esim) : Prop :=
  esim_id t = esim_id s ∧ esim_iccid t = esim_iccid s ∧
  esim_matching_id t = esim_matching_id s ∧ esim_usage t = esim_usage s.

Lemma same_key_verdict s t d : same_key s t → esim_verdict d t = esim_verdict d s.
Proof. intros (Hi & Hc & Hm & Hu). unfold esim_verdict, esim_clash. by rewrite Hi, Hc, Hm, Hu. Qed.

Lemma put_esim_verdict s t d :
  esims d !! esim_id s = Some s → same_key s t →
  esim_verdict (put esims (esim_id s) t d) t = esim_verdict d s.
Proof.
  intros Hs Hk. rewrite (same_key_verdict s t) by done. unfold esim_verdict.
  destruct (negb _); [done|].
  destruct (qexists _ (esims d)) eqn:E.
  - apply qexists_true in E as (k & u & Hu & Hc). apply andb_true_iff in Hc as [Hc Hne].
    assert (Hkne : k ≠ esim_id s).
    { intros ->. rewrite Hs in Hu. simplify_eq. by rewrite N.eqb_refl in Hne. }
    replace (qexists _ _) with true; [done|]. symmetry. apply qexists_true. exists k, u. simpl.
    rewrite lookup_insert_ne by done. by rewrite Hu, Hc, Hne.
  - replace (qexists _ _) with false; [done|]. symmetry. rewrite qexists_false in E |- *.
    intros k u. simpl. intros [[<- <-]|[_ Hu]]%lookup_insert_Some; [|by apply (E k)].
    destruct Hk as (-> & _). by rewrite N.eqb_refl, andb_false_r.
Qed.

(** [s] is the stored row, and a save of it would pass. *)
Record esim_stored (s : Esim) (w : World) : Prop := {
  es_alive : aborted w = false;
  es_row : esims (db w) !! esim_id s = Some s;
  es_verdict : esim_verdict (db w) s = None;
  es_fresh : ∀ k, (next_uuid w ≤ k)%N → lifecycle_events (db w) !! k = None;
}.

Lemma save_esim_run s f e w :
  esim_stored s w → (∀ t, same_key t (f t)) →
  let s' := (f s) <| esim_updated_at := clock e (tick w) |> in
  let w' := w <| tick := S (tick w) |> <| db := put esims (esim_id s) s' (db w) |> in
  save_esim s f e w = (Ok s', w') ∧ esim_stored s' w'.
Proof.
  intros [Ha Hr Hv Hf] Hk. cbv zeta. set (s' := (f s) <| esim_updated_at := clock e (tick w) |>).
  assert (Hks : same_key s s').
  { destruct (Hk s) as (H1 & H2 & H3 & H4). repeat split; [exact H1|exact H2|exact H3|exact H4]. }
  assert (Hv' : esim_verdict (db w) s' = None) by by rewrite (same_key_verdict s s').
  split.
  - unfold save_esim. erewrite bind_step by done.
    erewrite bind_step by (by eapply (save_fields_run esims); [..|exact Hv']). done.
  - destruct Hks as (Hid & Hks). split; simpl; [done| |by rewrite put_esim_verdict|done].
    unfold s' in Hid. simpl in Hid. rewrite Hid. apply lookup_insert_eq.
Qed.

(** What recording an event once does to the world. *)
Definition records (id : pk) (key : string) (w w' : World) : Prop :=
  db w' = (db w) <| lifecycle_events := lifecycle_events (db w') |> ∧
  lifecycle_events (db w) ⊆ lifecycle_events (db w') ∧
  is_Some (event_by_key id key (db w')) ∧
  events w' = events w ∧ depth w' = depth w ∧ tick w' = tick w.

Lemma event_by_key_put s key src id ty d :
  event_by_key (esim_id s) key d = None → 
  is_Some (event_by_key (esim_id s) key
    (put lifecycle_events id (mkLifecycleEvent id (esim_id s) (esim_user s) ty src key) d)).
Proof.
  intros _. destruct (event_by_key _ _ (put _ _ _ _)) as [v|] eqn:E; [done|exfalso].
  unfold event_by_key in E. rewrite qfirst_None in E.
  specialize (E id _ (lookup_insert_eq _ _ _)). simpl in E.
  by rewrite N.eqb_refl, bool_decide_true in E.
Qed.

Lemma create_event_run s ty src key e w :
  aborted w = false → lifecycle_events (db w) !! next_uuid w = None →
  event_by_key (esim_id s) key (db w) = None →
  let v := mkLifecycleEvent (next_uuid w) (esim_id s) (esim_user s) ty src key in
  create_event s ty src key e w =
    (Ok v, w <| next_uuid := N.succ (next_uuid w) |> <| db := put lifecycle_events (next_uuid w) v (db w) |>).
Proof.
  intros Ha Hf Hn. cbv zeta. unfold create_event. erewrite bind_step by done.
  erewrite bind_step; [|apply create_run; [done..|]]; [done|]. unfold event_verdict. simpl. by rewrite Hn.
Qed.

Lemma record_event_run s ty src key e w :
  esim_stored s w →
  ∃ w', get_or_create_event s ty src key e w = (Ok tt, w') ∧ records (esim_id s) key w w' ∧
    esim_stored s w'.
Proof.
  intros [Ha Hr Hv Hf]. unfold get_or_create_event.
  erewrite bind_step by (by apply query_run).
  destruct (event_by_key _ _ (db w)) as [v|] eqn:En.
  { exists w. split; [done|]. split; [|done]. split_and!; try done; first [by rewrite En | by destruct (db w)]. }
  pose proof (create_event_run s ty src key e (enter w) Ha (Hf _ (N.le_refl _)) En) as Hc.
  eexists. split.
  - apply try_run. erewrite bind_step by (apply atomic_run; [exact Hc|done]). done.
  - split.
    + split_and!; simpl; try done; [|by apply event_by_key_put].
      apply insert_subseteq, Hf. lia.
    + split; simpl; [done..|]. intros k Hk. rewrite lookup_insert_ne by lia. apply Hf. lia.
Qed.

(** The row [s] became [s'], [evs] were published, and of the other tables only
    the lifecycle events grew. *)
Record moves (s s' : Esim) (evs : list Event) (w w' : World) : Prop := {
  mv_id : esim_id s' = esim_id s;
  mv_db : db w' = (db w) <| esims := <[esim_id s := s']> (esims (db w)) |>
                         <| lifecycle_events := lifecycle_events (db w') |>;
  mv_recorded : lifecycle_events (db w) ⊆ lifecycle_events (db w');
  mv_stored : esim_stored s' w';
  mv_published : events w' = events w ++ evs;
  mv_depth : depth w' = depth w;
}.

Lemma moves_refl s w : esim_stored s w → moves s s [] w w.
Proof.
  intros Hs. split; try done; [|by rewrite app_nil_r]. rewrite insert_id by apply Hs.
  by destruct (db w).
Qed.

Lemma moves_trans s1 s2 s3 evs evs' w1 w2 w3 :
  moves s1 s2 evs w1 w2 → moves s2 s3 evs' w2 w3 → moves s1 s3 (evs ++ evs') w1 w3.
Proof.
  intros [Hi Hd Hr Hs Hp Hdp] [Hi' Hd' Hr' Hs' Hp' Hdp']. split.
  - congruence.
  - rewrite Hd', Hd, Hi. simpl. by rewrite insert_insert_eq.
  - by transitivity (lifecycle_events (db w2)).
  - done.
  - by rewrite Hp', Hp, app_assoc.
  - congruence.
Qed.

Lemma save_esim_moves s f e w :
  esim_stored s w → (∀ t, same_key t (f t)) →
  let s' := (f s) <| esim_updated_at := clock e (tick w) |> in
  ∃ w', save_esim s f e w = (Ok s', w') ∧ moves s s' [] w w'.
Proof.
  intros Hs Hk. destruct (save_esim_run s f e w Hs Hk) as [H1 H2]. eexists. split; [exact H1|].
  destruct (Hk s) as (Hid & _). split; simpl; try done; first [by rewrite app_nil_r | by destruct (db w)].
Qed.

Lemma records_moves s key w w' : esim_stored s w → esim_stored s w' →
  records (esim_id s) key w w' → moves s s [] w w'.
Proof.
  intros Hs Hs' (Hd & Hr & _ & He & Hdp & _). split; try done; [|by rewrite app_nil_r].
  rewrite insert_id by apply Hs. rewrite Hd at 1. by destruct (db w).
Qed.

Lemma set_status_run s target e w :
  esim_stored s w →
  let s' := s <| esim_status := target |> <| esim_updated_at := clock e (tick w) |> in
  ∃ w', set_status s target e w = (Ok s', w') ∧ moves s s' [] w w' ∧
    is_Some (event_by_key (esim_id s) (stamped_key (status_event target) s') (db w')) ∧
    tick w' = S (tick w).
Proof.
  intros Hs. destruct (save_esim_run s (λ s, s <| esim_status := target |>) e w Hs) as [H1 Hs1]; [done|].
  destruct (save_esim_moves s (λ s, s <| esim_status := target |>) e w Hs)
    as (w1 & H1' & Hm1); [done|]. rewrite H1 in H1'. injection H1' as <-.
  destruct (record_event_run _ (status_event target) SOURCE_SYSTEM (stamped_key (status_event target)
    (s <| esim_status := target |> <| esim_updated_at := clock e (tick w) |>)) e _ Hs1)
    as (w2 & H2 & Hrec & Hs2).
  exists w2. split.
  - unfold set_status. erewrite bind_step by exact H1. erewrite bind_step by exact H2. done.
  - split_and!; [|apply Hrec|apply Hrec].
    eapply (moves_trans s _ _ [] [] w _ w2 Hm1). by eapply records_moves; [apply Hm1|..].
Qed.

(** *** Client events *)

(** Where an event takes a status: along the install funnel only. *)
Definition client_target (event_type : string) (status : EsimStatus) : EsimStatus :=
  if bool_decide (event_type = "install.opened") then
    match status with PURCHASED => INSTALLATION_STARTED | _ => status end
  else if bool_decide (event_type = "install.completed") then
    match status with PURCHASED | INSTALLATION_STARTED => INSTALLED | _ => status end
  else status.

(** A client event changes the setup columns only; the setup timestamps are
    written once. *)
Record setup_step (s s' : Esim) : Prop := {
  ss_rest : s' = s <| esim_status := esim_status s' |> <| esim_setup_version := esim_setup_version s' |>
    <| esim_setup_resume_step := esim_setup_resume_step s' |>
    <| esim_setup_completed_at := esim_setup_completed_at s' |>
    <| esim_setup_skipped_at := esim_setup_skipped_at s' |> <| esim_updated_at := esim_updated_at s' |>;
  ss_completed : ∀ t, esim_setup_completed_at s = Some t → esim_setup_completed_at s' = Some t;
  ss_skipped : ∀ t, esim_setup_skipped_at s = Some t → esim_setup_skipped_at s' = Some t;
}.

Lemma transition_run s target e w :
  esim_stored s w → target ∈ _ALLOWED (esim_status s) → esim_status s ≠ target →
  ∃ s' w', transition s target e w = (Ok s', w') ∧ moves s s' [] w w' ∧
    s' = s <| esim_status := target |> <| esim_updated_at := clock e (tick w) |>.
Proof.
  intros Hs Hin Hne. unfold transition. rewrite bool_decide_false by done.
  rewrite bool_decide_true by done. simpl.
  destruct (set_status_run s target e w Hs) as (w' & H & Hm & _ & _). eauto.
Qed.

(** The updates a client event adds to the last save. *)
Definition setup_update (s : Esim) (g : Esim → Esim) : Prop :=
  ∀ t, same_key t (g t) ∧ esim_status (g t) = esim_status t ∧
    (esim_setup_completed_at t = esim_setup_completed_at s →
     esim_setup_skipped_at t = esim_setup_skipped_at s → setup_step t (g t)).

Lemma setup_step_refl s : setup_step s s.
Proof. by split; destruct s. Qed.

Lemma setup_step_trans s1 s2 s3 : setup_step s1 s2 → setup_step s2 s3 → setup_step s1 s3.
Proof.
  intros [H1 H2 H3] [H1' H2' H3']. split; [|by auto..]. rewrite H1', H1. by destruct s1.
Qed.

Lemma setup_updated s t : setup_step s (s <| esim_updated_at := t |>).
Proof. by split; destruct s. Qed.

Lemma compose_setup s g r :
  setup_update s g → setup_update s (λ t, g ((default id (resume_update r)) t)).
Proof.
  intros Hg t. set (u := (default id (resume_update r)) t).
  assert (Hu : same_key t u ∧ esim_status u = esim_status t ∧ setup_step t u ∧
               esim_setup_completed_at u = esim_setup_completed_at t ∧
               esim_setup_skipped_at u = esim_setup_skipped_at t).
  { unfold u, resume_update. destruct r as [n|]; [case_match|]; simpl;
      split_and!; try done; by split; destruct t. }
  destruct Hu as ((?&?&?&?) & Hst & Hstep & Hc & Hk).
  destruct (Hg u) as ((?&?&?&?) & Hgs & Hgu). split_and!.
  - split_and!; congruence.
  - congruence.
  - intros Hc' Hk'. apply (setup_step_trans t u); [done|]. apply Hgu; congruence.
Qed.

Lemma id_setup s : setup_update s id.
Proof. intros t. split_and!; try done. intros _ _. apply setup_step_refl. Qed.

(** The events published for an event. *)
Definition client_published (s : Esim) (event_type : string) : list Event :=
  if bool_decide (event_type = "install.completed") then [esim_installed s] else [].

Lemma client_effect_run s ty e w :
  esim_stored s w →
  ∃ s' g w', client_effect s ty e w = (Ok (s', g), w') ∧
    moves s s' (client_published s ty) w w' ∧ setup_step s s' ∧
    esim_status s' = client_target ty (esim_status s) ∧ setup_update s' (default id g).
Proof.
  intros Hs. unfold client_effect, client_published, client_target.
  assert (Hq : ∀ g w', moves s s [] w w' → setup_update s (default id g) →
    ∃ s' g' w'', (Ok (s, g), w') = (Ok (s', g'), w'') ∧ moves s s' [] w w'' ∧ setup_step s s' ∧
      esim_status s' = esim_status s ∧ setup_update s' (default id g')).
  { intros g w' Hm Hg. exists s, g, w'. split_and!; try done. apply setup_step_refl. }
  case_bool_decide as E1.
  - subst ty. simpl. case_bool_decide as Ep.
    + destruct (transition_run s INSTALLATION_STARTED e w Hs) as (s' & w1 & H & Hm & Hst);
        [rewrite Ep; simpl; set_solver|by rewrite Ep|].
      erewrite bind_step by exact H. eexists s', _, w1.
      split_and!; [reflexivity|done|by subst s'; split; destruct s|by rewrite Ep, Hst|].
      by intros t; split_and!.
    + erewrite bind_step by done. eexists s, _, w.
      split_and!; [reflexivity|by apply moves_refl|apply setup_step_refl|by destruct (esim_status s)|].
      by intros t; split_and!.
  - case_bool_decide as E2.
    { case_bool_decide as Ep.
      - destruct (transition_run s INSTALLED e w Hs) as (s' & w1 & H & Hm & Hst);
          [set_unfold; destruct Ep as [->|[->|[]]]; set_solver|set_unfold; by destruct Ep as [->|[->|[]]]|].
        erewrite bind_step by exact H. eexists s', None, _. split_and!.
        + done.
        + replace (esim_installed s) with (esim_installed s') by (by rewrite Hst).
          destruct Hm as [Hid Hd Hr [] Hp Hdp]. split; simpl; try done; by rewrite Hp, <- app_assoc.
        + subst s'. by split; destruct s.
        + rewrite Hst. simpl. set_unfold. by destruct Ep as [->|[->|[]]].
        + apply id_setup.
      - erewrite bind_step by done. eexists s, None, _. split_and!.
        + done.
        + destruct (moves_refl s w Hs) as [Hid Hd Hr [] Hp Hdp]. by split.
        + apply setup_step_refl.
        + destruct (esim_status s); try done; set_solver.
        + apply id_setup. }
    assert (Hclock : moves s s [] w (w <| tick := S (tick w) |>)).
    { destruct (moves_refl s w Hs) as [Hid Hd Hr [] Hp Hdp]. by split. }
    case_bool_decide as E3; [|case_bool_decide as E4].
    + destruct (esim_setup_completed_at s) as [t|] eqn:Ec; [|erewrite bind_step by done];
        apply Hq; [by apply moves_refl|apply id_setup|done|].
      intros t. split_and!; try done. intros Hc Hk. rewrite Ec in Hc.
      split; [by destruct t|simpl; congruence|done].
    + destruct (esim_setup_skipped_at s) as [t|] eqn:Ec; [|erewrite bind_step by done];
        apply Hq; [by apply moves_refl|apply id_setup|done|].
      intros t. split_and!; try done. intros Hc Hk. rewrite Ec in Hk.
      split; [by destruct t|done|simpl; congruence].
    + apply Hq; [by apply moves_refl|apply id_setup].
Qed.

Lemma side_effects_run s ty step e w :
  esim_stored s w →
  ∃ s' w', _apply_client_side_effects s ty step e w = (Ok s', w') ∧
    moves s s' (client_published s ty) w w' ∧ setup_step s s' ∧
    esim_status s' = client_target ty (esim_status s).
Proof.
  intros Hs. destruct (client_effect_run s ty e w Hs) as (s1 & g & w1 & H1 & Hm1 & Hst1 & Htgt & Hg).
  set (f := λ t, (default id g) ((default id (resume_update step)) t)).
  assert (Hf : setup_update s1 f) by by apply compose_setup.
  assert (Hsave : ∃ s' w', save_esim s1 f e w1 = (Ok s', w') ∧
    moves s s' (client_published s ty) w w' ∧ setup_step s s' ∧
    esim_status s' = client_target ty (esim_status s)).
  { destruct (save_esim_moves s1 f e w1) as (w2 & H2 & Hm2); [apply Hm1|apply Hf|].
    eexists _, w2. split; [exact H2|]. split_and!.
    - rewrite <- (app_nil_r (client_published s ty)). by eapply moves_trans.
    - apply (setup_step_trans s s1); [done|]. apply (setup_step_trans s1 (f s1)); [|apply setup_updated].
      by apply Hf.
    - simpl. destruct (Hf s1) as (_ & -> & _). done. }
  unfold _apply_client_side_effects. cbv zeta.
  destruct Hsave as (s' & w' & H2 & Hrest).
  destruct (resume_update step) as [r|] eqn:Er, g as [g'|];
    try (exists s', w'; split; [erewrite bind_step by exact H1; exact H2|exact Hrest]).
  exists s1, w1. split; [by erewrite bind_step by exact H1|]. done.
Qed.

Lemma moves_atomic s s' evs w w1 :
  moves s s' evs (enter w) w1 → moves s s' evs w (w1 <| depth := depth w |>).
Proof. intros [Hid Hd Hr [] Hp Hdp]. by split. Qed.

Lemma event_by_key_Some s key id v d :
  lifecycle_events d !! id = Some v → lev_esim v = esim_id s → lev_idempotency_key v = key →
  ∃ v', event_by_key (esim_id s) key d = Some v'.
Proof.
  intros Hv He Hk. destruct (event_by_key _ _ d) as [v'|] eqn:E; [eauto|].
  unfold event_by_key in E. rewrite qfirst_None in E. specialize (E id v Hv).
  by rewrite He, Hk, N.eqb_refl, bool_decide_true in E.
Qed.

Lemma create_event_moves s ty src key e w :
  esim_stored s w → event_by_key (esim_id s) key (db w) = None →
  ∃ v w', create_event s ty src key e w = (Ok v, w') ∧ moves s s [] w w' ∧
    lifecycle_events (db w') !! lev_id v = Some v ∧ lev_esim v = esim_id s ∧
    lev_idempotency_key v = key.
Proof.
  intros [Ha Hr Hv Hf] Hkey. eexists _, _. split; [apply create_event_run; [done|apply Hf; lia|done]|].
  split_and!; try done; [|apply lookup_insert_eq].
  split; simpl; try done.
  - rewrite (insert_id (esims (db w))) by done. by destruct (db w).
  - apply insert_subseteq, Hf. lia.
  - split; simpl; [done..|]. intros k Hk. rewrite lookup_insert_ne by lia. apply Hf. lia.
  - by rewrite app_nil_r.
Qed.

(** A type outside the allowlist is refused before anything is read. *)
Lemma unknown_event_refused s ty key step e w :
  ty ∉ CLIENT_EVENT_ALLOWLIST →
  record_client_event s ty key step e w = (Raise (UnknownLifecycleEventTypeError ty), w).
Proof. intros H. unfold record_client_event, raise_if. by rewrite bool_decide_false. Qed.

(** A client event moves an eSIM along the install funnel only: on a row
    that is current, an allowed event under a new key is recorded, takes the
    status from purchased to started to installed as the event says and from no
    other status anywhere, touches no column but the setup ones, never rewrites
    a setup timestamp, and publishes the installation event exactly when it
    reports one; any later event under the same key changes nothing. *)
Theorem client_event_outcome s ty key step e w :
  esim_stored s w → ty ∈ CLIENT_EVENT_ALLOWLIST → event_by_key (esim_id s) key (db w) = None →
  ∃ v s' w', record_client_event s ty key step e w = (Ok (v, true, s'), w') ∧
    moves s s' (client_published s ty) w w' ∧ setup_step s s' ∧
    esim_status s' = client_target ty (esim_status s) ∧
    lifecycle_events (db w') !! lev_id v = Some v ∧ lev_idempotency_key v = key ∧
    ∀ s2 ty2 step2 e2 w2, esim_id s2 = esim_id s → ty2 ∈ CLIENT_EVENT_ALLOWLIST →
      aborted w2 = false → lifecycle_events (db w') ⊆ lifecycle_events (db w2) →
      ∃ v2, record_client_event s2 ty2 key step2 e2 w2 = (Ok (v2, false, s2), w2) ∧
        lev_idempotency_key v2 = key.
Proof.
  intros Hs Hty Hkey.
  destruct (create_event_moves s ty SOURCE_CLIENT key e (enter w))
    as (v & w1 & H1 & Hm1 & Hv & Hve & Hvk); [by destruct Hs|done|].
  destruct (side_effects_run s ty step e w1) as (s' & w2 & H2 & Hm2 & Hst & Htgt); [apply Hm1|].
  pose proof (moves_atomic _ _ _ _ _ (moves_trans _ _ _ _ _ _ _ _ Hm1 Hm2)) as Hm.
  assert (Hin : lifecycle_events (db w2) !! lev_id v = Some v).
  { eapply lookup_weaken; [exact Hv|apply Hm2]. }
  exists v, s', (w2 <| depth := depth w |>). split_and!; try done.
  - unfold record_client_event. rewrite bool_decide_true by done.
    erewrite bind_step by done. erewrite bind_step by (by apply query_run, Hs). rewrite Hkey.
    apply atomic_run; [|apply Hm2]. erewrite bind_step by exact H1. by erewrite bind_step by exact H2.
  - intros s2 ty2 step2 e2 w3 Hid Hty2 Ha2 Hsub.
    destruct (event_by_key_Some s2 key (lev_id v) v (db w3)) as [v2 Hv2];
      [eapply lookup_weaken; [exact Hin|exact Hsub]|congruence|exact Hvk|].
    exists v2. split.
    + unfold record_client_event. rewrite bool_decide_true by done. erewrite bind_step by done.
      erewrite bind_step by (by apply query_run). by rewrite Hv2.
    + unfold event_by_key in Hv2. apply qfirst_Some in Hv2 as (k & _ & Hp). by bool_to_prop.
Qed.

(** *** Provider usage *)

(** The events a provider report publishes, [t] being the time of day. *)
Definition usage_published (s : Esim) (target : EsimStatus) (t : instant) : list Event :=
  (if activates (esim_status s) && bool_decide (target ∈ [ACTIVATED; IN_USE])
   then [EsimActivated (esim_id s) (esim_iccid s) (esim_user s) (t - esim_created_at s)] else []) ++
  (if bool_decide (target = IN_USE) && first_usage (esim_status s)
   then [EsimFirstUsageDetected (esim_id s) (esim_iccid s) (esim_user s)] else []).

Lemma moves_publish s s' evs w w1 ev :
  moves s s' evs w w1 → moves s s' (evs ++ [ev]) w (w1 <| events := events w1 ++ [ev] |>).
Proof. intros [Hid Hd Hr [] Hp Hdp]. split; try done; [by rewrite app_assoc; simpl; rewrite Hp]. Qed.

Lemma moves_tick s s' evs w w1 n : moves s s' evs w w1 → moves s s' evs w (w1 <| tick := n |>).
Proof. intros [Hid Hd Hr [] Hp Hdp]. by split. Qed.

(** What the provider reports is what the row says: on a current row, a
    usage report with a known status overwrites the status with the one it maps
    to and changes nothing else, publishing the activation and first-usage
    events exactly on the transitions the code names; an unknown status changes
    nothing; and reporting the same usage again changes nothing. *)
Theorem provider_usage_outcome s usage e w :
  esim_stored s w →
  match _PROVIDER_USAGE_STATUS (upper (strip (ud_status usage))) with
  | None => apply_provider_usage s usage e w = (Ok s, w)
  | Some target =>
      ∃ s' w', apply_provider_usage s usage e w = (Ok s', w') ∧
        s' = s <| esim_status := target |> <| esim_updated_at := esim_updated_at s' |> ∧
        moves s s' (if bool_decide (esim_status s = target) then []
                    else usage_published s target (clock e (S (tick w)))) w w' ∧
        ∀ e2 w2, apply_provider_usage s' usage e2 w2 = (Ok s', w2)
  end.
Proof.
  intros Hs. unfold apply_provider_usage at 1 3. destruct (_PROVIDER_USAGE_STATUS _) as [target|] eqn:Et; [|done].
  assert (Hagain : ∀ s' e2 w2, esim_status s' = target → apply_provider_usage s' usage e2 w2 = (Ok s', w2)).
  { intros s' e2 w2 Hst. unfold apply_provider_usage. rewrite Et. by rewrite bool_decide_true. }
  case_bool_decide as E.
  { exists s, w. split_and!; [done|rewrite <- E; by destruct s|by apply moves_refl|intros; by apply Hagain]. }
  destruct (set_status_run s target e w Hs) as (w1 & H1 & Hm1 & _ & Ht1).
  set (s1 := s <| esim_status := target |> <| esim_updated_at := clock e (tick w) |>) in *.
  unfold _overwrite_provider_status. erewrite bind_step by exact H1.
  assert (Hu : ∃ w2, (if bool_decide (upper (strip (ud_status usage)) = "UNKNOWN")
         then _record_provider_event s1 "provider.usage_unknown"
                (stamped_key "provider.usage_unknown" s1)
         else ret tt) e w1 = (Ok tt, w2) ∧ moves s s1 [] w w2 ∧ tick w2 = S (tick w)).
  { case_bool_decide.
    - destruct (record_event_run s1 "provider.usage_unknown" SOURCE_PROVIDER
        (stamped_key "provider.usage_unknown" s1) e w1 (mv_stored _ _ _ _ _ Hm1)) as (w2 & H2 & Hrec & Hs2).
      exists w2. split_and!; [done| |by destruct Hrec as (_&_&_&_&_&->)].
      eapply (moves_trans s s1 s1 [] []); [exact Hm1|]. by eapply records_moves; [apply Hm1|..].
    - by exists w1. }
  destruct Hu as (w2 & H2 & Hm2 & Ht2). erewrite bind_step by exact H2.
  destruct (mv_stored _ _ _ _ _ Hm2) as [Ha2 Hr2 _ _].
  erewrite bind_step by (by apply get_run). cbv zeta.
  replace (s1 <| esim_status := esim_status s1 |> <| esim_updated_at := esim_updated_at s1 |>
    <| esim_created_at := esim_created_at s1 |>) with s1 by (by destruct s).
  exists s1. unfold usage_published. change (esim_status s1) with target.
  destruct (activates (esim_status s) && _); [erewrite bind_step by (by erewrite bind_step by done)
    |erewrite bind_step by done];
  destruct (bool_decide (target = IN_USE) && _);
  (eexists; split; [by erewrite bind_step by done|]);
  (split; [done|]); (split; [|intros; by apply Hagain]); rewrite ?app_nil_r, <- ?Ht2.
  - by apply (moves_publish _ _ [_]), (moves_publish _ _ []), moves_tick.
  - by apply (moves_publish _ _ []), moves_tick.
  - by apply (moves_publish _ _ []).
  - done.
Qed.

(** ** Concrete runs *)

Definition sample_esim : Esim :=
  mkEsim 5 1 7 None 3 "8910" "" no_install PURCHASED POLICY_UNKNOWN "op" "" None None None no_usage 0 0.
Definition esim_db : Db := empty_db <| esims := {[ 5%N := sample_esim ]} |>.
Definition esim_world : World := world_of esim_db.
Definition usage_of (status : string) : UsageDTO := mkUsageDTO 100 500 None None status.

Lemma sample_esim_stored : esim_stored sample_esim esim_world.
Proof. by split. Qed.

Lemma client_event_outcome_witness :
  ∃ v s' w', record_client_event sample_esim "install.completed" "k" (Some 2) sample_env esim_world
    = (Ok (v, true, s'), w') ∧ esim_status s' = INSTALLED ∧
    events w' = [EsimInstalled 5 "8910" 7].
Proof.
  destruct (client_event_outcome sample_esim "install.completed" "k" (Some 2) sample_env esim_world)
    as (v & s' & w' & H & Hm & _ & Hst & _).
  - exact sample_esim_stored.
  - apply (bool_decide_unpack _). vm_compute. exact I.
  - vm_compute. reflexivity.
  - exists v, s', w'. split; [exact H|]. split; [exact Hst|]. exact (mv_published _ _ _ _ _ Hm).
Defined.

Lemma provider_usage_outcome_witness :
  ∃ s' w', apply_provider_usage sample_esim (usage_of " active ") sample_env esim_world = (Ok s', w') ∧
    esim_status s' = IN_USE ∧
    events w' = [EsimActivated 5 "8910" 7 1; EsimFirstUsageDetected 5 "8910" 7].
Proof.
  destruct (provider_usage_outcome sample_esim (usage_of " active ") sample_env esim_world
    sample_esim_stored) as (s' & w' & H & Hs & Hm & _).
  exists s', w'. split; [exact H|]. split; [rewrite Hs; reflexivity|]. exact (mv_published _ _ _ _ _ Hm).
Defined.

(** The provider's ACTIVE, NOT_ACTIVE, ACTIVE publishes [EsimActivated] twice. *)
Definition usage_runs : M Esim :=
  let! s := apply_provider_usage sample_esim (usage_of "ACTIVE") in
  let! s := apply_provider_usage s (usage_of "NOT_ACTIVE") in
  apply_provider_usage s (usage_of "ACTIVE").

Lemma activation_event_repeats :
  length (List.filter (λ ev, match ev with EsimActivated _ _ _ _ => true | _ => false end)
    (events (usage_runs sample_env esim_world).2)) = 2%nat.
Proof. vm_compute. reflexivity. Qed.

(** A client event decided on a row read before the provider's report moves an
    eSIM in use back to installed. *)
Definition stale_run : M (EsimStatus * EsimStatus) :=
  let! s := apply_provider_usage sample_esim (usage_of "ACTIVE") in
  let! r := record_client_event sample_esim "install.completed" "k" None in
  let! row := get esims 5%N in
  ret (esim_status s, esim_status row).

Lemma stale_client_event_regresses :
  (stale_run sample_env esim_world).1 = Ok (IN_USE, INSTALLED).
Proof. vm_compute. reflexivity. Qed.
