(* ===== verification/Orders.v ===== *)
(** * Orders: product snapshots and prepaid fulfillment

    [apps/orders/product_snapshot.py] and
    [apps/orders/services/order_service.py].  The eSIM provider is the
    interface [OrderProvider]. *)

From S2P Require Import Prelude Strings Tables Money Models JsonValues EsimModels World Effects.
From S2P Require Import Credit Margin Grants Pricing Spend Lifecycle.
#[local] Open Scope Z_scope.

(** ** Product snapshots *)

(** [sorted(...)] of texts compares code points. *)
Definition str_le (s t : string) : Prop := String.leb s t = true.
#[export] Instance str_le_dec : RelDecision str_le.
Proof. intros s t. unfold str_le. apply _. Defined.
(** [sort(key=str.casefold)], on ASCII. *)
Definition fold_le (s t : string) : Prop := str_le (lower s) (lower t).
#[export] Instance fold_le_dec : RelDecision fold_le.
Proof. intros s t. unfold fold_le. apply _. Defined.

(** [_COUNTRY_CODE_RE.fullmatch(code)] *)
Definition is_upper (c : ascii) : bool :=
  let n := N_of_ascii c in ((65 <=? n) && (n <=? 90))%N.
Definition is_country_code (s : string) : bool :=
  match s with String a (String b EmptyString) => is_upper a && is_upper b | _ => false end.

(** One round of the deduplicating loops: [seen] are the casefolded names. *)
Fixpoint dedupe (seen : list string) (names : list string) : list string :=
  match names with
  | [] => []
  | name :: names =>
      let fold := lower name in
      if bool_decide (fold ∈ seen) then dedupe seen names
      else name :: dedupe (fold :: seen) names
  end.

Section Coverage.
Context (str_json : Json → string).

(** [str(value or "")] *)
Definition text_or_blank (j : option Json) : string :=
  match j with Some j => if truthy j then text_of str_json j else "" | None => "" end.

(** [entry.get(k)], or [entry.get(k')] when that is [None]. *)
Definition get_or (k k' : string) (fields : list (string * Json)) : option Json :=
  match jget k fields with
  | Some JNull | None => match jget k' fields with Some JNull => None | j => j end
  | j => j
  end.

(** The name of one network, if the loop keeps it. *)
Definition network_name (net : Json) : option string :=
  let name := match net with
              | JObj fields => Some (strip (text_or_blank (jget "name" fields)))
              | JStr s => Some (strip s)
              | _ => None
              end in
  match name with Some "" => None | n => n end.

Definition _normalize_operators (networks : option Json) : list string :=
  match networks with
  | Some (JArr nets) => merge_sort fold_le (dedupe [] (omap network_name nets))
  | _ => []
  end.

Definition _merge_operators (left right : list string) : list string :=
  merge_sort fold_le (dedupe [] (left ++ right)).

(** One round of the loop over the entries. *)
Definition add_entry (by_code : gmap string CountryCoverage) (entry : Json)
    : gmap string CountryCoverage :=
  match entry with
  | JObj fields =>
      let code := upper (strip (text_or_blank (get_or "code" "country_code" fields))) in
      if negb (is_country_code code) then by_code
      else
        let country_name :=
          match get_or "name" "country_name" fields with
          | None => None
          | Some name => or_none (strip (text_of str_json name))
          end in
        let operators := _normalize_operators (jget "networks" fields) in
        match by_code !! code with
        | Some existing =>
            let name := match cc_country_name existing with None => country_name | n => n end in
            <[code := mkCountry (cc_country_code existing) name
                        (_merge_operators (cc_operators existing) operators)]> by_code
        | None => <[code := mkCountry code country_name operators]> by_code
        end
  | _ => by_code
  end.

Definition normalize_coverage_snapshot (raw : Json) : list CountryCoverage :=
  match raw with
  | JArr entries =>
      let by_code := foldl add_entry ∅ entries in
      omap (λ code, by_code !! code) (merge_sort str_le (map_to_list by_code).*1)
  | _ => []
  end.

(** [LEDGER_CURRENCY] *)
Definition LEDGER_CURRENCY : string := "USD".

(** The snapshot fields, the location already fetched. *)
Definition snapshot_of (package : Package) (location : option Location) : ProductSnapshot :=
  mkProduct (pkg_external_id package) (pkg_title package) (pkg_operator_title package)
    (match location with Some l => loc_title l | None => "" end)
    (match location with
     | Some l => if bool_decide (pkg_country_code package = "") then loc_country_code l
                 else pkg_country_code package
     | None => pkg_country_code package end)
    (loc_coverage_type <$> location)
    (Some (match location with
           | Some l => normalize_coverage_snapshot (loc_coverages l) | None => [] end))
    (pkg_data_allowance package) (Some (pkg_validity_days package)) LEDGER_CURRENCY.

(** [package.location] *)
Definition package_location (package : Package) : M (option Location) :=
  match pkg_location package with
  | Some k => let! l := get locations k in ret (Some l)
  | None => ret None
  end.

(** [product_snapshot_kwargs]; its price entries are the package's own. *)
Definition product_snapshot_kwargs (package : Package) : M ProductSnapshot :=
  let! location := package_location package in
  ret (snapshot_of package location).

(** ** The order table *)

Definition order_row (o : Order) : Order :=
  o <| ord_retail_price_usd := price_column (ord_retail_price_usd o) |>
    <| ord_list_price_usd := price_column (ord_list_price_usd o) |>
    <| ord_net_price_usd := price_column (ord_net_price_usd o) |>.

Definition order_verdict (d : Db) (o : Order) : option Exn :=
  if negb (fits_price_opt (ord_retail_price_usd o) && fits_price_opt (ord_list_price_usd o) &&
           fits_price_opt (ord_net_price_usd o)) then Some DataError
  else if match ord_idempotency_key o with
          | Some k => qexists (λ p, bool_decide (ord_idempotency_key p = Some k) &&
                                    negb (ord_id p =? ord_id o)%N) (orders d)
          | None => false end
  then Some IntegrityError else None.

(** [order.<fields> = ...; order.save(update_fields=...)] *)
Definition save_order (o : Order) (f : Order → Order) : M Order :=
  save_fields orders order_verdict (ord_id o) f;;;
  ret (f o).

Definition order_by_key (key : string) (d : Db) : option Order :=
  qfirst (λ o, bool_decide (ord_idempotency_key o = Some key)) (orders d).

(** *** Backfill *)

(** The snapshot of an order's package; any failure skips the order. *)
Definition backfill_fields (package : Package) : M (option ProductSnapshot) :=
  try_except (let! product := product_snapshot_kwargs package in ret (Some product))
    (λ _, Some (ret None)).

(** One order of the loop; the coverage of a legacy row is never rebuilt. *)
Definition backfill_order (updated : nat) (o : Order) : M nat :=
  let! package := query (λ d, packages d !! ord_package o) in
  match package with
  | None => ret updated
  | Some package =>
      let! fields := backfill_fields package in
      match fields with
      | None => ret updated
      | Some product =>
          let kept := prd_coverage_snapshot (ord_product o) in
          let f := λ o, order_row ((o <| ord_product := (product <| prd_coverage_snapshot := kept |>) |>
                         <| ord_retail_price_usd := Some (pkg_price_usd package) |>)
                         <| ord_net_price_usd := pkg_net_price_usd package |>) in
          let! _ := save_order o f in
          ret (S updated)
      end
  end.

Definition backfill_order_product_snapshots : M nat :=
  let! qs := query (λ d, List.filter (λ o, bool_decide (ord_retail_price_usd o = None))
                           (rows_by_pk (orders d))) in
  fold_each qs 0%nat backfill_order.

(** ** OrderService *)

Section Service.
Context (sha256 : string → string).
Context {provider : OrderProvider}.

Definition order_debit_key (id : pk) : string := "order-debit:" +:+ str id.
Definition order_refund_key (id : pk) : string := "order-refund:" +:+ str id.

(** A stored order under a used key: in progress, or replayed. *)
Definition replay_order (o : Order) : M (Order * option CreditLedgerEntry * bool) :=
  raise_if (bool_decide (ord_status o = ORD_FULFILLING)) SpendInProgressError;;;
  ret (o, None, true).

(** [Order.objects.create(...)], the price resolved once. *)
Definition create_order_row (account : pk) (package : Package) (customer_ref : string)
    (idempotency_key : option string) : M Order :=
  let! charge := resolve_package_charge sha256 account package in
  let! product := product_snapshot_kwargs package in
  let '(list_price, retail_price, pricing) :=
    match charge.2 with
    | Some kw => (kw_list_price_usd kw, kw_charged kw, kw_pricing kw)
    | None => (pkg_price_usd package, pkg_price_usd package, no_pricing)
    end in
  let! id := uuid4 in
  let! created_at := now in
  let o := mkOrder id account (pkg_id package) ORD_FULFILLING "" customer_ref idempotency_key product
    (Some retail_price) (Some list_price) (pkg_net_price_usd package) pricing created_at in
  create orders order_verdict id (order_row o);;;
  ret o.

(** [text or None] *)
Definition nonempty (s : option string) : option string :=
  match s with Some "" => None | s => s end.

(** The rest of the block: the reference and the debit. *)
Definition charge_order (account : pk) (skip_payment : bool) (o : Order)
    : M (Order * option CreditLedgerEntry * bool) :=
  let! o := if bool_decide (ord_customer_ref o = "")
            then save_order o (λ o, o <| ord_customer_ref := "rk-" +:+ str (ord_id o) |>)
            else ret o in
  if skip_payment then ret (o, None, false)
  else
    let! enabled := asks BILLING_ENABLED in
    raise_if (negb enabled) BillingDisabledError;;;
    match ord_retail_price_usd o with
    | None => raise (RuntimeError "Order missing retail_price_usd before debit")
    | Some amount =>
        let! entry := debit account (AMoney amount) (RefEnum ORDER) (str (ord_id o))
                        (order_debit_key (ord_id o)) in
        ret (o, Some entry, false)
    end.

(** [_reserve_and_debit]: the order, its debit, and whether it is a replay. *)
Definition _reserve_and_debit (account : pk) (package : Package) (customer_ref : option string)
    (skip_payment : bool) (idempotency_key : option string)
    : M (Order * option CreditLedgerEntry * bool) :=
  atomic (
    let! existing := match nonempty idempotency_key with
                     | Some key => locked_query (order_by_key key)
                     | None => ret None
                     end in
    match existing with
    | Some o => replay_order o
    | None =>
        let! created :=
          try_except
            (let! o := create_order_row account package (default "" customer_ref)
                         (nonempty idempotency_key) in
             ret (inl o))
            (on_integrity_error (
              let! existing := query (λ d, match idempotency_key with
                                           | Some key => order_by_key key d | None =>
                                               qfirst (λ o, bool_decide (ord_idempotency_key o = None)) (orders d)
                                           end) in
              match existing with
              | None => raise IntegrityError
              | Some o => let! r := replay_order o in ret (inr r)
              end)) in
        match created with
        | inl o => charge_order account skip_payment o
        | inr r => ret r
        end
    end).

Definition refund_events (account : pk) (amount : money) (t : LedgerReferenceType) (reference : pk)
    (entry : CreditLedgerEntry) : list Event :=
  [CreditGranted account amount (le_balance_after entry) REFUND (str reference) (le_id entry)
     (le_created_at entry);
   FulfillmentRefunded account amount (le_balance_after entry) t (str reference) (le_id entry)
     (le_created_at entry)].

(** [_compensate_failed] *)
Definition _compensate_failed (order : Order) (account : pk) (skip_payment : bool) : M unit :=
  let! events := atomic (
    let! locked := get_locked orders (ord_id order) in
    if bool_decide (ord_status locked = ORD_FAILED) then ret []
    else
      let! locked := save_order locked (λ o, o <| ord_status := ORD_FAILED |>) in
      if skip_payment then ret []
      else
        match ord_retail_price_usd locked with
        | None => raise (RuntimeError "Order missing retail_price_usd for refund")
        | Some amount =>
            let! entry := credit account (AMoney amount) (RefEnum REFUND) (str (ord_id locked))
                            (order_refund_key (ord_id locked)) in
            ret (refund_events account amount ORDER (ord_id locked) entry)
        end) in
  for_each events publish.

(** The eSIMs of the provider's result, one by one. *)
Definition purchase_sims (order : Order) (package : Package) (result : OrderResult) (actor : pk)
    : M (list Esim) :=
  let policy := if bool_decide (pkg_activation_policy package = "") then "unknown"
                else pkg_activation_policy package in
  fold_each (or_sims result) [] (λ esims sim,
    let! esim := create_purchased actor (ord_account order) order package sim
      (or_manual_installation result) (or_qrcode_installation result)
      (or_installation_guide_url result) policy in
    ret (esims ++ [esim])).

(** [_persist_fulfillment]: the order left behind and its eSIMs. *)
Definition _persist_fulfillment (order : Order) (package : Package) (result : OrderResult)
    (actor : pk) : M (Order * list Esim) :=
  atomic (
    let! order := save_order order (λ o, o <| ord_external_order_id := or_external_order_id result |>
                                           <| ord_status := ORD_FULFILLED |>) in
    let! esims := purchase_sims order package result actor in
    let! source_id := build_source_id SRC_ORDER (ord_id order) None in
    let! _ := accrue SRC_ORDER source_id (ord_list_price_usd order) (ord_net_price_usd order)
                (Some actor) in
    ret (order, esims)).

(** [_publish_created_events] *)
Definition _publish_created_events (order : Order) (user : pk) (esims : list Esim) : M unit :=
  for_each esims (λ s, publish (AiraloOrderCreated (ord_id order) (esim_iccid s) user)).

Definition debited_event (account : pk) (amount : money) (t : LedgerReferenceType) (reference : pk)
    (entry : CreditLedgerEntry) : Event :=
  CreditDebited account amount (le_balance_after entry) t (str reference) (le_id entry)
    (le_created_at entry).

(** What follows a reservation that is not a replay. *)
Definition complete_order (user account : pk) (package : Package) (skip_payment : bool)
    (order : Order) (debit_entry : option CreditLedgerEntry) : M Order :=
  match ord_retail_price_usd order with
  | None => raise (RuntimeError "Order missing retail_price_usd snapshot after reserve")
  | Some amount =>
      (match debit_entry with
       | Some entry => publish (debited_event account amount ORDER (ord_id order) entry)
       | None => ret tt end);;;
      let! result := try_except (create_order (pkg_external_id package) (ord_customer_ref order))
        (λ x, Some (_compensate_failed order account skip_payment;;; raise x)) in
      let! persisted := _persist_fulfillment order package result user in
      _publish_created_events persisted.1 user persisted.2;;;
      ret persisted.1
  end.

(** [OrderService.fulfill] *)
Definition fulfill (user : pk) (package : Package) (customer_ref : option string)
    (skip_payment : bool) (idempotency_key : option string) (account : option pk) : M Order :=
  let! account := match account with
                  | Some a => ret a
                  | None => let! a := ensure_billing_account user in ret (acc_id a)
                  end in
  raise_if (negb skip_payment && bool_decide (nonempty idempotency_key = None))
    IdempotencyKeyRequiredError;;;
  let! reserved := _reserve_and_debit account package customer_ref skip_payment idempotency_key in
  let '(order, debit_entry, replay) := reserved in
  if replay then ret order
  else complete_order user account package skip_payment order debit_entry.
End Service.
End Coverage.

(** ** Coverage

    What is stored as an order's coverage is well formed whatever JSON the
    catalog held. *)

(** Texts that a device can show: trimmed and not empty. *)
Definition shown (s : string) : Prop := s ≠ "" ∧ strip s = s.

Record operators_ok (names : list string) : Prop := {
  op_sorted : Sorted fold_le names;
  op_distinct : NoDup (lower <$> names);
  op_shown : Forall shown names;
}.

Record country_ok (c : CountryCoverage) : Prop := {
  co_code : is_country_code (cc_country_code c) = true;
  co_name : ∀ name, cc_country_name c = Some name → shown name;
  co_operators : operators_ok (cc_operators c);
}.

(** [sorted] and the countries keyed by distinct codes. *)
Record coverage_ok (cs : list CountryCoverage) : Prop := {
  cv_sorted : Sorted str_le (cc_country_code <$> cs);
  cv_distinct : NoDup (cc_country_code <$> cs);
  cv_countries : Forall country_ok cs;
}.

#[export] Instance str_le_total : Total str_le.
Proof. intros s t. unfold str_le. destruct (String.leb_total s t) as [H|H]; auto. Qed.
#[export] Instance fold_le_total : Total fold_le.
Proof. intros s t. unfold fold_le. apply str_le_total. Qed.

Lemma dedupe_In seen names name :
  name ∈ dedupe seen names → name ∈ names ∧ lower name ∉ seen.
Proof.
  revert seen. induction names as [|n names IH]; intros seen; simpl; [by intros ?%not_elem_of_nil|].
  case_bool_decide as Hs.
  - intros Hin. apply IH in Hin as [? ?]. split; [by right|done].
  - intros [->|Hin]%elem_of_cons; [split; [by left|done]|].
    apply IH in Hin as [? Hn]. split; [by right|]. intros ?. apply Hn. by right.
Qed.

Lemma dedupe_NoDup seen names : NoDup (lower <$> dedupe seen names).
Proof.
  revert seen. induction names as [|n names IH]; intros seen; simpl; [constructor|].
  case_bool_decide; [apply IH|]. simpl. constructor; [|apply IH].
  intros (m & Hm & Hin)%list_elem_of_fmap. apply dedupe_In in Hin as [_ Hin]. set_solver.
Qed.

Lemma operators_sorted names :
  NoDup (lower <$> names) → Forall shown names → operators_ok (merge_sort fold_le names).
Proof.
  intros Hd Hs. pose proof (merge_sort_Permutation fold_le names) as Hp. split.
  - apply Sorted_merge_sort, _.
  - by rewrite Hp.
  - by rewrite Hp.
Qed.

Lemma dedupe_shown seen names : Forall shown names → Forall shown (dedupe seen names).
Proof. rewrite !Forall_forall. intros H name [Hin _]%dedupe_In. auto. Qed.

Lemma stripped_shown s : strip s ≠ "" → shown (strip s).
Proof. intros Hs. split; [done|apply strip_idem]. Qed.

Section CoverageProofs.
Context (str_json : Json → string).

Lemma network_name_shown net name : network_name str_json net = Some name → shown name.
Proof.
  assert (Hs : ∀ s, (match Some (strip s) with Some "" => None | _ => Some (strip s) end) = Some name
    → shown name).
  { intros s. pose proof (stripped_shown s). by destruct (strip s); intros; simplify_eq; auto. }
  unfold network_name. intros H. destruct net; try done; eapply Hs, H.
Qed.

Lemma normalize_operators_ok networks : operators_ok (_normalize_operators str_json networks).
Proof.
  assert (operators_ok []) by (split; constructor).
  destruct networks as [[]|]; try done. apply operators_sorted; [apply dedupe_NoDup|].
  apply dedupe_shown, Forall_forall. intros name (net & _ & Hn)%list_elem_of_omap.
  by eapply network_name_shown.
Qed.

Lemma merge_operators_ok l r :
  operators_ok l → operators_ok r → operators_ok (_merge_operators l r).
Proof.
  intros [_ _ Hl] [_ _ Hr]. apply operators_sorted; [apply dedupe_NoDup|].
  by apply dedupe_shown, Forall_app.
Qed.

(** What the loop keeps: each country under its own code, well formed. *)
Definition coverage_inv (m : gmap string CountryCoverage) : Prop :=
  ∀ code c, m !! code = Some c → cc_country_code c = code ∧ country_ok c.

Lemma add_entry_inv m entry : coverage_inv m → coverage_inv (add_entry str_json m entry).
Proof.
  intros Hm. destruct entry as [| | | | |fields]; try done. simpl.
  set (code := upper _). destruct (is_country_code code) eqn:Hcode; [simpl|done].
  set (name := match get_or "name" "country_name" fields with None => _ | Some n => _ end).
  assert (Hname : ∀ n, name = Some n → shown n).
  { intros n. subst name. destruct (get_or "name" "country_name" fields); [|done]. unfold or_none.
    case_bool_decide; [done|]. intros [= <-]. by apply stripped_shown. }
  intros code' c. destruct (m !! code) as [old|] eqn:Hold.
  all: intros [[<- <-]|[_ Hc]]%lookup_insert_Some; [|by apply Hm].
  - destruct (Hm _ _ Hold) as [Hoc [Hco Hon Hoo]]. simpl. split; [done|].
    split; simpl; [done| |by apply merge_operators_ok, normalize_operators_ok].
    intros n. destruct (cc_country_name old) eqn:E; [intros [= <-]; by apply Hon|apply Hname].
  - split; [done|]. split; simpl; [done..|apply normalize_operators_ok].
Qed.

Lemma add_entries_inv entries m :
  coverage_inv m → coverage_inv (foldl (add_entry str_json) m entries).
Proof.
  revert m. induction entries as [|entry entries IH]; intros m Hm; simpl; [done|].
  by apply IH, add_entry_inv.
Qed.

(** The countries of a loop's result, read in the order of [codes]. *)
Lemma omap_codes m (codes : list string) :
  coverage_inv m → (∀ code, code ∈ codes → is_Some (m !! code)) →
  cc_country_code <$> omap (λ code, m !! code) codes = codes.
Proof.
  intros Hm. induction codes as [|code codes IH]; intros Hc; simpl; [done|].
  destruct (Hc code) as [c Hlook]; [by left|]. rewrite Hlook. simpl.
  destruct (Hm _ _ Hlook) as [-> _]. f_equal. apply IH. intros. apply Hc. by right.
Qed.

(** C21: Whatever JSON the catalog holds, the coverage snapshot of an order is
    well typed for devices: countries in strict order of two-letter upper-case
    codes, names absent or trimmed and non-empty, operators sorted, non-empty,
    trimmed and pairwise different up to case. *)
Theorem coverage_normalized raw : coverage_ok (normalize_coverage_snapshot str_json raw).
Proof.
  destruct raw as [| | | |entries|]; try by split; constructor. simpl.
  set (m := foldl _ _ _). assert (Hm : coverage_inv m) by by apply add_entries_inv.
  set (codes := merge_sort _ _).
  assert (Hp : codes ≡ₚ (map_to_list m).*1) by apply merge_sort_Permutation.
  assert (Hcodes : cc_country_code <$> omap (λ code, m !! code) codes = codes).
  { apply omap_codes; [done|]. intros code. rewrite Hp.
    intros ([k c] & -> & Hin%elem_of_map_to_list)%list_elem_of_fmap. by exists c. }
  split.
  - rewrite Hcodes. apply Sorted_merge_sort, _.
  - rewrite Hcodes, Hp. apply NoDup_fst_map_to_list.
  - apply Forall_forall. intros c (code & _ & Hc)%list_elem_of_omap. by eapply Hm.
Qed.
End CoverageProofs.

(** ** The books of an order

    Orders are the spends of [Spend]: reserved under ["order-debit:"], and
    refunded under ["order-refund:"] when the provider fails. *)

Lemma order_keys_ne j k : order_debit_key j ≠ order_refund_key k.
Proof. unfold order_debit_key, order_refund_key. intros H. discriminate H. Qed.

#[export] Instance order_spend : Spend Order := {|
  sp_amount := ord_retail_price_usd;
  sp_account := ord_account;
  sp_failed o := bool_decide (ord_status o = ORD_FAILED);
  debit_key := order_debit_key;
  refund_key := order_refund_key;
  debit_refund_ne := order_keys_ne;
|}.

(** The invariant of the orders and the ledger. *)
Definition order_inv (d : Db) : Prop := ledger_inv d ∧ spend_inv (orders d) (ledger d).

Lemma margin_key_foreign t id : foreign_key (V := Order) (margin_key t id).
Proof. intros k. split; intros H; discriminate H. Qed.

(** An accrual adds at most one entry, under its own key. *)
Lemma accrued_tables t id lst net customer d d' r :
  accrued t id lst net customer d d' r →
  orders d' = orders d ∧ topups d' = topups d ∧ esims d' = esims d ∧ policies d' = policies d.
Proof.
  intros [->|a Hf ->|]; [done..|]. subst.
  match goal with H : applied _ _ _ _ _ _ _ _ |- _ => apply applied_only_money in H as -> end.
  done.
Qed.

Lemma accrued_foreign `{Spend V} t id lst net customer d d' r :
  (∀ t id, foreign_key (V := V) (margin_key t id)) →
  accrued t id lst net customer d d' r → foreign_ext (ledger d) (ledger d').
Proof.
  intros Hk [->|a Hf ->|]; [reflexivity..|]. subst. simpl. by eapply applied_foreign.
Qed.

Section ServiceProofs.
Context (str_json : Json → string) (sha256 : string → string) {provider : OrderProvider}.
Implicit Types (e : Env) (w : World) (o : Order).

(** ** The price of an order *)

Lemma resolve_cents ctx e w q w' :
  resolve sha256 ctx e w = (Ok q, w') → is_cents (q_customer_price q).
Proof.
  unfold resolve, quote_profile. intros H.
  inv_step H; try apply money_round_cents; by eexists.
Qed.

Lemma charge_cents ot account price net e w amount kw w' :
  resolve_charge sha256 ot account price net e w = (Ok (amount, kw), w') → is_cents price →
  is_cents (match kw with Some kw => kw_charged kw | None => price end).
Proof.
  unfold resolve_charge. intros H Hp. inv_step H; try done.
  all: by inv_call resolve_cents as ?.
Qed.

Lemma charge_reads ot account price net : respects eq (resolve_charge sha256 ot account price net).
Proof. unfold resolve_charge. pose proof resolve_reads. solve_respects. Qed.
#[local] Hint Resolve charge_reads : effects.

Lemma product_reads package : respects eq (product_snapshot_kwargs str_json package).
Proof. unfold product_snapshot_kwargs, package_location. solve_respects. Qed.
#[local] Hint Resolve product_reads : effects.

(** A stored order keeps its price when the price is in cents. *)
Definition priced o : Prop := ∃ p, ord_retail_price_usd o = Some p ∧ is_cents p.

Lemma order_row_price o : priced o → ord_retail_price_usd (order_row o) = ord_retail_price_usd o.
Proof. intros (p & Hp & Hc). simpl. rewrite Hp. simpl. by rewrite money_round_id. Qed.

(** *** Creating the row *)

(** A fresh order of [account], not settled yet. *)
Record fresh_order (account : pk) (package : Package) (key : option string) (d : Db) o : Prop := {
  fo_id : orders d !! ord_id o = None;
  fo_account : ord_account o = account;
  fo_package : ord_package o = pkg_id package;
  fo_key : ord_idempotency_key o = key;
  fo_status : ord_status o = ORD_FULFILLING;
  fo_price : priced o;
  fo_verdict : order_verdict d (order_row o) = None;
}.

Lemma create_order_row_Ok account package ref key e w o w' :
  create_order_row str_json sha256 account package ref key e w = (Ok o, w') →
  is_cents (pkg_price_usd package) →
  fresh_order account package key (db w) o ∧ db w' = put orders (ord_id o) (order_row o) (db w) ∧
  aborted w' = false.
Proof.
  unfold create_order_row. intros H Hc.
  apply bind_Ok in H as ([amount kw] & w1 & H1 & H).
  pose proof (charge_reads _ _ _ _ _ _ _ _ H1) as Hd1. pose proof (charge_cents _ _ _ _ _ _ _ _ _ H1 Hc) as Hp.
  apply bind_Ok in H as (product & w2 & H2 & H). pose proof (product_reads _ _ _ _ _ H2) as Hd2.
  destruct kw as [kw|]; simpl in Hp, H; inv_run H; rewrite Hd1, Hd2 in *.
  all: split_and!; [|done..]; split; try done; by eexists.
Qed.

Lemma create_order_row_refuses account package ref key :
  refuses (create_order_row str_json sha256 account package ref key).
Proof.
  unfold create_order_row. apply refuses_bind; [apply charge_reads|]. intros [amount kw].
  apply refuses_bind; [apply product_reads|]. intros product.
  destruct kw as [kw|]; simpl; solve_refuses.
Qed.

(** *** Reserving *)

(** What the reservation block leaves: the order, and its debit if it is
    paid. *)
Record reserved (account : pk) (package : Package) (key : option string) (skip : bool)
    o (de : option CreditLedgerEntry) (d d' : Db) : Prop := {
  rv_fresh : fresh_order account package key d o;
  rv_orders : orders d' = <[ord_id o := order_row o]> (orders d);
  rv_unpaid : skip = true → de = None ∧ books d' = books d;
  rv_paid : skip = false → ∃ en p, de = Some en ∧ ord_retail_price_usd o = Some p ∧ 0 < p < money_bound ∧
    le_account en = account ∧ le_delta en = - p ∧ le_idempotency_key en = order_debit_key (ord_id o) ∧
    ledger d' = ledger d ++ [en] ∧ (ledger_inv d → ledger_inv d');
}.

Lemma qfirst_key key d o :
  order_by_key key d = Some o → (∃ k, orders d !! k = Some o) ∧ ord_idempotency_key o = Some key.
Proof. intros (k & Hk & Ho)%qfirst_Some. bool_to_prop. eauto. Qed.

(** The order as it is about to be charged. *)
Definition order_created account package key d o w : Prop :=
  fresh_order account package key d o ∧ db w = put orders (ord_id o) (order_row o) d ∧
  aborted w = false.

Lemma set_ref_Ok account package key d f o e w o' w' :
  save_order o f e w = (Ok o', w') → order_created account package key d o w →
  (∀ o, f o = o <| ord_customer_ref := ord_customer_ref (f o) |>) →
  (∀ o, f (order_row o) = order_row (f o)) →
  order_created account package key d o' w'.
Proof.
  unfold save_order. intros H (Hf & Hd & Hw) Hfo Hrow. inv_run H. rewrite Hd in *. simpl in *.
  simplify_map_eq.
  assert (Hid : ord_id (f o) = ord_id o) by (by rewrite Hfo).
  split_and!; [..|done].
  - destruct Hf as [? ? ? ? ? Hp Hv]. split; rewrite ?Hid; try done; rewrite Hfo; simpl; try done.
  - rewrite Hid, Hrow. unfold put, update. simpl. f_equal. apply insert_insert_eq.
Qed.

Lemma charge_order_Ok account package key skip o e w d r w' :
  charge_order account skip o e w = (Ok r, w') → spend_inv (orders d) (ledger d) →
  order_created account package key d o w →
  ∃ o' de, r = (o', de, false) ∧ reserved account package key skip o' de d (db w') ∧
    aborted w' = false.
Proof.
  unfold charge_order. intros H Hi Hc.
  apply bind_Ok in H as (o' & w1 & Hsave & H).
  assert (Hc' : order_created account package key d o' w1).
  { case_bool_decide; [by eapply set_ref_Ok|by apply ret_Ok in Hsave as [-> ->]]. }
  clear Hsave Hc. destruct Hc' as (Hf & Hd & Hw).
  destruct skip.
  - apply ret_Ok in H as [-> ->]. exists o', None. split_and!; [done| |done].
    split; [done|by rewrite Hd|by rewrite Hd|done].
  - inv_step H. destruct (fo_price _ _ _ _ _ Hf) as (p & Hp & Hpc).
    unfold debit in *. inv_call apply_money as (Happ & (_ & Hab & _) & Hb). simpl in Happ.
    rewrite Hd in Happ. simplify_eq.
    apply applied_unused in Happ as Hu; [|simpl; by apply (si_fresh _ _ Hi), Hf].
    destruct Hu as (Hl & Hm & Hacc & Hdelta & Hkey).
    do 2 eexists. split_and!; [done| |congruence].
    split; [done|by rewrite Hm|done|]. intros _.
    eexists _, _. split_and!; [reflexivity|eassumption|lia|lia|done..|].
    intros Hinv. eapply ledger_inv_applied; [done|]. by apply (ledger_inv_books d).
Qed.

Lemma replay_order_Ok o e w r w' :
  replay_order o e w = (Ok r, w') → r = (o, None, true) ∧ w' = w ∧ ord_status o ≠ ORD_FULFILLING.
Proof. unfold replay_order. intros H. inv_run H. by bool_to_prop. Qed.

(** The outcome of the reservation block. *)
Lemma reserve_Ok account package ref skip key e w o de replay w' :
  _reserve_and_debit str_json sha256 account package ref skip key e w = (Ok (o, de, replay), w') →
  is_cents (pkg_price_usd package) → spend_inv (orders (db w)) (ledger (db w)) →
  (replay = true ∧ de = None ∧ db w' = db w ∧ (∃ k, orders (db w) !! k = Some o) ∧
   ord_idempotency_key o = key ∧ ord_status o ≠ ORD_FULFILLING) ∨
  (replay = false ∧ reserved account package (nonempty key) skip o de (db w) (db w')).
Proof.
  unfold _reserve_and_debit. intros H Hc Hi.
  apply atomic_Ok in H as (w1 & H & Hend).
  apply bind_Ok in H as (existing & w2 & Hex & H).
  assert (Hfound : aborted w2 = aborted w ∧ db w2 = db w ∧ ∀ o', existing = Some o' →
    (∃ k, orders (db w) !! k = Some o') ∧ ord_idempotency_key o' = key).
  { destruct (nonempty key) as [k|] eqn:Ek; inv_run Hex; split_and!; try done.
    intros o' Ho. apply qfirst_key in Ho as [? ->]. split; [done|].
    unfold nonempty in Ek. repeat case_match; by simplify_eq. }
  clear Hex. destruct Hfound as (Hw2 & Hd2 & Hfound).
  destruct existing as [o'|].
  { apply replay_order_Ok in H as ([= -> -> ->] & -> & Hst). left.
    destruct (Hfound o' eq_refl) as [Hk Hkey]. split_and!; try done.
    by destruct Hend as [(_ & -> & _)|[_ ->]]. }
  clear Hfound. apply bind_Ok in H as (created & w3 & Hcr & H).
  apply try_Ok in Hcr as [Hcr|(x & h & w4 & Hcr & Hx & Hh)].
  - inv_step Hcr. inv_call create_order_row_Ok as (Hf & Hd3 & Hw3); [|done].
    rewrite Hd2 in *.
    eapply charge_order_Ok in H as (o' & de' & [= -> -> ->] & Hr & Hab); [|done..].
    right. split; [done|]. by destruct Hend as [(Hab' & _)|[_ ->]]; [congruence|].
  - destruct x; simplify_eq/=. inv_step Hh.
    apply bind_Raise in Hcr as [Hcr|(? & ? & _ & ?)]; [|done].
    apply create_order_row_refuses in Hcr. rewrite Hd2 in Hcr.
    inv_call replay_order_Ok as (-> & -> & Hst). apply ret_Ok in H as [[= -> -> ->] ->].
    rewrite Hcr in *. left. split_and!; try done.
    + by destruct Hend as [(_ & -> & _)|[_ ->]].
    + destruct key; [by eapply qfirst_key|]. apply qfirst_Some in Hmatch as (? & ? & _). eauto.
    + destruct key; [by eapply qfirst_key|]. apply qfirst_Some in Hmatch as (? & _ & ?). by bool_to_prop.
Qed.

(** A block that raises leaves nothing behind. *)
Lemma reserve_refuses account package ref skip key :
  refuses (_reserve_and_debit str_json sha256 account package ref skip key).
Proof. unfold _reserve_and_debit. apply refuses_atomic. Qed.

(** The reservation keeps the invariant. *)
Lemma reserved_inv account package key skip o de d d' :
  reserved account package key skip o de d d' → order_inv d → order_inv d'.
Proof.
  intros [Hf Ho Hu Hp] [Hl Hi]. destruct skip.
  - destruct (Hu eq_refl) as [_ Hb]. split; [by eapply ledger_inv_books|].
    injection Hb as _ ->. rewrite Ho. apply spend_inv_unpaid; [apply Hf|done].
  - destruct (Hp eq_refl) as (en & p & -> & Hpr & _ & Hacc & Hd & Hk & Hen & Hl').
    split; [auto|]. rewrite Ho, Hen. apply spend_inv_debit; [apply Hf|done..| | |].
    + simpl. by rewrite (fo_status _ _ _ _ _ Hf).
    + by rewrite Hacc, <- (fo_account _ _ _ _ _ Hf).
    + change (ord_retail_price_usd (order_row o) = Some (- le_delta en)).
      rewrite order_row_price by apply Hf. rewrite Hpr, Hd. f_equal. lia.
Qed.

(** *** Compensating *)

Lemma applied_orders account delta t rid key d d' en :
  applied account delta t rid key d d' en → orders d' = orders d ∧ esims d' = esims d.
Proof. by intros ->%applied_only_money. Qed.

(** What the block leaves: the order failed, and refunded if it was paid. *)
Record compensated (account : pk) (skip : bool) o (d d' : Db) : Prop := {
  cp_orders : orders d' = <[ord_id o := order_row o <| ord_status := ORD_FAILED |>]> (orders d);
  cp_esims : esims d' = esims d;
  cp_unpaid : skip = true → books d' = books d;
  cp_paid : skip = false → ∃ en p, ord_retail_price_usd o = Some p ∧ le_account en = account ∧
    le_delta en = p ∧ le_idempotency_key en = order_refund_key (ord_id o) ∧
    ledger d' = ledger d ++ [en] ∧ (ledger_inv d → ledger_inv d');
}.

(** The order as the reservation left it, not yet settled. *)
Definition order_pending (account : pk) (skip : bool) o (d : Db) : Prop :=
  orders d !! ord_id o = Some (order_row o) ∧ ord_status o = ORD_FULFILLING ∧
  ord_account o = account ∧ priced o ∧
  find_entry (order_refund_key (ord_id o)) (ledger d) = None ∧
  (if skip then find_entry (order_debit_key (ord_id o)) (ledger d) = None
   else ∃ en, find_entry (order_debit_key (ord_id o)) (ledger d) = Some en).

Lemma reserved_pending account package key skip o de d d' :
  reserved account package key skip o de d d' → spend_inv (orders d) (ledger d) →
  order_pending account skip o d'.
Proof.
  intros [Hf Ho Hu Hp] Hi. destruct (si_fresh _ _ Hi _ (fo_id _ _ _ _ _ Hf)) as [Hd Hr].
  split_and!; [rewrite Ho; apply lookup_insert_eq|apply Hf..| |].
  - destruct skip; [by destruct (Hu eq_refl) as [_ [= _ ->]]|].
    destruct (Hp eq_refl) as (en & p & _ & _ & _ & _ & _ & Hk & -> & _).
    rewrite find_entry_other; [done|]. rewrite Hk. apply order_keys_ne.
  - destruct skip; [by destruct (Hu eq_refl) as [_ [= _ ->]]|].
    destruct (Hp eq_refl) as (en & p & _ & _ & _ & _ & _ & Hk & -> & _).
    exists en. by apply find_entry_snoc.
Qed.

Lemma compensate_Ok o account skip e w u w' :
  _compensate_failed o account skip e w = (Ok u, w') → order_pending account skip o (db w) →
  compensated account skip o (db w) (db w').
Proof.
  unfold _compensate_failed, save_order. intros H (Ho & Hst & Hacc & (p & Hp & Hc) & Hr & Hd).
  apply bind_Ok in H as (evs & w1 & H & Hev).
  assert (Hevs : db w' = db w1).
  { symmetry. eapply (respects_for_each eq evs publish), Hev. intros ev. apply respects_publish, _. }
  rewrite Hevs. clear Hev Hevs. apply atomic_Ok in H as (w2 & H & Hend).
  inv_step H; simpl in *; simplify_eq; unfold credit in *;
    try (inv_call apply_money as (Happ & (_ & Hab & _) & _); simpl in Hab);
    destruct Hend as [(Hab' & _)|[_ ->]]; simpl in *; try congruence.
  - bool_to_prop. congruence.
  - simplify_eq. by split.
  - rewrite H0 in *. simplify_eq/=. destruct (applied_orders _ _ _ _ _ _ _ _ Happ) as [Ho He].
    split; [by rewrite Ho|by rewrite He|done|].
    + intros _. apply applied_unused in Happ as Hu; [|done].
      destruct Hu as (Hl & _ & Ha & Hdl & Hk). rewrite Hp in Hmatch.
      simpl in Hmatch. rewrite money_round_id in Hmatch by done. simplify_eq.
      do 2 eexists. split_and!; [done..|]. intros Hinv.
      eapply ledger_inv_applied; [done|]. by apply (ledger_inv_books (db w)).
Qed.

Lemma compensated_inv account skip o d d' :
  compensated account skip o d d' → order_pending account skip o d → order_inv d → order_inv d'.
Proof.
  intros [Ho _ Hu Hp] (Hrow & Hst & Hacc & Hpr & Hr & Hd) [Hl Hi].
  assert (Hsf : sp_failed (order_row o) = false) by (simpl; by rewrite Hst).
  destruct skip.
  - pose proof (Hu eq_refl) as Hb. split; [by eapply ledger_inv_books|].
    injection Hb as _ Hle. rewrite Ho, Hle. by eapply spend_inv_fail_unpaid.
  - destruct (Hp eq_refl) as (en & p & Hpe & Ha & Hdl & Hk & Hen & Hl'), Hd as [den Hden].
    split; [auto|]. rewrite Ho, Hen. eapply spend_inv_refund; try done; [by rewrite Ha, <- Hacc|].
    change (ord_retail_price_usd (order_row o) = Some (le_delta en)).
    by rewrite order_row_price, Hpe, Hdl.
Qed.

(** *** Persisting *)

(** [s] is the eSIM of [sim] in the inventory of [account]. *)
Record purchased_sim (user account : pk) (order : pk) (sim : OrderedSimDTO) (s : Esim) : Prop := {
  ps_iccid : esim_iccid s = sim_iccid sim;
  ps_account : esim_account s = account;
  ps_user : esim_user s = user;
  ps_order : esim_order s = order;
  ps_status : esim_status s = PURCHASED;
}.

(** Orders and money are untouched, eSIMs are only added. *)
Definition delivering : relation Db := λ d d',
  orders d' = orders d ∧ books d' = books d ∧ esims d ⊆ esims d'.

#[local] Instance delivering_preorder : PreOrder delivering.
Proof.
  split; [by intros d|]. intros d1 d2 d3 (Ho & Hb & He) (Ho' & Hb' & He').
  split_and!; [congruence..|by etrans].
Qed.

(** What follows the creation of the row. *)
Definition no_goods (d : Db) := (orders d, books d, esims d).

Lemma no_goods_delivering d d' : same no_goods d d' → delivering d d'.
Proof. intros [= Ho Ha Hl He]. unfold delivering, books. by rewrite Ho, Ha, Hl, He. Qed.

Lemma initial_credit_no_goods s o package :
  respects (same no_goods) (ensure_initial_credit_topup s o package).
Proof. unfold ensure_initial_credit_topup, topup_create, topup_update. solve_respects. Qed.

Lemma system_event_no_goods s ty key : respects (same no_goods) (_record_system_event s ty key).
Proof. unfold _record_system_event, get_or_create_event, create_event. solve_respects. Qed.

Lemma clean_initial_credit s o package : clean (ensure_initial_credit_topup s o package).
Proof. unfold ensure_initial_credit_topup, topup_create, topup_update. solve_clean. Qed.

Lemma clean_system_event s ty key : clean (_record_system_event s ty key).
Proof. unfold _record_system_event, get_or_create_event, create_event. solve_clean. Qed.
#[local] Hint Resolve clean_initial_credit clean_system_event : effects.

Lemma clean_create_purchased user account o package sim m q g policy :
  clean (create_purchased user account o package sim m q g policy).
Proof. unfold create_purchased. solve_clean. Qed.
#[local] Hint Resolve clean_create_purchased : effects.

Lemma create_purchased_Ok user account o package sim m q g policy e w s w' :
  create_purchased user account o package sim m q g policy e w = (Ok s, w') → aborted w = false →
  delivering (db w) (db w') ∧ esims (db w) !! esim_id s = None ∧
  esims (db w') !! esim_id s = Some s ∧ purchased_sim user account (ord_id o) sim s.
Proof.
  unfold create_purchased. intros H Hw. apply atomic_clean_Ok in H as (w1 & H & ->); [|solve_clean|done].
  inv_step H; simpl in *.
  match goal with H : _record_system_event _ _ _ _ _ = _ |- _ => apply system_event_no_goods in H as [= Ho1 Ha1 Hl1 He1] end.
  match goal with H : ensure_initial_credit_topup _ _ _ _ _ = _ |- _ => apply initial_credit_no_goods in H as [= Ho2 Ha2 Hl2 He2] end.
  simpl in *. split_and!; [split_and!|done| |split; done].
  - congruence.
  - unfold books. congruence.
  - rewrite He1, He2. by apply insert_subseteq.
  - rewrite He1, He2. apply lookup_insert_eq.
Qed.

Lemma purchase_sims_Ok o package result actor e w ss w' :
  purchase_sims o package result actor e w = (Ok ss, w') → aborted w = false →
  delivering (db w) (db w') ∧ aborted w' = false ∧
  Forall2 (λ sim s, purchased_sim actor (ord_account o) (ord_id o) sim s ∧
             esims (db w) !! esim_id s = None ∧ esims (db w') !! esim_id s = Some s)
    (or_sims result) ss.
Proof.
  unfold purchase_sims.
  set (policy := if bool_decide (pkg_activation_policy package = "") then _ else _).
  assert (Hgen : ∀ sims acc w, fold_each sims acc (λ esims sim,
      let! esim := create_purchased actor (ord_account o) o package sim
        (or_manual_installation result) (or_qrcode_installation result)
        (or_installation_guide_url result) policy in
      ret (esims ++ [esim])) e w = (Ok ss, w') → aborted w = false →
    delivering (db w) (db w') ∧ aborted w' = false ∧ ∃ ss', ss = acc ++ ss' ∧
    Forall2 (λ sim s, purchased_sim actor (ord_account o) (ord_id o) sim s ∧
             esims (db w) !! esim_id s = None ∧ esims (db w') !! esim_id s = Some s) sims ss').
  { induction sims as [|sim sims IH]; intros acc w1 H Hw; simpl in H.
    - apply ret_Ok in H as [-> ->]. split_and!; [reflexivity|done|].
      exists []. by rewrite app_nil_r.
    - apply bind_Ok in H as (acc' & w2 & H1 & H). apply bind_Ok in H1 as (s & w3 & H1 & [-> ->]%ret_Ok).
      assert (Hw3 : aborted w3 = false) by by eapply clean_create_purchased.
      apply create_purchased_Ok in H1 as (Hd & Hn & Hs & Hp); [|done].
      apply IH in H as (Hd' & Hw' & ss' & -> & Hss); [|done].
      split_and!; [by etrans|done|]. exists (s :: ss'). rewrite <- app_assoc. split; [done|].
      constructor.
      + split_and!; [done..|]. destruct Hd' as (_ & _ & He). by eapply lookup_weaken.
      + eapply Forall2_impl; [exact Hss|]. intros sim' s' (? & Hnone & ?). split_and!; [done| |done].
        destruct Hd as (_ & _ & He). by eapply lookup_weaken_None. }
  intros H Hw. apply Hgen in H as (? & ? & ss' & -> & ?); done.
Qed.

(** What a fulfilled order leaves behind. *)
Record persisted (user account : pk) (result : OrderResult) o o' (ss : list Esim) (d d' : Db) : Prop := {
  pe_order : o' = o <| ord_external_order_id := or_external_order_id result |>
                    <| ord_status := ORD_FULFILLED |>;
  pe_orders : orders d' = <[ord_id o := order_row o']> (orders d);
  pe_ledger : foreign_ext (ledger d) (ledger d');
  pe_inv : ledger_inv d → ledger_inv d';
  pe_sims : Forall2 (λ sim s, purchased_sim user account (ord_id o) sim s ∧
             esims d !! esim_id s = None ∧ esims d' !! esim_id s = Some s) (or_sims result) ss;
}.

Lemma persist_Ok o package result actor account skip e w o' ss w' :
  _persist_fulfillment o package result actor e w = (Ok (o', ss), w') → aborted w = false →
  order_pending account skip o (db w) → persisted actor account result o o' ss (db w) (db w').
Proof.
  unfold _persist_fulfillment, save_order. intros H Hw (Hrow & Hst & Hacc & Hpr & _ & _).
  apply atomic_Ok in H as (w1 & H & Hend).
  apply bind_Ok in H as (o1 & w2 & Hsave & Hrest). inv_run Hsave.
  apply bind_Ok in Hrest as (ss1 & w3 & Hsims & Hrest).
  apply purchase_sims_Ok in Hsims as (Hd & Hw3 & Hs); [|done].
  apply bind_Ok in Hrest as (sid & w4 & Hsid & Hrest). unfold build_source_id in Hsid. inv_run Hsid.
  apply bind_Ok in Hrest as (r & w5 & Hacc & Hret). apply ret_Ok in Hret as [[= -> ->] ->].
  pose proof (clean_accrue _ _ _ _ _ _ _ _ _ Hw3 Hacc) as Hw5.
  destruct Hend as [(Hab & _)|[_ ->]]; [congruence|]. simpl.
  apply accrue_Ok in Hacc. destruct (accrued_tables _ _ _ _ _ _ _ _ Hacc) as (Ho5 & _ & He5 & _).
  destruct Hd as (Ho3 & Hb3 & He3). injection Hb3 as Ha3 Hl3. simpl in *.
  split; [done|by rewrite Ho5, Ho3| | |by rewrite He5].
  - rewrite <- Hl3. eapply accrued_foreign; [apply margin_key_foreign|done].
  - intros Hinv. eapply accrued_ledger_inv; [done|]. apply (ledger_inv_books (db w)); [|done].
    unfold same, books. by rewrite Ha3, Hl3.
Qed.

Lemma persisted_inv user account skip result o o' ss d d' :
  persisted user account result o o' ss d d' → order_pending account skip o d → order_inv d →
  order_inv d'.
Proof.
  intros [-> Ho Hf Hl' _] (Hrow & Hst & _) [Hl Hi]. split; [auto|]. rewrite Ho.
  apply (spend_inv_ext _ (ledger d)); [done|]. eapply spend_inv_update; [done| |done].
  split_and!; simpl; [done..|by rewrite Hst].
Qed.

(** *** The outcome of [fulfill] *)

(** What the order cost its account. *)
Definition charged (skip : bool) o : money :=
  if skip then 0 else default 0 (ord_retail_price_usd o).

(** The provider was asked for the order [o], reserved on top of [d], and gave
    this answer. *)
Definition asked e (package : Package) o (d : Db) (answer : Res OrderResult) : Prop :=
  ∃ w1 w2 pending, orders (db w1) = <[ord_id o := pending]> (orders d) ∧
    ord_status pending = ORD_FULFILLING ∧
    create_order (pkg_external_id package) (ord_customer_ref o) e w1 = (answer, w2).

(** The account once a refund of [n] is posted. *)
Definition with_refund (n : money) (a : Account) : Account :=
  a <| acc_balance := acc_balance a + n |> <| acc_version := acc_version a + 1 |>.

(** Everything a call can do to the orders, the eSIMs and the ledger. *)
Inductive fulfilled e (user account : pk) (package : Package) (key : option string) (skip : bool)
    (d : Db) : Res Order → Db → Prop :=
  (** refused, nothing reserved, the provider not asked *)
  | fulfilled_refused x d' :
      (orders d', ledger d') = (orders d, ledger d) →
      fulfilled e user account package key skip d (Raise x) d'
  (** a used key: the settled order again, nothing charged *)
  | fulfilled_replay o k d' :
      (orders d', ledger d') = (orders d, ledger d) →
      orders d !! k = Some o → ord_idempotency_key o = key → ord_status o ≠ ORD_FULFILLING →
      fulfilled e user account package key skip d (Ok o) d'
  (** a new order, paid and delivered as the provider answered *)
  | fulfilled_delivered o result ss d' :
      asked e package o d (Ok result) →
      orders d !! ord_id o = None → orders d' = <[ord_id o := order_row o]> (orders d) →
      ord_account o = account → ord_package o = pkg_id package →
      ord_idempotency_key o = nonempty key → ord_status o = ORD_FULFILLED →
      ord_external_order_id o = or_external_order_id result →
      net_cost (ord_id o) (ledger d') = charged skip o →
      Forall2 (λ sim s, purchased_sim user account (ord_id o) sim s ∧
        esims d !! esim_id s = None ∧ esims d' !! esim_id s = Some s) (or_sims result) ss →
      fulfilled e user account package key skip d (Ok o) d'
  (** the provider failed: the order is marked failed and cost nothing *)
  | fulfilled_refunded x o d' :
      asked e package o d (Raise x) →
      orders d !! ord_id o = None → orders d' = <[ord_id o := o]> (orders d) → ord_account o = account →
      ord_status o = ORD_FAILED → net_cost (ord_id o) (ledger d') = 0 →
      account_sum account (ledger d') = account_sum account (ledger d) →
      esims d' = esims d →
      fulfilled e user account package key skip d (Raise x) d'
  (** the provider failed, and the refund no longer fits the account's columns:
      the order is left in progress, and stays paid *)
  | fulfilled_unrefundable x y o a d' :
      skip = false → asked e package o d (Raise y) →
      accounts d' !! account = Some a → account_fits (with_refund (charged skip o) a) = false →
      orders d !! ord_id o = None → orders d' = <[ord_id o := o]> (orders d) → ord_account o = account →
      ord_status o = ORD_FULFILLING → net_cost (ord_id o) (ledger d') = charged skip o →
      esims d' = esims d →
      fulfilled e user account package key skip d (Raise x) d'
  (** the provider delivered, but settling the order failed: it is left in
      progress, and stays paid *)
  | fulfilled_stuck x result o d' :
      asked e package o d (Ok result) →
      orders d !! ord_id o = None → orders d' = <[ord_id o := o]> (orders d) → ord_account o = account →
      ord_status o = ORD_FULFILLING → net_cost (ord_id o) (ledger d') = charged skip o →
      esims d' = esims d →
      fulfilled e user account package key skip d (Raise x) d'.

(** Publishing events returns and touches nothing else. *)
Lemma publish_each {A} (l : list A) (f : A → Event) e w :
  ∃ w', for_each l (λ x, publish (f x)) e w = (Ok tt, w') ∧ db w' = db w ∧ aborted w' = aborted w.
Proof.
  revert w. induction l as [|x l IH]; intros w; simpl; [by eexists|].
  erewrite bind_step by done. destruct (IH (w <| events := events w ++ [f x] |>)) as (w' & -> & ? & ?).
  by exists w'.
Qed.

(** A credit of a stored price to an account of sound rows is refused only when
    the account's columns are full. *)
Lemma refund_refused account n rt rid key e w x w' a :
  credit account (AMoney n) (RefEnum rt) rid key e w = (Raise x, w') → aborted w = false →
  accounts_checked (db w) → accounts (db w) !! account = Some a → 0 < n < money_bound → key ≠ "" →
  account_fits (with_refund n a) = false.
Proof.
  intros H Hw Hch Ha Hn Hk. unfold credit in H.
  pose proof (apply_eq account (AMoney n) (RefEnum rt) rid key 1 e w n rt Hw Hch
    (normalize_money _ Hn) (normalize_reference _) Hk) as E.
  unfold run in E. rewrite H in E. simpl in E. unfold apply_outcome in E. rewrite Ha in E.
  destruct (find_entry key (ledger (db w))); [done|].
  pose proof (Hch _ _ Ha) as Hb. unfold account_checks in Hb. bool_to_prop.
  rewrite (proj2 (Z.ltb_ge _ _)) in E by lia. unfold account_fits, with_refund. simpl.
  replace (acc_version a + 1 <=? max_int32) with (acc_version a <? max_int32) by lia.
  by destruct (fits_numeric _ && _).
Qed.

Lemma order_verdict_own d d' o :
  orders d' = <[ord_id o := o]> (orders d) → order_verdict d o = None → order_verdict d' o = None.
Proof.
  intros Ho. unfold order_verdict. rewrite Ho. case_match; [done|].
  destruct (ord_idempotency_key o) as [k|]; [|done].
  destruct (qexists _ (orders d)) eqn:E; [done|intros _]. rewrite qexists_false in E.
  replace (qexists _ _) with false; [done|]. symmetry. apply qexists_false.
  intros j p [[<- <-]|[_ Hp]]%lookup_insert_Some; [by rewrite N.eqb_refl, andb_false_r|by eapply E].
Qed.

(** The compensation of a reserved order is refused only when the refund no
    longer fits. *)
Lemma compensate_Raise account package key skip o de d e w x w' :
  _compensate_failed o account skip e w = (Raise x, w') → aborted w = false →
  reserved account package key skip o de d (db w) → order_inv (db w) →
  db w' = db w ∧ skip = false ∧
  ∃ a, accounts (db w) !! account = Some a ∧ account_fits (with_refund (charged skip o) a) = false.
Proof.
  unfold _compensate_failed. intros H Hw Hres [Hl _].
  apply bind_Raise in H as [H|(evs & w1 & _ & H)].
  2: { destruct (publish_each evs id e w1) as (w2 & E & _).
       change (for_each evs publish e w1 = (Ok tt, w2)) in E. congruence. }
  split; [by apply atomic_Raise in H as [-> _]|].
  destruct Hres as [Hf Ho Hu Hp]. pose proof (fo_price _ _ _ _ _ Hf) as Hpr.
  unfold atomic in H. destruct (bind _ _ e _) as [[evs|y] w1] eqn:E in H; [by case_match|]. clear H.
  erewrite bind_step in E by (apply get_locked_run; [exact Hw|done|simpl; rewrite Ho; apply lookup_insert_eq]).
  rewrite bool_decide_eq_false_2 in E by (simpl; rewrite (fo_status _ _ _ _ _ Hf); done).
  unfold save_order in E. rewrite bind_bind in E.
  erewrite bind_step in E by (apply save_fields_run; [exact Hw|simpl; rewrite Ho; apply lookup_insert_eq|
    change (order_verdict (db w) (order_row o) = None);
    eapply order_verdict_own; [exact Ho|apply Hf]]).
  rewrite (bind_step (ret _) _ e _ _ _ eq_refl) in E. destruct skip; [done|]. split; [done|].
  destruct (Hp eq_refl) as (en & p & -> & Hprice & Hb & Hacc & Hd & Hk & Hen & _).
  change (ord_retail_price_usd (_ <| ord_status := _ |>)) with (ord_retail_price_usd (order_row o)) in E.
  rewrite order_row_price, Hprice in E by done.
  destruct (li_accounts _ Hl en) as [a Ha]; [rewrite Hen; apply elem_of_app; right; by left|].
  rewrite Hacc in Ha. exists a. split; [done|]. unfold charged. rewrite Hprice.
  apply bind_Raise in E as [E|(? & ? & _ & [=])].
  eapply refund_refused in E; [exact E|done| |done|done|done].
  exact (ledger_inv_checked _ Hl).
Qed.

(** The provider's answer decides what follows the reservation. *)
Lemma complete_run user account package key skip o de d e w r w' :
  complete_order user account package skip o de e w = (r, w') → aborted w = false →
  reserved account package key skip o de d (db w) → order_inv d → order_inv (db w) →
  (∃ o' result ss, r = Ok o' ∧ asked e package o d (Ok result) ∧
     persisted user account result o o' ss (db w) (db w')) ∨
  (∃ x, r = Raise x ∧ asked e package o d (Raise x) ∧ compensated account skip o (db w) (db w')) ∨
  (∃ x y a, r = Raise x ∧ asked e package o d (Raise y) ∧ db w' = db w ∧ skip = false ∧
     accounts (db w) !! account = Some a ∧ account_fits (with_refund (charged skip o) a) = false) ∨
  ∃ x result, r = Raise x ∧ asked e package o d (Ok result) ∧ db w' = db w.
Proof.
  unfold complete_order. intros H Hw Hres Hinv Hinv1.
  pose proof (reserved_pending _ _ _ _ _ _ _ _ Hres (proj2 Hinv)) as Hp.
  assert (Hask : ∀ w1 a w2, db w1 = db w →
    create_order (pkg_external_id package) (ord_customer_ref o) e w1 = (a, w2) → asked e package o d a).
  { intros w1 a w2 Hd1 Hcr. exists w1, w2, (order_row o). rewrite Hd1.
    split_and!; [apply Hres|apply Hres|done]. } assert (∃ p, ord_retail_price_usd o = Some p) as [p Hpr].
  { destruct Hp as (_ & _ & _ & (p & Hpr & _) & _). eauto. }
  rewrite Hpr in H.
  rewrite bind_run in H.
  set (pub := match de with Some en => _ | None => _ end) in H.
  assert (∃ w1, pub e w = (Ok tt, w1) ∧ db w1 = db w ∧ aborted w1 = aborted w) as (w1 & Hpub & Hd1 & Hw1).
  { subst pub. destruct de; by eexists. }
  rewrite Hpub, bind_run in H. clear Hpub pub. unfold try_except in H.
  destruct (create_order _ _ e w1) as [[result|x] w2] eqn:Hcr; pose proof (Hask _ _ _ Hd1 Hcr) as Ha;
    apply create_order_reads in Hcr as (Hd2 & _ & Hw2 & _); rewrite Hd1 in Hd2.
  - rewrite bind_run in H. destruct (_persist_fulfillment _ _ _ _ e w2) as [[[o' ss]|x] w3] eqn:Hpe.
    + left. eapply persist_Ok in Hpe; [|congruence|by rewrite Hd2]. rewrite Hd2 in Hpe.
      rewrite bind_run in H. simpl in H. unfold _publish_created_events in H.
      destruct (publish_each ss (λ s, AiraloOrderCreated (ord_id o') (esim_iccid s) user) e w3)
        as (w4 & Hpub & Hd4 & _). rewrite Hpub in H. apply (f_equal fst) in H as Hr.
      exists o', result, ss. injection H as <- <-. by rewrite Hd4.
    + do 3 right. exists x, result. injection H as <- <-. split_and!; [done..|].
      apply atomic_Raise in Hpe as [-> _]. done.
  - rewrite bind_run in H. destruct (_compensate_failed _ _ _ e w2) as [[u|y] w3] eqn:Hco; injection H as <- <-.
    + right. left. exists x. split_and!; [done..|]. rewrite <- Hd2. eapply compensate_Ok; [done|by rewrite Hd2].
    + do 2 right. left. eapply compensate_Raise in Hco as (Hd & Hs & a & Hacc & Hfit); [|congruence|by rewrite Hd2..].
      rewrite Hd2 in *. exists y, x, a. by split_and!.
Qed.

(** Code that only reads respects any preorder. *)
Lemma respects_reading {A} R `{!PreOrder R} (m : M A) : respects eq m → respects R m.
Proof. intros Hm e w r w' H. rewrite (Hm _ _ _ _ H). reflexivity. Qed.

Lemma respects_debit_esims account n t rid key : respects (same esims) (debit account n t rid key).
Proof. apply respects_apply; [apply _|]. intros * H. by eapply applied_orders. Qed.
#[local] Hint Resolve respects_debit_esims : effects.

Lemma reserve_esims account package ref skip key :
  respects (same esims) (_reserve_and_debit str_json sha256 account package ref skip key).
Proof.
  assert (Hp := respects_reading (same esims) _ (product_reads package)).
  assert (Hc := respects_reading (same esims) _
    (charge_reads OT_PACKAGE account (pkg_price_usd package) (pkg_net_price_usd package))).
  unfold _reserve_and_debit, create_order_row, charge_order, replay_order, save_order. solve_respects.
Qed.

Lemma reserved_cost account package key skip o de d d' :
  reserved account package key skip o de d d' → spend_inv (orders d) (ledger d) →
  net_cost (ord_id o) (ledger d') = charged skip o.
Proof.
  intros [Hf Ho Hu Hp] Hi. destruct (si_fresh _ _ Hi _ (fo_id _ _ _ _ _ Hf)) as [Hd Hr].
  unfold charged, net_cost. destruct skip.
  - destruct (Hu eq_refl) as [_ [= _ ->]]. by rewrite Hd, Hr.
  - destruct (Hp eq_refl) as (en & p & _ & Hpr & _ & _ & Hdl & Hk & -> & _).
    rewrite find_entry_snoc, find_entry_other, Hr, Hpr by (rewrite ?Hk; done || apply order_keys_ne).
    simpl. lia.
Qed.

(** The refund gives the account what the debit took. *)
Lemma refund_restores account package key skip o de d d1 d2 :
  reserved account package key skip o de d d1 → compensated account skip o d1 d2 →
  account_sum account (ledger d2) = account_sum account (ledger d).
Proof.
  intros [_ _ Hu Hp] [_ _ Hu' Hp']. destruct skip.
  - pose proof (Hu' eq_refl) as [= _ ->]. by destruct (Hu eq_refl) as [_ [= _ ->]].
  - destruct (Hp eq_refl) as (en & p & _ & Hpr & _ & Ha & Hd & _ & Hl & _),
      (Hp' eq_refl) as (en' & p' & Hpr' & Ha' & Hd' & _ & Hl' & _).
    rewrite Hl', Hl, !account_sum_app, !account_sum_single, Ha, Ha', N.eqb_refl, Hd, Hd'.
    rewrite Hpr in Hpr'. simplify_eq. lia.
Qed.

Lemma charged_row skip o : priced o → charged skip (order_row o) = charged skip o.
Proof. intros Hp. unfold charged. by rewrite order_row_price. Qed.

(** The block after the account is known. *)
Definition fulfill_on (user account : pk) (package : Package) (customer_ref : option string)
    (skip_payment : bool) (idempotency_key : option string) : M Order :=
  raise_if (negb skip_payment && bool_decide (nonempty idempotency_key = None))
    IdempotencyKeyRequiredError;;;
  let! reserved := _reserve_and_debit str_json sha256 account package customer_ref skip_payment
                     idempotency_key in
  let '(order, debit_entry, replay) := reserved in
  if replay then ret order
  else complete_order user account package skip_payment order debit_entry.

Lemma fulfill_on_outcome user account package ref skip key e w r w' :
  fulfill_on user account package ref skip key e w = (r, w') → aborted w = false →
  is_cents (pkg_price_usd package) → order_inv (db w) →
  fulfilled e user account package key skip (db w) r (db w') ∧ order_inv (db w').
Proof.
  unfold fulfill_on. intros H Hw Hc Hinv. rewrite bind_run in H.
  destruct (raise_if _ _ e w) as [[u|x] w0] eqn:E0; apply raise_if_world in E0 as ->;
    [|injection H as <- <-; split; [by apply fulfilled_refused|done]].
  rewrite bind_run in H.
  destruct (_reserve_and_debit _ _ _ _ _ _ _ e w) as [[[[o de] replay]|x] w1] eqn:Er.
  2:{ injection H as <- <-. apply reserve_refuses in Er. rewrite Er.
      split; [by apply fulfilled_refused|done]. }
  pose proof (clean_atomic _ _ _ _ _ Hw Er) as Hw1.
  assert (Hes : esims (db w1) = esims (db w)) by exact (reserve_esims _ _ _ _ _ _ _ _ _ Er).
  apply reserve_Ok in Er; [|done|apply Hinv].
  destruct Er as [(-> & -> & Hd & (k & Hk) & Hkey & Hst)|(-> & Hres)].
  { injection H as <- <-. rewrite Hd. split; [by eapply fulfilled_replay|done]. }
  pose proof (reserved_inv _ _ _ _ _ _ _ _ Hres Hinv) as Hinv1.
  pose proof (reserved_pending _ _ _ _ _ _ _ _ Hres (proj2 Hinv)) as Hpend.
  pose proof (reserved_cost _ _ _ _ _ _ _ _ Hres (proj2 Hinv)) as Hcost.
  pose proof (rv_fresh _ _ _ _ _ _ _ _ Hres) as Hf.
  assert (Hpr : priced o) by apply Hf. assert (Hnew := fo_id _ _ _ _ _ Hf).
  eapply complete_run in H as [(o' & result & ss & -> & Ha & Hpe)|[(x & -> & Ha & Hco)
    |[(x & y & a & -> & Ha & Hd & Hs & Hacc & Hfit)|(x & result & -> & Ha & Hd)]]]; [..|done|done|done|done].
  - split; [|by eapply persisted_inv]. destruct Hpe as [-> Ho Hfo _ Hss].
    rewrite (rv_orders _ _ _ _ _ _ _ _ Hres), insert_insert_eq in Ho.
    eapply (fulfilled_delivered _ _ _ _ _ _ _ _ result ss); simpl; try done; try apply Hf.
    + by rewrite (net_cost_ext _ _ _ Hfo).
    + by rewrite <- Hes.
  - assert (Hinv2 := compensated_inv _ _ _ _ _ Hco Hpend Hinv1). split; [|done].
    assert (Hsum := refund_restores _ _ _ _ _ _ _ _ _ Hres Hco). destruct Hco as [Ho He Hu Hp]. rewrite (rv_orders _ _ _ _ _ _ _ _ Hres), insert_insert_eq in Ho.
    set (o' := order_row o <| ord_status := ORD_FAILED |>) in *.
    assert (Ho' : orders (db w') !! ord_id o' = Some o') by (rewrite Ho; apply lookup_insert_eq).
    eapply (fulfilled_refunded _ _ _ _ _ _ _ x o'); simpl; try done; try apply Hf.
    + by apply (spend_net _ _ _ _ (proj2 Hinv2) Ho').
    + by rewrite He.
  - rewrite Hd. split; [|done].
    eapply (fulfilled_unrefundable _ _ _ _ _ _ _ x y (order_row o) a); simpl; try done; try apply Hf.
    + by rewrite charged_row.
    + apply (rv_orders _ _ _ _ _ _ _ _ Hres).
    + by rewrite charged_row.
  - rewrite Hd. split; [|done].
    eapply (fulfilled_stuck _ _ _ _ _ _ _ x result (order_row o)); simpl; try done; try apply Hf.
    + apply (rv_orders _ _ _ _ _ _ _ _ Hres).
    + by rewrite charged_row.
Qed.

(** The account of a call: the one given, or the user's own. *)
Lemma fulfill_run user package ref skip key account e w r w' :
  fulfill str_json sha256 user package ref skip key account e w = (r, w') → aborted w = false →
  order_inv (db w) →
  (∃ a w1, fulfill_on user a package ref skip key e w1 = (r, w') ∧ aborted w1 = false ∧
     order_inv (db w1) ∧ (∀ a', account = Some a' → a = a') ∧
     (orders (db w1), ledger (db w1), esims (db w1)) = (orders (db w), ledger (db w), esims (db w))) ∨
  ∃ x, r = Raise x ∧ db w' = db w.
Proof.
  unfold fulfill. intros H Hw [Hl Hi]. destruct account as [a|].
  { left. exists a, w. split_and!; try done. by intros a' [= ->]. }
  rewrite bind_run in H. destruct (bind _ _ e w) as [[a|x] w1] eqn:Ha.
  - left. apply bind_Ok in Ha as (row & w2 & Ha & [-> ->]%ret_Ok).
    apply ensure_account_Ok in Ha as (Hp & Hw2); [|done]. exists (acc_id row), w2.
    assert (Hs : (orders (db w2), ledger (db w2), esims (db w2)) =
      (orders (db w), ledger (db w), esims (db w))) by (by destruct Hp as [[-> _]|(_ & _ & _ & ->)]).
    split_and!; try done. split; [by eapply ledger_inv_provisioned|].
    by injection Hs as -> -> _.
  - right. injection H as <- <-. exists x. split; [done|].
    assert (Hr : refuses (let! a := ensure_billing_account user in ret (acc_id a)))
      by (unfold ensure_billing_account; solve_refuses).
    by eapply Hr.
Qed.

(** C22: Every outcome of [OrderService.fulfill], tied to what the provider
    answered: the call is refused and reserves nothing; or replays the settled
    order of a used key; or, when the provider delivers, leaves a new fulfilled
    order with the provider's order id, charged its snapshot price exactly once,
    with one purchased eSIM per SIM of that very answer, or, if settling then
    fails, the order in progress and paid; or, when the provider fails, marks
    the order failed and refunds it, the account's ledger sum restored.  The
    refund is missing only when the account's columns cannot hold it. *)
Theorem fulfill_outcome user package ref skip key account e w r w' :
  fulfill str_json sha256 user package ref skip key account e w = (r, w') → aborted w = false →
  is_cents (pkg_price_usd package) → order_inv (db w) →
  ∃ a, (∀ a', account = Some a' → a = a') ∧
    fulfilled e user a package key skip (db w) r (db w').
Proof.
  intros H Hw Hc Hinv. apply fulfill_run in H as [(a & w1 & H & Hw1 & Hinv1 & Ha & Hs)|(x & -> & Hd)]; [..|done|done].
  - exists a. split; [done|]. apply fulfill_on_outcome in H as [H _]; [|done..].
    injection Hs as Ho Hl He.
    destruct H; unfold asked in *; rewrite ?Ho, ?Hl, ?He in *;
      [eapply fulfilled_refused|eapply fulfilled_replay|eapply fulfilled_delivered|eapply fulfilled_refunded
      |eapply fulfilled_unrefundable|eapply fulfilled_stuck]; eauto.
  - exists (default 0%N account). split; [by intros a' ->|]. apply fulfilled_refused. by rewrite Hd.
Qed.

(** Fulfilling keeps the books: an order costs its account nothing once it
    has failed, and its snapshot price at most once otherwise. *)
Lemma fulfill_order_inv user package ref skip key account e w r w' :
  fulfill str_json sha256 user package ref skip key account e w = (r, w') → aborted w = false →
  is_cents (pkg_price_usd package) → order_inv (db w) → order_inv (db w').
Proof.
  intros H Hw Hc Hinv. apply fulfill_run in H as [(a & w1 & H & Hw1 & Hinv1 & Ha & Hs)|(x & -> & Hd)]; [..|done|done].
  - by apply fulfill_on_outcome in H as [_ ?].
  - by rewrite Hd.
Qed.
End ServiceProofs.

(** ** A concrete purchase *)

Definition cheap_package : Package := mkPackage 50 "pkg" "Title" "Op" "FR" None "1 GB" 7 4000000 None "".
Definition sample_sim : OrderedSimDTO := mkSim "8901" "lpa" "m1" "" "" "".
(** A provider that delivers one SIM, and one that fails. *)
#[local] Instance one_sim_provider : OrderProvider := {|
  create_order _ _ := ret (mkOrderResult "ext-1" "" "" "" [sample_sim]);
  create_order_reads _ _ := only_reads_ret _;
|}.
Definition failing_provider : OrderProvider := {|
  create_order _ _ := raise (ProviderError "down");
  create_order_reads _ _ := only_reads_raise _;
|}.
Definition blank_json (j : Json) : string := "".

Lemma credited_order_inv : order_inv (db credited_world).
Proof.
  split.
  - apply (apply_preserves 1 (AInt 5) (RefEnum DEPOSIT) "d" "k1" 1
      sample_env sample_world (Ok (mkEntry 1000 1 5000000 5000000 DEPOSIT "d" "k1" 0)));
      [vm_compute; reflexivity|apply sample_ledger_inv].
  - apply (spend_inv_empty [mkEntry 1000 1 5000000 5000000 DEPOSIT "d" "k1" 0]).
    constructor; [|constructor]. by split.
Qed.

Definition buy (provider : OrderProvider) : M Order :=
  fulfill blank_json sample_sha 7 cheap_package None false (Some "key") (Some 1%N).

(** Four of five dollars are spent; the failing provider costs nothing. *)
Example buy_runs :
  let '(r, w) := buy one_sim_provider sample_env credited_world in
  let '(r', w') := buy failing_provider sample_env credited_world in
  (match r with Ok o => ord_status o | Raise _ => ORD_FAILED end, account_sum 1 (ledger (db w)),
   match r' with Raise x => match x with ProviderError _ => true | _ => false end | _ => false end,
   account_sum 1 (ledger (db w')), length (ledger (db w')))
  = (ORD_FULFILLED, 1000000, true, 5000000, 3%nat).
Proof. vm_compute. reflexivity. Qed.

Lemma fulfill_outcome_witness :
  ∃ r w' r' w'' a,
    buy one_sim_provider sample_env credited_world = (r, w') ∧
    fulfilled (provider := one_sim_provider) sample_env 7 a cheap_package (Some "key") false (db credited_world) r (db w') ∧
    buy failing_provider sample_env credited_world = (r', w'') ∧
    fulfilled (provider := failing_provider) sample_env 7 1 cheap_package (Some "key") false (db credited_world) r' (db w'').
Proof.
  destruct (buy one_sim_provider sample_env credited_world) as [r w'] eqn:E.
  destruct (buy failing_provider sample_env credited_world) as [r' w''] eqn:E'.
  assert (Hc : is_cents (pkg_price_usd cheap_package)) by by exists 400.
  assert (Hw : aborted credited_world = false) by (vm_compute; reflexivity).
  destruct (fulfill_outcome blank_json sample_sha (provider := one_sim_provider)
    7 cheap_package None false (Some "key") (Some 1%N) sample_env credited_world r w' E Hw Hc credited_order_inv) as (a & _ & H).
  destruct (fulfill_outcome blank_json sample_sha (provider := failing_provider)
    7 cheap_package None false (Some "key") (Some 1%N) sample_env credited_world r' w'' E' Hw Hc credited_order_inv) as (a' & Ha' & H').
  exists r, w', r', w'', a. rewrite (Ha' _ eq_refl) in H'.
  split; [reflexivity|]. split; [exact H|]. split; [reflexivity|exact H'].
Defined.
