(* ===== verification/Topups.v ===== *)
(** * Top-ups and inventory transfer

    [apps/esims/services/topup_service.py] and [inventory_transfer.py].  The
    eSIM provider is the interface [TopupProvider]; the save rules of the
    top-up table are in [Lifecycle]. *)

From S2P Require Import Prelude Strings Tables Money Models EsimModels World Effects Credit Settlement.
From S2P Require Import Margin Grants Pricing Spend Lifecycle Orders.
#[local] Open Scope Z_scope.

(** ** TopupService *)

Section Service.
Context (sha256 : string → string).
Context {provider : TopupProvider}.

Definition topup_debit_key (id : pk) : string := "topup-debit:" +:+ str id.
Definition topup_refund_key (id : pk) : string := "topup-refund:" +:+ str id.

(** [_resolve_package] *)
Definition _resolve_package (esim : Esim) (package_id : string) : M TopupPackage :=
  let! packages := list_topups (esim_iccid esim) in
  match List.find (λ p, bool_decide (tp_external_id p = package_id)) packages with
  | Some package => ret package
  | None => raise TopupPackageNotFoundError
  end.

(** A stored top-up under a used key: in progress, or replayed. *)
Definition replay_topup (t : Topup) : M (Topup * option CreditLedgerEntry * bool) :=
  raise_if (bool_decide (top_status t = TOP_FULFILLING)) SpendInProgressError;;;
  ret (t, None, true).

(** [Topup.objects.create(...)], the price resolved once. *)
Definition create_topup_row (account : pk) (esim : Esim) (package : TopupPackage)
    (idempotency_key : string) : M Topup :=
  let! charge := resolve_topup_charge sha256 account package in
  let '(amount, pricing) :=
    match charge.2 with
    | Some kw => (kw_charged kw, kw_pricing kw)
    | None => (tp_price_usd package, no_pricing)
    end in
  let! id := uuid4 in
  let! created_at := now in
  let! updated_at := now in
  topup_create (mkTopup id account (esim_id esim) (tp_external_id package) amount
    (Some (tp_price_usd package)) (tp_net_price_usd package) pricing TOP_FULFILLING None ""
    (Some idempotency_key) created_at updated_at).

(** The debit of the snapshotted amount. *)
Definition charge_topup (account : pk) (t : Topup) : M (Topup * option CreditLedgerEntry * bool) :=
  let! entry := debit account (AMoney (top_amount t)) (RefEnum TOPUP) (str (top_id t))
                  (topup_debit_key (top_id t)) in
  ret (t, Some entry, false).

(** [_reserve_and_debit] *)
Definition _reserve_and_debit (account : pk) (esim : Esim) (package : TopupPackage)
    (idempotency_key : string) : M (Topup * option CreditLedgerEntry * bool) :=
  let! enabled := asks BILLING_ENABLED in
  raise_if (negb enabled) BillingDisabledError;;;
  atomic (
    let! existing := locked_query (topup_by_key idempotency_key) in
    match existing with
    | Some t => replay_topup t
    | None =>
        let! locked_esim := get_locked esims (esim_id esim) in
        raise_if (negb (esim_account locked_esim =? account)%N) EsimOwnershipChanged;;;
        let! created :=
          try_except
            (let! t := create_topup_row account esim package idempotency_key in ret (inl t))
            (on_integrity_error (
              let! existing := query (topup_by_key idempotency_key) in
              match existing with
              | None => raise IntegrityError
              | Some t => let! r := replay_topup t in ret (inr r)
              end)) in
        match created with
        | inl t => charge_topup account t
        | inr r => ret r
        end
    end).

(** [_compensate_failed] *)
Definition _compensate_failed (topup : Topup) (account : pk) : M unit :=
  let! events := atomic (
    let! locked := get_locked topups (top_id topup) in
    if bool_decide (top_status locked = TOP_FAILED) then ret []
    else
      let! locked := topup_save_fields locked [T_status TOP_FAILED] in
      let amount := top_amount locked in
      let! entry := credit account (AMoney amount) (RefEnum REFUND) (str (top_id locked))
                      (topup_refund_key (top_id locked)) in
      ret (refund_events account amount TOPUP (top_id locked) entry)) in
  for_each events publish.

(** [_persist_fulfillment]; [customer] is [topup.account.user]. *)
Definition _persist_fulfillment (topup : Topup) (result : TopupResult) (customer : option pk)
    (amount : money) (debit_entry : CreditLedgerEntry) : M Topup :=
  let! topup := atomic (
    let! topup := topup_save_fields topup
                    [T_external_order_id (tr_external_order_id result); T_status TOP_FULFILLED] in
    let! source_id := build_source_id SRC_TOPUP (top_id topup) None in
    let! _ := accrue SRC_TOPUP source_id (top_list_price_usd topup) (top_net_price_usd topup) customer in
    ret topup) in
  publish (TopupCompleted (top_id topup) (top_esim topup) (top_account topup)
    (top_package_external_id topup) amount (tr_external_order_id result)
    (le_balance_after debit_entry) (le_id debit_entry) (top_updated_at topup));;;
  ret topup.

(** What follows a reservation that is not a replay. *)
Definition complete_topup (esim : Esim) (package : TopupPackage) (account : Account)
    (topup : Topup) (debit_entry : option CreditLedgerEntry) : M Topup :=
  match debit_entry with
  | None => raise AttributeError
  | Some entry =>
      let amount := top_amount topup in
      publish (debited_event (acc_id account) amount TOPUP (top_id topup) entry);;;
      let! result := try_except (submit_topup (esim_iccid esim) (tp_external_id package))
        (λ _, Some (_compensate_failed topup (acc_id account);;; raise ProviderFulfillmentError)) in
      _persist_fulfillment topup result (acc_user account) amount entry
  end.

(** The spend account of a purchase: the one given, which must own the eSIM
    unless the key was used, or else the owner. *)
Definition spend_account (esim : Esim) (idempotency_key : string) (account : option Account)
    : M Account :=
  match account with
  | None => get accounts (esim_account esim)
  | Some a =>
      if (acc_id a =? esim_account esim)%N then ret a
      else
        let! used := query (λ d, qexists (λ t, bool_decide (top_idempotency_key t =
                                                 Some idempotency_key)) (topups d)) in
        raise_if (negb used) EsimOwnershipChanged;;;
        ret a
  end.

(** [TopupService.purchase] *)
Definition purchase (esim : Esim) (package_id idempotency_key : string) (account : option Account)
    : M Topup :=
  raise_if (bool_decide (idempotency_key = "")) IdempotencyKeyRequiredError;;;
  let! account := spend_account esim idempotency_key account in
  let! package := _resolve_package esim package_id in
  let! reserved := _reserve_and_debit (acc_id account) esim package idempotency_key in
  let '(topup, debit_entry, replay) := reserved in
  if replay then ret topup
  else complete_topup esim package account topup debit_entry.
End Service.

(** ** Inventory transfer *)

Record EsimInventoryTransferResult := mkTransferResult {
  xf_old_account_id : pk;
  xf_new_account_id : pk;
  xf_transferred : bool;
  xf_auto_topup_disabled : bool;
}.

(** [_load_destination_account] *)
Definition _load_destination_account (user : User) : M (option Account) :=
  locked_query (account_of_user (user_id user)).

(** [_require_personal_account] *)
Definition _require_personal_account (account : option Account) (user : User) : M Account :=
  match account with
  | Some a =>
      if bool_decide (acc_kind a = PERSONAL) && bool_decide (acc_user a = Some (user_id user))
      then ret a else raise EsimTransferDestinationError
  | None => raise EsimTransferDestinationError
  end.

(** A [PositiveIntegerField] also checks its sign. *)
Definition nonneg (n : option Z) : bool := match n with Some n => 0 <=? n | None => true end.

(** The policy table accepts a row. *)
Definition policy_verdict (d : Db) (p : EsimAutoTopupPolicy) : option Exn :=
  if negb (fits_opt (pol_threshold_mb p) && fits_opt (pol_remaining_count p) &&
           (pol_version p <=? max_int32)) then Some DataError
  else if negb (policy_checks p && nonneg (pol_threshold_mb p) && nonneg (pol_remaining_count p) &&
                (0 <=? pol_version p)) then Some IntegrityError
  else if qexists (λ q, (pol_esim q =? pol_esim p)%N && negb (pol_id q =? pol_id p)%N) (policies d)
  then Some IntegrityError else None.

Definition save_policy (p : EsimAutoTopupPolicy) (f : EsimAutoTopupPolicy → EsimAutoTopupPolicy)
    : M EsimAutoTopupPolicy :=
  save_fields policies policy_verdict (pol_id p) f;;;
  ret (f p).

Definition policy_of_esim (esim : pk) (d : Db) : option EsimAutoTopupPolicy :=
  qfirst (λ p, (pol_esim p =? esim)%N) (policies d).

(** The move itself: the row and its policy. *)
Definition move_inventory (esim : Esim) (user : User) (account : Account) : M bool :=
  let! policy := locked_query (policy_of_esim (esim_id esim)) in
  let! _ := save_esim esim (λ s, s <| esim_account := acc_id account |> <| esim_user := user_id user |>
                                   <| esim_assigned_user := Some (user_id user) |>) in
  match policy with
  | None => ret false
  | Some p =>
      let! _ := save_policy p (λ q, q <| pol_account := acc_id account |> <| pol_enabled := false |>
        <| pol_status := POL_DISABLED |> <| pol_reason := Some MANUAL_PAUSE |>
        <| pol_version := pol_version p + 1 |>) in
      ret true
  end.

(** [transfer_esim_inventory] *)
Definition transfer_esim_inventory (esim_id_ : pk) (destination_user : option pk)
    : M EsimInventoryTransferResult :=
  match destination_user with
  | None => raise EsimTransferDestinationError
  | Some uid =>
      atomic (
        let! esim := get_locked esims esim_id_ in
        let! user := query (λ d, users d !! uid) in
        match user with
        | None => raise EsimTransferDestinationError
        | Some user =>
            let! row := _load_destination_account user in
            let! account := _require_personal_account row user in
            let old := esim_account esim in
            if (old =? acc_id account)%N then ret (mkTransferResult old (acc_id account) false false)
            else
              let! busy := query (λ d, qexists (λ t, (top_esim t =? esim_id esim)%N &&
                                    bool_decide (top_status t = TOP_FULFILLING)) (topups d)) in
              raise_if busy EsimTransferInProgressError;;;
              let! disabled := move_inventory esim user account in
              ret (mkTransferResult old (acc_id account) true disabled)
        end)
  end.

(** ** The books of a top-up *)

Lemma topup_keys_ne j k : topup_debit_key j ≠ topup_refund_key k.
Proof. unfold topup_debit_key, topup_refund_key. intros H. discriminate H. Qed.

#[export] Instance topup_spend : Spend Topup := {|
  sp_amount t := Some (top_amount t);
  sp_account := top_account;
  sp_failed t := bool_decide (top_status t = TOP_FAILED);
  debit_key := topup_debit_key;
  refund_key := topup_refund_key;
  debit_refund_ne := topup_keys_ne;
|}.

(** The keys of the other services. *)
Lemma margin_key_foreign_topup t id : foreign_key (V := Topup) (margin_key t id).
Proof. intros k. split; intros H; discriminate H. Qed.
Lemma order_key_foreign_topup id : foreign_key (V := Topup) (order_debit_key id).
Proof. intros k. split; intros H; discriminate H. Qed.
Lemma refund_key_foreign_topup id : foreign_key (V := Topup) (order_refund_key id).
Proof. intros k. split; intros H; discriminate H. Qed.
Lemma topup_key_foreign_order id : foreign_key (V := Order) (topup_debit_key id).
Proof. intros k. split; intros H; discriminate H. Qed.
Lemma topup_refund_foreign_order id : foreign_key (V := Order) (topup_refund_key id).
Proof. intros k. split; intros H; discriminate H. Qed.

(** *** The prepaid books

    The ledger, the orders and the top-ups: every spend is settled by its own
    entries. *)
Record prepaid_inv (d : Db) : Prop := {
  pi_ledger : ledger_inv d;
  pi_orders : spend_inv (orders d) (ledger d);
  pi_topups : spend_inv (topups d) (ledger d);
}.

(** A credit or debit under a key of another service. *)
Lemma applied_spend `{Spend V} (m : gmap pk V) account delta t rid key d d' en :
  applied account delta t rid key d d' en → foreign_key (V := V) key →
  spend_inv m (ledger d) → spend_inv m (ledger d').
Proof. intros Happ Hk. apply spend_inv_ext. by eapply applied_foreign. Qed.

Section Effects.
Context (sha256 : string → string) {provider : TopupProvider}.
Implicit Types (e : Env) (w : World) (t : Topup).

(** *** Saving *)

Lemma save_fields_topup t fields e w t' w' :
  topup_save_fields t fields e w = (Ok t', w') →
  ∃ now_ u, topups (db w) !! top_id t = Some u ∧
    t' = (foldr set_topup t fields) <| top_updated_at := now_ |> ∧
    db w' = put topups (top_id t) ((foldr set_topup u fields) <| top_updated_at := now_ |>) (db w) ∧
    aborted w = false ∧ aborted w' = false.
Proof.
  unfold topup_save_fields. intros H. inv_run H. do 2 eexists. split_and!; try done.
Qed.

(** The next sequence number of an eSIM. *)
Definition next_sequence (esim : pk) (d : Db) : Z :=
  match highest_sequence esim d with None => 1 | Some n => n + 1 end.

Lemma create_topup_Ok t e w t' w' :
  topup_create t e w = (Ok t', w') → top_sequence t = None →
  t' = t <| top_sequence := Some (next_sequence (top_esim t) (db w)) |> ∧
  topups (db w) !! top_id t = None ∧ db w' = put topups (top_id t) (topup_row t') (db w) ∧
  aborted w' = false ∧ topup_verdict (db w) (topup_row t') = None.
Proof.
  unfold topup_create. intros H Hs. rewrite Hs in H. inv_run H.
  unfold next_sequence. by split_and!.
Qed.

(** ** The reservation *)

(** A fresh top-up of an eSIM that [account] owns. *)
Record fresh_topup (account : pk) (esim : Esim) (package : TopupPackage) (key : string) (d : Db) t
    : Prop := {
  ft_id : topups d !! top_id t = None;
  ft_owner : ∃ s, esims d !! esim_id esim = Some s ∧ esim_account s = account;
  ft_account : top_account t = account;
  ft_esim : top_esim t = esim_id esim;
  ft_package : top_package_external_id t = tp_external_id package;
  ft_key : top_idempotency_key t = Some key;
  ft_sequence : top_sequence t = Some (next_sequence (esim_id esim) d);
  ft_status : top_status t = TOP_FULFILLING;
  ft_net : top_net_price_usd t = tp_net_price_usd package;
  ft_verdict : topup_verdict d (topup_row t) = None;
}.

(** The block: a fresh row and its debit, nothing else. *)
Record topup_reserved (account : pk) (esim : Esim) (package : TopupPackage) (key : string) t
    (en : CreditLedgerEntry) (d d' : Db) : Prop := {
  tr_fresh : fresh_topup account esim package key d t;
  tr_topups : topups d' = <[top_id t := topup_row t]> (topups d);
  tr_rest : (orders d', esims d', policies d') = (orders d, esims d, policies d);
  tr_entry : le_account en = account ∧ le_delta en = - top_amount t ∧
    le_idempotency_key en = topup_debit_key (top_id t);
  tr_amount : 0 < top_amount t < money_bound;
  tr_ledger : ledger d' = ledger d ++ [en];
  tr_inv : ledger_inv d → ledger_inv d';
}.

Lemma topup_charge_reads ot account price net : respects eq (resolve_charge sha256 ot account price net).
Proof. apply charge_reads. Qed.

Lemma create_topup_row_Ok account esim package key e w t w' :
  create_topup_row sha256 account esim package key e w = (Ok t, w') →
  (∃ s, esims (db w) !! esim_id esim = Some s ∧ esim_account s = account) →
  fresh_topup account esim package key (db w) t ∧
  db w' = put topups (top_id t) (topup_row t) (db w) ∧ aborted w' = false.
Proof.
  unfold create_topup_row. intros H Hown.
  apply bind_Ok in H as ([amount kw] & w1 & H1 & H).
  pose proof (charge_reads _ _ _ _ _ _ _ _ _ H1) as Hd1. clear H1.
  assert (Hrun : ∃ amount pricing, (let! id := uuid4 in let! created_at := now in
      let! updated_at := now in
      topup_create (mkTopup id account (esim_id esim) (tp_external_id package) amount
        (Some (tp_price_usd package)) (tp_net_price_usd package) pricing TOP_FULFILLING None ""
        (Some key) created_at updated_at)) e w1 = (Ok t, w')).
  { destruct kw; simpl in H; eauto. }
  clear H. destruct Hrun as (m & ps & H).
  apply bind_Ok in H as (id & w2 & [= <- <-] & H). apply bind_Ok in H as (c & w2 & [= <- <-] & H).
  apply bind_Ok in H as (u & w2 & [= <- <-] & H).
  apply create_topup_Ok in H as (-> & Hn & Hd & Ha & Hv); [|done]. simpl in *.
  rewrite <- Hd1 in *. split_and!; [|done..]. by split.
Qed.

Lemma create_topup_row_refuses account esim package key :
  refuses (create_topup_row sha256 account esim package key).
Proof.
  unfold create_topup_row, topup_create. apply refuses_bind; [apply charge_reads|].
  intros [amount kw]. destruct kw as [kw|]; simpl; solve_refuses.
Qed.

Lemma replay_topup_Ok t e w r w' :
  replay_topup t e w = (Ok r, w') → r = (t, None, true) ∧ w' = w ∧ top_status t ≠ TOP_FULFILLING.
Proof. unfold replay_topup. intros H. inv_run H. by bool_to_prop. Qed.

Lemma topup_by_key_Some key d t :
  topup_by_key key d = Some t → (∃ k, topups d !! k = Some t) ∧ top_idempotency_key t = Some key.
Proof. intros (k & Hk & Ho)%qfirst_Some. bool_to_prop. eauto. Qed.

Lemma applied_topups account delta rt rid key d d' en :
  applied account delta rt rid key d d' en →
  topups d' = topups d ∧ (orders d', esims d', policies d') = (orders d, esims d, policies d).
Proof. by intros ->%applied_only_money. Qed.

Lemma charge_topup_Ok account esim package key t e w d r w' :
  charge_topup account t e w = (Ok r, w') → spend_inv (topups d) (ledger d) →
  fresh_topup account esim package key d t → db w = put topups (top_id t) (topup_row t) d →
  ∃ en, r = (t, Some en, false) ∧ topup_reserved account esim package key t en d (db w') ∧
    aborted w' = aborted w.
Proof.
  unfold charge_topup. intros H Hi Hf Hd. inv_step H. unfold debit in *.
  inv_call apply_money as (Happ & (_ & Hab & _) & Hb). simpl in Happ. rewrite Hd in Happ.
  destruct (applied_topups _ _ _ _ _ _ _ _ Happ) as [Ht Hr].
  apply applied_unused in Happ as Hu; [|apply (si_fresh _ _ Hi), Hf].
  destruct Hu as (Hl & _ & Hacc & Hdelta & Hkey).
  eexists. split_and!; [reflexivity| |done]. split; try done.
  intros Hinv. eapply ledger_inv_applied; [exact Happ|]. by apply (ledger_inv_books d).
Qed.

(** The outcome of the reservation. *)
Lemma reserve_topup_Ok account esim package key e w t de replay w' :
  _reserve_and_debit sha256 account esim package key e w = (Ok (t, de, replay), w') →
  spend_inv (topups (db w)) (ledger (db w)) →
  (replay = true ∧ de = None ∧ db w' = db w ∧ (∃ k, topups (db w) !! k = Some t) ∧
   top_idempotency_key t = Some key ∧ top_status t ≠ TOP_FULFILLING) ∨
  (replay = false ∧ ∃ en, de = Some en ∧ topup_reserved account esim package key t en (db w) (db w')).
Proof.
  unfold _reserve_and_debit. intros H Hi.
  apply bind_Ok in H as (enabled & w1 & [-> ->]%asks_Ok & H).
  apply bind_Ok in H as (u & w1 & [_ ->]%raise_if_Ok & H).
  apply atomic_Ok in H as (w1 & H & Hend).
  apply bind_Ok in H as (existing & w2 & (Hab & -> & ->)%locked_query_Ok & H). simpl in *.
  destruct (topup_by_key key (db w)) as [t'|] eqn:Hex.
  { apply replay_topup_Ok in H as ([= -> -> ->] & -> & Hst). left.
    destruct (topup_by_key_Some _ _ _ Hex) as [Hk Hkey]. split_and!; try done.
    by destruct Hend as [(_ & -> & _)|[_ ->]]. }
  apply bind_Ok in H as (s & w2 & (_ & Hs & ->)%get_locked_Ok & H).
  apply bind_Ok in H as (u' & w2 & [Hown ->]%raise_if_Ok & H). bool_to_prop. simpl in *.
  apply bind_Ok in H as (created & w3 & Hcr & H).
  apply try_Ok in Hcr as [Hcr|(x & h & w4 & Hcr & Hx & Hh)].
  - inv_step Hcr. inv_call create_topup_row_Ok as (Hf & Hd3 & Hw3); [|by exists s].
    simpl in *. eapply charge_topup_Ok in H as (en & [= -> -> ->] & Hr & Hab'); [|done..].
    right. split; [done|]. exists en. split; [done|].
    by destruct Hend as [(Hab'' & _)|[_ ->]]; [congruence|].
  - destruct x; simplify_eq/=. inv_step Hh.
    apply bind_Raise in Hcr as [Hcr|(? & ? & _ & ?)]; [|done].
    apply create_topup_row_refuses in Hcr. simpl in Hcr.
    inv_call replay_topup_Ok as (-> & -> & Hst). apply ret_Ok in H as [[= -> -> ->] ->].
    rewrite Hcr in *. left. destruct (topup_by_key_Some _ _ _ Hmatch) as [Hk Hkey].
    split_and!; try done. by destruct Hend as [(_ & -> & _)|[_ ->]].
Qed.

Lemma clean_reserve_topup account esim package key :
  clean (_reserve_and_debit sha256 account esim package key).
Proof. unfold _reserve_and_debit. solve_clean. Qed.

Lemma reserve_topup_refuses account esim package key :
  refuses (_reserve_and_debit sha256 account esim package key).
Proof. unfold _reserve_and_debit. solve_refuses. Qed.

(** *** Compensating and persisting *)

(** The top-up as the reservation left it. *)
Definition topup_pending (account : pk) t (d : Db) : Prop :=
  topups d !! top_id t = Some (topup_row t) ∧ top_status t = TOP_FULFILLING ∧
  top_account t = account ∧ find_entry (topup_refund_key (top_id t)) (ledger d) = None ∧
  ∃ en, find_entry (topup_debit_key (top_id t)) (ledger d) = Some en.

Lemma reserved_topup_pending account esim package key t en d d' :
  topup_reserved account esim package key t en d d' → spend_inv (topups d) (ledger d) →
  topup_pending account t d'.
Proof.
  intros [Hf Ht _ (Ha & Hd & Hk) _ Hl _] Hi. destruct (si_fresh _ _ Hi _ (ft_id _ _ _ _ _ _ Hf)) as [Hdb Hr].
  split_and!; [rewrite Ht; apply lookup_insert_eq|apply Hf..| |].
  - rewrite Hl, find_entry_other; [done|]. rewrite Hk. apply topup_keys_ne.
  - exists en. rewrite Hl. by apply find_entry_snoc.
Qed.

(** The block: the row failed, its debit refunded. *)
Record topup_compensated (account : pk) t (en : CreditLedgerEntry) (d d' : Db) : Prop := {
  tc_topups : ∃ at_, topups d' = <[top_id t := topup_row t <| top_status := TOP_FAILED |>
                                      <| top_updated_at := at_ |>]> (topups d);
  tc_rest : (orders d', esims d', policies d') = (orders d, esims d, policies d);
  tc_entry : le_account en = account ∧ le_delta en = top_amount t ∧
    le_idempotency_key en = topup_refund_key (top_id t);
  tc_ledger : ledger d' = ledger d ++ [en];
  tc_inv : ledger_inv d → ledger_inv d';
}.

Lemma compensate_topup_Ok t account e w u w' :
  _compensate_failed t account e w = (Ok u, w') → topup_pending account t (db w) →
  ∃ en, topup_compensated account t en (db w) (db w').
Proof.
  unfold _compensate_failed. intros H (Ht & Hst & Hacc & Hr & Hd).
  apply bind_Ok in H as (evs & w1 & H & Hev).
  assert (Hevs : db w' = db w1).
  { symmetry. eapply (respects_for_each eq evs publish), Hev. intros ev. apply respects_publish, _. }
  rewrite Hevs. clear Hev Hevs. apply atomic_Ok in H as (w2 & H & Hend).
  apply bind_Ok in H as (locked & w3 & (Hab & Hl & ->)%get_locked_Ok & H). simpl in *.
  rewrite Ht in Hl. injection Hl as <-. simpl in H. rewrite Hst in H. simpl in H.
  apply bind_Ok in H as (t' & w4 & Hs & H).
  apply save_fields_topup in Hs as (at_ & v & Hv & -> & Hd4 & _ & Ha4). simpl in *.
  rewrite Ht in Hv. injection Hv as <-. inv_step H. unfold credit in *.
  inv_call apply_money as (Happ & (_ & Hab' & _) & Hb). simpl in Happ. rewrite Hd4 in Happ.
  destruct (applied_topups _ _ _ _ _ _ _ _ Happ) as [Htt Hrest].
  apply applied_unused in Happ as Hu; [|done]. destruct Hu as (Hle & _ & Ha & Hdl & Hk).
  destruct Hend as [(Hab2 & _)|[_ ->]]; [congruence|]. eexists. simpl.
  split; [by exists at_|done|done|done|].
  intros Hinv. eapply ledger_inv_applied; [exact Happ|]. by apply (ledger_inv_books (db w)).
Qed.

(** What a fulfilled top-up leaves behind. *)
Record topup_persisted t (result : TopupResult) t' (d d' : Db) : Prop := {
  tp_row : ∃ at_, t' = t <| top_status := TOP_FULFILLED |>
    <| top_external_order_id := tr_external_order_id result |> <| top_updated_at := at_ |>;
  tp_topups : topups d' = <[top_id t := topup_row t']> (topups d);
  tp_rest : (orders d', esims d', policies d') = (orders d, esims d, policies d);
  tp_foreign : foreign_ext (V := Topup) (ledger d) (ledger d');
  tp_foreign_orders : foreign_ext (V := Order) (ledger d) (ledger d');
  tp_inv : ledger_inv d → ledger_inv d';
}.

Lemma persist_topup_run t result customer amount en account e w r w' :
  _persist_fulfillment t result customer amount en e w = (r, w') → aborted w = false →
  topup_pending account t (db w) →
  match r with
  | Ok t' => topup_persisted t result t' (db w) (db w')
  | Raise _ => db w' = db w
  end.
Proof.
  unfold _persist_fulfillment. intros H Hw (Ht & _). rewrite bind_run in H.
  destruct (atomic _ e w) as [[t1|x] w1] eqn:E;
    [|injection H as <- <-; by apply atomic_Raise in E as [-> _]].
  injection H as <- <-. simpl. apply atomic_Ok in E as (w2 & H & Hend).
  apply bind_Ok in H as (t2 & w3 & Hs & H).
  apply save_fields_topup in Hs as (at_ & v & Hv & -> & Hd3 & _ & Ha3). simpl in *.
  rewrite Ht in Hv. injection Hv as <-.
  apply bind_Ok in H as (sid & w4 & [-> ->]%ret_Ok & H).
  apply bind_Ok in H as (a & w5 & Hacc & [-> ->]%ret_Ok).
  pose proof (clean_accrue _ _ _ _ _ _ _ _ _ Ha3 Hacc) as Hw5.
  destruct Hend as [(Hab & _)|[_ ->]]; [congruence|]. simpl.
  apply accrue_Ok in Hacc. destruct (accrued_tables _ _ _ _ _ _ _ _ Hacc) as (Ho & Htt & He & Hp).
  rewrite Hd3 in *. simpl in *. split.
  - by exists at_.
  - by rewrite Htt.
  - by rewrite Ho, He, Hp.
  - exact (accrued_foreign (V := Topup) _ _ _ _ _ _ _ _ margin_key_foreign_topup Hacc).
  - exact (accrued_foreign (V := Order) _ _ _ _ _ _ _ _ margin_key_foreign Hacc).
  - intros Hinv. eapply accrued_ledger_inv; [exact Hacc|]. by apply (ledger_inv_books (db w)).
Qed.

(** ** The invariant *)

Lemma posted_foreign_order l en :
  (∃ k, le_idempotency_key en = topup_debit_key k ∨ le_idempotency_key en = topup_refund_key k) →
  foreign_ext (V := Order) l (l ++ [en]).
Proof.
  intros (k & Hk). exists [en]. split; [done|]. constructor; [|constructor].
  destruct Hk as [-> | ->]; [apply topup_key_foreign_order|apply topup_refund_foreign_order].
Qed.

Lemma reserved_prepaid account esim package key t en d d' :
  topup_reserved account esim package key t en d d' → prepaid_inv d → prepaid_inv d'.
Proof.
  intros [Hf Ht Hr (Ha & Hd & Hk) _ Hl Hinv] [Hpl Hpo Hpt]. injection Hr as Ho _ _.
  split; [auto| |].
  - rewrite Ho, Hl. eapply spend_inv_ext; [|done]. apply posted_foreign_order. eauto.
  - rewrite Ht, Hl. apply spend_inv_debit; [apply Hf|done..| | |].
    + simpl. by rewrite (ft_status _ _ _ _ _ _ Hf).
    + by rewrite Ha, <- (ft_account _ _ _ _ _ _ Hf).
    + simpl. rewrite Hd. f_equal. lia.
Qed.

Lemma compensated_prepaid account t en d d' :
  topup_compensated account t en d d' → topup_pending account t d → prepaid_inv d → prepaid_inv d'.
Proof.
  intros [[at_ Ht] Hr (Ha & Hd & Hk) Hl Hinv] (Hrow & Hst & Hacc & _ & den & Hden) [Hpl Hpo Hpt].
  injection Hr as Ho _ _. split; [auto| |].
  - rewrite Ho, Hl. eapply spend_inv_ext; [|done]. apply posted_foreign_order. eauto.
  - rewrite Ht, Hl. eapply spend_inv_refund; try done; simpl; [by rewrite Hst|by rewrite Ha|by rewrite Hd].
Qed.

Lemma persisted_prepaid account t result t' d d' :
  topup_persisted t result t' d d' → topup_pending account t d → prepaid_inv d → prepaid_inv d'.
Proof.
  intros [[at_ ->] Ht Hr Hft Hfo Hinv] (Hrow & Hst & _) [Hpl Hpo Hpt]. injection Hr as Ho _ _.
  split; [auto|rewrite Ho; by eapply spend_inv_ext|]. rewrite Ht.
  eapply spend_inv_ext; [done|]. eapply spend_inv_update; [done| |done].
  split_and!; simpl; [done..|by rewrite Hst].
Qed.

(** ** The outcome of [purchase] *)

(** The provider was asked for the top-up [t], reserved on top of [d], and gave
    this answer. *)
Definition asked e (esim : Esim) (package_id : string) t (d : Db) (answer : Res TopupResult) : Prop :=
  ∃ w1 w2, topups (db w1) = <[top_id t := topup_row t]> (topups d) ∧
    submit_topup (esim_iccid esim) package_id e w1 = (answer, w2).

(** Everything a call can do. *)
Inductive purchased e (esim : Esim) (package_id key : string) (d : Db) : Res Topup → Db → Prop :=
  (** refused, nothing changed, the provider not asked *)
  | purchased_refused x : purchased e esim package_id key d (Raise x) d
  (** a used key: the settled top-up again *)
  | purchased_replay t k :
      topups d !! k = Some t → top_idempotency_key t = Some key → top_status t ≠ TOP_FULFILLING →
      purchased e esim package_id key d (Ok t) d
  (** a new top-up of the owner of the eSIM, paid once and delivered as the
      provider answered *)
  | purchased_delivered account package t t' result d' :
      tp_external_id package = package_id → fresh_topup account esim package key d t →
      asked e esim package_id t d (Ok result) →
      topups d' = <[top_id t := topup_row t']> (topups d) →
      (orders d', esims d', policies d') = (orders d, esims d, policies d) →
      top_status t' = TOP_FULFILLED → top_external_order_id t' = tr_external_order_id result →
      same_spend t t' → top_sequence t' = top_sequence t →
      net_cost (V := Topup) (top_id t) (ledger d') = top_amount t →
      purchased e esim package_id key d (Ok t') d'
  (** the provider failed: the top-up is marked failed and cost nothing *)
  | purchased_refunded x account package t t' d' :
      tp_external_id package = package_id → fresh_topup account esim package key d t →
      asked e esim package_id t d (Raise x) →
      topups d' = <[top_id t := t']> (topups d) → top_status t' = TOP_FAILED →
      net_cost (V := Topup) (top_id t) (ledger d') = 0 →
      (∀ a, account_sum a (ledger d') = account_sum a (ledger d)) →
      purchased e esim package_id key d (Raise ProviderFulfillmentError) d'
  (** the provider failed, and the refund no longer fits the account's columns:
      the top-up is left in progress, and stays paid *)
  | purchased_unrefundable x y account package t a d' :
      tp_external_id package = package_id → fresh_topup account esim package key d t →
      asked e esim package_id t d (Raise y) →
      accounts d' !! account = Some a → account_fits (with_refund (top_amount t) a) = false →
      topups d' = <[top_id t := topup_row t]> (topups d) →
      net_cost (V := Topup) (top_id t) (ledger d') = top_amount t →
      purchased e esim package_id key d (Raise x) d'
  (** the provider delivered, but settling failed: the top-up is left in
      progress, and stays paid *)
  | purchased_stuck x result account package t d' :
      tp_external_id package = package_id → fresh_topup account esim package key d t →
      asked e esim package_id t d (Ok result) →
      topups d' = <[top_id t := topup_row t]> (topups d) →
      net_cost (V := Topup) (top_id t) (ledger d') = top_amount t →
      purchased e esim package_id key d (Raise x) d'.

Lemma resolve_package_Ok esim package_id e w package w' :
  _resolve_package esim package_id e w = (Ok package, w') → tp_external_id package = package_id.
Proof.
  unfold _resolve_package. intros (ps & w1 & _ & H)%bind_Ok.
  destruct (List.find _ ps) as [p|] eqn:Hp; [|done]. apply ret_Ok in H as [-> _].
  apply List.find_some in Hp as [_ Hp]. by bool_to_prop.
Qed.

Lemma resolve_package_reads esim package_id : only_reads (_resolve_package esim package_id).
Proof.
  unfold _resolve_package. apply only_reads_bind; [apply list_topups_reads|]. intros ps.
  destruct (List.find _ ps); [apply only_reads_ret|apply only_reads_raise].
Qed.

Lemma spend_account_reads esim key account e w r w' :
  spend_account esim key account e w = (r, w') → w' = w.
Proof.
  unfold spend_account, get, query, found, raise_if, ret, raise, bind. intros H.
  repeat case_match; by simplify_eq.
Qed.

Lemma reserved_topup_cost account esim package key t en d d' :
  topup_reserved account esim package key t en d d' → spend_inv (topups d) (ledger d) →
  net_cost (V := Topup) (top_id t) (ledger d') = top_amount t.
Proof.
  intros [Hf _ _ (_ & Hd & Hk) _ Hl _] Hi. destruct (si_fresh _ _ Hi _ (ft_id _ _ _ _ _ _ Hf)) as [Hn Hr].
  unfold net_cost. rewrite Hl, find_entry_snoc, find_entry_other, Hr by (rewrite ?Hk; done || apply topup_keys_ne).
  simpl. lia.
Qed.

Lemma topup_refund_restores account esim package key t en en' d d1 d2 :
  topup_reserved account esim package key t en d d1 → topup_compensated account t en' d1 d2 →
  ∀ a, account_sum a (ledger d2) = account_sum a (ledger d).
Proof.
  intros [_ _ _ (Ha & Hd & _) _ Hl _] [_ _ (Ha' & Hd' & _) Hl' _] a.
  rewrite Hl', Hl, !account_sum_app, !account_sum_single, Ha, Ha', Hd, Hd'.
  destruct (account =? a)%N; lia.
Qed.

Lemma topup_verdict_own d d' t :
  topups d' = <[top_id t := topup_row t]> (topups d) → topup_verdict d (topup_row t) = None →
  topup_verdict d' (topup_row t) = None.
Proof.
  intros Ht. unfold topup_verdict. rewrite Ht. do 2 (case_match; [done|]).
  destruct (qexists _ (topups d)) eqn:E; [done|intros _]. rewrite qexists_false in E.
  replace (qexists _ _) with false; [done|]. symmetry. apply qexists_false.
  intros j p [[<- <-]|[_ Hp]]%lookup_insert_Some; [|by eapply E].
  change (top_id (topup_row t)) with (top_id t). by rewrite N.eqb_refl, andb_false_r.
Qed.

(** The compensation of a reserved top-up is refused only when the refund no
    longer fits the account's columns. *)
Lemma compensate_topup_Raise account esim package key t en d e w x w' :
  _compensate_failed t account e w = (Raise x, w') → aborted w = false →
  topup_reserved account esim package key t en d (db w) → ledger_inv (db w) →
  db w' = db w ∧
  ∃ a, accounts (db w) !! account = Some a ∧ account_fits (with_refund (top_amount t) a) = false.
Proof.
  unfold _compensate_failed. intros H Hw [Hf Ht _ (Hacc & _ & _) Hn Hl _] Hinv.
  apply bind_Raise in H as [H|(evs & w1 & _ & H)].
  2: { destruct (publish_each evs id e w1) as (w2 & E & _).
       change (for_each evs publish e w1 = (Ok tt, w2)) in E. congruence. }
  split; [by apply atomic_Raise in H as [-> _]|].
  unfold atomic in H. destruct (bind _ _ e _) as [[evs|y] w1] eqn:E in H; [by case_match|]. clear H.
  erewrite bind_step in E by (apply get_locked_run; [exact Hw|done|simpl; rewrite Ht; apply lookup_insert_eq]).
  rewrite bool_decide_eq_false_2 in E by (simpl; rewrite (ft_status _ _ _ _ _ _ Hf); done).
  unfold topup_save_fields in E. rewrite bind_bind in E.
  erewrite bind_step in E by (by apply query_run).
  simpl in E. rewrite bind_bind in E. rewrite (bind_step (ret tt) _ e _ tt _ eq_refl) in E.
  rewrite bind_bind in E. rewrite (bind_step now _ e _ _ _ eq_refl), bind_bind in E.
  erewrite bind_step in E by (apply save_fields_run; [exact Hw|simpl; rewrite Ht; apply lookup_insert_eq|
    change (topup_verdict (db w) (topup_row t) = None); eapply topup_verdict_own; [exact Ht|apply Hf]]).
  rewrite (bind_step (ret _) _ e _ _ _ eq_refl) in E.
  destruct (li_accounts _ Hinv en) as [a Ha]; [rewrite Hl; apply elem_of_app; right; by left|].
  rewrite Hacc in Ha. exists a. split; [done|].
  apply bind_Raise in E as [E|(? & ? & _ & [=])].
  eapply refund_refused in E; [exact E|done| |done|done|done]. exact (ledger_inv_checked _ Hinv).
Qed.

(** What the provider's answer leads to. *)
Lemma complete_topup_run esim package account key t en d e w r w' :
  complete_topup esim package account t (Some en) e w = (r, w') → aborted w = false →
  topup_reserved (acc_id account) esim package key t en d (db w) → prepaid_inv d → ledger_inv (db w) →
  let asked := asked e esim (tp_external_id package) t d in
  (∃ t' result, r = Ok t' ∧ asked (Ok result) ∧ topup_persisted t result t' (db w) (db w')) ∨
  (∃ x en', r = Raise ProviderFulfillmentError ∧ asked (Raise x) ∧
     topup_compensated (acc_id account) t en' (db w) (db w')) ∨
  (∃ x y a, r = Raise x ∧ asked (Raise y) ∧ db w' = db w ∧
     accounts (db w) !! acc_id account = Some a ∧ account_fits (with_refund (top_amount t) a) = false) ∨
  ∃ x result, r = Raise x ∧ asked (Ok result) ∧ db w' = db w.
Proof.
  intros H Hw Hres Hinv Hl ask. unfold complete_topup in H.
  pose proof (reserved_topup_pending _ _ _ _ _ _ _ _ Hres (pi_topups _ Hinv)) as Hp.
  assert (Hask : ∀ w1 a w2, db w1 = db w →
    submit_topup (esim_iccid esim) (tp_external_id package) e w1 = (a, w2) → ask a).
  { intros w1 a w2 Hd1 Hs. exists w1, w2. rewrite Hd1. split; [apply Hres|done]. }
  erewrite bind_step in H by done. rewrite bind_run in H. unfold try_except in H.
  destruct (submit_topup _ _ e _) as [[result|x] w2] eqn:Hs; pose proof (λ h, Hask _ _ _ h Hs) as Ha; specialize (Ha eq_refl);
    apply submit_topup_reads in Hs as (Hd2 & _ & Hw2 & _); simpl in Hd2, Hw2; clear Hask.
  - eapply persist_topup_run in H; [|congruence|by rewrite Hd2]. rewrite Hd2 in H.
    destruct r as [t'|x]; [left; eauto|do 3 right; eauto].
  - rewrite bind_run in H.
    destruct (_compensate_failed t (acc_id account) e w2) as [[u|y] w3] eqn:Hc; injection H as <- <-.
    + right. left. rewrite <- Hd2. eapply compensate_topup_Ok in Hc as [en' Hc]; [|by rewrite Hd2].
      by exists x, en'.
    + do 2 right. left.
      eapply compensate_topup_Raise in Hc as (Hd3 & a & Hacc & Hfit); [|congruence|by rewrite Hd2..].
      rewrite Hd2 in *. exists y, x, a. by split_and!.
Qed.

Lemma purchase_run esim package_id key account e w r w' :
  purchase sha256 esim package_id key account e w = (r, w') → aborted w = false →
  prepaid_inv (db w) →
  purchased e esim package_id key (db w) r (db w') ∧ prepaid_inv (db w').
Proof.
  unfold purchase. intros H Hw Hinv. rewrite bind_run in H.
  destruct (raise_if _ _ e w) as [[u|x] w0] eqn:E0; apply raise_if_world in E0 as ->;
    [|injection H as <- <-; split; [apply purchased_refused|done]].
  rewrite bind_run in H. destruct (spend_account _ _ _ e w) as [[a|x] w1] eqn:Ea;
    apply spend_account_reads in Ea as ->; [|injection H as <- <-; split; [apply purchased_refused|done]].
  rewrite bind_run in H. destruct (_resolve_package _ _ e w) as [[package|x] w1] eqn:Ep;
    pose proof (resolve_package_reads _ _ _ _ _ _ Ep) as (Hd1 & _ & Hw1 & _);
    [|injection H as <- <-; rewrite Hd1; split; [apply purchased_refused|done]].
  apply resolve_package_Ok in Ep. rewrite <- Hd1 in *. rewrite <- Hw1 in Hw. clear Hd1 Hw1 w.
  rewrite bind_run in H.
  destruct (_reserve_and_debit _ _ _ _ _ e w1) as [[[[t de] replay]|x] w2] eqn:Er.
  2:{ injection H as <- <-. apply reserve_topup_refuses in Er. rewrite Er.
      split; [apply purchased_refused|done]. }
  assert (Hw2 : aborted w2 = false) by by eapply clean_reserve_topup.
  apply reserve_topup_Ok in Er; [|apply Hinv].
  destruct Er as [(-> & -> & Hd & (k & Hk) & Hkey & Hst)|(-> & en & -> & Hres)].
  { injection H as <- <-. rewrite Hd. split; [by eapply purchased_replay|done]. }
  pose proof (reserved_prepaid _ _ _ _ _ _ _ _ Hres Hinv) as Hinv2.
  pose proof (reserved_topup_cost _ _ _ _ _ _ _ _ Hres (pi_topups _ Hinv)) as Hcost.
  pose proof (tr_fresh _ _ _ _ _ _ _ _ Hres) as Hf.
  pose proof (tr_topups _ _ _ _ _ _ _ _ Hres) as Ht.
  pose proof (reserved_topup_pending _ _ _ _ _ _ _ _ Hres (pi_topups _ Hinv)) as Hpend.
  eapply complete_topup_run in H as [(t' & result & -> & Ha & Hpe)|[(x & en' & -> & Ha & Hco)
    |[(x & y & a' & -> & Ha & Hd & Hacc & Hfit)|(x & result & -> & Ha & Hd)]]]; [..|done|done|done|apply Hinv2].
  - split; [|by eapply persisted_prepaid].
    destruct Hpe as [[at_ ->] Ht' Hr Hft _ _]. rewrite Ht, insert_insert_eq in Ht'.
    pose proof (tr_rest _ _ _ _ _ _ _ _ Hres) as Hrest.
    eapply (purchased_delivered _ _ _ _ _ (acc_id a) package t _ result); simpl; try done.
    + by rewrite <- Ep.
    + by rewrite Hr.
    + split_and!; simpl; [done..|]. by rewrite (ft_status _ _ _ _ _ _ Hf).
    + by rewrite (net_cost_ext _ _ _ Hft).
  - assert (Hinv3 := compensated_prepaid _ _ _ _ _ Hco Hpend Hinv2). split; [|done].
    pose proof (topup_refund_restores _ _ _ _ _ _ _ _ _ _ Hres Hco) as Hsum.
    destruct Hco as [[at_ Ht'] _ _ _ _]. rewrite Ht, insert_insert_eq in Ht'.
    eapply (purchased_refunded _ _ _ _ _ x (acc_id a) package t); [done|done|by rewrite <- Ep|exact Ht'|done| |done].
    eapply (spend_net _ _ _ _ (pi_topups _ Hinv3)); [rewrite Ht'; apply lookup_insert_eq|done].
  - rewrite Hd. split; [|done]. rewrite <- Ep in *.
    by eapply (purchased_unrefundable _ _ _ _ _ x y (acc_id a) package t a').
  - rewrite Hd. split; [|done]. rewrite <- Ep in *.
    by eapply (purchased_stuck _ _ _ _ _ x result (acc_id a) package t).
Qed.

(** C24: Every outcome of [TopupService.purchase], tied to what the provider
    answered: the call changes nothing; or replays the settled top-up of a used
    key; or, when the provider delivers, leaves a new fulfilled top-up of the
    account that owns the eSIM with the provider's order id, numbered next in
    its sequence and paid exactly once, or, if settling then fails, the top-up
    in progress and paid; or, when the provider fails, marks it failed and
    refunds it, every account's ledger sum restored.  The refund is missing
    only when the account's columns cannot hold it. *)
Theorem purchase_outcome esim package_id key account e w r w' :
  purchase sha256 esim package_id key account e w = (r, w') → aborted w = false →
  prepaid_inv (db w) → purchased e esim package_id key (db w) r (db w').
Proof. intros H Hw Hinv. by apply purchase_run in H as [? _]. Qed.
End Effects.

(** ** The prepaid system *)

Section System.
Context (str_json : Json → string) (sha256 : string → string).
Context {orders_provider : OrderProvider} {provider : TopupProvider}.

(** *** Top-ups under the other operations *)

Definition topups_ok (d : Db) : Prop := spend_inv (topups d) (ledger d).

Lemma apply_topups_ok account amount rt rid key sign :
  foreign_key (V := Topup) key → respects (preserves topups_ok) (_apply account amount rt rid key sign).
Proof.
  intros Hk. apply respects_apply; [apply _|]. intros * Happ Hd. unfold topups_ok in *.
  destruct (applied_topups _ _ _ _ _ _ _ _ Happ) as [-> _]. by eapply applied_spend.
Qed.

Lemma accrue_topups_ok t id lst net customer :
  respects (preserves topups_ok) (accrue t id lst net customer).
Proof.
  assert (Hc : ∀ a n rid t id, respects (preserves topups_ok)
    (credit a n (RefEnum PARTNER_MARGIN) rid (margin_key t id)))
    by (intros; apply apply_topups_ok, margin_key_foreign_topup).
  unfold accrue, partner_channel_can_accrue_for_customer, post_accrual, accrual_save_guard,
    resolve_partner_settlement_account, _personal_settlement_account, _organization_settlement_account,
    _require_individual_owner, _require_team_owner, _is_owner_personal_account, _is_organization_account.
  solve_respects.
Qed.

(** The initial credit is a top-up nobody pays. *)
Lemma initial_credit_topups_ok s o package :
  respects (preserves topups_ok) (ensure_initial_credit_topup s o package).
Proof.
  unfold ensure_initial_credit_topup, topup_create, topup_update. solve_respects.
  all: try (apply respects_create; [apply _|]; intros d Hn _ Hd; by apply spend_inv_unpaid).
  all: apply respects_save_fields; [apply _|]; intros d v Hv _ Hd;
    eapply spend_inv_update; [exact Hv| |exact Hd]; by split_and!.
Qed.
#[local] Hint Resolve accrue_topups_ok initial_credit_topups_ok : effects.

Lemma purchased_topups_ok user account o package sim m q g policy :
  respects (preserves topups_ok) (create_purchased user account o package sim m q g policy).
Proof.
  unfold create_purchased, _record_system_event, get_or_create_event, create_event. solve_respects.
Qed.
#[local] Hint Resolve purchased_topups_ok : effects.

Lemma fulfill_topups_ok user package ref skip key account :
  respects (preserves topups_ok) (fulfill str_json sha256 user package ref skip key account).
Proof.
  assert (Hd : ∀ a n rid id, respects (preserves topups_ok) (debit a n (RefEnum ORDER) rid (order_debit_key id)))
    by (intros; apply apply_topups_ok, order_key_foreign_topup).
  assert (Hr : ∀ a n rid id, respects (preserves topups_ok) (credit a n (RefEnum REFUND) rid (order_refund_key id)))
    by (intros; apply apply_topups_ok, refund_key_foreign_topup).
  assert (Hc : ∀ ot a p n, respects (preserves topups_ok) (resolve_charge sha256 ot a p n))
    by (intros; apply respects_reading, charge_reads; apply _).
  assert (Hp : ∀ p, respects (preserves topups_ok) (product_snapshot_kwargs str_json p))
    by (intros; apply respects_reading, product_reads; apply _).
  assert (Hcr : ∀ i c, respects (preserves topups_ok) (create_order i c))
    by (intros; apply only_reads_respects, create_order_reads; apply _).
  unfold fulfill, ensure_billing_account, Orders._reserve_and_debit, create_order_row, charge_order,
    replay_order, complete_order, Orders._compensate_failed, Orders._persist_fulfillment, purchase_sims,
    _publish_created_events, save_order, resolve_package_charge, build_source_id.
  solve_respects.
Qed.

(** *** Every operation *)

Inductive prepaid_op : ∀ A, M A → Prop :=
  | op_fulfill user package ref skip key account :
      is_cents (pkg_price_usd package) →
      prepaid_op _ (fulfill str_json sha256 user package ref skip key account)
  | op_purchase esim package_id key account :
      prepaid_op _ (purchase sha256 esim package_id key account)
  | op_transfer esim user : prepaid_op _ (transfer_esim_inventory esim user)
  | op_initial_credit s o package : prepaid_op _ (ensure_initial_credit_topup s o package)
  | op_client_event s ty key step : prepaid_op _ (record_client_event s ty key step)
  | op_usage parse_datetime s : prepaid_op _ (get_usage parse_datetime s)
  | op_ledger account amount rt rid key sign :
      foreign_key (V := Order) key → foreign_key (V := Topup) key →
      prepaid_op _ (_apply account amount rt rid key sign).

(** What an operation that moves no money leaves. *)
Definition prepaid_tables (d : Db) := (orders d, topups d, accounts d, ledger d).

Lemma prepaid_inv_same d d' : same prepaid_tables d d' → prepaid_inv d → prepaid_inv d'.
Proof.
  intros [= Ho Ht Ha Hl] [Hpl Hpo Hpt].
  split; [|by rewrite Ho, Hl|by rewrite Ht, Hl]. eapply ledger_inv_books; [|done].
  unfold same, books. by rewrite Ha, Hl.
Qed.

Lemma transfer_same esim user : respects (same prepaid_tables) (transfer_esim_inventory esim user).
Proof.
  unfold transfer_esim_inventory, _load_destination_account, _require_personal_account,
    move_inventory, save_esim, save_policy. solve_respects.
Qed.

Lemma client_event_same s ty key step :
  respects (same prepaid_tables) (record_client_event s ty key step).
Proof.
  unfold record_client_event, _apply_client_side_effects, client_effect, transition, set_status,
    _record_system_event, get_or_create_event, create_event, save_esim. solve_respects.
Qed.

Lemma usage_same parse_datetime s : respects (same prepaid_tables) (get_usage parse_datetime s).
Proof.
  assert (Hu : ∀ i, respects (same prepaid_tables) (provider_usage i))
    by (intros; apply only_reads_respects, provider_usage_reads; apply _).
  unfold get_usage, _update_cache, apply_provider_usage, _overwrite_provider_status,
    _record_provider_event, set_status, _record_system_event, get_or_create_event, create_event, save_esim.
  solve_respects.
Qed.

(** C23: The prepaid books balance under every operation, however it ends: the
    ledger keeps its invariant; a failed order or top-up has cost its account
    nothing, and any other at most its own snapshot price, once; and no ledger
    entry pays for an order or top-up that does not exist. *)
Theorem prepaid_books_balance A (m : M A) e w r w' :
  prepaid_op A m → aborted w = false → prepaid_inv (db w) → m e w = (r, w') →
  prepaid_inv (db w') ∧
  (∀ k o, orders (db w') !! k = Some o → let cost := net_cost (V := Order) k (ledger (db w')) in
     (ord_status o = ORD_FAILED → cost = 0) ∧ (cost = 0 ∨ ord_retail_price_usd o = Some cost)) ∧
  (∀ k t, topups (db w') !! k = Some t → let cost := net_cost (V := Topup) k (ledger (db w')) in
     (top_status t = TOP_FAILED → cost = 0) ∧ (cost = 0 ∨ top_amount t = cost)).
Proof.
  intros Hop Hw Hinv H. assert (Hinv' : prepaid_inv (db w')).
  { destruct Hop.
    - destruct Hinv as [Hpl Hpo Hpt]. pose proof (fulfill_topups_ok _ _ _ _ _ _ _ _ _ _ H Hpt).
      by apply fulfill_order_inv in H as [? ?].
    - by apply purchase_run in H as [_ ?].
    - by eapply prepaid_inv_same; [eapply transfer_same|].
    - destruct Hinv as [Hpl Hpo Hpt]. pose proof (initial_credit_topups_ok _ _ _ _ _ _ _ H Hpt).
      apply initial_credit_no_goods in H as [= Ho Ha Hl _]. split; [|by rewrite Ho, Hl|done].
      eapply ledger_inv_books; [|done]. unfold same, books. by rewrite Ha, Hl.
    - by eapply prepaid_inv_same; [eapply client_event_same|].
    - by eapply prepaid_inv_same; [eapply usage_same|].
    - apply apply_run in H as [->|(delta & t & en & Happ)]; [done|]. destruct Hinv as [Hpl Hpo Hpt].
      split; [by eapply ledger_inv_applied| |].
      + destruct (applied_orders _ _ _ _ _ _ _ _ Happ) as [-> _]. by eapply applied_spend.
      + destruct (applied_topups _ _ _ _ _ _ _ _ Happ) as [-> _]. by eapply applied_spend. }
  split_and!; [done|..].
  - intros k o Hk. destruct (spend_net _ _ _ _ (pi_orders _ Hinv') Hk) as [Hf Hc]. split.
    + intros Hs. apply Hf. simpl. by rewrite Hs.
    + destruct Hc as [?|[_ ?]]; auto.
  - intros k t Hk. destruct (spend_net _ _ _ _ (pi_topups _ Hinv') Hk) as [Hf Hc]. split.
    + intros Hs. apply Hf. simpl. by rewrite Hs.
    + destruct Hc as [?|[_ Hc]]; [auto|right]. by injection Hc.
Qed.
End System.

(** ** The outcome of a transfer *)

Section Transfer.
Context (sha256 : string → string) {provider : TopupProvider}.

(** A purchase by an account that does not own the eSIM row changes nothing: it
    is refused or replays a used key, whatever the caller's copy of the eSIM
    says. *)
Lemma stranger_changes_nothing esim package_id key a e w r w' :
  purchase sha256 esim package_id key (Some a) e w = (r, w') → aborted w = false →
  prepaid_inv (db w) →
  (∀ s, esims (db w) !! esim_id esim = Some s → esim_account s ≠ acc_id a) →
  db w' = db w ∧ ∀ t, r = Ok t → topup_by_key key (db w) ≠ None.
Proof.
  unfold purchase. intros H Hw Hinv Hne. rewrite bind_run in H.
  destruct (raise_if _ _ e w) as [[u|x] w0] eqn:E0; apply raise_if_world in E0 as ->;
    [|by injection H as <- <-].
  rewrite bind_run in H. destruct (spend_account _ _ _ e w) as [[a'|x] w1] eqn:Ea;
    pose proof (spend_account_reads _ _ _ _ _ _ _ Ea) as ->; [|by injection H as <- <-].
  assert (a' = a) as -> by (unfold spend_account in Ea; inv_run Ea; done).
  rewrite bind_run in H. destruct (_resolve_package _ _ e w) as [[package|x] w1] eqn:Ep;
    pose proof (resolve_package_reads _ _ _ _ _ _ Ep) as (Hd1 & _ & Hw1 & _);
    [|by injection H as <- <-].
  rewrite bind_run in H.
  destruct (_reserve_and_debit _ _ _ _ _ e w1) as [[[[t de] replay]|x] w2] eqn:Er.
  2:{ injection H as <- <-. apply reserve_topup_refuses in Er. by rewrite Er. }
  apply reserve_topup_Ok in Er; [|rewrite Hd1; apply Hinv]. rewrite Hd1 in Er.
  destruct Er as [(-> & _ & Hd & (k & Hk) & Hik & _)|(_ & en & _ & Hres)].
  - injection H as <- <-. split; [done|]. intros t' [= <-]. unfold topup_by_key. intros Hkey.
    rewrite qfirst_None in Hkey. specialize (Hkey k t Hk). by rewrite Hik, bool_decide_true in Hkey.
  - destruct (ft_owner _ _ _ _ _ _ (tr_fresh _ _ _ _ _ _ _ _ Hres)) as (s & Hs & Ho). by destruct (Hne s Hs).
Qed.

(** A used key reserves nothing. *)
Lemma used_key_replays account esim package key e w t0 t de replay w' :
  _reserve_and_debit sha256 account esim package key e w = (Ok (t, de, replay), w') →
  topup_by_key key (db w) = Some t0 → replay = true.
Proof.
  unfold _reserve_and_debit. intros H Hkey.
  apply bind_Ok in H as (enabled & w1 & [-> ->]%asks_Ok & H).
  apply bind_Ok in H as (u & w1 & [_ ->]%raise_if_Ok & H).
  apply atomic_Ok in H as (w1 & H & _).
  apply bind_Ok in H as (existing & w2 & (_ & -> & ->)%locked_query_Ok & H). simpl in H.
  rewrite Hkey in H. by apply replay_topup_Ok in H as ([= -> -> ->] & _).
Qed.

(** Money moves only for the owner of the eSIM, under an unused key. *)
Lemma purchase_spends esim package_id key a e w r w' :
  purchase sha256 esim package_id key (Some a) e w = (r, w') → aborted w = false →
  prepaid_inv (db w) → db w' ≠ db w →
  (∃ s, esims (db w) !! esim_id esim = Some s ∧ esim_account s = acc_id a) ∧
  topup_by_key key (db w) = None.
Proof.
  intros H Hw Hinv Hne. split.
  - destruct (esims (db w) !! esim_id esim) as [s|] eqn:Hs.
    + destruct (decide (esim_account s = acc_id a)) as [Ho|Ho]; [eauto|]. exfalso. apply Hne.
      eapply stranger_changes_nothing in H as [? _]; try done. intros s' Hs'. congruence.
    + exfalso. apply Hne. eapply stranger_changes_nothing in H as [? _]; try done. congruence.
  - destruct (topup_by_key key (db w)) as [t0|] eqn:Hkey; [exfalso; apply Hne|done].
    unfold purchase in H. rewrite bind_run in H.
    destruct (raise_if _ _ e w) as [[u|x] w0] eqn:E0; apply raise_if_world in E0 as ->;
      [|by injection H as <- <-].
    rewrite bind_run in H. destruct (spend_account _ _ _ e w) as [[a'|x] w1] eqn:Ea;
      apply spend_account_reads in Ea as ->; [|by injection H as <- <-].
    rewrite bind_run in H. destruct (_resolve_package _ _ e w) as [[package|x] w1] eqn:Ep;
      apply resolve_package_reads in Ep as (Hd1 & _); [|by injection H as <- <-].
    rewrite bind_run in H.
    destruct (_reserve_and_debit _ _ _ _ _ e w1) as [[[[t de] replay]|x] w2] eqn:Er.
    2:{ injection H as <- <-. apply reserve_topup_refuses in Er. by rewrite Er. }
    rewrite <- Hd1 in Hkey. pose proof (used_key_replays _ _ _ _ _ _ _ _ _ _ _ Er Hkey) as ->.
    apply reserve_topup_Ok in Er as [(_ & _ & Hd & _)|[? _]]; [|done|by rewrite Hd1; apply Hinv].
    injection H as <- <-. congruence.
Qed.

(** The row and the policy of a moved eSIM. *)
Definition moved_esim (s : Esim) (u : User) (a : Account) (at_ : instant) : Esim :=
  s <| esim_account := acc_id a |> <| esim_user := user_id u |>
    <| esim_assigned_user := Some (user_id u) |> <| esim_updated_at := at_ |>.

Definition stopped_policy (p : EsimAutoTopupPolicy) (a : Account) : EsimAutoTopupPolicy :=
  p <| pol_account := acc_id a |> <| pol_enabled := false |> <| pol_status := POL_DISABLED |>
    <| pol_reason := Some MANUAL_PAUSE |> <| pol_version := pol_version p + 1 |>.

(** The tables are keyed by their rows' own identifiers. *)
Definition inventory_keyed (d : Db) : Prop :=
  (∀ k s, esims d !! k = Some s → esim_id s = k) ∧ (∀ k u, users d !! k = Some u → user_id u = k) ∧
  (∀ k p, policies d !! k = Some p → pol_id p = k).

(** What a transfer that moved the eSIM wrote. *)
Definition inventory_moved (d d' : Db) (s : Esim) (u : User) (a : Account) (disabled : bool) : Prop :=
  ∃ at_, esims d' = <[esim_id s := moved_esim s u a at_]> (esims d) ∧
  (∀ k t, topups d !! k = Some t → top_esim t = esim_id s → top_status t ≠ TOP_FULFILLING) ∧
  match policy_of_esim (esim_id s) d with
  | None => disabled = false ∧ policies d' = policies d
  | Some p => disabled = true ∧ policies d' = <[pol_id p := stopped_policy p a]> (policies d)
  end.

Lemma move_inventory_Ok s u a e w disabled w' :
  move_inventory s u a e w = (Ok disabled, w') → inventory_keyed (db w) →
  esims (db w) !! esim_id s = Some s →
  (∃ at_, esims (db w') = <[esim_id s := moved_esim s u a at_]> (esims (db w))) ∧
  match policy_of_esim (esim_id s) (db w) with
  | None => disabled = false ∧ policies (db w') = policies (db w)
  | Some p => disabled = true ∧ policies (db w') = <[pol_id p := stopped_policy p a]> (policies (db w))
  end ∧ aborted w' = false.
Proof.
  unfold move_inventory, save_esim, save_policy. intros H (_ & _ & Hkp) Hs.
  apply bind_Ok in H as (policy & w1 & (_ & -> & ->)%locked_query_Ok & H).
  apply bind_Ok in H as (s' & w1 & Hsave & H). inv_run Hsave.
  destruct (policy_of_esim _ (db w)) as [p|] eqn:Hp; inv_run H.
  - apply qfirst_Some in Hp as (k & Hk & _). pose proof (Hkp k p Hk) as <-. simplify_eq.
    split_and!; [by eexists|done|done|done].
  - split_and!; [by eexists|done|done|done].
Qed.

Lemma transfer_run id uid e w res w' :
  transfer_esim_inventory id (Some uid) e w = (Ok res, w') → aborted w = false →
  inventory_keyed (db w) →
  ∃ s u a, esims (db w) !! id = Some s ∧ users (db w) !! uid = Some u ∧
    account_of_user uid (db w) = Some a ∧ acc_kind a = PERSONAL ∧ acc_user a = Some uid ∧
    xf_old_account_id res = esim_account s ∧ xf_new_account_id res = acc_id a ∧
    xf_transferred res = negb (esim_account s =? acc_id a)%N ∧
    (if xf_transferred res then inventory_moved (db w) (db w') s u a (xf_auto_topup_disabled res)
     else db w' = db w ∧ xf_auto_topup_disabled res = false).
Proof.
  unfold transfer_esim_inventory, _load_destination_account, _require_personal_account.
  intros H Hw Hk. pose proof Hk as (Hke & Hku & _).
  apply atomic_Ok in H as (w1 & H & Hend).
  apply bind_Ok in H as (s & w2 & (_ & Hs & ->)%get_locked_Ok & H).
  apply bind_Ok in H as (u & w2 & (_ & -> & ->)%query_Ok & H). simpl in *.
  destruct (users (db w) !! uid) as [u|] eqn:Hu; [|done].
  apply bind_Ok in H as (row & w2 & (_ & -> & ->)%locked_query_Ok & H). simpl in *.
  pose proof (Hke _ _ Hs) as <-. pose proof (Hku _ _ Hu) as <-.
  apply bind_Ok in H as (a & w2 & Ha & H).
  destruct (account_of_user (user_id u) (db w)) as [a'|] eqn:Hacc; [|done].
  destruct (bool_decide (acc_kind a' = PERSONAL) && _) eqn:Hok; [|done].
  apply ret_Ok in Ha as [-> ->]. bool_to_prop. exists s, u, a'.
  destruct (esim_account s =? acc_id a')%N eqn:Heq.
  - apply ret_Ok in H as [-> ->]. simpl. split_and!; try done.
    by destruct Hend as [(_ & ? & _)|[_ ->]].
  - apply bind_Ok in H as (busy & w2 & (_ & -> & ->)%query_Ok & H).
    apply bind_Ok in H as (x & w2 & [Hbusy ->]%raise_if_Ok & H).
    apply bind_Ok in H as (disabled & w3 & Hmove & [-> ->]%ret_Ok). simpl in *.
    apply move_inventory_Ok in Hmove as ((at_ & Hes) & Hpol & Hab); [|done|done].
    destruct Hend as [(? & _)|[_ ->]]; [congruence|]. simpl. split_and!; try done.
    exists at_. split_and!; [done| |done]. intros k t Ht He Hst.
    rewrite qexists_false in Hbusy. specialize (Hbusy k t Ht). simpl in *.
    rewrite He, N.eqb_refl, Hst in Hbusy. done.
Qed.

(** A transfer does what it reports: it succeeds only towards the personal
    account of an existing user, and only while no top-up of the eSIM is in
    progress; it moves the row, stops its auto top-up policy, and touches no
    order, top-up, balance or ledger entry; or reports that the account already
    owned it and changes nothing.  From then on a purchase for the eSIM by any
    other account is refused, even from a stale copy of the row. *)
Theorem transfer_outcome id uid e w res w' :
  transfer_esim_inventory id (Some uid) e w = (Ok res, w') → aborted w = false →
  inventory_keyed (db w) → prepaid_inv (db w) →
  prepaid_tables (db w') = prepaid_tables (db w) ∧
  (∃ s u a, esims (db w) !! id = Some s ∧ users (db w) !! uid = Some u ∧
    account_of_user uid (db w) = Some a ∧ acc_kind a = PERSONAL ∧ acc_user a = Some uid ∧
    xf_old_account_id res = esim_account s ∧ xf_new_account_id res = acc_id a ∧
    xf_transferred res = negb (esim_account s =? acc_id a)%N ∧
    if xf_transferred res then inventory_moved (db w) (db w') s u a (xf_auto_topup_disabled res)
    else db w' = db w ∧ xf_auto_topup_disabled res = false) ∧
  ∀ esim package_id key b e2 w2,
    esim_id esim = id → db w2 = db w' → aborted w2 = false → acc_id b ≠ xf_new_account_id res →
    topup_by_key key (db w') = None →
    ∃ x w3, purchase sha256 esim package_id key (Some b) e2 w2 = (Raise x, w3) ∧ db w3 = db w2.
Proof.
  intros H Hw Hk Hinv. pose proof (transfer_same _ _ _ _ _ _ H) as Hsame.
  apply transfer_run in H as (s & u & a & Hs & Hu & Hacc & Hkind & Huser & Hold & Hnew & Ht & Hout); [|done..].
  split_and!; [done|by exists s, u, a|].
  intros esim pid key b e2 w2 <- Hd Hw2 Hb Hkey.
  assert (∃ s', esims (db w2) !! esim_id esim = Some s' ∧ esim_account s' ≠ acc_id b) as (s' & Hs' & Hne).
  { rewrite Hd. destruct (xf_transferred res).
    - destruct Hout as (at_ & Hes & _). destruct Hk as [Hke _]. rewrite Hes, <- (Hke _ _ Hs), lookup_insert_eq.
      eexists. split; [done|]. simpl. congruence.
    - destruct Hout as [-> _]. exists s. split; [done|]. apply eq_sym, negb_false_iff in Ht.
      bool_to_prop. congruence. }
  destruct (purchase sha256 esim pid key (Some b) e2 w2) as [r w3] eqn:Hp.
  eapply stranger_changes_nothing in Hp as [Hd3 Hr]; [|done|rewrite Hd; by eapply prepaid_inv_same|congruence].
  destruct r as [t|x]; [|by exists x, w3]. by destruct (Hr t eq_refl); rewrite Hd.
Qed.
End Transfer.

(** ** A concrete inventory *)

Definition one_gb : TopupPackage := mkTopupPackage "gb" 3000000 None false.
#[local] Instance topup_provider : TopupProvider := {|
  list_topups _ := ret [one_gb];
  submit_topup _ _ := ret (mkTopupResult "ext-9");
  provider_usage _ := ret (usage_of "ACTIVE");
  list_topups_reads _ := only_reads_ret _;
  submit_topup_reads _ _ := only_reads_ret _;
  provider_usage_reads _ := only_reads_ret _;
|}.

(** Account 1 holds five dollars and the eSIM; user 8 has account 2. *)
Definition stocked_db : Db :=
  (db credited_world) <| esims := {[ 5%N := sample_esim ]} |>
    <| users := {[ 7%N := mkUser 7 true "a@b.c" false; 8%N := mkUser 8 true "d@e.f" false ]} |>
    <| accounts := <[2%N := mkAccount 2 (Some 8%N) PERSONAL 0 0 None]> (accounts (db credited_world)) |>.
Definition stocked_world : World := world_of stocked_db.

Example topup_runs :
  let '(r, w) := purchase sample_sha sample_esim "gb" "k" None sample_env stocked_world in
  match r with
  | Ok t => (top_status t, top_sequence t, top_amount t, account_sum 1 (ledger (db w)))
  | Raise _ => (TOP_FAILED, None, 0, 0)
  end = (TOP_FULFILLED, Some 1, 3000000, 2000000).
Proof. vm_compute. reflexivity. Qed.

Lemma stocked_inv : prepaid_inv stocked_db.
Proof.
  destruct credited_order_inv as [Hl Ho]. split.
  - apply (ledger_inv_books (put accounts 2 (mkAccount 2 (Some 8%N) PERSONAL 0 0 None) (db credited_world))); [done|].
    eapply (ledger_inv_provisioned 8 (db credited_world) _ (mkAccount 2 (Some 8%N) PERSONAL 0 0 None)); [|exact Hl].
    right. split_and!; vm_compute; reflexivity.
  - exact Ho.
  - apply (spend_inv_empty [mkEntry 1000 1 5000000 5000000 DEPOSIT "d" "k1" 0]).
    constructor; [|constructor]. by split.
Qed.

Lemma stocked_keyed : inventory_keyed stocked_db.
Proof.
  split_and!; simpl.
  - by intros k s [<- <-]%lookup_singleton_Some.
  - intros k u Hu. unfold stocked_db in Hu. simpl in Hu.
    apply lookup_insert_Some in Hu as [[<- <-]|[_ [<- <-]%lookup_singleton_Some]]; done.
  - intros k p Hp. vm_compute in Hp. destruct k; discriminate Hp.
Qed.

Lemma purchase_outcome_witness :
  ∃ r w', purchase sample_sha sample_esim "gb" "k" None sample_env stocked_world = (r, w') ∧
    purchased sample_env sample_esim "gb" "k" stocked_db r (db w').
Proof.
  destruct (purchase sample_sha sample_esim "gb" "k" None sample_env stocked_world) as [r w'] eqn:E.
  exists r, w'. split; [reflexivity|].
  exact (purchase_outcome sample_sha sample_esim "gb" "k" None sample_env stocked_world r w' E
    eq_refl stocked_inv).
Defined.

Lemma prepaid_books_balance_witness :
  ∃ w', (buy one_sim_provider sample_env stocked_world).2 = w' ∧ prepaid_inv (db w').
Proof.
  destruct (buy one_sim_provider sample_env stocked_world) as [r w'] eqn:E.
  exists w'. split; [reflexivity|].
  refine (proj1 (prepaid_books_balance blank_json sample_sha (orders_provider := one_sim_provider)
    _ _ sample_env stocked_world r w' (op_fulfill _ _ 7 cheap_package None false (Some "key") (Some 1%N) _)
    eq_refl stocked_inv E)).
  by exists 400.
Defined.

Lemma transfer_outcome_witness :
  ∃ res w', transfer_esim_inventory 5 (Some 8%N) sample_env stocked_world = (Ok res, w') ∧
    xf_transferred res = true ∧ prepaid_tables (db w') = prepaid_tables stocked_db.
Proof.
  assert (Hok : match transfer_esim_inventory 5 (Some 8%N) sample_env stocked_world with
                | (Ok res, _) => xf_transferred res | _ => false end = true) by (vm_compute; reflexivity).
  destruct (transfer_esim_inventory 5 (Some 8%N) sample_env stocked_world) as [[res|x] w'] eqn:E; [|done].
  exists res, w'. split; [reflexivity|]. split; [exact Hok|].
  exact (proj1 (transfer_outcome sample_sha 5 8 sample_env stocked_world res w' E eq_refl
    stocked_keyed stocked_inv)).
Defined.
