(* ===== verification/AutoTopup.v ===== *)
(** * Auto top-up

    [apps/esims/services/auto_topup_service.py] and the trigger methods of
    [EsimAutoTopupPolicy] ([apps/esims/models.py]): the policies that buy a
    top-up when usage runs low or the plan expires, the beat that evaluates
    them, and the optimistic edits of their owners. *)

From S2P Require Import Prelude Strings Tables Money Models EsimModels World Effects Credit.
From S2P Require Import Settlement Margin Pricing Spend Lifecycle Orders Topups.
#[local] Open Scope Z_scope.

(** ** Times as text

    [isoformat()] of an instant is an injective text, and [fromisoformat]
    reads it back. *)

Definition instant_text (t : instant) : string := pretty t.
Definition fromisoformat (s : string) : option instant := int_base10 s.

Definition seconds (n : Z) : Z := n * 1000000.

(** [canonical_utc_stamp]: the second an instant lies in. *)
Definition whole_second (t : instant) : instant := seconds (t / seconds 1).
Definition canonical_utc_stamp (value : instant) : string := instant_text (whole_second value).

(** ** The trigger methods of a policy *)

Definition fire_reason_text (r : FireReason) : string :=
  match r with
  | TRIGGER_EXPIRY => "expiry"
  | TRIGGER_USAGE_THRESHOLD => "usage_threshold"
  | TRIGGER_USAGE_ZERO => "usage_zero"
  end.

Definition fields_from_legacy_trigger (trigger_mode : string) : Res (bool * UsageMode) :=
  if bool_decide (trigger_mode = "expiry") then Ok (true, USAGE_DISABLED)
  else if bool_decide (trigger_mode = "usage_threshold") then Ok (false, USAGE_THRESHOLD)
  else if bool_decide (trigger_mode = "usage_zero") then Ok (false, USAGE_ZERO)
  else Raise (ValueError "Unknown legacy trigger_mode").

Definition apply_legacy_trigger_mode (p : EsimAutoTopupPolicy) (trigger_mode : string)
    (threshold_mb : option Z) : Res EsimAutoTopupPolicy :=
  match fields_from_legacy_trigger trigger_mode with
  | Raise x => Raise x
  | Ok (expiry_enabled, usage_mode) =>
      Ok (p <| pol_expiry_enabled := expiry_enabled |> <| pol_usage_mode := usage_mode |>
            <| pol_threshold_mb := if bool_decide (usage_mode = USAGE_THRESHOLD)
                                   then threshold_mb else None |>)
  end.

Definition legacy_trigger_mode (p : EsimAutoTopupPolicy) : FireReason :=
  let mode := pol_usage_mode p in
  if pol_expiry_enabled p && bool_decide (mode = USAGE_DISABLED) then TRIGGER_EXPIRY
  else if negb (pol_expiry_enabled p) && bool_decide (mode = USAGE_THRESHOLD)
  then TRIGGER_USAGE_THRESHOLD
  else if negb (pol_expiry_enabled p) && bool_decide (mode = USAGE_ZERO) then TRIGGER_USAGE_ZERO
  else if pol_expiry_enabled p then TRIGGER_EXPIRY
  else if bool_decide (mode = USAGE_THRESHOLD) then TRIGGER_USAGE_THRESHOLD
  else if bool_decide (mode = USAGE_ZERO) then TRIGGER_USAGE_ZERO
  else TRIGGER_EXPIRY.

(** ** Deciding whether to buy *)

(** [policy.enabled and policy.status == ACTIVE] *)
Definition is_live (p : EsimAutoTopupPolicy) : bool :=
  pol_enabled p && bool_decide (pol_status p = POL_ACTIVE).

Definition _expiry_met (s : Esim) (now : instant) : bool :=
  match us_expired_at (esim_usage s) with
  | None => false
  | Some expired_at => expired_at <=? now
  end.

(** The usage of a metered eSIM satisfies [P]; never of an unlimited one, or
    while its usage is unknown. *)
Definition metered (s : Esim) (P : Z → bool) : bool :=
  match us_is_unlimited (esim_usage s), us_remaining_mb (esim_usage s) with
  | Some true, _ => false
  | _, None => false
  | _, Some remaining => P remaining
  end.

Definition _select_fire_reason (p : EsimAutoTopupPolicy) (s : Esim) (now : instant)
    : option FireReason :=
  if pol_expiry_enabled p && _expiry_met s now then Some TRIGGER_EXPIRY
  else
    match pol_usage_mode p with
    | USAGE_THRESHOLD =>
        if metered s (λ remaining, remaining <? default 0 (pol_threshold_mb p))
        then Some TRIGGER_USAGE_THRESHOLD else None
    | USAGE_ZERO =>
        if metered s (λ remaining, remaining <=? 0) then Some TRIGGER_USAGE_ZERO else None
    | USAGE_DISABLED => None
    end.

Definition _trigger_met (p : EsimAutoTopupPolicy) (s : Esim) (now : instant) : bool :=
  match _select_fire_reason p s now with Some _ => true | None => false end.

(** [f"auto-topup:{policy.pk}:{reason}:"] *)
Definition key_prefix (p : EsimAutoTopupPolicy) (reason : FireReason) : string :=
  "auto-topup:" +:+ str (pol_id p) +:+ ":" +:+ fire_reason_text reason +:+ ":".

Definition _UNKNOWN_EPOCH : string := "unknown".

Definition _idempotency_key (p : EsimAutoTopupPolicy) (s : Esim) (reason : FireReason)
    : Res string :=
  if bool_decide (reason = TRIGGER_EXPIRY) then
    match us_expired_at (esim_usage s) with
    | None => Raise (ValueError "expiry idempotency requires usage_expired_at")
    | Some expired_at => Ok (key_prefix p reason +:+ canonical_utc_stamp expired_at)
    end
  else
    Ok (key_prefix p reason +:+
        match us_synced_at (esim_usage s) with
        | Some synced_at => instant_text synced_at
        | None => _UNKNOWN_EPOCH
        end).

Definition _same_expiry_episode (p : EsimAutoTopupPolicy) (s : Esim) : bool :=
  match us_expired_at (esim_usage s) with
  | None => false
  | Some expired_at =>
      let last := pol_last_idempotency_key p in
      let prefix := key_prefix p TRIGGER_EXPIRY in
      if negb (startswith prefix last) then false
      else
        let stamp := sdrop (String.length prefix) last in
        if bool_decide (stamp = "") || bool_decide (stamp = _UNKNOWN_EPOCH) then false
        else
          match fromisoformat stamp with
          | None => false
          | Some previous =>
              bool_decide (canonical_utc_stamp previous = canonical_utc_stamp expired_at)
          end
  end.

Definition _past_minimum_age (s : Esim) (now : instant) : M bool :=
  let! min_age := asks AUTO_TOPUP_MINIMUM_AGE_SECONDS in
  let anchor := default (esim_created_at s) (esim_setup_completed_at s) in
  ret (seconds min_age <=? now - anchor).

(** ** Rollout *)

Definition _master_enabled : M bool :=
  let! enabled := asks AUTO_TOPUP_ENABLED in
  let! billing := asks BILLING_ENABLED in
  ret (enabled && billing).

(** [account.user] *)
Definition account_user (account : Account) : M (option User) :=
  match acc_user account with
  | None => ret None
  | Some id => let! u := get users id in ret (Some u)
  end.

Section Service.
Context (sha256 : string → string) (parse_datetime : string → Res (option instant)).
Context {provider : TopupProvider}.

(** [int(sha256(str(account.pk)).hexdigest()[:8], 16) % 100] *)
Definition rollout_bucket (account : Account) : Res Z :=
  match digits 16 false 0 (stake 8 (sha256 (str (acc_id account)))) with
  | None => Raise (ValueError "invalid literal for int()")
  | Some n => Ok (n mod 100)
  end.

Definition rollout_allows_account (account : Account) : M bool :=
  let! enabled := _master_enabled in
  if negb enabled then ret false
  else
    let! mode := asks AUTO_TOPUP_ROLLOUT_MODE in
    let mode := lower mode in
    if bool_decide (mode = "") || bool_decide (mode = "off") then ret false
    else if bool_decide (mode = "all") then ret true
    else
      let! user := account_user account in
      if bool_decide (mode = "staff") then
        match user with Some u => ret (user_is_staff u) | None => raise AttributeError end
      else if bool_decide (mode = "allowlist") then
        let! allow := asks AUTO_TOPUP_ALLOWLIST_ACCOUNT_IDS in
        ret (bool_decide (str (acc_id account) ∈ allow))
      else if bool_decide (mode = "percent") then
        let! percent := asks AUTO_TOPUP_ROLLOUT_PERCENT in
        if percent <=? 0 then ret false
        else if 100 <=? percent then ret true
        else let! bucket := lift (rollout_bucket account) in ret (bucket <? percent)
      else ret false.

(** ** Events and metrics *)

(** [_safe_publish], [_metric_incr] *)
Definition _safe_publish (ev : Event) : M unit := try_except (publish ev) (λ _, Some (ret tt)).
Definition _metric_incr (name : string) : M unit := try_except (incr name) (λ _, Some (ret tt)).
Definition _metric_observe (name : string) : M unit := _metric_incr name.

Definition tagged (name reason : string) : string := name +:+ "{reason=" +:+ reason +:+ "}".

Definition _deposit_url : M string :=
  let! base := asks FRONTEND_BASE_URL in
  ret (rstrip_char "/" base +:+ "/me/deposit").

(** [policy.pk] is [None] on an instance that was deleted. *)
Definition _policy_created_event (id : option pk) (p : EsimAutoTopupPolicy) (actor : string)
    : M Event :=
  let! created_at := now in
  ret (AutoTopupPolicyCreated id (pol_account p) (pol_esim p) (pol_package_id p) (pol_enabled p)
         (pol_status p) (pol_reason p) (legacy_trigger_mode p) (pol_renew_mode p) (pol_version p)
         actor created_at).
Definition _policy_updated_event (id : option pk) (p : EsimAutoTopupPolicy) (actor : string)
    : M Event :=
  let! created_at := now in
  ret (AutoTopupPolicyUpdated id (pol_account p) (pol_esim p) (pol_package_id p) (pol_enabled p)
         (pol_status p) (pol_reason p) (legacy_trigger_mode p) (pol_renew_mode p) (pol_version p)
         actor created_at).

Definition publish_policy_created (id : option pk) (p : EsimAutoTopupPolicy) (actor : string)
    : M unit :=
  let! ev := _policy_created_event id p actor in _safe_publish ev.
Definition publish_policy_updated (id : option pk) (p : EsimAutoTopupPolicy) (actor : string)
    : M unit :=
  let! ev := _policy_updated_event id p actor in _safe_publish ev.
(** ** Evaluating a policy *)

Inductive Outcome := success | skipped | paused | blocked | failed.

#[export] Instance Outcome_eq_dec : EqDecision Outcome.
Proof. solve_decision. Defined.

(** What [_prepare] returns: an outcome, the schedule's end, or what to buy,
    with the account it may be charged to. *)
Inductive Prepared :=
  | Finished (o : Outcome)
  | Schedule_ended
  | Buy (esim : Esim) (package_id key : string) (fire_reason : FireReason) (account : Account).

(** [select_related("account", "esim").get(pk=policy_id)] *)
Definition policy_joined (id : pk) (d : Db) : option (EsimAutoTopupPolicy * Account * Esim) :=
  match policies d !! id with
  | None => None
  | Some p =>
      match accounts d !! pol_account p, esims d !! pol_esim p with
      | Some a, Some s => Some (p, a, s)
      | _, _ => None
      end
  end.

(** The cached usage is at most [max_age] old. *)
Definition is_fresh (max_age : Z) (synced : option instant) : M bool :=
  match synced with
  | None => ret false
  | Some t => let! now := now in ret (now - t <=? max_age)
  end.

(** [try: self._usage.get_usage(esim) except Exception: return False] *)
Definition try_refresh (s : Esim) : M bool :=
  try_except (let! _ := get_usage parse_datetime s in ret true) (λ _, Some (ret false)).

(** Ask the provider, and look at the row again. *)
Definition refresh_usage (s : Esim) (max_age : Z) : M bool :=
  let! refreshed := try_refresh s in
  if negb refreshed then ret false
  else
    let! row := get esims (esim_id s) in
    is_fresh max_age (us_synced_at (esim_usage row)).

Definition _ensure_fresh_usage (s : Esim) : M bool :=
  let! max_age := asks AUTO_TOPUP_USAGE_MAX_AGE_SECONDS in
  let synced := us_synced_at (esim_usage s) in
  let! now := now in
  if match synced with Some t => now - t <=? seconds max_age | None => false end then ret true
  else refresh_usage s (seconds max_age).

(** The first block of [_prepare]: the eSIM of a live policy in the rollout. *)
Definition admit_policy (id : pk) : M (option Esim) :=
  atomic (
    let! joined := locked_query (policy_joined id) in
    match joined with
    | None => ret None
    | Some (p, account, esim) =>
        if negb (is_live p) then ret None
        else
          let! allowed := rollout_allows_account account in
          ret (if allowed then Some esim else None)
    end).

(** The pause at the end of the schedule. *)
Definition end_schedule (p : EsimAutoTopupPolicy) : M Prepared :=
  let! _ := save_policy p (λ p, p <| pol_status := POL_PAUSED |>
                                   <| pol_reason := Some SCHEDULE_ENDED |>) in
  ret Schedule_ended.

(** The purchase of a policy that fires. *)
Definition fire_policy (p : EsimAutoTopupPolicy) (account : Account) (s : Esim) (now : instant)
    : M Prepared :=
  match _select_fire_reason p s now with
  | None => ret (Finished skipped)
  | Some reason =>
      if bool_decide (reason = TRIGGER_EXPIRY) && _same_expiry_episode p s
      then ret (Finished skipped)
      else
        let! key := lift (_idempotency_key p s reason) in
        ret (Buy s (pol_package_id p) key reason account)
  end.

(** The decision on a live policy and the current row of its eSIM. *)
Definition decide_live (p : EsimAutoTopupPolicy) (account : Account) (s : Esim) : M Prepared :=
  let! now := now in
  if match pol_cooldown_until p with Some t => now <? t | None => false end
  then ret (Finished skipped)
  else
    let! old_enough := _past_minimum_age s now in
    if negb old_enough then ret (Finished skipped)
    else if match pol_active_until p with Some t => t <=? now | None => false end
    then end_schedule p
    else fire_policy p account s now.

(** The second block: decide under the policy's lock. *)
Definition decide_policy (id : pk) : M Prepared :=
  atomic (
    let! joined := locked_query (policy_joined id) in
    match joined with
    | None => raise DoesNotExist
    | Some (p, account, s) =>
        if negb (is_live p) then ret (Finished skipped)
        else let! s := get esims (esim_id s) in decide_live p account s
    end).

Definition _prepare (id : pk) : M Prepared :=
  let! admitted := admit_policy id in
  match admitted with
  | None => ret (Finished skipped)
  | Some esim =>
      let! fresh := _ensure_fresh_usage esim in
      if negb fresh then
        _metric_incr (tagged "auto_topup_failed_total" "usage_stale");;;
        ret (Finished skipped)
      else decide_policy id
  end.

(** The remaining count after a success, and whether it ran out. *)
Definition count_down (p : EsimAutoTopupPolicy) : option Z * bool :=
  match pol_renew_mode p with
  | FIXED_COUNT =>
      let after := Z.max (default 0 (pol_remaining_count p) - 1) 0 in
      (Some after, after =? 0)
  | UNTIL_FUNDS => (pol_remaining_count p, false)
  end.

(** The columns a success saves. *)
Definition succeed (now cooldown : Z) (topup : pk) (key : string) (counted : option Z * bool)
    (q : EsimAutoTopupPolicy) : EsimAutoTopupPolicy :=
  let q := q <| pol_cooldown_until := Some (now + cooldown) |>
             <| pol_last_triggered_at := Some now |> <| pol_last_topup := Some topup |>
             <| pol_last_idempotency_key := key |> in
  let q := match pol_renew_mode q with
           | FIXED_COUNT => q <| pol_remaining_count := counted.1 |>
           | UNTIL_FUNDS => q end in
  if counted.2
  then q <| pol_status := POL_PAUSED |> <| pol_reason := Some COUNT_EXHAUSTED |> else q.

Definition _on_success (id : pk) (topup : Topup) (key : string) (fire_reason : FireReason)
    : M Outcome :=
  let! result := atomic (
    let! p := get_locked policies id in
    let! cooldown := asks AUTO_TOPUP_COOLDOWN_SECONDS in
    let! now := now in
    let counted := count_down p in
    let! _ := save_policy p (succeed now (seconds cooldown) (top_id topup) key counted) in
    ret (AutoTopupSucceeded (pol_id p) (top_id topup) (pol_package_id p) (top_amount topup)
           counted.1 (pol_account p) (pol_esim p) now, counted.2)) in
  _safe_publish result.1;;;
  _metric_incr "auto_topup_success_total";;;
  _metric_incr (tagged "auto_topup_trigger_reason_total" (fire_reason_text fire_reason));;;
  (if result.2 : bool then _metric_incr (tagged "auto_topup_paused_total" "count_exhausted")
   else ret tt);;;
  ret success.

Definition _finalize_schedule_ended (id : pk) : M Outcome :=
  let! joined := query (policy_joined id) in
  match joined with
  | None => raise DoesNotExist
  | Some (p, _, _) =>
      publish_policy_updated (Some (pol_id p)) p "system";;;
      _metric_incr (tagged "auto_topup_paused_total" "schedule_ended");;;
      ret paused
  end.

Definition _pause_funds (id : pk) (balance required : money) : M Outcome :=
  let! ev := atomic (
    let! p := get_locked policies id in
    let! p := save_policy p (λ p, p <| pol_status := POL_PAUSED |>
                                     <| pol_reason := Some INSUFFICIENT_FUNDS |>) in
    let! url := _deposit_url in
    let! created_at := now in
    ret (AutoTopupPausedFunds (pol_id p) (pol_account p) (pol_esim p) (pol_package_id p) required
           balance url created_at)) in
  _safe_publish ev;;;
  _metric_incr (tagged "auto_topup_paused_total" "insufficient_funds");;;
  ret paused.

Definition _block_package (id : pk) : M Outcome :=
  atomic (
    let! p := get_locked policies id in
    let! _ := save_policy p (λ p, p <| pol_status := POL_BLOCKED |>
                                     <| pol_reason := Some PACKAGE_UNAVAILABLE |>) in
    ret tt);;;
  _metric_incr (tagged "auto_topup_paused_total" "package_unavailable");;;
  ret blocked.

(** The [except] clauses around the purchase. *)
Definition on_purchase_error (id : pk) (x : Exn) : option (M Outcome) :=
  match x with
  | EsimOwnershipChanged => Some (ret skipped)
  | InsufficientFundsError balance required => Some (_pause_funds id balance required)
  | TopupPackageNotFoundError => Some (_block_package id)
  | SpendInProgressError =>
      Some (_metric_incr (tagged "auto_topup_failed_total" "spend_in_progress");;; ret failed)
  | ProviderFulfillmentError =>
      Some (_metric_incr (tagged "auto_topup_failed_total" "provider_timeout");;; ret failed)
  | _ => None
  end.

Definition buy_topup (id : pk) (s : Esim) (package_id key : string) (fire_reason : FireReason)
    (account : Account) : M Outcome :=
  let! bought := try_except
    (let! topup := purchase sha256 s package_id key (Some account) in ret (inl topup))
    (λ x, match on_purchase_error id x with
          | None => None
          | Some handler => Some (let! o := handler in ret (inr o))
          end) in
  match bought with
  | inl topup => _on_success id topup key fire_reason
  | inr o => ret o
  end.

Definition _evaluate_one_inner (id : pk) : M Outcome :=
  let! prepared := _prepare id in
  match prepared with
  | Finished o => ret o
  | Schedule_ended => _finalize_schedule_ended id
  | Buy s package_id key fire_reason account => buy_topup id s package_id key fire_reason account
  end.

(** [try: m finally: k] *)
Definition finally {A} (m : M A) (k : M unit) : M A := λ e w,
  let '(r, w1) := m e w in
  match k e w1 with
  | (Ok _, w2) => (r, w2)
  | (Raise x, w2) => (Raise x, w2)
  end.

Definition evaluate_one (id : pk) : M Outcome :=
  _metric_incr "auto_topup_attempts_total";;;
  finally (_evaluate_one_inner id) (_metric_observe "auto_topup_duration_seconds").

(** The counters of a beat. *)
Record Stats := mkStats {
  st_success : Z; st_skipped : Z; st_paused : Z; st_blocked : Z; st_failed : Z;
}.

Definition count_outcome (st : Stats) (o : Outcome) : Stats :=
  let '(mkStats s k p b f) := st in
  match o with
  | success => mkStats (s + 1) k p b f
  | skipped => mkStats s (k + 1) p b f
  | paused => mkStats s k (p + 1) b f
  | blocked => mkStats s k p (b + 1) f
  | failed => mkStats s k p b (f + 1)
  end.

(** The enabled active policies, oldest first. *)
Definition created_le (p q : EsimAutoTopupPolicy) : Prop := pol_created_at p ≤ pol_created_at q.
#[local] Instance created_le_dec : RelDecision created_le.
Proof. intros p q. unfold created_le. apply _. Defined.
Definition due_policies (d : Db) : list pk :=
  pol_id <$> merge_sort created_le (qall is_live (policies d)).

(** [evaluate_due]: [None] is [{"disabled": 1}]. *)
Definition evaluate_due : M (option Stats) :=
  let! enabled := _master_enabled in
  if negb enabled then ret None
  else
    let! ids := query due_policies in
    let! stats := fold_each ids (mkStats 0 0 0 0 0)
      (λ st id, let! o := evaluate_one id in ret (count_outcome st o)) in
    ret (Some stats).
End Service.

(** ** The owner's edits *)

(** The arguments of [upsert_policy]; [in_expected_version] is the optimistic
    lock. *)
Record PolicyInput := mkPolicyInput {
  in_package_id : string;
  in_expiry_enabled : bool;
  in_usage_mode : UsageMode;
  in_renew_mode : RenewMode;
  in_threshold_mb : option Z;
  in_remaining_count : option Z;
  in_active_until : option instant;
  in_enabled : bool;
  in_expected_version : option Z;
  in_actor : string;
}.

Definition version_conflict : Exn := LookupError "version_conflict".

(** The threshold is dropped unless the mode uses it. *)
Definition kept_threshold (i : PolicyInput) : option Z :=
  if bool_decide (in_usage_mode i = USAGE_THRESHOLD) then in_threshold_mb i else None.

Definition edited_status (enabled : bool) : PolicyStatus :=
  if enabled then POL_ACTIVE else POL_DISABLED.
Definition edited_reason (enabled : bool) : option PolicyReason :=
  if enabled then None else Some MANUAL_PAUSE.

Definition trigger_config (p : EsimAutoTopupPolicy) : bool * UsageMode * option Z :=
  (pol_expiry_enabled p, pol_usage_mode p, pol_threshold_mb p).

#[export] Instance config_eq_dec : EqDecision (bool * UsageMode * option Z).
Proof. solve_decision. Defined.

(** The row an edit makes of [p]; a change of the trigger configuration ends
    the cooldown. *)
Definition edited (p : EsimAutoTopupPolicy) (i : PolicyInput) (version : Z) : EsimAutoTopupPolicy :=
  let q := p <| pol_package_id := in_package_id i |>
             <| pol_expiry_enabled := in_expiry_enabled i |>
             <| pol_usage_mode := in_usage_mode i |> <| pol_threshold_mb := kept_threshold i |> in
  let q := if bool_decide (trigger_config p = trigger_config q) then q
           else q <| pol_cooldown_until := None |> in
  q <| pol_renew_mode := in_renew_mode i |> <| pol_remaining_count := in_remaining_count i |>
    <| pol_active_until := in_active_until i |> <| pol_enabled := in_enabled i |>
    <| pol_status := edited_status (in_enabled i) |>
    <| pol_reason := edited_reason (in_enabled i) |> <| pol_version := version + 1 |>.

Arguments edited : simpl never.

Definition _is_manual_funds_resume (before_status : PolicyStatus)
    (before_reason : option PolicyReason) (p : EsimAutoTopupPolicy) : bool :=
  bool_decide (before_status = POL_PAUSED) &&
  bool_decide (before_reason = Some INSUFFICIENT_FUNDS) && pol_enabled p &&
  bool_decide (pol_status p = POL_ACTIVE) && bool_decide (pol_reason p = None).

Section Edits.
Context (sha256 : string → string).
Context {provider : TopupProvider}.

(** The checks on the arguments, in the order of the code. *)
Definition check_input (s : Esim) (package : TopupPackage) (i : PolicyInput) : M unit :=
  let mode := in_usage_mode i in
  raise_if ((bool_decide (mode = USAGE_ZERO) || bool_decide (mode = USAGE_THRESHOLD)) &&
            (tp_is_unlimited package ||
             bool_decide (us_is_unlimited (esim_usage s) = Some true)))
    (ValueError "usage_mode zero/threshold cannot be used with unlimited packages");;;
  raise_if (bool_decide (mode = USAGE_THRESHOLD) && bool_decide (in_threshold_mb i = None))
    (ValueError "threshold_mb is required when usage_mode is threshold");;;
  raise_if (in_enabled i && negb (in_expiry_enabled i) && bool_decide (mode = USAGE_DISABLED))
    (ValueError "enabled policy requires expiry_enabled and/or a usage_mode");;;
  raise_if (bool_decide (in_renew_mode i = FIXED_COUNT) && bool_decide (in_remaining_count i = None))
    (ValueError "remaining_count is required for fixed_count");;;
  match in_active_until i with
  | Some bound =>
      if in_enabled i then
        let! now := now in
        raise_if (bound <=? now)
          (ValueError "active_until must be in the future when the policy is enabled")
      else ret tt
  | None => ret tt
  end.

(** [EsimAutoTopupPolicy(...).save()] *)
Definition create_policy (s : Esim) (account : Account) (i : PolicyInput) : M EsimAutoTopupPolicy :=
  let! id := uuid4 in
  let! created_at := now in
  let p := mkPolicy id (acc_id account) (esim_id s) (in_package_id i) (in_enabled i)
    (edited_status (in_enabled i)) (edited_reason (in_enabled i)) (in_expiry_enabled i)
    (in_usage_mode i) (kept_threshold i) (in_renew_mode i) (in_remaining_count i)
    (in_active_until i) None None None "" 0 created_at in
  create policies policy_verdict id p;;;
  ret p.

(** The transaction: the policy before, the policy after, and the evaluations
    to enqueue on commit. *)
Definition write_policy (s : Esim) (account : Account) (i : PolicyInput)
    : M (option EsimAutoTopupPolicy * EsimAutoTopupPolicy * list pk) :=
  atomic (
    let! existing := locked_query (policy_of_esim (esim_id s)) in
    match existing, in_expected_version i with
    | None, Some _ => raise version_conflict
    | None, None => let! p := create_policy s account i in ret (None, p, [])
    | Some _, None => raise version_conflict
    | Some existing, Some expected_version =>
        raise_if (negb (pol_version existing =? expected_version)) version_conflict;;;
        let p := edited existing i expected_version in
        save_row policies policy_verdict (pol_id p) p;;;
        let resume := _is_manual_funds_resume (pol_status existing) (pol_reason existing) p in
        ret (Some existing, p, if resume then [pol_id p] else [])
    end).

Definition publish_edit (before : option EsimAutoTopupPolicy) (p : EsimAutoTopupPolicy)
    (actor : string) : M unit :=
  match before with
  | None => publish_policy_created (Some (pol_id p)) p actor
  | Some q =>
      publish_policy_updated (Some (pol_id p)) p actor;;;
      if bool_decide (trigger_config q = trigger_config p) then ret tt
      else
        let! created_at := now in
        _safe_publish (AutoTopupConfigurationChanged (pol_id p) (pol_account p) (pol_esim p)
                         (trigger_config q) (trigger_config p) (pol_version p) actor created_at)
  end.

(** [upsert_policy]: the policy, and the evaluations enqueued on commit. *)
Definition upsert_policy (s : Esim) (account : Account) (i : PolicyInput)
    : M (EsimAutoTopupPolicy * list pk) :=
  let! allowed := rollout_allows_account sha256 account in
  raise_if (negb allowed) PermissionError;;;
  let! packages := list_topups (esim_iccid s) in
  match List.find (λ p, bool_decide (tp_external_id p = in_package_id i)) packages with
  | None => raise TopupPackageNotFoundError
  | Some package =>
      check_input s package i;;;
      let! busy := query (λ d, qexists (λ t, (top_esim t =? esim_id s)%N &&
                            bool_decide (top_status t = TOP_FULFILLING)) (topups d)) in
      raise_if busy SpendInProgressError;;;
      let! written := write_policy s account i in
      let '(before, p, enqueued) := written in
      publish_edit before p (in_actor i);;;
      ret (p, enqueued)
  end.

(** [delete_policy]; [snapshot] is the deleted instance itself, whose [pk]
    Django has cleared. *)
Definition delete_policy (s : Esim) (expected_version : option Z) (actor : string) : M unit :=
  let! snapshot := atomic (
    let! existing := locked_query (policy_of_esim (esim_id s)) in
    match existing with
    | None => raise DoesNotExist
    | Some existing =>
        raise_if (negb (bool_decide (expected_version = Some (pol_version existing))))
          version_conflict;;;
        delete_row policies (pol_id existing);;;
        ret existing
    end) in
  publish_policy_updated None snapshot actor.
End Edits.

(** ** Keys and episodes *)

Lemma fromisoformat_text t : fromisoformat (instant_text t) = Some t.
Proof. apply int_base10_pretty. Qed.

Lemma whole_second_idem t : whole_second (whole_second t) = whole_second t.
Proof. unfold whole_second, seconds. by rewrite Z.div_mul. Qed.

Lemma instant_text_nonempty t : instant_text t ≠ "" ∧ instant_text t ≠ _UNKNOWN_EPOCH.
Proof. split; intros H; pose proof (fromisoformat_text t) as E; by rewrite H in E. Qed.

(** A policy that last bought for the expiry [t] recognises exactly the
    expiries in the same second. *)
Lemma same_episode p s t u :
  pol_last_idempotency_key p = key_prefix p TRIGGER_EXPIRY +:+ canonical_utc_stamp t →
  us_expired_at (esim_usage s) = Some u →
  _same_expiry_episode p s = bool_decide (whole_second t = whole_second u).
Proof.
  intros Hl Hu. unfold _same_expiry_episode. rewrite Hu, Hl, startswith_app, sdrop_app. simpl.
  destruct (instant_text_nonempty (whole_second t)) as [? ?]. unfold canonical_utc_stamp.
  rewrite !bool_decide_false by done. simpl. rewrite fromisoformat_text, whole_second_idem.
  apply bool_decide_ext. split; [apply (inj pretty)|by intros ->].
Qed.

(** The key of a purchase for an expiry is the key the episode test reads. *)
Lemma expiry_key p s t key :
  us_expired_at (esim_usage s) = Some t → _idempotency_key p s TRIGGER_EXPIRY = Ok key →
  key = key_prefix p TRIGGER_EXPIRY +:+ canonical_utc_stamp t.
Proof. unfold _idempotency_key. simpl. intros ->. by intros [= <-]. Qed.

(** ** The invariant of the policy table *)

(** What the table checks of a row on its own. *)
Definition row_fits (p : EsimAutoTopupPolicy) : bool :=
  fits_opt (pol_threshold_mb p) && fits_opt (pol_remaining_count p) &&
  (pol_version p <=? max_int32) &&
  (policy_checks p && nonneg (pol_threshold_mb p) && nonneg (pol_remaining_count p) &&
   (0 <=? pol_version p)).

(** A status explains itself: who is disabled, paused or blocked says why, and
    only a policy its owner enabled can be active, paused or blocked. *)
Definition status_shape (p : EsimAutoTopupPolicy) : bool :=
  match pol_status p, pol_enabled p, pol_reason p with
  | POL_ACTIVE, true, None => true
  | POL_PAUSED, true, Some (INSUFFICIENT_FUNDS | COUNT_EXHAUSTED | SCHEDULE_ENDED) => true
  | POL_BLOCKED, true, Some PACKAGE_UNAVAILABLE => true
  | POL_DISABLED, false, Some MANUAL_PAUSE => true
  | _, _, _ => false
  end.

(** An enabled policy has a trigger, and a threshold exactly when it uses it. *)
Definition trigger_shape (p : EsimAutoTopupPolicy) : bool :=
  (negb (pol_enabled p) || pol_expiry_enabled p || negb (bool_decide (pol_usage_mode p = USAGE_DISABLED))) &&
  Bool.eqb (bool_decide (pol_usage_mode p = USAGE_THRESHOLD)) (bool_decide (is_Some (pol_threshold_mb p))).

Definition policy_ok (p : EsimAutoTopupPolicy) : bool :=
  row_fits p && status_shape p && trigger_shape p.

Record policy_inv (d : Db) : Prop := {
  pv_id : ∀ k p, policies d !! k = Some p → pol_id p = k;
  pv_ok : ∀ k p, policies d !! k = Some p → policy_ok p = true;
  pv_esim : ∀ j k p q, policies d !! j = Some p → policies d !! k = Some q →
    pol_esim p = pol_esim q → j = k;
}.

Lemma policy_verdict_None d p :
  policy_verdict d p = None ↔
  row_fits p = true ∧ ∀ k q, policies d !! k = Some q → pol_esim q = pol_esim p → pol_id q = pol_id p.
Proof.
  unfold policy_verdict, row_fits. destruct (fits_opt _ && _ && _) eqn:E1; simpl;
    [|by split; [|intros [? _]]].
  destruct (policy_checks p && _ && _ && _) eqn:E2; simpl; [|by split; [|intros [? _]]].
  destruct (qexists _ _) eqn:E3.
  - split; [done|]. intros [_ H]. apply qexists_true in E3 as (k & q & Hq & Hc).
    apply andb_true_iff in Hc as [He Hn]. apply N.eqb_eq in He. by rewrite (H k q), N.eqb_refl in Hn.
  - split; [|done]. intros _. split; [done|]. intros k q Hq He. rewrite qexists_false in E3.
    specialize (E3 k q Hq). simpl in E3. rewrite He, N.eqb_refl in E3. simpl in E3.
    by apply negb_false_iff, N.eqb_eq in E3.
Qed.

Lemma policy_inv_put d d' k q :
  policy_inv d → policies d' = <[k := q]> (policies d) → pol_id q = k → policy_ok q = true →
  (∀ j p, policies d !! j = Some p → j ≠ k → pol_esim p ≠ pol_esim q) → policy_inv d'.
Proof.
  intros [Hid Hok He] Hd Hk Hq Hu. split; rewrite Hd.
  - by intros j p [[<- <-]|[_ ?]]%lookup_insert_Some; [|eauto].
  - by intros j p [[<- <-]|[_ ?]]%lookup_insert_Some; [|eauto].
  - intros i j p p' [[<- <-]|[Hi Hp]]%lookup_insert_Some [[<- <-]|[Hj Hp']]%lookup_insert_Some E;
      [done|by destruct (Hu j p')|by destruct (Hu i p)|eauto].
Qed.

(** A change of one stored row. *)
Lemma policy_inv_update d d' k p q :
  policy_inv d → policies d !! k = Some p → policies d' = <[k := q]> (policies d) →
  pol_id q = pol_id p → pol_esim q = pol_esim p → policy_ok q = true → policy_inv d'.
Proof.
  intros Hinv Hp Hd Hid He Hq. eapply policy_inv_put; try done.
  - rewrite Hid. by eapply pv_id.
  - intros j p' Hp' Hne E. apply Hne. eapply (pv_esim d Hinv); eauto. congruence.
Qed.

Lemma policy_inv_same d d' : policies d' = policies d → policy_inv d → policy_inv d'.
Proof. intros Hp [? ? ?]. split; by rewrite Hp. Qed.

(** ** Transitions of a live policy *)

Lemma live_policy p : policy_ok p = true → is_live p = true →
  pol_enabled p = true ∧ pol_status p = POL_ACTIVE ∧ pol_reason p = None.
Proof.
  unfold policy_ok, status_shape, is_live. intros Hok Hl. bool_to_prop.
  destruct (pol_status p), (pol_enabled p), (pol_reason p) as [[]|]; naive_solver.
Qed.

Definition schedule_paused (p : EsimAutoTopupPolicy) : EsimAutoTopupPolicy :=
  p <| pol_status := POL_PAUSED |> <| pol_reason := Some SCHEDULE_ENDED |>.
Definition funds_paused (p : EsimAutoTopupPolicy) : EsimAutoTopupPolicy :=
  p <| pol_status := POL_PAUSED |> <| pol_reason := Some INSUFFICIENT_FUNDS |>.
Definition package_blocked (p : EsimAutoTopupPolicy) : EsimAutoTopupPolicy :=
  p <| pol_status := POL_BLOCKED |> <| pol_reason := Some PACKAGE_UNAVAILABLE |>.

(** What the service makes of a live policy. *)
Inductive policy_next (p : EsimAutoTopupPolicy) : EsimAutoTopupPolicy → Prop :=
  | next_schedule : policy_next p (schedule_paused p)
  | next_funds : policy_next p (funds_paused p)
  | next_blocked : policy_next p (package_blocked p)
  | next_success now cooldown topup key :
      policy_next p (succeed now cooldown topup key (count_down p) p).

Lemma count_down_fits p :
  row_fits p = true →
  fits_opt (count_down p).1 = true ∧ nonneg (count_down p).1 = true ∧
  (pol_renew_mode p = FIXED_COUNT → is_Some (count_down p).1).
Proof.
  unfold count_down, row_fits, fits_opt, nonneg, fits_int32, max_int32. intros H. bool_to_prop.
  destruct (pol_renew_mode p), (pol_remaining_count p); simpl; bool_to_prop;
    rewrite ?andb_true_iff, ?Z.leb_le; split_and!; first [done|lia|eauto].
Qed.

Lemma row_fits_count p q :
  row_fits p = true → pol_threshold_mb q = pol_threshold_mb p → pol_version q = pol_version p →
  pol_usage_mode q = pol_usage_mode p → fits_opt (pol_remaining_count q) = true →
  nonneg (pol_remaining_count q) = true →
  (pol_renew_mode q = FIXED_COUNT → is_Some (pol_remaining_count q)) → row_fits q = true.
Proof.
  unfold row_fits, policy_checks. rewrite !andb_true_iff. intros Hf -> -> -> H1 H2 H3.
  destruct_and! Hf. split_and!; try done. destruct (pol_renew_mode q); [done|].
  by destruct H3 as [? ->].
Qed.

Lemma next_policy_ok p q :
  policy_ok p = true → is_live p = true → policy_next p q →
  policy_ok q = true ∧ pol_id q = pol_id p ∧ pol_esim q = pol_esim p.
Proof.
  intros Hok Hl Hn. destruct (live_policy _ Hok Hl) as (Hen & Hst & Hre).
  unfold policy_ok in *. apply andb_true_iff in Hok as [[Hf Hs]%andb_true_iff Ht].
  destruct Hn as [| | |now cooldown topup key].
  1-3: split; [|done]; unfold status_shape; simpl; rewrite Hen, andb_true_r;
    apply andb_true_iff; by split.
  destruct (count_down_fits p Hf) as (Hc1 & Hc2 & Hc3). unfold count_down, succeed in *.
  split; [|simpl; by repeat case_match]. rewrite !andb_true_iff.
  destruct (pol_renew_mode p) eqn:Hm; simpl in *; rewrite Hm; [|case_match]; simpl;
    (split; [split; [eapply row_fits_count; simpl; rewrite ?Hm; eauto|]|done]); unfold status_shape; simpl;
    by rewrite Hen, ?Hst, ?Hre.
Qed.

(** ** Running the saves

    On a stored live policy the service's saves cannot fail. *)
Section Saves.
Context (sha256 : string → string) (parse_datetime : string → Res (option instant)).
Context {provider : TopupProvider}.
Implicit Types (e : Env) (w : World).

(** [w'] is [w] with [q] for the policy [id], and more events and metrics. *)
Definition policy_saved (id : pk) (q : EsimAutoTopupPolicy) (w w' : World) : Prop :=
  db w' = put policies id q (db w) ∧ depth w' = depth w ∧ aborted w' = false.

Record stored_live (id : pk) (p : EsimAutoTopupPolicy) (w : World) : Prop := {
  sl_alive : aborted w = false;
  sl_inv : policy_inv (db w);
  sl_row : policies (db w) !! id = Some p;
  sl_live : is_live p = true;
}.

Lemma stored_live_ext id p w w' :
  stored_live id p w → policies (db w') = policies (db w) → aborted w' = false → stored_live id p w'.
Proof. intros [Ha Hi Hr Hl] Hp Ha'. split; [done|by eapply policy_inv_same|by rewrite Hp|done]. Qed.

Lemma save_policy_run id p f e w :
  stored_live id p w → policy_next p (f p) →
  save_policy p f e w = (Ok (f p), w <| db := put policies id (f p) (db w) |>).
Proof.
  intros [Ha Hinv Hr Hl] Hn. pose proof (pv_id _ Hinv _ _ Hr) as Hid.
  destruct (next_policy_ok _ _ (pv_ok _ Hinv _ _ Hr) Hl Hn) as (Hok & Hid' & He).
  unfold save_policy. rewrite Hid. erewrite bind_step; [done|].
  apply (save_fields_run policies policy_verdict id f e w p Ha Hr), policy_verdict_None. split.
  - unfold policy_ok in Hok. by do 2 apply andb_true_iff in Hok as [Hok _].
  - intros k q Hq Heq. assert (k = id) as -> by (eapply (pv_esim _ Hinv); [done..|congruence]). congruence.
Qed.

Lemma metric_run name e w : ∃ w', _metric_incr name e w = (Ok tt, w') ∧
  db w' = db w ∧ depth w' = depth w ∧ aborted w' = aborted w.
Proof. by eexists. Qed.
Lemma safe_publish_run ev e w : ∃ w', _safe_publish ev e w = (Ok tt, w') ∧
  db w' = db w ∧ depth w' = depth w ∧ aborted w' = aborted w.
Proof. by eexists. Qed.

Lemma pause_funds_run id balance required p e w :
  stored_live id p w →
  ∃ w', _pause_funds id balance required e w = (Ok paused, w') ∧ policy_saved id (funds_paused p) w w'.
Proof.
  intros Hs. assert (Hs' : stored_live id p (enter w)) by (by eapply stored_live_ext; [done| |apply Hs]).
  unfold _pause_funds. eexists. split.
  - erewrite bind_step; [|apply atomic_run; [|]]; [reflexivity| |].
    + erewrite bind_step by (by apply get_locked_run; [apply Hs|done|apply Hs]).
      erewrite bind_step by (by apply save_policy_run; [|apply next_funds]). reflexivity.
    + apply Hs.
  - split_and!; [done|done|apply Hs].
Qed.

Lemma block_package_run id p e w :
  stored_live id p w →
  ∃ w', _block_package id e w = (Ok blocked, w') ∧ policy_saved id (package_blocked p) w w'.
Proof.
  intros Hs. assert (Hs' : stored_live id p (enter w)) by (by eapply stored_live_ext; [done| |apply Hs]).
  unfold _block_package. eexists. split.
  - erewrite bind_step; [|apply atomic_run; [|]]; [reflexivity| |].
    + erewrite bind_step by (by apply get_locked_run; [apply Hs|done|apply Hs]).
      erewrite bind_step by (by apply save_policy_run; [|apply next_blocked]). reflexivity.
    + apply Hs.
  - split_and!; [done|done|apply Hs].
Qed.

(** The policy a success leaves behind. *)
Definition bought_policy (e : Env) (p : EsimAutoTopupPolicy) (topup : pk) (key : string)
    (q : EsimAutoTopupPolicy) : Prop :=
  ∃ i, q = succeed (clock e i) (seconds (AUTO_TOPUP_COOLDOWN_SECONDS (settings e))) topup key
             (count_down p) p.

Lemma on_success_run id topup key reason p e w :
  stored_live id p w →
  ∃ w' q, _on_success id topup key reason e w = (Ok success, w') ∧
    bought_policy e p (top_id topup) key q ∧ policy_saved id q w w'.
Proof.
  intros Hs. assert (Hs' : stored_live id p (enter w <| tick := S (tick w) |>))
    by (by eapply stored_live_ext; [done| |apply Hs]).
  unfold _on_success. destruct (count_down p).2 eqn:Hc.
  all: eexists _, _; split;
    [erewrite bind_step; cycle 1;
     [apply atomic_run;
      [erewrite bind_step by (by apply get_locked_run; [apply Hs|done|apply Hs]);
       erewrite bind_step by done; erewrite bind_step by done;
       erewrite bind_step by (apply save_policy_run; [exact Hs'|apply next_success]); reflexivity
      |apply Hs]
     |simpl; rewrite Hc; reflexivity]
    |split; [by eexists|split_and!; [done|done|apply Hs]]].
Qed.
End Saves.

(** ** The purchase of a policy *)

Section Buying.
Context (sha256 : string → string) (parse_datetime : string → Res (option instant)).
Context {provider : TopupProvider}.
Implicit Types (e : Env) (w : World).

(** The tables a purchase reads and never writes. *)
Definition held_tables (d : Db) := (policies d, esims d).

Lemma held_same d d' :
  held_tables d' = held_tables d → policies d' = policies d ∧ esims d' = esims d.
Proof. by intros [= -> ->]. Qed.

Lemma apply_held account amount rt rid key sign :
  respects (same held_tables) (_apply account amount rt rid key sign).
Proof.
  apply respects_apply; [apply _|]. intros * Happ.
  destruct (applied_topups _ _ _ _ _ _ _ _ Happ) as [_ [= _ He Hp]].
  unfold same, held_tables. by rewrite He, Hp.
Qed.
#[local] Hint Resolve apply_held : effects.

Lemma accrue_held t id lst net customer :
  respects (same held_tables) (accrue t id lst net customer).
Proof.
  unfold accrue, partner_channel_can_accrue_for_customer, post_accrual, accrual_save_guard,
    resolve_partner_settlement_account, _personal_settlement_account, _organization_settlement_account,
    _require_individual_owner, _require_team_owner, _is_owner_personal_account, _is_organization_account,
    credit.
  solve_respects.
Qed.
#[local] Hint Resolve accrue_held : effects.

(** A purchase never touches a policy or an eSIM, and leaves the connection
    alone. *)
Lemma purchase_outside s package_id key account :
  outside (same held_tables) (purchase sha256 s package_id key account).
Proof.
  assert (Hc : ∀ ot a p n, respects (same held_tables) (resolve_charge sha256 ot a p n))
    by (intros; apply respects_reading, charge_reads; apply _).
  assert (Hl : ∀ i, outside (same held_tables) (list_topups i))
    by (intros; apply outside_reads, list_topups_reads; apply _).
  assert (Hs : ∀ i k, outside (same held_tables) (submit_topup i k))
    by (intros; apply outside_reads, submit_topup_reads; apply _).
  unfold purchase, spend_account, _resolve_package, _reserve_and_debit, complete_topup,
    _compensate_failed, _persist_fulfillment, create_topup_row, charge_topup, replay_topup, topup_create,
    topup_save_fields, topup_update, resolve_topup_charge, build_source_id, debit, credit.
  solve_outside.
Qed.

(** What the outcome of the purchase makes of the run and of the policy. *)
Inductive settled (e : Env) (p : EsimAutoTopupPolicy) (key : string)
    : Res Topup → Res Outcome → option EsimAutoTopupPolicy → Prop :=
  | settled_success t q :
      bought_policy e p (top_id t) key q → settled e p key (Ok t) (Ok success) (Some q)
  | settled_funds balance required :
      settled e p key (Raise (InsufficientFundsError balance required)) (Ok paused)
        (Some (funds_paused p))
  | settled_package :
      settled e p key (Raise TopupPackageNotFoundError) (Ok blocked) (Some (package_blocked p))
  | settled_owner : settled e p key (Raise EsimOwnershipChanged) (Ok skipped) None
  | settled_progress : settled e p key (Raise SpendInProgressError) (Ok failed) None
  | settled_provider : settled e p key (Raise ProviderFulfillmentError) (Ok failed) None
  | settled_escapes x : on_purchase_error (pol_id p) x = None → settled e p key (Raise x) (Raise x) None.

Definition edit (id : pk) (q : option EsimAutoTopupPolicy) (d : Db) : Db :=
  match q with Some q => put policies id q d | None => d end.

Lemma buy_topup_run id s package_id key reason a p e w r w' :
  buy_topup sha256 id s package_id key reason a e w = (r, w') →
  stored_live id p w → depth w = 0%nat →
  ∃ r1 w1 q, purchase sha256 s package_id key (Some a) e w = (r1, w1) ∧
    held_tables (db w1) = held_tables (db w) ∧ settled e p key r1 r q ∧
    db w' = edit id q (db w1) ∧ depth w' = 0%nat ∧ aborted w' = false.
Proof.
  intros H Hs Hdep. pose proof (pv_id _ (sl_inv _ _ _ Hs) _ _ (sl_row _ _ _ Hs)) as Hid.
  unfold buy_topup in H.
  destruct (purchase sha256 s package_id key (Some a) e w) as [r1 w1] eqn:E.
  destruct (purchase_outside _ _ _ _ _ _ _ _ Hdep (sl_alive _ _ _ Hs) E) as (Hp & Hd1 & Ha1).
  assert (Hs1 : stored_live id p w1) by (by eapply stored_live_ext; [| apply held_same|]).
  rewrite bind_run in H. unfold try_except in H. rewrite bind_run, E in H.
  destruct r1 as [t|x]; simpl in H.
  - destruct (on_success_run id t key reason p e w1 Hs1) as (w2 & q & Hrun & Hq & Hd2 & Hdep2 & Ha2).
    rewrite Hrun in H. injection H as <- <-. exists (Ok t), w1, (Some q).
    split_and!; [done|done|by constructor|done|congruence|done].
  - assert (Hpass : on_purchase_error id x = None → r = Raise x ∧ w' = w1).
    { intros Hn. rewrite Hn in H. by injection H as <- <-. }
    destruct x; simpl in H, Hpass.
    all: try (destruct Hpass as [-> ->]; [done|]; do 2 eexists; exists None; split_and!; [done|done| |done..];
      by constructor).
    all: try (injection H as <- <-; do 2 eexists; exists None; split_and!; [done|done|constructor|done..]).
    + destruct (pause_funds_run id account_balance amount_required p e w1 Hs1) as (w2 & Hrun & Hd2 & Hdep2 & Ha2).
      rewrite bind_run, Hrun in H. injection H as <- <-. do 2 eexists. exists (Some (funds_paused p)).
      split_and!; [done|done|constructor|done|congruence|done].
    + destruct (block_package_run id p e w1 Hs1) as (w2 & Hrun & Hd2 & Hdep2 & Ha2).
      rewrite bind_run, Hrun in H. injection H as <- <-. do 2 eexists. exists (Some (package_blocked p)).
      split_and!; [done|done|constructor|done|congruence|done].
Qed.
End Buying.

(** ** Deciding *)

Section Deciding.
Context (sha256 : string → string) (parse_datetime : string → Res (option instant)).
Context {provider : TopupProvider}.
Implicit Types (e : Env) (w : World).

(** The tables an evaluation leaves alone until it buys. *)
Definition kept_tables (d : Db) := (prepaid_tables d, policies d).

(** The cached usage was at most the configured age old at some reading of the
    clock. *)
Definition fresh_usage (e : Env) (u : UsageCache) : Prop :=
  ∃ synced n, us_synced_at u = Some synced ∧
    clock e n - synced ≤ seconds (AUTO_TOPUP_USAGE_MAX_AGE_SECONDS (settings e)).

(** Policy [p] may buy for [s] at time [t], for [reason], under [key]. *)
Record due (e : Env) (p : EsimAutoTopupPolicy) (s : Esim) (t : instant) (reason : FireReason)
    (key : string) : Prop := {
  due_live : is_live p = true;
  due_enabled : AUTO_TOPUP_ENABLED (settings e) = true ∧ BILLING_ENABLED (settings e) = true;
  due_fresh : fresh_usage e (esim_usage s);
  due_cooldown : ∀ c, pol_cooldown_until p = Some c → c ≤ t;
  due_age : seconds (AUTO_TOPUP_MINIMUM_AGE_SECONDS (settings e)) ≤
    t - default (esim_created_at s) (esim_setup_completed_at s);
  due_schedule : ∀ u, pol_active_until p = Some u → t < u;
  due_reason : _select_fire_reason p s t = Some reason;
  due_episode : reason = TRIGGER_EXPIRY → _same_expiry_episode p s = false;
  due_key : _idempotency_key p s reason = Ok key;
}.

Lemma kept_same d d' :
  kept_tables d' = kept_tables d →
  prepaid_tables d' = prepaid_tables d ∧ policies d' = policies d ∧ accounts d' = accounts d.
Proof. unfold kept_tables, prepaid_tables. intros [= -> -> -> -> ->]. done. Qed.

Definition esims_keyed (d : Db) : Prop := ∀ k s, esims d !! k = Some s → esim_id s = k.

Lemma policy_joined_Some id d p a s :
  policy_joined id d = Some (p, a, s) →
  policies d !! id = Some p ∧ accounts d !! pol_account p = Some a ∧ esims d !! pol_esim p = Some s.
Proof. unfold policy_joined. intros H. by repeat case_match; simplify_eq. Qed.

(** *** Usage *)

Lemma get_usage_outside s : outside (same kept_tables) (get_usage parse_datetime s).
Proof.
  assert (Hu : ∀ i, outside (same kept_tables) (provider_usage i))
    by (intros; apply outside_reads, provider_usage_reads; apply _).
  unfold get_usage, _update_cache, apply_provider_usage, _overwrite_provider_status,
    _record_provider_event, set_status, _record_system_event, get_or_create_event, create_event, save_esim,
    lift.
  solve_outside.
Qed.

Lemma save_esims_keyed k f :
  (∀ s, esim_id (f s) = esim_id s) →
  respects (preserves esims_keyed) (save_fields esims esim_verdict k f).
Proof.
  intros Hf. apply respects_save_fields; [apply _|]. intros d v Hv _ Hk j s. simpl.
  intros [[<- <-]|[_ ?]]%lookup_insert_Some; [rewrite Hf|]; by apply Hk.
Qed.

Lemma get_usage_keyed s : respects (preserves esims_keyed) (get_usage parse_datetime s).
Proof.
  assert (Hu : ∀ i, respects (preserves esims_keyed) (provider_usage i))
    by (intros; apply only_reads_respects, provider_usage_reads; apply _).
  unfold get_usage, _update_cache, apply_provider_usage, _overwrite_provider_status,
    _record_provider_event, set_status, _record_system_event, get_or_create_event, create_event, save_esim,
    lift.
  solve_respects; by apply save_esims_keyed.
Qed.

Lemma is_fresh_Ok e w max synced w' :
  is_fresh max synced e w = (Ok true, w') →
  ∃ t, synced = Some t ∧ clock e (tick w) - t <= max.
Proof.
  unfold is_fresh. destruct synced as [t|]; intros H; [|by apply ret_Ok in H as [? _]].
  exists t. split; [done|]. apply bind_Ok in H as (n & w1 & [= <- <-] & H).
  apply ret_Ok in H as [H _]. symmetry in H. by bool_to_prop.
Qed.

Lemma try_refresh_run s e w r w' :
  try_refresh parse_datetime s e w = (r, w') → depth w = 0%nat → aborted w = false →
  esims_keyed (db w) →
  kept_tables (db w') = kept_tables (db w) ∧ depth w' = 0%nat ∧ aborted w' = false ∧
  esims_keyed (db w').
Proof.
  intros H Hdep Hab Hk. unfold try_refresh in H.
  assert (Hout : outside (same kept_tables) (try_refresh parse_datetime s))
    by (pose proof (get_usage_outside s); unfold try_refresh; solve_outside).
  assert (Hkey : respects (preserves esims_keyed) (try_refresh parse_datetime s))
    by (pose proof (get_usage_keyed s); unfold try_refresh; solve_respects).
  destruct (Hout _ _ _ _ Hdep Hab H) as (? & ? & ?). split_and!; try done. by eapply Hkey.
Qed.

(** A usable eSIM has a row with fresh usage. *)
Lemma ensure_fresh_run s e w r w' :
  _ensure_fresh_usage parse_datetime s e w = (r, w') → depth w = 0%nat → aborted w = false →
  esims_keyed (db w) → esims (db w) !! esim_id s = Some s →
  kept_tables (db w') = kept_tables (db w) ∧ depth w' = 0%nat ∧ aborted w' = false ∧
  esims_keyed (db w') ∧
  (r = Ok true → ∃ row, esims (db w') !! esim_id s = Some row ∧ fresh_usage e (esim_usage row)).
Proof.
  unfold _ensure_fresh_usage. intros H Hdep Hab Hk Hrow. rewrite bind_run in H. simpl in H.
  rewrite bind_run in H. simpl in H. set (w0 := w <| tick := _ |>) in H.
  destruct (match us_synced_at _ with Some _ => _ | None => _ end) eqn:Hs.
  { injection H as <- <-. split_and!; try done. intros _. exists s. split; [done|].
    destruct (us_synced_at (esim_usage s)) as [t|] eqn:Ht; [|done].
    exists t, (tick w). split; [done|]. by bool_to_prop. }
  unfold refresh_usage in H. rewrite bind_run in H.
  destruct (try_refresh parse_datetime s e w0) as [r1 w1] eqn:E.
  destruct (try_refresh_run _ _ _ _ _ E Hdep Hab Hk) as (Hkt & Hd1 & Ha1 & Hk1).
  destruct r1 as [[]|x]; simpl in H; [|injection H as <- <-; by split_and!..].
  rewrite bind_run in H. unfold get, query, bind in H. rewrite Ha1 in H. simpl in H.
  destruct (esims (db w1) !! esim_id s) as [row|] eqn:Hr; simpl in H; [|injection H as <- <-; by split_and!].
  assert (Hw' : db w' = db w1 ∧ depth w' = depth w1 ∧ aborted w' = aborted w1).
  { unfold is_fresh in H. destruct (us_synced_at (esim_usage row)); unfold bind, now, ret in H; by injection H as <- <-. }
  destruct Hw' as (Hdb & -> & ->). rewrite Hdb. split_and!; try done. intros ->. exists row. split; [done|].
  apply is_fresh_Ok in H as (t & Ht & Hle). by exists t, (tick w1).
Qed.

(** *** The two blocks of [_prepare] *)

Lemma rollout_reads account : respects eq (rollout_allows_account sha256 account).
Proof.
  unfold rollout_allows_account, _master_enabled, account_user, lift. solve_respects.
Qed.

Lemma rollout_enabled account e w w' :
  rollout_allows_account sha256 account e w = (Ok true, w') →
  AUTO_TOPUP_ENABLED (settings e) = true ∧ BILLING_ENABLED (settings e) = true.
Proof.
  unfold rollout_allows_account, _master_enabled. intros (b & w1 & Hb & H)%bind_Ok.
  inv_run Hb. destruct (AUTO_TOPUP_ENABLED _), (BILLING_ENABLED _); simpl in H; try done;
    by apply ret_Ok in H as [? _].
Qed.

Lemma admit_run id e w r w' :
  admit_policy sha256 id e w = (r, w') → depth w = 0%nat → aborted w = false →
  db w' = db w ∧ depth w' = 0%nat ∧ aborted w' = false ∧
  ∀ s, r = Ok (Some s) → (∃ p a, policy_joined id (db w) = Some (p, a, s)) ∧
    AUTO_TOPUP_ENABLED (settings e) = true ∧ BILLING_ENABLED (settings e) = true.
Proof.
  intros H Hdep Hab. assert (Hout : outside eq (admit_policy sha256 id)).
  { apply outside_atomic. pose proof rollout_reads. apply respects_atomic; [apply _|]. solve_respects. }
  destruct (Hout _ _ _ _ Hdep Hab H) as (<- & ? & ?). split_and!; try done. intros s ->.
  apply atomic_Ok in H as (w1 & H & _). apply bind_Ok in H as (j & w2 & (_ & -> & ->)%locked_query_Ok & H).
  simpl in H. destruct (policy_joined id (db w)) as [[[p a] s']|] eqn:Hj; [|by apply ret_Ok in H as [? _]].
  destruct (negb _); [by apply ret_Ok in H as [? _]|].
  apply bind_Ok in H as (b & w3 & Hb & [Hs _]%ret_Ok). destruct b; [|done]. injection Hs as ->.
  split; [by exists p, a|]. by eapply rollout_enabled.
Qed.

(** What the decision on a live policy was. *)
Definition decision (e : Env) (id : pk) (p : EsimAutoTopupPolicy) (a : Account) (s : Esim)
    (t : instant) (d d' : Db) (r : Res Prepared) : Prop :=
  match r with
  | Ok (Finished o) => o = skipped ∧ d' = d
  | Ok Schedule_ended =>
      ∃ u, pol_active_until p = Some u ∧ u ≤ t ∧ d' = put policies id (schedule_paused p) d
  | Ok (Buy s' package_id key reason a') =>
      d' = d ∧ s' = s ∧ a' = a ∧ package_id = pol_package_id p ∧
      (AUTO_TOPUP_ENABLED (settings e) = true → BILLING_ENABLED (settings e) = true →
       fresh_usage e (esim_usage s) → due e p s t reason key)
  | Raise _ => d' = d
  end.

Lemma decide_live_run id p a s e w r w' :
  decide_live p a s e w = (r, w') → stored_live id p w →
  decision e id p a s (clock e (tick w)) (db w) (db w') r ∧ aborted w' = false ∧
  tick w' = S (tick w).
Proof.
  intros H Hs. pose proof (sl_live _ _ _ Hs) as Hl. unfold decide_live in H. rewrite bind_run in H.
  simpl in H. set (t := clock e (tick w)) in *. set (w0 := w <| tick := S (tick w) |>) in *.
  assert (Hs0 : stored_live id p w0) by (by eapply stored_live_ext; [exact Hs| |apply Hs]).
  destruct (match pol_cooldown_until p with Some _ => _ | None => _ end) eqn:Hc.
  { injection H as <- <-. simpl. split_and!; try done. apply Hs. }
  unfold _past_minimum_age in H. rewrite bind_run in H. simpl in H.
  destruct (negb (_ <=? _)) eqn:Hage.
  { injection H as <- <-. simpl. split_and!; try done. apply Hs. }
  destruct (match pol_active_until p with Some _ => _ | None => _ end) eqn:Hu.
  { unfold end_schedule in H. erewrite bind_step in H by (apply save_policy_run; [exact Hs0|apply next_schedule]).
    injection H as <- <-. simpl. destruct (pol_active_until p) as [u|] eqn:Eu; [|done].
    split_and!; [exists u; split_and!; [done| |done]|apply Hs|done]. by bool_to_prop. }
  unfold fire_policy in H. destruct (_select_fire_reason p s t) as [reason|] eqn:Hr.
  2:{ injection H as <- <-. simpl. split_and!; try done. apply Hs. }
  destruct (bool_decide (reason = TRIGGER_EXPIRY) && _) eqn:He.
  { injection H as <- <-. simpl. split_and!; try done. apply Hs. }
  rewrite bind_run in H. unfold lift in H. destruct (_idempotency_key p s reason) as [key|x] eqn:Hk.
  2:{ injection H as <- <-. simpl. split_and!; try done. apply Hs. }
  injection H as <- <-. simpl. split_and!; try done; [|apply Hs]. intros Hen Hb Hf.
  split; try done.
  - intros c Hc'. rewrite Hc' in Hc. by bool_to_prop.
  - by bool_to_prop.
  - intros u Hu'. rewrite Hu' in Hu. by bool_to_prop.
  - intros ->. by rewrite bool_decide_true in He.
Qed.

Lemma policy_joined_put id p q d a s :
  policy_joined id d = Some (p, a, s) → pol_account q = pol_account p → pol_esim q = pol_esim p →
  policy_joined id (put policies id q d) = Some (q, a, s).
Proof.
  intros (Hp & Ha & Hs)%policy_joined_Some Hqa Hqs. unfold policy_joined. simpl.
  by rewrite lookup_insert_eq, Hqa, Ha, Hqs, Hs.
Qed.

Lemma decide_run id e w r w' :
  decide_policy id e w = (r, w') → depth w = 0%nat → aborted w = false → policy_inv (db w) →
  esims_keyed (db w) →
  depth w' = 0%nat ∧ aborted w' = false ∧
  ((db w' = db w ∧ (r = Ok (Finished skipped) ∨ ∃ x, r = Raise x)) ∨
   ∃ p a s, policy_joined id (db w) = Some (p, a, s) ∧ is_live p = true ∧
     decision e id p a s (clock e (tick w)) (db w) (db w') r ∧ tick w' = S (tick w)).
Proof.
  intros H Hdep Hab Hinv Hk. unfold decide_policy, atomic in H.
  rewrite bind_run, locked_query_run in H by done. simpl in H.
  destruct (policy_joined id (db w)) as [[[p a] s]|] eqn:Hj; simpl in H.
  2:{ injection H as <- <-. simpl. split_and!; [done..|left; eauto]. }
  destruct (is_live p) eqn:Hl; simpl in H.
  2:{ rewrite Hab in H. injection H as <- <-. simpl. split_and!; [done..|left; eauto]. }
  destruct (policy_joined_Some _ _ _ _ _ Hj) as (Hp & _ & Hs). pose proof (Hk _ _ Hs) as Hid.
  erewrite bind_step in H by (apply get_run; [done|simpl; rewrite Hid; exact Hs]).
  destruct (decide_live p a s e _) as [r1 w1] eqn:E.
  eapply (decide_live_run id) in E as (Hdec & Ha1 & Ht1); [|by split]. simpl in Hdec, Ht1.
  destruct r1 as [pr|x]; [rewrite Ha1 in H|]; injection H as <- <-; simpl.
  - split_and!; [done..|]. right. by exists p, a, s.
  - split_and!; [done..|]. left. eauto.
Qed.

(** ** An evaluation *)

(** Everything an evaluation of the policy [id] can do, to its return value and
    to the database. *)
Inductive evaluated (e : Env) (id : pk) (d : Db) : Res Outcome → Db → Prop :=
  (** not due, or stopped by an error: no money moved, no policy changed *)
  | evaluated_idle r d' :
      r = Ok skipped ∨ (∃ x, r = Raise x) → kept_tables d' = kept_tables d →
      evaluated e id d r d'
  (** the schedule had ended: paused, no money moved *)
  | evaluated_ended p u t d' :
      policies d !! id = Some p → is_live p = true → pol_active_until p = Some u → u ≤ t →
      prepaid_tables d' = prepaid_tables d → policies d' = <[id := schedule_paused p]> (policies d) →
      evaluated e id d (Ok paused) d'
  (** due: a purchase for the policy's account, decided at the last reading of
      the clock before it, and what its outcome makes of the policy *)
  | evaluated_bought p a s reason key w1 r1 w2 q r :
      policies d !! id = Some p → accounts d !! pol_account p = Some a →
      kept_tables (db w1) = kept_tables d → esims (db w1) !! pol_esim p = Some s → esim_id s = pol_esim p →
      depth w1 = 0%nat → aborted w1 = false →
      due e p s (clock e (pred (tick w1))) reason key →
      purchase sha256 s (pol_package_id p) key (Some a) e w1 = (r1, w2) →
      held_tables (db w2) = held_tables (db w1) → settled e p key r1 r q →
      evaluated e id d r (edit id q (db w2)).

Lemma evaluate_inner_run id e w r w' :
  _evaluate_one_inner sha256 parse_datetime id e w = (r, w') → depth w = 0%nat → aborted w = false →
  policy_inv (db w) → esims_keyed (db w) →
  evaluated e id (db w) r (db w') ∧ depth w' = 0%nat ∧ aborted w' = false ∧ esims_keyed (db w').
Proof.
  intros H Hdep Hab Hinv Hk. unfold _evaluate_one_inner, _prepare in H. rewrite bind_run in H.
  rewrite bind_run in H. destruct (admit_policy sha256 id e w) as [r0 w0] eqn:E0.
  destruct (admit_run _ _ _ _ _ E0 Hdep Hab) as (Hd0 & Hdep0 & Ha0 & Hadm).
  rewrite <- Hd0 in *. clear E0 Hdep Hab Hd0. 
  destruct r0 as [[s0|]|x]; simpl in H;
    [|injection H as <- <-; split_and!; [apply evaluated_idle; eauto|done..]..].
  destruct (Hadm s0 eq_refl) as ((p0 & a0 & Hj0) & Hen & Hbill). clear Hadm.
  destruct (policy_joined_Some _ _ _ _ _ Hj0) as (Hp0 & _ & Hs0).
  pose proof (Hk _ _ Hs0) as Hid0. rewrite bind_run in H.
  destruct (_ensure_fresh_usage parse_datetime s0 e w0) as [r1 w1] eqn:E1.
  apply ensure_fresh_run in E1 as (Hkt & Hdep1 & Ha1 & Hk1 & Hfresh); [|done..|by rewrite Hid0].
  destruct (kept_same _ _ Hkt) as (Hpt1 & Hpol1 & Hacc).
  destruct r1 as [[]|x]; simpl in H; [| |injection H as <- <-; split_and!; [apply evaluated_idle; eauto|done..]].
  2:{ injection H as <- <-. split_and!; [apply evaluated_idle; eauto|done..]. }
  destruct (Hfresh eq_refl) as (row & Hrow & Hf). clear Hfresh.
  destruct (decide_policy id e w1) as [r2 w2] eqn:E2.
  assert (Hinv1 : policy_inv (db w1)) by by eapply policy_inv_same.
  apply decide_run in E2; [|done..].
  destruct E2 as (Hdep2 & Ha2 & [[Hd2 Hr2]|(p & a & s & Hj & Hl & Hdec & Ht2)]).
  { destruct Hr2 as [-> | [x ->]]; simpl in H; injection H as <- <-;
      (split_and!; [apply evaluated_idle; [eauto|by rewrite Hd2]|by rewrite ?Hd2..]). }
  destruct (policy_joined_Some _ _ _ _ _ Hj) as (Hp & Ha & Hs). rewrite Hpol1, Hp0 in Hp. injection Hp as <-.
  assert (row = s) as ->. { rewrite <- Hid0, Hrow in Hs. by injection Hs. }
  destruct r2 as [[o| |s' package_id key reason a']|x]; simpl in H, Hdec.
  - destruct Hdec as [-> Hd2]. injection H as <- <-.
    split_and!; [apply evaluated_idle; [eauto|by rewrite Hd2]|by rewrite ?Hd2..].
  - destruct Hdec as (u & Hu & Hle & Hd2).
    unfold _finalize_schedule_ended in H. rewrite bind_run, query_run in H by done. rewrite Hd2 in H.
    erewrite policy_joined_put in H by done. injection H as <- <-. simpl. split_and!; [|done..|by rewrite Hd2].
    rewrite Hd2. apply (evaluated_ended _ _ _ p0 u (clock e (tick w1))); simpl; try done. by rewrite Hpol1.
  - destruct Hdec as (Hd2 & -> & -> & -> & Hdue).
    assert (Hst : stored_live id p0 w2) by (split; rewrite ?Hd2, ?Hpol1; done).
    apply (buy_topup_run _ _ _ _ _ _ _ p0) in H as (r1 & w3 & q & Hbuy & Hp3 & Hset & Hd' & ? & ?); [|done..].
    assert (esims (db w3) = esims (db w2)) as Hes by by apply held_same.
    rewrite Hd'. split_and!; [|done..|]; [|by intros k u; destruct q; simpl; rewrite Hes, Hd2; apply Hk1].
    eapply (evaluated_bought _ _ _ p0 a s reason key w2 r1 w3); try done.
    + by rewrite <- Hacc.
    + by rewrite Hd2.
    + by rewrite Hd2.
    + by apply Hk1.
    + rewrite Ht2. by apply Hdue.
  - injection H as <- <-. split_and!; [apply evaluated_idle; [eauto|by rewrite Hdec]|by rewrite ?Hdec..].
Qed.

(** ** The system's invariant *)

Record auto_inv (d : Db) : Prop := {
  au_prepaid : prepaid_inv d;
  au_policies : policy_inv d;
  au_esims : esims_keyed d;
}.

Lemma settled_next e p key r1 r q :
  settled e p key r1 r (Some q) → policy_next p q.
Proof.
  remember (Some q) as o eqn:Ho. intros H. destruct H as [t q' [n ->]|b m| | | | |]; simplify_eq; constructor.
Qed.

Lemma evaluated_inv e id d r d' :
  evaluated e id d r d' → prepaid_inv d → policy_inv d → prepaid_inv d' ∧ policy_inv d'.
Proof.
  intros Hev Hpre Hpol. destruct Hev as [r d' _ Hk|p u t d' Hp Hl _ _ Hpt Hps|
    p a s reason key w1 r1 w2 q r Hp Ha Hk Hs Hid Hdep Hab Hdue Hbuy Hheld Hset].
  - apply kept_same in Hk as (Hpt & Hps & _).
    split; [by eapply prepaid_inv_same|by eapply policy_inv_same].
  - destruct (next_policy_ok p _ (pv_ok _ Hpol _ _ Hp) Hl (next_schedule p)) as (? & ? & ?).
    split; [by eapply prepaid_inv_same|by eapply policy_inv_update].
  - apply kept_same in Hk as (Hpt & Hps & _). apply held_same in Hheld as [Hps2 _].
    apply purchase_run in Hbuy as [_ Hpre2]; [|done|by eapply prepaid_inv_same].
    assert (Hpol2 : policy_inv (db w2)) by (eapply policy_inv_same; [|done]; congruence).
    destruct q as [q|]; simpl; [|done]. apply settled_next in Hset.
    destruct (next_policy_ok p _ (pv_ok _ Hpol _ _ Hp) (due_live _ _ _ _ _ _ Hdue) Hset) as (? & ? & ?).
    split; [by eapply prepaid_inv_same; [|exact Hpre2]|].
    eapply (policy_inv_update (db w2) _ id p); try done. by rewrite Hps2, Hps.
Qed.

Lemma evaluate_one_run id e w r w' :
  evaluate_one sha256 parse_datetime id e w = (r, w') → depth w = 0%nat → aborted w = false →
  auto_inv (db w) →
  evaluated e id (db w) r (db w') ∧ auto_inv (db w') ∧ depth w' = 0%nat ∧ aborted w' = false.
Proof.
  intros H Hdep Hab [Hpre Hpol Hk]. unfold evaluate_one in H. rewrite bind_run in H. simpl in H.
  unfold finally in H. destruct (_evaluate_one_inner _ _ _ _ _) as [r1 w1] eqn:E.
  apply evaluate_inner_run in E as (Hev & Hd1 & Ha1 & Hk1); [|done..].
  simpl in H. injection H as <- <-. simpl. destruct (evaluated_inv _ _ _ _ _ Hev Hpre Hpol).
  split_and!; [done|by split|done..].
Qed.

Lemma evaluate_one_keeps id : keeps auto_inv (evaluate_one sha256 parse_datetime id).
Proof.
  intros e w r w' HI Hdep Hab H. by apply evaluate_one_run in H as (_ & ? & ? & ?).
Qed.

Lemma evaluate_due_keeps : keeps auto_inv (evaluate_due sha256 parse_datetime).
Proof.
  assert (Hr : ∀ A (m : M A), outside (preserves auto_inv) m → keeps auto_inv m)
    by (intros; by apply keeps_outside).
  unfold evaluate_due, _master_enabled. apply keeps_bind; [apply Hr; solve_outside|].
  intros []; simpl; [|apply Hr; solve_outside]. apply keeps_bind; [apply Hr; solve_outside|].
  intros ids. apply keeps_bind; [|intros; apply Hr; solve_outside]. apply keeps_fold_each.
  intros st id. apply keeps_bind; [apply evaluate_one_keeps|]. intros o. apply Hr. solve_outside.
Qed.

(** C27: Every outcome of [evaluate_one], for any provider: the policy was not
    due (or an error stopped it) and neither money nor policy changed; or its
    schedule had ended and it was paused; or it was due, the service bought its
    package for the policy's own account, and the outcome of that purchase
    decided the returned text and the policy's next state. *)
Theorem evaluate_one_outcome id e w r w' :
  evaluate_one sha256 parse_datetime id e w = (r, w') → depth w = 0%nat → aborted w = false →
  auto_inv (db w) → evaluated e id (db w) r (db w').
Proof. intros H Hdep Hab Hinv. by apply evaluate_one_run in H as [? _]. Qed.

(** A run that moved money. *)
Definition spent (e : Env) (id : pk) (p : EsimAutoTopupPolicy) (s : Esim) (reason : FireReason)
    (key : string) (r : Res Outcome) (d d' : Db) : Prop :=
  policies d !! id = Some p ∧ esim_id s = pol_esim p ∧ esim_account s = pol_account p ∧
  ∃ w1 r1 d2 q, kept_tables (db w1) = kept_tables d ∧ esims (db w1) !! pol_esim p = Some s ∧
    due e p s (clock e (pred (tick w1))) reason key ∧ topup_by_key key d = None ∧
    purchased e s (pol_package_id p) key (db w1) r1 d2 ∧ settled e p key r1 r q ∧
    d' = edit id q d2.

Lemma edit_ledger id q d : ledger (edit id q d) = ledger d.
Proof. by destruct q. Qed.

Lemma evaluate_spends id e w r w' :
  evaluate_one sha256 parse_datetime id e w = (r, w') → depth w = 0%nat → aborted w = false →
  auto_inv (db w) → ledger (db w') ≠ ledger (db w) →
  ∃ p s reason key, spent e id p s reason key r (db w) (db w').
Proof.
  intros H Hdep Hab Hinv Hne. apply evaluate_one_run in H as (Hev & _); [|done..].
  destruct Hev as [r d' _ Hk|p u t d' _ _ _ _ Hpt _|p a s reason key w1 r1 w2 q r Hp Ha Hk Hs Hid _ Hab1 Hdue Hbuy Hheld Hset].
  - apply kept_same in Hk as (Hpt & _). unfold prepaid_tables in Hpt. congruence.
  - unfold prepaid_tables in Hpt. congruence.
  - rewrite edit_ledger in Hne. pose proof (kept_same _ _ Hk) as (Hpt & _ & Hacc).
    assert (Hpre1 : prepaid_inv (db w1)) by (eapply prepaid_inv_same; [exact Hpt|apply Hinv]).
    pose proof (li_rows _ (pi_ledger _ (au_prepaid _ Hinv)) _ _ Ha) as [Haid _].
    destruct (purchase_spends _ _ _ _ _ _ _ _ _ Hbuy Hab1 Hpre1) as ((s' & Hs' & Ho) & Hkey).
    { intros Hd. unfold prepaid_tables in Hpt. rewrite Hd in Hne. congruence. }
    rewrite Hid, Hs in Hs'. injection Hs' as <-.
    apply purchase_run in Hbuy as [Hpur _]; [|done..].
    exists p, s, reason, key. split_and!; [done|done|congruence|].
    exists w1, r1, (db w2), q. split_and!; try done. rewrite <- Hkey. unfold topup_by_key.
    unfold prepaid_tables in Hpt. congruence.
Qed.

(** C26: Auto top-up spends only when due: if an evaluation moved money, the
    policy was live, enabled by the settings, past its cooldown, within its
    schedule, on an eSIM old enough with fresh usage that met its trigger and
    belongs to the policy's account; the key was unused; and what happened is
    the purchase of the policy's own package. *)
Theorem spends_only_when_due id e w r w' :
  evaluate_one sha256 parse_datetime id e w = (r, w') → depth w = 0%nat → aborted w = false →
  auto_inv (db w) → ledger (db w') ≠ ledger (db w) →
  ∃ p s reason key, spent e id p s reason key r (db w) (db w').
Proof. apply evaluate_spends. Qed.

(** The state of a policy whose evaluation succeeded. *)
Lemma evaluate_success id e w w' :
  evaluate_one sha256 parse_datetime id e w = (Ok success, w') → depth w = 0%nat → aborted w = false →
  auto_inv (db w) →
  ∃ p s reason key topup q t, policies (db w) !! id = Some p ∧ due e p s t reason key ∧
    bought_policy e p topup key q ∧ policies (db w') !! id = Some q.
Proof.
  intros H Hdep Hab Hinv. apply evaluate_one_run in H as (Hev & _); [|done..].
  remember (Ok success) as r eqn:Hr.
  destruct Hev as [r d' [->|[x ->]] _| |p a s reason key w1 r1 w2 q r Hp Ha Hk Hs Hid _ Hab1 Hdue Hbuy Hheld Hset];
    try discriminate Hr.
  subst r. remember (Ok success) as r eqn:Hr. destruct Hset as [t q Hq| | | | | |]; try discriminate Hr.
  do 7 eexists. split_and!; [done|done|done|]. simpl. apply lookup_insert_eq.
Qed.

Lemma bought_columns e p topup key q :
  bought_policy e p topup key q →
  pol_id q = pol_id p ∧ pol_last_idempotency_key q = key ∧
  ∃ i, pol_last_triggered_at q = Some (clock e i) ∧
    pol_cooldown_until q = Some (clock e i + seconds (AUTO_TOPUP_COOLDOWN_SECONDS (settings e))).
Proof.
  intros [i ->]. unfold succeed. destruct (count_down p).2; simpl; destruct (pol_renew_mode p); eauto.
Qed.

(** The key of a purchase of [p] for the expiry at [x]. *)
Definition expiry_text (p : EsimAutoTopupPolicy) (x : instant) : string :=
  key_prefix p TRIGGER_EXPIRY +:+ canonical_utc_stamp x.

(** A purchase for an expiry in another second has another key than the last. *)
Lemma due_new_key e p s t reason key x :
  due e p s t reason key → pol_last_idempotency_key p = expiry_text p x → key ≠ expiry_text p x.
Proof.
  intros Hdue Hlast Heq. pose proof (due_key _ _ _ _ _ _ Hdue) as Hk. unfold _idempotency_key in Hk.
  case_bool_decide as Hr.
  - destruct (us_expired_at (esim_usage s)) as [y|] eqn:Hy; [|done]. injection Hk as <-.
    pose proof (due_episode _ _ _ _ _ _ Hdue Hr) as Hep. rewrite Hr in Heq.
    unfold expiry_text in Heq, Hlast. rewrite (same_episode p s y y) in Hep; [|by rewrite Hlast, <- Heq|done].
    by rewrite bool_decide_true in Hep.
  - injection Hk as <-. unfold expiry_text, key_prefix in Heq. rewrite <- !append_assoc' in Heq.
    do 3 apply (inj (String.append _)) in Heq. destruct reason; simplify_eq/=.
Qed.

(** C28: Purchases of one policy are spaced.  Let an evaluation that succeeded
    leave the policy [q], its clock never before [lo]: an evaluation of [q] whose
    clock stays before [lo] plus the cooldown moves no money; and if the first
    bought for the expiry at [x], an evaluation of [q] that succeeds does not
    buy for that expiry again. *)
Theorem purchases_are_spaced id q lo e1 w1 w1' e2 w2 r2 w2' :
  evaluate_one sha256 parse_datetime id e1 w1 = (Ok success, w1') →
  depth w1 = 0%nat → aborted w1 = false → auto_inv (db w1) →
  evaluate_one sha256 parse_datetime id e2 w2 = (r2, w2') →
  depth w2 = 0%nat → aborted w2 = false → auto_inv (db w2) →
  policies (db w1') !! id = Some q → policies (db w2) !! id = Some q →
  (∀ i, lo ≤ clock e1 i) →
  ((∀ i, clock e2 i < lo + seconds (AUTO_TOPUP_COOLDOWN_SECONDS (settings e1))) →
     ledger (db w2') = ledger (db w2)) ∧
  (∀ x q', pol_last_idempotency_key q = expiry_text q x → r2 = Ok success →
     policies (db w2') !! id = Some q' → pol_last_idempotency_key q' ≠ pol_last_idempotency_key q).
Proof.
  intros H1 Hdep1 Hab1 Hinv1 H2 Hdep2 Hab2 Hinv2 Hq1 Hq2 Hlo.
  apply evaluate_success in H1 as (p & s1 & reason1 & key1 & topup & q1 & t1 & _ & _ & Hb & Hq); [|done..].
  rewrite Hq1 in Hq. injection Hq as <-. destruct (bought_columns _ _ _ _ _ Hb) as (_ & _ & i & _ & Hcd).
  split.
  - intros Hhi. apply evaluate_one_run in H2 as (Hev & _); [|done..].
    destruct Hev as [r d' _ Hk|p2 u t d' _ _ _ _ Hpt _|p2 a s reason key w r1 w3 q2 r Hp _ _ _ _ _ _ Hdue _ _ _].
    + apply kept_same in Hk as (Hpt & _). unfold prepaid_tables in Hpt. congruence.
    + unfold prepaid_tables in Hpt. congruence.
    + rewrite Hq2 in Hp. injection Hp as <-. pose proof (due_cooldown _ _ _ _ _ _ Hdue _ Hcd).
      specialize (Hhi (pred (tick w))). specialize (Hlo i). lia.
  - intros x q' Hx -> Hq'.
    apply evaluate_success in H2 as (q2 & s2 & reason2 & key2 & topup2 & q3 & t2 & Hp & Hdue & Hb2 & Hq3); [|done..].
    rewrite Hq2 in Hp. injection Hp as <-. rewrite Hq' in Hq3. injection Hq3 as <-.
    destruct (bought_columns _ _ _ _ _ Hb2) as (_ & -> & _). rewrite Hx. by eapply due_new_key.
Qed.
End Deciding.

(** ** The outcome of an edit *)

Section Editing.
Context (sha256 : string → string).
Context {provider : TopupProvider}.
Implicit Types (e : Env) (w : World) (i : PolicyInput).

(** Input that passed the checks. *)
Definition valid_input i : Prop :=
  (in_enabled i = true → in_expiry_enabled i = true ∨ in_usage_mode i ≠ USAGE_DISABLED) ∧
  (in_usage_mode i = USAGE_THRESHOLD → is_Some (in_threshold_mb i)).

Lemma check_input_Ok s package i e w u w' :
  check_input s package i e w = (Ok u, w') →
  db w' = db w ∧ aborted w' = aborted w ∧ depth w' = depth w ∧ valid_input i.
Proof.
  unfold check_input. intros H.
  apply bind_Ok in H as (u1 & w1 & [_ ->]%raise_if_Ok & H).
  apply bind_Ok in H as (u2 & w2 & [Ht ->]%raise_if_Ok & H).
  apply bind_Ok in H as (u3 & w3 & [He ->]%raise_if_Ok & H).
  apply bind_Ok in H as (u4 & w4 & [_ ->]%raise_if_Ok & H).
  assert (Hw : db w' = db w ∧ aborted w' = aborted w ∧ depth w' = depth w).
  { destruct (in_active_until i), (in_enabled i); inv_run H; done. }
  destruct Hw as (? & ? & ?). unfold valid_input. split_and!; try done.
  - intros Hen. rewrite Hen in He. destruct (in_expiry_enabled i); [by left|right].
    intros Hm. by rewrite Hm in He.
  - intros Hm. rewrite Hm in Ht. simpl in Ht. by destruct (in_threshold_mb i); [eexists|].
Qed.

Lemma kept_threshold_shape i :
  valid_input i →
  Bool.eqb (bool_decide (in_usage_mode i = USAGE_THRESHOLD)) (bool_decide (is_Some (kept_threshold i))) = true.
Proof.
  intros [_ Ht]. unfold kept_threshold. destruct (in_usage_mode i); simpl; try done.
  destruct Ht as [t Ht]; [done|]. by rewrite Ht.
Qed.

(** A written row explains itself. *)
Lemma written_shape p i :
  valid_input i → pol_enabled p = in_enabled i → pol_status p = edited_status (in_enabled i) →
  pol_reason p = edited_reason (in_enabled i) → pol_expiry_enabled p = in_expiry_enabled i →
  pol_usage_mode p = in_usage_mode i → pol_threshold_mb p = kept_threshold i →
  status_shape p = true ∧ trigger_shape p = true.
Proof.
  intros Hv He Hs Hr Hx Hm Ht. unfold status_shape, trigger_shape.
  rewrite He, Hs, Hr, Hx, Hm, Ht, kept_threshold_shape, andb_true_r by done. destruct Hv as [Hv _].
  destruct (in_enabled i); simpl; [split; [done|]|done].
  destruct Hv as [-> | Hne]; [done..|]. by rewrite bool_decide_false, orb_true_r.
Qed.

Lemma publish_edit_run before p actor e w :
  ∃ w', publish_edit before p actor e w = (Ok tt, w') ∧ db w' = db w ∧ depth w' = depth w ∧
    aborted w' = aborted w.
Proof. destruct before; simpl; [case_match|]; by eexists. Qed.

(** What a successful edit wrote. *)
Inductive edit_wrote (s : Esim) (account : Account) i (d : Db)
    : EsimAutoTopupPolicy → list pk → Db → Prop :=
  | wrote_new p d' :
      policy_of_esim (esim_id s) d = None → in_expected_version i = None →
      policies d !! pol_id p = None → pol_account p = acc_id account → pol_esim p = esim_id s →
      pol_version p = 0 → d' = put policies (pol_id p) p d →
      edit_wrote s account i d p [] d'
  | wrote_over q d' :
      policy_of_esim (esim_id s) d = Some q → in_expected_version i = Some (pol_version q) →
      d' = put policies (pol_id q) (edited q i (pol_version q)) d →
      edit_wrote s account i d (edited q i (pol_version q))
        (if _is_manual_funds_resume (pol_status q) (pol_reason q) (edited q i (pol_version q))
         then [pol_id q] else []) d'.

Lemma edited_columns q i v p :
  p = edited q i v →
  pol_id p = pol_id q ∧ pol_account p = pol_account q ∧ pol_esim p = pol_esim q ∧ pol_version p = v + 1 ∧
  pol_enabled p = in_enabled i ∧ pol_status p = edited_status (in_enabled i) ∧
  pol_reason p = edited_reason (in_enabled i) ∧ pol_expiry_enabled p = in_expiry_enabled i ∧
  pol_usage_mode p = in_usage_mode i ∧ pol_threshold_mb p = kept_threshold i ∧
  pol_package_id p = in_package_id i.
Proof. intros ->. unfold edited. by case_match. Qed.

Lemma write_policy_run s account i e w before p enqueued w' :
  write_policy s account i e w = (Ok (before, p, enqueued), w') → aborted w = false →
  policy_inv (db w) → valid_input i →
  edit_wrote s account i (db w) p enqueued (db w') ∧ policy_inv (db w') ∧ aborted w' = false.
Proof.
  intros H Hab Hinv Hv. unfold write_policy in H.
  apply atomic_Ok in H as (w1 & H & Hend).
  apply bind_Ok in H as (existing & w2 & (_ & -> & ->)%locked_query_Ok & H).
  change (db (enter w)) with (db w) in H.
  destruct (policy_of_esim (esim_id s) (db w)) as [q|] eqn:Hq, (in_expected_version i) as [v|] eqn:Hev;
    [|done|done|].
  - apply bind_Ok in H as (u & w3 & [Hver ->]%raise_if_Ok & H).
    pose proof (edited_columns q i v _ eq_refl) as (Hi & _ & He & _ & Hc1 & Hc2 & Hc3 & Hc4 & Hc5 & Hc6 & _).
    cbv zeta in H. rewrite Hi in H. apply bind_Ok in H as (u' & w3 & (_ & Hvd & ->)%save_row_Ok & [[= -> -> ->] ->]%ret_Ok).
    apply negb_false_iff, Z.eqb_eq in Hver as <-.
    destruct Hend as [(Hab1 & _)|[_ ->]]; [simpl in Hab1; congruence|].
    apply policy_verdict_None in Hvd as [Hfit _].
    apply qfirst_Some in Hq as Hq'. destruct Hq' as (k & Hk & _). pose proof (pv_id _ Hinv _ _ Hk) as <-.
    split_and!; [by apply (wrote_over _ _ _ _ q)| |done].
    destruct (written_shape (edited q i (pol_version q)) i) as [Hs1 Hs2]; try done.
    eapply policy_inv_update; [exact Hinv|exact Hk|reflexivity|done|done|].
    unfold policy_ok. by rewrite Hfit, Hs1, Hs2.
  - unfold create_policy in H. inv_step H. simpl in *.
    match goal with H : policy_verdict _ _ = None |- _ => apply policy_verdict_None in H as [Hfit Hun] end.
    destruct Hend as [(? & _)|[_ ->]]; [congruence|]. simpl in *.
    split_and!; [by apply wrote_new| |done].
    match goal with |- policy_inv (put policies _ ?p _) => set (q := p) in * end.
    destruct (written_shape q i) as [Hs1 Hs2]; try done.
    eapply (policy_inv_put _ _ _ q); [exact Hinv|reflexivity|done| |].
    + unfold policy_ok. by rewrite Hfit, Hs1, Hs2.
    + intros j p Hp Hne Heq. apply Hne. rewrite <- (pv_id _ Hinv _ _ Hp). by eapply Hun.
Qed.

Lemma policy_of_esim_stored d k p :
  policy_inv d → policies d !! k = Some p → policy_of_esim (pol_esim p) d = Some p.
Proof.
  intros Hinv Hp. destruct (policy_of_esim (pol_esim p) d) as [q|] eqn:Hq.
  - apply qfirst_Some in Hq as (j & Hj & He). apply N.eqb_eq in He.
    assert (j = k) as -> by by eapply (pv_esim _ Hinv). congruence.
  - unfold policy_of_esim in Hq. rewrite qfirst_None in Hq. specialize (Hq k p Hp).
    by rewrite N.eqb_refl in Hq.
Qed.

(** The written row is what the next edit of the eSIM finds, at another
    version. *)
Lemma wrote_version s account i d p enqueued d' :
  edit_wrote s account i d p enqueued d' → policy_inv d' →
  policy_of_esim (esim_id s) d' = Some p ∧ in_expected_version i ≠ Some (pol_version p) ∧
  pol_version p = match in_expected_version i with None => 0 | Some v => v + 1 end.
Proof.
  intros Hw Hinv. destruct Hw as [p d' Hn Hev Hf Ha He Hv Hd|q d' Hq Hev Hd].
  - rewrite Hev, Hv. split_and!; [|done..]. rewrite <- He. eapply (policy_of_esim_stored _ (pol_id p)); [done|].
    rewrite Hd. simpl. apply lookup_insert_eq.
  - pose proof (edited_columns q i (pol_version q) _ eq_refl) as (Hi & _ & He & Hv & _).
    rewrite Hev, Hv. split_and!; [|intros [= ?]; lia|done]. apply qfirst_Some in Hq as (k & Hk & Hs).
    apply N.eqb_eq in Hs. rewrite <- Hs, <- He. eapply (policy_of_esim_stored _ (pol_id q)); [done|].
    rewrite Hd. simpl. apply lookup_insert_eq.
Qed.

(** A write at another version is refused. *)
Lemma stale_write_refused s account i p e w :
  policy_of_esim (esim_id s) (db w) = Some p → in_expected_version i ≠ Some (pol_version p) →
  ∃ x w', write_policy s account i e w = (Raise x, w') ∧ db w' = db w.
Proof.
  intros Hp Hv. destruct (write_policy s account i e w) as [[[[b q] l]|x] w'] eqn:E.
  - exfalso. unfold write_policy in E. apply atomic_Ok in E as (w1 & H & _).
    apply bind_Ok in H as (existing & w2 & (_ & -> & ->)%locked_query_Ok & H).
    change (db (enter w)) with (db w) in H. rewrite Hp in H.
    destruct (in_expected_version i) as [v|]; [|done].
    apply bind_Ok in H as (u & w3 & [Hver _]%raise_if_Ok & _).
    apply negb_false_iff, Z.eqb_eq in Hver. congruence.
  - exists x, w'. split; [done|]. by apply atomic_Raise in E as [? _].
Qed.

Lemma rollout_world account e w r w' :
  rollout_allows_account sha256 account e w = (r, w') → w' = w.
Proof.
  unfold rollout_allows_account, _master_enabled, account_user, lift, get, query, found, asks, ret, raise, bind.
  intros H. by repeat (case_match; simplify_eq).
Qed.

(** Everything before the write only reads. *)
Lemma upsert_run s account i e w r w' :
  upsert_policy sha256 s account i e w = (r, w') → aborted w = false →
  (∃ x, r = Raise x ∧ db w' = db w) ∨
  ∃ w1 before p enqueued w2, db w1 = db w ∧ aborted w1 = false ∧ valid_input i ∧
    (∀ k t, topups (db w) !! k = Some t → top_esim t = esim_id s → top_status t ≠ TOP_FULFILLING) ∧
    write_policy s account i e w1 = (Ok (before, p, enqueued), w2) ∧ r = Ok (p, enqueued) ∧
    db w' = db w2.
Proof.
  intros H Hab. unfold upsert_policy in H. rewrite bind_run in H.
  destruct (rollout_allows_account _ _ _ _) as [[allowed|x] w1] eqn:E1; apply rollout_world in E1 as ->;
    [|left; exists x; by injection H as <- <-].
  rewrite bind_run in H.
  destruct (raise_if _ _ e w) as [[u|x] w1] eqn:E2; apply raise_if_world in E2 as ->;
    [|left; exists x; by injection H as <- <-].
  rewrite bind_run in H. destruct (list_topups _ _ _) as [[ps|x] w1] eqn:E3;
    apply list_topups_reads in E3 as (Hd1 & _ & Ha1 & _); [|left; exists x; by injection H as <- <-].
  destruct (List.find _ ps) as [package|]; [|left; injection H as <- <-; eauto].
  rewrite bind_run in H. destruct (check_input _ _ _ _ _) as [[u'|x] w2] eqn:E4.
  2:{ left. exists x. injection H as <- <-. split; [done|]. rewrite <- Hd1. symmetry.
      enough (Hr : respects eq (check_input s package i)) by by eapply Hr.
      unfold check_input. solve_respects. }
  apply check_input_Ok in E4 as (Hd2 & Ha2 & _ & Hv).
  rewrite bind_run, query_run in H by congruence. rewrite bind_run in H.
  destruct (raise_if _ _ e w2) as [[u2|x] w3] eqn:E5; pose proof (raise_if_world _ _ _ _ _ _ E5) as ->;
    [|left; exists x; injection H as <- <-; split; congruence].
  apply raise_if_Ok in E5 as [Hbusy _]. rewrite bind_run in H.
  destruct (write_policy s account i e w2) as [[[[before p] enqueued]|x] w3] eqn:E6.
  - right. exists w2, before, p, enqueued, w3. rewrite bind_run in H.
    destruct (publish_edit_run before p (in_actor i) e w3) as (w4 & Hpub & Hd4 & _).
    rewrite Hpub in H. injection H as <- <-. split_and!; try congruence; try done.
    intros k t Ht He Hst. rewrite Hd2, Hd1, qexists_false in Hbusy. specialize (Hbusy k t Ht). simpl in *.
    by rewrite He, N.eqb_refl, Hst in Hbusy.
  - left. exists x. injection H as <- <-. split; [done|]. apply atomic_Raise in E6 as [? _]. congruence.
Qed.

(** C29: An edit of an auto top-up policy is a compare-and-swap on its version:
    it either raises and changes nothing, or writes exactly its arguments over
    the version its caller had read (or creates the eSIM's only policy, at
    version 0), never while a top-up of the eSIM is in progress, and leaves a
    policy table in which every status explains itself; the version grows, so
    a second edit from the same reading is refused. *)
Theorem upsert_compare_and_swap s account i e w r w' :
  upsert_policy sha256 s account i e w = (r, w') → aborted w = false → policy_inv (db w) →
  match r with
  | Raise _ => db w' = db w
  | Ok (p, enqueued) =>
      edit_wrote s account i (db w) p enqueued (db w') ∧ policy_inv (db w') ∧ valid_input i ∧
      (∀ k t, topups (db w) !! k = Some t → top_esim t = esim_id s → top_status t ≠ TOP_FULFILLING) ∧
      ∀ account2 i2 e2 w2, in_expected_version i2 = in_expected_version i →
        db w2 = db w' → aborted w2 = false →
        ∃ x w3, upsert_policy sha256 s account2 i2 e2 w2 = (Raise x, w3) ∧ db w3 = db w2
  end.
Proof.
  intros H Hab Hinv. apply upsert_run in H as [(x & -> & ?)|(w1 & before & p & enq & w2 & Hd1 & Ha1 & Hv & Hb & Hw & -> & Hd')];
    [done| |done].
  apply write_policy_run in Hw as (Hwr & Hinv2 & _); [|done|by rewrite Hd1|done]. rewrite Hd1, <- Hd' in *.
  split_and!; try done. intros account2 i2 e2 w3 Hev Hd3 Ha3.
  destruct (wrote_version _ _ _ _ _ _ _ Hwr Hinv2) as (Hp & Hne & _).
  destruct (upsert_policy sha256 s account2 i2 e2 w3) as [r2 w4] eqn:E.
  apply upsert_run in E as [(x & -> & ?)|(w5 & b5 & p5 & q5 & w6 & Hd5 & _ & _ & _ & Hw5 & _)]; [by exists x, w4| |done].
  exfalso. destruct (stale_write_refused s account2 i2 p e2 w5) as (x & w7 & E & _);
    [by rewrite Hd5, Hd3|by rewrite Hev|]. by rewrite E in Hw5.
Qed.
End Editing.

(** ** The system *)

Section AutoSystem.
Context (sha256 : string → string) (parse_datetime : string → Res (option instant)).
Context {provider : TopupProvider}.

(** Everything that touches policies, eSIMs or top-ups. *)
Inductive auto_op : ∀ A, M A → Prop :=
  | op_evaluate_one id : auto_op _ (evaluate_one sha256 parse_datetime id)
  | op_evaluate_due : auto_op _ (evaluate_due sha256 parse_datetime)
  | op_upsert s account i : auto_op _ (upsert_policy sha256 s account i)
  | op_delete s v actor : auto_op _ (delete_policy s v actor)
  | op_move esim user : auto_op _ (transfer_esim_inventory esim user)
  | op_buy s package_id key account : auto_op _ (purchase sha256 s package_id key account)
  | op_refresh s : auto_op _ (get_usage parse_datetime s).

(** The tables no edit of a policy touches. *)
Definition goods_tables (d : Db) := (prepaid_tables d, esims d).

Lemma goods_same d d' :
  goods_tables d' = goods_tables d → prepaid_tables d' = prepaid_tables d ∧ esims d' = esims d.
Proof. unfold goods_tables, prepaid_tables. by intros [= -> -> -> -> ->]. Qed.

Lemma goods_keep {A} (m : M A) :
  outside (same goods_tables) m →
  (∀ e w r w', m e w = (r, w') → aborted w = false → policy_inv (db w) → policy_inv (db w')) →
  keeps auto_inv m.
Proof.
  intros Hm Hp e w r w' [Hpre Hpol Hk] Hdep Hab H.
  destruct (Hm _ _ _ _ Hdep Hab H) as (Hg & ? & ?). apply goods_same in Hg as [Ht Hes].
  split_and!; [split|done..].
  - by eapply prepaid_inv_same.
  - by eapply Hp.
  - intros k s. rewrite Hes. apply Hk.
Qed.

Lemma upsert_keeps s account i : keeps auto_inv (upsert_policy sha256 s account i).
Proof.
  apply goods_keep.
  - assert (Hl : ∀ j, outside (same goods_tables) (list_topups j))
      by (intros; apply outside_reads, list_topups_reads; apply _).
    assert (Hr : outside (same goods_tables) (rollout_allows_account sha256 account))
      by (intros e w r w' ? ? ->%rollout_world; done).
    unfold upsert_policy, check_input, write_policy, create_policy, publish_edit, publish_policy_created,
      publish_policy_updated, _policy_created_event, _policy_updated_event, _safe_publish.
    solve_outside.
  - intros e w r w' H Hab Hinv.
    apply upsert_run in H as [(x & _ & ->)|(w1 & b & p & l & w2 & Hd1 & Ha1 & Hv & _ & Hw & _ & ->)]; [done| |done].
    apply write_policy_run in Hw as (_ & ? & _); [done|done|by rewrite Hd1|done].
Qed.

Lemma delete_keeps s v actor : keeps auto_inv (delete_policy s v actor).
Proof.
  apply goods_keep.
  - unfold delete_policy, publish_policy_updated, _policy_updated_event, _safe_publish. solve_outside.
  - intros e w r w' H Hab. revert e w r w' H Hab.
    assert (Hr : respects (preserves policy_inv) (delete_policy s v actor)).
    { unfold delete_policy, publish_policy_updated, _policy_updated_event, _safe_publish. solve_respects.
      apply respects_delete_row; [apply _|]. intros d [Hi Ho He].
      split; simpl; intros *; rewrite lookup_delete_Some.
      - intros [_ ?]. eauto.
      - intros [_ ?]. eauto.
      - intros [_ ?] [_ ?]%lookup_delete_Some. eauto. }
    intros e w r w' H _. by eapply Hr.
Qed.

Lemma transfer_policy_inv esim user : respects (preserves policy_inv) (transfer_esim_inventory esim user).
Proof.
  unfold transfer_esim_inventory, _load_destination_account, _require_personal_account,
    move_inventory, save_esim, save_policy.
  solve_respects; (apply respects_save_fields; [apply _|]); intros d v Hv Hvd Hinv;
    [by apply (policy_inv_same d)|].
  apply policy_verdict_None in Hvd as [Hfit _].
  eapply policy_inv_update; [exact Hinv|exact Hv|reflexivity|done|done|].
  pose proof (pv_ok _ Hinv _ _ Hv) as Hok. unfold policy_ok, trigger_shape in *.
  apply andb_true_iff in Hok as [_ [_ Ht]%andb_true_iff]. rewrite Hfit. exact Ht.
Qed.

Lemma transfer_esims esim user : respects (preserves esims_keyed) (transfer_esim_inventory esim user).
Proof.
  unfold transfer_esim_inventory, _load_destination_account, _require_personal_account,
    move_inventory, save_esim, save_policy.
  solve_respects. by apply save_esims_keyed.
Qed.

Lemma transfer_keeps esim user : keeps auto_inv (transfer_esim_inventory esim user).
Proof.
  assert (Ht : outside (same prepaid_tables) (transfer_esim_inventory esim user)).
  { pose proof (transfer_same esim user) as Hr. unfold transfer_esim_inventory in *.
    destruct user; [|by solve_outside]. by apply outside_atomic. }
  intros e w r w' [Hpre Hpol Hk] Hdep Hab H. destruct (Ht _ _ _ _ Hdep Hab H) as (Hs & ? & ?).
  split_and!; [split|done..].
  - by eapply prepaid_inv_same.
  - by eapply transfer_policy_inv.
  - by eapply transfer_esims.
Qed.

Lemma purchase_keeps s package_id key account : keeps auto_inv (purchase sha256 s package_id key account).
Proof.
  intros e w r w' [Hpre Hpol Hk] Hdep Hab H.
  destruct (purchase_outside _ _ _ _ _ _ _ _ _ Hdep Hab H) as (Hh & ? & ?).
  apply held_same in Hh as [Hp Hes]. apply purchase_run in H as [_ ?]; [|done..].
  split_and!; [split|done..]; [done|by eapply policy_inv_same|intros k u; rewrite Hes; apply Hk].
Qed.

Lemma usage_keeps s : keeps auto_inv (get_usage parse_datetime s).
Proof.
  intros e w r w' [Hpre Hpol Hk] Hdep Hab H.
  destruct (get_usage_outside parse_datetime s _ _ _ _ Hdep Hab H) as (Hkt & ? & ?).
  apply kept_same in Hkt as (Hpt & Hp & _).
  split_and!; [split|done..];
    [by eapply prepaid_inv_same|by eapply policy_inv_same|by eapply get_usage_keyed].
Qed.

(** C25: The auto top-up system keeps its invariant under every operation,
    however it ends: the prepaid books balance, an eSIM has at most one policy,
    every policy's status explains itself and an enabled one has a trigger; and
    no operation leaves a transaction open or the connection aborted. *)
Theorem auto_topup_system_invariant A (m : M A) e w r w' :
  auto_op A m → m e w = (r, w') → depth w = 0%nat → aborted w = false → auto_inv (db w) →
  auto_inv (db w') ∧ depth w' = 0%nat ∧ aborted w' = false.
Proof.
  intros Hop H Hdep Hab Hinv. revert H. assert (Hk : keeps auto_inv m); [|by apply Hk].
  destruct Hop; [apply evaluate_one_keeps|apply evaluate_due_keeps|apply upsert_keeps|apply delete_keeps
    |apply transfer_keeps|apply purchase_keeps|apply usage_keeps].
Qed.
End AutoSystem.

(** ** A concrete policy *)

Definition half_gb : TopupPackage := mkTopupPackage "half" 2000000 None false.
#[local] Instance small_provider : TopupProvider := {|
  list_topups _ := ret [half_gb];
  submit_topup _ _ := ret (mkTopupResult "ext-9");
  provider_usage _ := ret (usage_of "ACTIVE");
  list_topups_reads _ := only_reads_ret _;
  submit_topup_reads _ _ := only_reads_ret _;
  provider_usage_reads _ := only_reads_ret _;
|}.

Definition no_date : string → Res (option instant) := λ _, Ok None.
Definition at_time (t : instant) : Env :=
  mkEnv sample_settings (λ n, t + seconds (Z.of_nat n)) 100 (λ n, pretty (N.of_nat n)).

(** Buy half a gigabyte for eSIM 5 whenever fewer than 200 MB are left. *)
Definition low_data : EsimAutoTopupPolicy :=
  mkPolicy 9 1 5 "half" true POL_ACTIVE None false USAGE_THRESHOLD (Some 200) UNTIL_FUNDS None
    None None None None "" 0 0.
Definition watched_db : Db := stocked_db <| policies := {[ 9%N := low_data ]} |>.
Definition watched_world : World := world_of watched_db.
Definition first_beat := evaluate_one sample_sha no_date 9 (at_time (seconds 10000)) watched_world.

Example beat_runs :
  let '(r, w) := first_beat in
  let '(r2, w2) := evaluate_one sample_sha no_date 9 (at_time (seconds 10100)) w in
  let '(r3, w3) := evaluate_due sample_sha no_date (at_time (seconds 20000)) w2 in
  (r, r2, r3, account_sum 1 (ledger (db w3))) =
  (Ok success, Ok skipped, Ok (Some (mkStats 1 0 0 0 0)), 1000000).
Proof. vm_compute. reflexivity. Qed.

Lemma watched_inv : auto_inv watched_db.
Proof.
  split.
  - by apply (prepaid_inv_same stocked_db); [|apply stocked_inv].
  - split; simpl.
    + by intros k p [<- <-]%lookup_singleton_Some.
    + by intros k p [<- <-]%lookup_singleton_Some.
    + by intros j k p q [<- _]%lookup_singleton_Some [<- _]%lookup_singleton_Some.
  - intros k s. apply stocked_keyed.
Qed.

Lemma evaluate_one_outcome_witness :
  ∃ r w', first_beat = (r, w') ∧ evaluated sample_sha (at_time (seconds 10000)) 9 watched_db r (db w').
Proof.
  destruct first_beat as [r w'] eqn:E. exists r, w'. split; [reflexivity|].
  exact (evaluate_one_outcome sample_sha no_date 9 _ watched_world r w' E eq_refl eq_refl watched_inv).
Defined.

Lemma first_beat_spends : ledger (db first_beat.2) ≠ ledger watched_db.
Proof. intros H. apply (f_equal length) in H. vm_compute in H. discriminate H. Qed.

Lemma spends_only_when_due_witness :
  ∃ r w' p s reason key, first_beat = (r, w') ∧
    spent (at_time (seconds 10000)) 9 p s reason key r watched_db (db w').
Proof.
  pose proof first_beat_spends as Hne. destruct first_beat as [r w'] eqn:E. exists r, w'.
  destruct (spends_only_when_due sample_sha no_date 9 _ watched_world r w' E eq_refl eq_refl watched_inv Hne)
    as (p & s & reason & key & H).
  exists p, s, reason, key. split; [reflexivity|exact H].
Defined.

(** The second beat, past the cooldown. *)
Definition second_beat := evaluate_one sample_sha no_date 9 (at_time (seconds 20000)) first_beat.2.

Lemma beats_spend : first_beat.1 = Ok success ∧ depth first_beat.2 = 0%nat ∧
  aborted first_beat.2 = false ∧ ledger (db second_beat.2) ≠ ledger (db first_beat.2).
Proof.
  split_and!; [vm_compute; reflexivity..|]. intros H. apply (f_equal length) in H.
  vm_compute in H. discriminate H.
Qed.

(** A clock that shows one instant throughout a run. *)
Definition still_at (t : instant) : Env :=
  mkEnv sample_settings (λ _, t) 100 (λ n, pretty (N.of_nat n)).

(** A beat 500 seconds after the first, within its cooldown of 900. *)
Lemma purchases_are_spaced_witness :
  ∃ q r w, policies (db first_beat.2) !! 9%N = Some q ∧
    evaluate_one sample_sha no_date 9 (still_at (seconds 10500)) first_beat.2 = (r, w) ∧
    ledger (db w) = ledger (db first_beat.2).
Proof.
  destruct beats_spend as (Hok & Hdep & Hab & _).
  assert (Hq : ∃ q, policies (db first_beat.2) !! 9%N = Some q) by (eexists; vm_compute; reflexivity).
  destruct Hq as [q Hq]. exists q.
  destruct first_beat as [r w1] eqn:E1. simpl in *. subst r.
  destruct (evaluate_one sample_sha no_date 9 (still_at (seconds 10500)) w1) as [r2 w2] eqn:E2.
  assert (Hinv1 : auto_inv (db w1))
    by exact (proj1 (evaluate_one_keeps sample_sha no_date 9 (at_time (seconds 10000)) watched_world _ w1 watched_inv eq_refl eq_refl E1)).
  exists r2, w2. split; [exact Hq|]. split; [reflexivity|].
  destruct (purchases_are_spaced sample_sha no_date 9 q (seconds 10000) _ watched_world w1 _ w1 r2 w2 E1
    eq_refl eq_refl watched_inv E2 Hdep Hab Hinv1 Hq Hq) as [Hsame _].
  - intros i. unfold at_time, seconds. simpl. lia.
  - apply Hsame. intros i. reflexivity.
Defined.

Definition edit_input : PolicyInput :=
  mkPolicyInput "half" true USAGE_ZERO UNTIL_FUNDS None None None true (Some 0) "user".
Definition sample_account : Account := mkAccount 1 (Some 7%N) PERSONAL 0 0 None.
Definition edit_run := upsert_policy sample_sha sample_esim sample_account edit_input
  (at_time (seconds 10000)) watched_world.

Example edit_runs :
  match edit_run.1 with Ok (p, _) => (pol_version p, pol_threshold_mb p) | _ => (0, None) end = (1, None).
Proof. vm_compute. reflexivity. Qed.

Lemma upsert_compare_and_swap_witness :
  ∃ p enqueued w', edit_run = (Ok (p, enqueued), w') ∧ pol_version p = 1 ∧ policy_inv (db w').
Proof.
  assert (Hok : match edit_run.1 with Ok (p, _) => pol_version p =? 1 | _ => false end = true)
    by (vm_compute; reflexivity).
  destruct edit_run as [[[p enq]|x] w'] eqn:E; simpl in Hok; [|discriminate Hok].
  exists p, enq, w'. split; [reflexivity|]. apply Z.eqb_eq in Hok. split; [exact Hok|].
  exact (proj1 (proj2 (upsert_compare_and_swap sample_sha sample_esim sample_account edit_input _ watched_world
    _ w' E eq_refl (au_policies _ watched_inv)))).
Defined.

Lemma auto_topup_system_invariant_witness :
  ∃ r w', evaluate_due sample_sha no_date (at_time (seconds 10000)) watched_world = (r, w') ∧ auto_inv (db w').
Proof.
  destruct (evaluate_due sample_sha no_date (at_time (seconds 10000)) watched_world) as [r w'] eqn:E.
  exists r, w'. split; [reflexivity|].
  exact (proj1 (auto_topup_system_invariant sample_sha no_date _ _ _ watched_world r w'
    (op_evaluate_due _ _) E eq_refl eq_refl watched_inv)).
Defined.

(** A provider failure ends an expiry episode as a success: the failed top-up
    keeps the episode's key, the next beat replays it and records a purchase
    that was never made. *)
Definition expired_usage : UsageDTO := mkUsageDTO 0 500 (Some "9000") None "EXPIRED".
#[local] Instance broken_provider : TopupProvider | 10 := {|
  list_topups _ := ret [half_gb];
  submit_topup _ _ := raise (ProviderError "down");
  provider_usage _ := ret expired_usage;
  list_topups_reads _ := only_reads_ret _;
  submit_topup_reads _ _ := only_reads_raise _;
  provider_usage_reads _ := only_reads_ret _;
|}.
Definition on_expiry : EsimAutoTopupPolicy :=
  low_data <| pol_expiry_enabled := true |> <| pol_usage_mode := USAGE_DISABLED |>
           <| pol_threshold_mb := None |>.
Definition broken_beat (t : Z) (w : World) : Res Outcome * World :=
  evaluate_one (provider := broken_provider) sample_sha (λ s, Ok (seconds <$> int_base10 s)) 9
    (at_time (seconds t)) w.

Example failure_recorded_as_success :
  let w := world_of (watched_db <| policies := {[ 9%N := on_expiry ]} |>) in
  let '(r, w1) := broken_beat 10000 w in
  let '(r2, w2) := broken_beat 10100 w1 in
  let '(r3, w3) := broken_beat 20000 w2 in
  (r, r2, r3, top_status <$> rows (topups (db w3)), account_sum 1 (ledger (db w3))) =
  (Ok failed, Ok success, Ok skipped, [TOP_FAILED], 5000000).
Proof. vm_compute. reflexivity. Qed.

(** The event of a deletion has no policy identifier. *)
Example deletion_event_without_id :
  match last (events (delete_policy sample_esim (Some 0) "user" (at_time 0) watched_world).2) with
  | Some (AutoTopupPolicyUpdated id _ _ _ _ _ _ _ _ _ _ _) => id
  | _ => Some 0%N
  end = None.
Proof. vm_compute. reflexivity. Qed.
