(* ===== verification/Addresses.v ===== *)
(** * Wallet addresses: derivation, allocation, rotation and backfill

    [apps/wallet/services/hd.py], [allocation.py] and [backfill.py], with the
    tables of [apps/wallet/models.py].  The key derivation of [eth_account]
    is a parameter: [from_mnemonic seed path] is the address text of
    [Account.from_mnemonic(seed, account_path=path)], or the exception it
    raises. *)

From S2P Require Import Prelude Strings Tables Money Models EsimModels World Effects Credit.
#[local] Open Scope Z_scope.

(** ** Address texts *)

Definition normalize_evm_address (value : string) : string :=
  let text := lower (strip value) in
  let text := if startswith "0x" text then sdrop 2 text else text in
  if bool_decide (text = "") then "0x" else "0x" +:+ slast 40 (zfill 40 text).

(** Normalizing twice is normalizing once. *)
Lemma normalize_evm_idem value :
  normalize_evm_address (normalize_evm_address value) = normalize_evm_address value.
Proof.
  unfold normalize_evm_address at 2 3. set (text := if startswith _ _ then _ else _).
  assert (Ht : no_tail_space text ∧ lower text = text).
  { unfold text. split.
    - case_match; [apply no_tail_sdrop|]; apply no_tail_lower, no_tail_strip.
    - case_match; [|apply lower_idem]. unfold lower at 1. rewrite smap_sdrop.
      by fold (lower (lower (strip value))); rewrite lower_idem. }
  case_bool_decide as Hne; [done|]. set (t := slast 40 (zfill 40 text)).
  assert (Hlen : String.length t = 40%nat) by (apply length_slast; rewrite length_zfill; lia).
  assert (Hne' : t ≠ "") by (intros E; by rewrite E in Hlen).
  assert (Hlow : lower ("0x" +:+ t) = "0x" +:+ t).
  { change (lower ("0x" +:+ t)) with ("0x" +:+ lower t). f_equal. unfold t, slast, lower.
    rewrite smap_sdrop. f_equal. apply (lower_zfill 40 text), Ht. }
  unfold normalize_evm_address. rewrite strip_id; [|done|].
  - rewrite Hlow. change (startswith "0x" ("0x" +:+ t)) with (startswith "" t).
    replace (startswith "" t) with true by (by destruct t).
    change (sdrop 2 ("0x" +:+ t)) with t. rewrite bool_decide_false by done.
    by rewrite zfill_long, slast_exact by lia.
  - apply no_tail_append; [done|]. apply no_tail_sdrop, no_tail_zfill, Ht.
Qed.

(** [BIP44_EVM_ACCOUNT_PATH.format(index=...)] *)
Definition account_path (derivation_index : Z) : string :=
  "m/44'/60'/0'/0/" +:+ pretty derivation_index.

(** ** Table verdicts *)

Definition identity_verdict (d : Db) (i : WalletIdentity) : option Exn :=
  if qexists (λ j, (wid_account j =? wid_account i)%N && negb (wid_id j =? wid_id i)%N)
       (wallet_identities d)
  then Some IntegrityError else None.

Definition is_active (identity : pk) (chain : string) (a : WalletAddress) : bool :=
  (wa_wallet_identity a =? identity)%N && bool_decide (wa_chain a = chain) &&
  bool_decide (wa_status a = WA_ACTIVE).

(** The unique constraints of [WalletAddress.Meta]: another row may not clash. *)
Definition address_clash (a b : WalletAddress) : bool :=
  (wa_derivation_index b =? wa_derivation_index a) ||
  ((wa_wallet_identity b =? wa_wallet_identity a)%N && bool_decide (wa_chain b = wa_chain a) &&
   bool_decide (wa_address b = wa_address a)) ||
  (is_active (wa_wallet_identity a) (wa_chain a) b && bool_decide (wa_status a = WA_ACTIVE)).

Definition address_checks (a : WalletAddress) : bool :=
  (0 <=? wa_derivation_index a) &&
  match wa_status a, wa_retired_at a with
  | WA_ACTIVE, None => true
  | WA_RETIRED, Some _ => true
  | _, _ => false
  end.

Definition address_verdict (d : Db) (a : WalletAddress) : option Exn :=
  if negb (wa_derivation_index a <=? max_int32) then Some DataError
  else if negb (address_checks a) then Some IntegrityError
  else if qexists (λ b, address_clash a b && negb (wa_id b =? wa_id a)%N) (wallet_addresses d)
  then Some IntegrityError else None.

Section Allocation.
Context (from_mnemonic : string → string → Res string).

Definition derive_evm_address (mnemonic : string) (derivation_index : Z) : Res string :=
  let seed := strip mnemonic in
  if bool_decide (seed = "") then Raise WalletSeedNotConfiguredError
  else if derivation_index <? 0 then Raise (ValueError "derivation_index must be >= 0")
  else match from_mnemonic seed (account_path derivation_index) with
       | Ok address => Ok (normalize_evm_address address)
       | Raise x => Raise x
       end.

Definition _MAX_INDEX_RETRIES : nat := 8.

(** [WalletIdentity.objects.filter(account=account).first()] *)
Definition identity_of (account : pk) (d : Db) : option WalletIdentity :=
  qfirst (λ i, (wid_account i =? account)%N) (wallet_identities d).

Definition _lock_identity (account : pk) : M WalletIdentity :=
  let! identity := query (identity_of account) in
  let! identity :=
    match identity with
    | Some i => ret i
    | None =>
        try_except
          (atomic (
            let! id := uuid4 in
            let i := mkIdentity id account in
            create wallet_identities identity_verdict id i;;;
            ret i))
          (on_integrity_error (let! o := query (identity_of account) in found o))
    end in
  get_locked wallet_identities (wid_id identity).

(** [aggregate(m=Max("derivation_index"))["m"]] *)
Definition max_index (d : Db) : option Z :=
  foldr (λ a m, Some (match m with Some m => Z.max (wa_derivation_index a) m
                                 | None => wa_derivation_index a end))
    None (rows (wallet_addresses d)).

Definition _next_derivation_index : M Z :=
  let! current := query max_index in
  ret (match current with None => 0 | Some m => m + 1 end).

Definition _allocate_new (identity : WalletIdentity) (chain : string) : M WalletAddress :=
  let! derivation_index := _next_derivation_index in
  let! mnemonic := asks WALLET_HD_MNEMONIC in
  let! address := lift (derive_evm_address mnemonic derivation_index) in
  let! id := uuid4 in
  let! created_at := now in
  let a := mkWalletAddress id (wid_id identity) chain address derivation_index WA_ACTIVE
             created_at None in
  create wallet_addresses address_verdict id a;;;
  ret a.

(** [.filter(..., status=ACTIVE).order_by("derivation_index").first()] *)
Definition active_address (identity : pk) (chain : string) (d : Db) : option WalletAddress :=
  first_by wa_derivation_index (qall (is_active identity chain) (wallet_addresses d)).

(** The [with transaction.atomic()] block of [_ensure_active_address_once]. *)
Definition ensure_block (account : pk) (chain : string) : M WalletAddress :=
  let! identity := _lock_identity account in
  let! existing := query (active_address (wid_id identity) chain) in
  match existing with
  | Some a => ret a
  | None => _allocate_new identity chain
  end.

Definition _ensure_active_address_once (account : pk) (chain : string) : M WalletAddress :=
  atomic (ensure_block account chain).

(** The block of [_rotate_active_address_once]. *)
Definition rotate_block (account : pk) (chain : string) : M WalletAddress :=
  let! identity := _lock_identity account in
  let! active := locked_query (λ d,
    qfirst (is_active (wid_id identity) chain) (wallet_addresses d)) in
  match active with
  | None => raise WalletAddressNotFoundError
  | Some active =>
      let! retired_at := now in
      save_fields wallet_addresses address_verdict (wa_id active) (λ a,
        a <| wa_status := WA_RETIRED |> <| wa_retired_at := Some retired_at |>);;;
      _allocate_new identity chain
  end.

Definition _rotate_active_address_once (account : pk) (chain : string) : M WalletAddress :=
  atomic (rotate_block account chain).

(** [WalletAllocationService.ensure_active_address] and [.rotate_active_address]. *)
Definition ensure_active_address (account : pk) (chain : string) : M WalletAddress :=
  retry_integrity _MAX_INDEX_RETRIES (_ensure_active_address_once account chain)
    WalletAllocationError.
Definition rotate_active_address (account : pk) (chain : string) : M WalletAddress :=
  retry_integrity _MAX_INDEX_RETRIES (_rotate_active_address_once account chain)
    WalletAllocationError.

(** ** Backfill and migration validation *)

(** [wallet_identity__account_id] *)
Definition account_of_address (d : Db) (a : WalletAddress) : option pk :=
  wid_account <$> wallet_identities d !! wa_wallet_identity a.

(** Whether [account_id] is in [_account_ids_with_active_address]. *)
Definition has_active_address (chain : string) (d : Db) (account : pk) : bool :=
  qexists (λ a, bool_decide (wa_chain a = chain) && bool_decide (wa_status a = WA_ACTIVE) &&
    bool_decide (account_of_address d a = Some account)) (wallet_addresses d).

(** [accounts_needing_backfill], oldest account first. *)
Definition accounts_needing_backfill (chain : string) (d : Db) : list Account :=
  List.filter (λ a, negb (has_active_address chain d (acc_id a))) (rows_by_pk (accounts d)).

Record BackfillReport := mkBackfill {
  bf_apply : bool;
  bf_accounts_scanned : nat;
  bf_already_ready : nat;
  bf_would_allocate : nat;
  bf_allocated : nat;
  bf_errors : nat;
}.

(** One round of the loop: any exception is counted, and the loop goes on. *)
Definition backfill_one (chain : string) (acc : nat * nat) (account : Account) : M (nat * nat) :=
  try_except
    (let! _ := ensure_active_address (acc_id account) chain in ret (S acc.1, acc.2))
    (λ _, Some (ret (acc.1, S acc.2))).

Definition run_wallet_backfill (apply_ : bool) (limit : option nat) (chain : string)
    : M BackfillReport :=
  let! accounts_total := query (λ d, size (accounts d)) in
  let! missing := query (accounts_needing_backfill chain) in
  let already_ready := (accounts_total - length missing)%nat in
  let targets := match limit with Some n => take n missing | None => missing end in
  if negb apply_ then
    ret (mkBackfill false accounts_total already_ready (length targets) 0 0)
  else
    let! r := fold_each targets (0%nat, 0%nat) (backfill_one chain) in
    ret (mkBackfill true accounts_total already_ready (length targets) r.1 r.2).

Record MigrationValidationReport := mkValidation {
  mv_accounts_total : nat;
  mv_accounts_missing_identity : nat;
  mv_accounts_missing_active_address : nat;
  mv_orphan_identities : nat;
  mv_duplicate_active_addresses : nat;
  mv_missing_index_registry_fields : nat;
  mv_sample_checked : nat;
  mv_sample_mismatches : nat;
}.

Definition passed (r : MigrationValidationReport) : bool :=
  (mv_accounts_missing_identity r =? 0)%nat && (mv_accounts_missing_active_address r =? 0)%nat &&
  (mv_orphan_identities r =? 0)%nat && (mv_duplicate_active_addresses r =? 0)%nat &&
  (mv_missing_index_registry_fields r =? 0)%nat && (mv_sample_mismatches r =? 0)%nat.

(** Whether a sampled row fails the re-derivation. *)
Definition sample_mismatch (mnemonic : string) (row : WalletAddress) : bool :=
  if bool_decide (mnemonic = "") then true
  else match derive_evm_address mnemonic (wa_derivation_index row) with
       | Raise _ => true
       | Ok expected =>
           negb (bool_decide (normalize_evm_address (wa_address row) =
                              normalize_evm_address expected))
       end.

Definition index_le (a b : WalletAddress) : Prop := wa_derivation_index a ≤ wa_derivation_index b.
#[local] Instance index_le_dec : RelDecision index_le.
Proof. intros a b. unfold index_le. apply _. Defined.

(** The identities with more than one active address on [chain]. *)
Definition duplicate_active (chain : string) (d : Db) : list pk :=
  List.filter (λ i, (1 <? qcount (is_active i chain) (wallet_addresses d))%nat)
    (elements (list_to_set (wa_wallet_identity <$> qall (λ a, bool_decide (wa_chain a = chain) &&
       bool_decide (wa_status a = WA_ACTIVE)) (wallet_addresses d)) : gset pk)).

Definition validate_wallet_migration (chain : string) (sample_size : Z)
    : M MigrationValidationReport :=
  let! accounts_total := query (λ d, size (accounts d)) in
  let! missing_active := query (λ d, length (accounts_needing_backfill chain d)) in
  let! missing_identity := query (λ d,
    qcount (λ a, bool_decide (identity_of (acc_id a) d = None)) (accounts d)) in
  let! orphan := query (λ d, qcount (λ i,
    negb (qexists (λ a, (wa_wallet_identity a =? wid_id i)%N) (wallet_addresses d)))
    (wallet_identities d)) in
  let! duplicate := query (λ d, length (duplicate_active chain d)) in
  let! missing_fields := query (λ d,
    qcount (λ a, bool_decide (wa_address a = "")) (wallet_addresses d)) in
  let! mnemonic := asks WALLET_HD_MNEMONIC in
  let! sample := query (λ d, take (Z.to_nat (Z.max 0 sample_size))
    (merge_sort index_le (qall (λ a, bool_decide (wa_chain a = chain)) (wallet_addresses d)))) in
  ret (mkValidation accounts_total missing_identity missing_active orphan duplicate
    missing_fields (length sample)
    (length (List.filter (sample_mismatch (strip mnemonic)) sample))).
End Allocation.

(** ** The registry *)

(** The indices reserved so far are at most [max_index]. *)
Lemma max_index_ge d k a :
  wallet_addresses d !! k = Some a → ∃ m, max_index d = Some m ∧ wa_derivation_index a ≤ m.
Proof.
  intros Ha. assert (Hin : a ∈ rows (wallet_addresses d)) by (apply elem_of_rows; eauto).
  unfold max_index. induction (rows (wallet_addresses d)) as [|b l IH]; [by apply not_elem_of_nil in Hin|].
  simpl. apply elem_of_cons in Hin as [->|Hin].
  - destruct (foldr _ _ _) as [m|]; eexists; split; [done|lia|done|lia].
  - destruct (IH Hin) as (m & -> & Hle). eexists. split; [done|lia].
Qed.

Definition next_index (d : Db) : Z := match max_index d with None => 0 | Some m => m + 1 end.

Lemma next_index_fresh d k a :
  wallet_addresses d !! k = Some a → wa_derivation_index a < next_index d.
Proof. intros Ha. destruct (max_index_ge d k a Ha) as (m & Hm & Hle). unfold next_index. rewrite Hm. lia. Qed.

Section Registry.
Context (from_mnemonic : string → string → Res string) (mnemonic : string).

(** Identities and addresses are keyed by id, one identity per account, no two
    rows clash, and every address is the one derived from its index. *)
Record registry_inv (d : Db) : Prop := {
  ri_identity : ∀ k i, wallet_identities d !! k = Some i → wid_id i = k;
  ri_account : ∀ k k' i i', wallet_identities d !! k = Some i →
    wallet_identities d !! k' = Some i' → wid_account i = wid_account i' → k = k';
  ri_row : ∀ k a, wallet_addresses d !! k = Some a →
    wa_id a = k ∧ address_checks a = true ∧
    is_Some (wallet_identities d !! wa_wallet_identity a) ∧
    derive_evm_address from_mnemonic mnemonic (wa_derivation_index a) = Ok (wa_address a);
  ri_clash : ∀ k k' a b, wallet_addresses d !! k = Some a → wallet_addresses d !! k' = Some b →
    address_clash a b = true → k = k';
}.

(** No identity is left without an address. *)
Definition populated (d : Db) : Prop :=
  ∀ k i, wallet_identities d !! k = Some i →
    ∃ k' a, wallet_addresses d !! k' = Some a ∧ wa_wallet_identity a = k.

(** ** What a call does *)

(** The identity of an account, found or added. *)
Inductive identified (account : pk) (d d' : Db) (i : WalletIdentity) : Prop :=
  | identified_found :
      identity_of account d = Some i → d' = d → identified account d d' i
  | identified_new :
      identity_of account d = None → wid_account i = account →
      wallet_identities d !! wid_id i = None →
      d' = put wallet_identities (wid_id i) i d → identified account d d' i.

(** The row [_allocate_new] adds. *)
Definition fresh_address (identity : pk) (chain : string) (d : Db) (a : WalletAddress) : Prop :=
  wa_wallet_identity a = identity ∧ wa_chain a = chain ∧ wa_status a = WA_ACTIVE ∧
  wa_retired_at a = None ∧ wa_derivation_index a = next_index d ∧
  derive_evm_address from_mnemonic mnemonic (next_index d) = Ok (wa_address a) ∧
  wallet_addresses d !! wa_id a = None ∧ address_verdict d a = None.

Inductive ensured (account : pk) (chain : string) (d d' : Db) (a : WalletAddress) : Prop :=
  | ensured_active i :
      identity_of account d = Some i → active_address (wid_id i) chain d = Some a → d' = d →
      ensured account chain d d' a
  | ensured_new i d1 :
      identified account d d1 i → active_address (wid_id i) chain d1 = None →
      fresh_address (wid_id i) chain d1 a → d' = put wallet_addresses (wa_id a) a d1 →
      ensured account chain d d' a.

Inductive rotated (account : pk) (chain : string) (d d' : Db) (a : WalletAddress) : Prop :=
  | rotated_new i old t d1 :
      identity_of account d = Some i → is_active (wid_id i) chain old = true →
      wallet_addresses d !! wa_id old = Some old →
      address_verdict d (old <| wa_status := WA_RETIRED |> <| wa_retired_at := Some t |>) = None →
      d1 = put wallet_addresses (wa_id old)
             (old <| wa_status := WA_RETIRED |> <| wa_retired_at := Some t |>) d →
      fresh_address (wid_id i) chain d1 a → d' = put wallet_addresses (wa_id a) a d1 →
      rotated account chain d d' a.

Lemma identity_of_Some account d i :
  registry_inv d → identity_of account d = Some i →
  wallet_identities d !! wid_id i = Some i ∧ wid_account i = account.
Proof.
  intros Hinv (k & Hk & HP)%qfirst_Some. bool_to_prop.
  by rewrite (ri_identity d Hinv k i Hk).
Qed.

Lemma lock_identity_Ok account e w i w' :
  registry_inv (db w) → aborted w = false →
  _lock_identity account e w = (Ok i, w') →
  identified account (db w) (db w') i ∧ same_context w w'.
Proof.
  intros Hinv Hw H. unfold _lock_identity in H. inv_run H.
  - pose proof (identity_of_Some _ _ _ Hinv Hmatch) as [Hi _]. simplify_eq.
    split; [by apply identified_found|done].
  - inv_call try_Ok as [Ht|(x & k & w2 & Ht & Hx & Hk)].
    + apply atomic_clean_Ok in Ht as (w2 & Ht & ->); [|solve_clean|done]. inv_run Ht.
      match goal with H : <[_:=_]> _ !! _ = Some _ |- _ => rewrite lookup_insert_eq in H; simplify_eq end.
      split; [by apply identified_new|done].
    + apply atomic_Raise in Ht as [Hd _]. destruct x; simplify_eq/=. inv_run Hk. congruence.
Qed.

Lemma allocate_new_Ok i chain e w a w' :
  WALLET_HD_MNEMONIC (settings e) = mnemonic →
  _allocate_new from_mnemonic i chain e w = (Ok a, w') →
  fresh_address (wid_id i) chain (db w) a ∧ db w' = put wallet_addresses (wa_id a) a (db w) ∧
  same_context w w'.
Proof.
  intros Hm H. unfold _allocate_new, _next_derivation_index in H. inv_run H.
  inv_call @lift_Ok as [? ->]. simpl in *. unfold fresh_address, next_index. simpl.
  match goal with Hd : derive_evm_address _ _ _ = _ |- _ => rewrite Hm in Hd end.
  by split_and!.
Qed.

Lemma clean_lock_identity account : clean (_lock_identity account).
Proof. unfold _lock_identity. solve_clean. Qed.

Lemma clean_allocate_new i chain : clean (_allocate_new from_mnemonic i chain).
Proof. unfold _allocate_new, _next_derivation_index. solve_clean; apply clean_lift. Qed.
#[local] Hint Resolve clean_lock_identity clean_allocate_new : effects.

Lemma clean_ensure_block account chain : clean (ensure_block from_mnemonic account chain).
Proof. unfold ensure_block. solve_clean. Qed.

Lemma clean_rotate_block account chain : clean (rotate_block from_mnemonic account chain).
Proof. unfold rotate_block. solve_clean. Qed.

Lemma is_active_true i chain a :
  is_active i chain a = true ↔ wa_wallet_identity a = i ∧ wa_chain a = chain ∧ wa_status a = WA_ACTIVE.
Proof. unfold is_active. rewrite !andb_true_iff, N.eqb_eq, !bool_decide_eq_true. tauto. Qed.

Lemma active_address_Some i chain d a :
  active_address i chain d = Some a →
  ∃ k, wallet_addresses d !! k = Some a ∧ is_active i chain a = true.
Proof.
  intros [Hin _]%first_by_Some. apply list_elem_of_In, List.filter_In in Hin as [Hin Ha].
  apply list_elem_of_In, elem_of_rows in Hin as [k Hk]. eauto.
Qed.

Lemma active_address_None i chain d k a :
  active_address i chain d = None → wallet_addresses d !! k = Some a → is_active i chain a = false.
Proof.
  intros H%first_by_None Hk. destruct (is_active i chain a) eqn:E; [|done].
  assert (Hin : In a (qall (is_active i chain) (wallet_addresses d))); [|by rewrite H in Hin].
  apply List.filter_In. split; [|done]. apply list_elem_of_In, elem_of_rows. eauto.
Qed.

(** No address belongs to an identity that is just being added. *)
Lemma identified_active account chain d d1 i k a :
  registry_inv d → identified account d d1 i → wallet_addresses d1 !! k = Some a →
  is_active (wid_id i) chain a = true → identity_of account d = Some i ∧ d1 = d.
Proof.
  intros Hinv [Hi Hdb|Hi Hacc Hfree Hdb] Hk Hact; [done|]. exfalso. rewrite Hdb in Hk.
  apply (ri_row d Hinv) in Hk as (_ & _ & [j Hj] & _).
  apply is_active_true in Hact as (Hact & _). rewrite Hact in Hj. congruence.
Qed.

Lemma ensure_address_Ok account chain e w a w' :
  WALLET_HD_MNEMONIC (settings e) = mnemonic → registry_inv (db w) → aborted w = false →
  ensure_active_address from_mnemonic account chain e w = (Ok a, w') →
  ensured account chain (db w) (db w') a ∧ aborted w' = false.
Proof.
  intros Hm Hinv Hw (w1 & Hd & Ha & H)%retry_Ok. rewrite <- Hd in Hinv |- *. rewrite Hw in Ha.
  apply atomic_clean_Ok in H as (w2 & H & ->); [|apply clean_ensure_block|done].
  unfold ensure_block in H. inv_run H.
  - inv_call lock_identity_Ok as [Hid Hc]; [|done..]. simpl in *. unfold same_context in Hc.
    split; [|destruct_and?; congruence]. pose proof Hmatch as (k & Hk & Hact)%active_address_Some.
    destruct (identified_active _ _ _ _ _ _ _ Hinv Hid Hk Hact) as [Hi Heq]. rewrite Heq in *.
    by eapply ensured_active.
  - inv_call lock_identity_Ok as [Hid Hc]; [|done..]. unfold same_context in Hc. simpl in *.
    inv_call allocate_new_Ok as (Hf & Hdb & Hc'); [|done]. unfold same_context in Hc'.
    split; [|simpl in *; destruct_and?; congruence]. by eapply ensured_new.
Qed.

Lemma rotate_Ok account chain e w a w' :
  WALLET_HD_MNEMONIC (settings e) = mnemonic → registry_inv (db w) → aborted w = false →
  rotate_active_address from_mnemonic account chain e w = (Ok a, w') →
  rotated account chain (db w) (db w') a ∧ aborted w' = false.
Proof.
  intros Hm Hinv Hw (w1 & Hd & Ha & H)%retry_Ok. rewrite <- Hd in Hinv |- *. rewrite Hw in Ha.
  apply atomic_clean_Ok in H as (w2 & H & ->); [|apply clean_rotate_block|done].
  unfold rotate_block in H. inv_run H.
  inv_call lock_identity_Ok as [Hid Hc]; [|done..]. unfold same_context in Hc. simpl in *.
  inv_call allocate_new_Ok as (Hf & Hdb & Hc'); [|done]. unfold same_context in Hc'. simpl in *.
  apply qfirst_Some in Hmatch as (k & Hk & Hact).
  destruct (identified_active _ _ _ _ _ _ _ Hinv Hid Hk Hact) as [Hi Heq]. rewrite Heq in *.
  destruct (ri_row _ Hinv _ _ Hk) as (Hik & _).
  split; [|destruct_and?; congruence]. rewrite Hik in *. simplify_eq.
  by eapply rotated_new.
Qed.

(** ** The invariant *)

Lemma address_clash_spec a b :
  address_clash a b = true ↔
  wa_derivation_index b = wa_derivation_index a ∨
  (wa_wallet_identity b = wa_wallet_identity a ∧ wa_chain b = wa_chain a ∧
   (wa_address b = wa_address a ∨ wa_status b = WA_ACTIVE ∧ wa_status a = WA_ACTIVE)).
Proof.
  unfold address_clash, is_active.
  rewrite !orb_true_iff, !andb_true_iff, !Z.eqb_eq, !N.eqb_eq, !bool_decide_eq_true. tauto.
Qed.

Lemma address_clash_sym a b : address_clash a b = address_clash b a.
Proof.
  apply eq_true_iff_eq. rewrite !address_clash_spec. intuition congruence.
Qed.

Lemma address_verdict_None d a :
  address_verdict d a = None →
  address_checks a = true ∧
  ∀ k b, wallet_addresses d !! k = Some b → wa_id b ≠ wa_id a → address_clash a b = false.
Proof.
  unfold address_verdict. intros H. split_cases. bool_to_prop. split; [done|].
  intros k b Hk Hne. destruct (address_clash a b) eqn:E; [|done].
  match goal with H : qexists _ _ = false |- _ => rewrite qexists_false in H; specialize (H k b Hk) end.
  rewrite E in *. simpl in *. bool_to_prop. congruence.
Qed.

(** Writing a row the table accepts, at its own key. *)
Lemma registry_put_address d k a :
  wa_id a = k → registry_inv d → address_verdict d a = None → is_Some (wallet_identities d !! wa_wallet_identity a) →
  derive_evm_address from_mnemonic mnemonic (wa_derivation_index a) = Ok (wa_address a) →
  registry_inv (put wallet_addresses k a d).
Proof.
  intros <- Hinv [Hch Hcl]%address_verdict_None Hi Hder. destruct Hinv as [H1 H2 H3 H4].
  split; simpl; [done..| |].
  - intros k b [[<- <-]|[Hne Hb]]%lookup_insert_Some; [done|eauto].
  - intros k k' b b' [[<- <-]|[Hne Hb]]%lookup_insert_Some [[<- <-]|[Hne' Hb']]%lookup_insert_Some Hc;
      [done| | |eauto].
    + destruct (H3 _ _ Hb') as (Hid & _). rewrite (Hcl k' b') in Hc; congruence.
    + destruct (H3 _ _ Hb) as (Hid & _). rewrite address_clash_sym, (Hcl k b) in Hc; congruence.
Qed.

Lemma registry_identified account d d1 i :
  registry_inv d → identified account d d1 i →
  registry_inv d1 ∧ is_Some (wallet_identities d1 !! wid_id i) ∧
  wallet_addresses d1 = wallet_addresses d.
Proof.
  intros Hinv [Hi ->|Hi Hacc Hfree ->].
  - apply identity_of_Some in Hi as [Hi _]; [|done]. eauto.
  - simpl. rewrite lookup_insert_eq. split_and!; [|eauto|done].
    assert (Hno : ∀ k j, wallet_identities d !! k = Some j → wid_account j ≠ account).
    { intros k j Hk <-. apply (proj1 (qfirst_None _ _)) with (k := k) (v := j) in Hi; [|done].
      simpl in Hi. by bool_to_prop. }
    destruct Hinv as [H1 H2 H3 H4]. split; simpl; [..|done].
    + intros k j [[<- <-]|[_ Hj]]%lookup_insert_Some; [done|eauto].
    + intros k k' j j' [[<- <-]|[Hne Hj]]%lookup_insert_Some [[<- <-]|[Hne' Hj']]%lookup_insert_Some Ha;
        [done| | |eauto]; exfalso; [eapply (Hno k' j')|eapply (Hno k j)]; congruence.
    + intros k b Hb. destruct (H3 k b Hb) as (? & ? & [j Hj] & ?). split_and!; [done..| |done].
      exists j. rewrite lookup_insert_ne; [done|]. intros Heq. rewrite Heq in Hfree. congruence.
Qed.

Lemma registry_ensured account chain d d' a :
  registry_inv d → ensured account chain d d' a → registry_inv d'.
Proof.
  intros Hinv [i _ _ ->|i d1 Hid _ Hf ->]; [done|].
  apply registry_identified in Hid as (Hinv1 & Hi & _); [|done].
  destruct Hf as (Hw & _ & _ & _ & Hidx & Hder & _ & Hv).
  apply registry_put_address; [done|done|done|by rewrite Hw|by rewrite Hidx].
Qed.

Lemma registry_rotated account chain d d' a :
  registry_inv d → rotated account chain d d' a → registry_inv d'.
Proof.
  intros Hinv [i old t d1 Hi _ Hold Hv Hd1 Hf ->].
  apply identity_of_Some in Hi as [Hi _]; [|done].
  destruct (ri_row _ Hinv _ _ Hold) as (_ & _ & Hid & Hder).
  assert (Hinv1 : registry_inv d1).
  { rewrite Hd1. by apply registry_put_address. }
  destruct Hf as (Hw & _ & _ & _ & Hidx & Hder' & _ & Hv').
  apply registry_put_address; [done|done|done| |by rewrite Hidx].
  rewrite Hw, Hd1. simpl. eauto.
Qed.

Lemma populated_put d a :
  populated d → populated (put wallet_addresses (wa_id a) a d) ∨
  ∃ b, wallet_addresses d !! wa_id a = Some b.
Proof.
  intros Hpop. destruct (wallet_addresses d !! wa_id a) as [b|] eqn:E; [right; eauto|left].
  intros k i Hi. destruct (Hpop k i Hi) as (k' & b & Hb & Hw). exists k', b. simpl.
  rewrite lookup_insert_ne; [done|congruence].
Qed.

Lemma populated_ensured account chain d d' a :
  populated d → ensured account chain d d' a → populated d'.
Proof.
  intros Hpop [i _ _ ->|i d1 Hid _ Hf ->]; [done|].
  destruct Hf as (Hw & _ & _ & _ & _ & _ & Hfree & _).
  destruct Hid as [_ ->|_ _ _ ->].
  - by destruct (populated_put d a Hpop) as [|[b Hb]]; [|congruence].
  - intros k j. simpl. intros [[<- <-]|[_ Hj]]%lookup_insert_Some.
    + exists (wa_id a), a. by rewrite lookup_insert_eq.
    + destruct (Hpop k j Hj) as (k' & b & Hb & Hk). exists k', b. simpl in Hfree.
      rewrite lookup_insert_ne; [done|congruence].
Qed.

Lemma populated_rotated account chain d d' a :
  populated d → rotated account chain d d' a → populated d'.
Proof.
  intros Hpop [i old t d1 _ _ Hold _ -> Hf ->] k j. simpl. intros Hj.
  destruct Hf as (_ & _ & _ & _ & _ & _ & Hfree & _). simpl in Hfree.
  destruct (Hpop k j Hj) as (k' & b & Hb & Hk).
  destruct (decide (k' = wa_id old)) as [->|Hne].
  - exists (wa_id old), (old <| wa_status := WA_RETIRED |> <| wa_retired_at := Some t |>).
    rewrite lookup_insert_ne by (intros Heq; rewrite Heq, lookup_insert_eq in Hfree; done).
    rewrite lookup_insert_eq. split; [done|]. simpl. congruence.
  - exists k', b. rewrite lookup_insert_ne, lookup_insert_ne; [done|congruence|].
    intros Heq. rewrite Heq, lookup_insert_ne in Hfree; congruence.
Qed.

(** ** History: indices are reserved for good *)

(** [a'] is [a], possibly retired since. *)
Definition evolves (a a' : WalletAddress) : Prop :=
  a' = a ∨ wa_status a = WA_ACTIVE ∧
    ∃ t, a' = a <| wa_status := WA_RETIRED |> <| wa_retired_at := Some t |>.

(** No row goes away, a row only ever changes by being retired, and a new row
    takes an index above every index reserved before. *)
Record registry_grows (d d' : Db) : Prop := {
  rg_identities : wallet_identities d ⊆ wallet_identities d';
  rg_rows : ∀ k a, wallet_addresses d !! k = Some a →
    ∃ a', wallet_addresses d' !! k = Some a' ∧ evolves a a';
  rg_new : ∀ k a k' a', wallet_addresses d !! k = Some a → wallet_addresses d' !! k' = Some a' →
    wallet_addresses d !! k' = None → wa_derivation_index a < wa_derivation_index a';
}.

Lemma evolves_trans a b c : evolves a b → evolves b c → evolves a c.
Proof.
  intros [->|(Ha & t & ->)]; [done|]. intros [->|(Hb & _)]; [right; eauto|done].
Qed.

#[export] Instance registry_grows_preorder : PreOrder registry_grows.
Proof.
  split.
  - intros d. split; [done| |by intros; simplify_eq].
    intros k a Ha. exists a. split; [done|by left].
  - intros d1 d2 d3 [H1 H2 H3] [H1' H2' H3']. split; [by etransitivity| |].
    + intros k a (b & Hb & Hab)%H2. apply H2' in Hb as (c & Hc & Hbc).
      exists c. split; [done|by eapply evolves_trans].
    + intros k a k' c Ha Hc Hno. destruct (wallet_addresses d2 !! k') as [b|] eqn:Hb.
      * pose proof (H3 k a k' b Ha Hb Hno) as Hlt. apply H2' in Hb as (c' & Hc' & Hev).
        simplify_eq. by destruct Hev as [->|(_ & t & ->)].
      * pose proof Ha as (b & Hb' & Hev)%H2. pose proof (H3' k b k' c Hb' Hc Hb) as Hlt.
        by destruct Hev as [->|(_ & t & ->)].
Qed.

Lemma grows_put d a :
  wallet_addresses d !! wa_id a = None → wa_derivation_index a = next_index d →
  registry_grows d (put wallet_addresses (wa_id a) a d).
Proof.
  intros Hfree Hidx. split; simpl; [done| |].
  - intros k b Hb. exists b. split; [|by left]. rewrite lookup_insert_ne; congruence.
  - intros k b k' c Hb [[<- <-]|[_ Hc]]%lookup_insert_Some Hno; [|congruence].
    rewrite Hidx. by apply next_index_fresh with k.
Qed.

Lemma grows_identified account d d1 i : identified account d d1 i → registry_grows d d1.
Proof.
  intros [_ ->|_ _ Hfree ->]; [reflexivity|]. split; simpl.
  - by apply insert_subseteq.
  - intros k a Ha. exists a. split; [done|by left].
  - intros. congruence.
Qed.

Lemma grows_ensured account chain d d' a : ensured account chain d d' a → registry_grows d d'.
Proof.
  intros [i _ _ ->|i d1 Hid _ Hf ->]; [reflexivity|].
  transitivity d1; [by eapply grows_identified|].
  destruct Hf as (_ & _ & _ & _ & Hidx & _ & Hfree & _). by apply grows_put.
Qed.

Lemma grows_rotated account chain d d' a : rotated account chain d d' a → registry_grows d d'.
Proof.
  intros [i old t d1 _ Hact Hold _ Hd1 Hf ->]. transitivity d1.
  - rewrite Hd1. apply is_active_true in Hact as (_ & _ & Hact). split; simpl; [done| |].
    + intros k b Hb. destruct (decide (k = wa_id old)) as [->|Hne].
      * rewrite lookup_insert_eq. simplify_eq. eexists. split; [done|]. right. eauto.
      * rewrite lookup_insert_ne by done. exists b. split; [done|by left].
    + intros k b k' c Hb [[<- <-]|[_ Hc]]%lookup_insert_Some Hno; congruence.
  - destruct Hf as (_ & _ & _ & _ & Hidx & _ & Hfree & _). by apply grows_put.
Qed.

(** ** Progress *)

(** Identifiers still to be drawn are unused. *)
Definition ids_fresh (w : World) : Prop :=
  ∀ k, (next_uuid w ≤ k)%N → wallet_identities (db w) !! k = None ∧ wallet_addresses (db w) !! k = None.

Lemma identity_verdict_None d i :
  identity_of (wid_account i) d = None → identity_verdict d i = None.
Proof.
  intros Hno. unfold identity_verdict. rewrite (proj2 (qexists_false _ _)); [done|].
  intros k j Hj. apply (proj1 (qfirst_None _ _)) with (k := k) (v := j) in Hno; [|done].
  simpl in Hno. by rewrite Hno.
Qed.

Lemma lock_identity_run account e w :
  registry_inv (db w) → aborted w = false → depth w ≠ 0%nat → ids_fresh w →
  ∃ i w', _lock_identity account e w = (Ok i, w') ∧ ids_fresh w'.
Proof.
  intros Hinv Hw Hdep Hfresh. unfold _lock_identity. erewrite bind_step by (by apply query_run).
  destruct (identity_of account (db w)) as [i|] eqn:Hi.
  - apply identity_of_Some in Hi as [Hi _]; [|done].
    exists i, w. split; [|done]. erewrite bind_step by done. by apply get_locked_run.
  - set (i := mkIdentity (next_uuid w) account). exists i.
    destruct (Hfresh (next_uuid w)) as [Hfi Hfa]; [lia|]. eexists. split.
    + erewrite bind_step; [|apply try_run; eapply atomic_run;
        [erewrite bind_step by done; erewrite bind_step; [done|];
         apply create_run; [done|done|by apply identity_verdict_None]|exact Hw]].
      apply get_locked_run; [done..|]. simpl. by rewrite lookup_insert_eq.
    + intros k Hk. simpl in *. destruct (Hfresh k) as [H1 H2]; [lia|].
      rewrite lookup_insert_ne by lia. done.
Qed.

(** The seed derives an address for every index below [limit], and different
    paths give different addresses. *)
Context (limit : Z) (limit_fits : limit ≤ max_int32 + 1).
Context (derivable : ∀ i, 0 ≤ i < limit →
  ∃ a, derive_evm_address from_mnemonic mnemonic i = Ok a).
Context (distinct : ∀ i j a, 0 ≤ i < limit → 0 ≤ j < limit →
  derive_evm_address from_mnemonic mnemonic i = Ok a →
  derive_evm_address from_mnemonic mnemonic j = Ok a → i = j).

Lemma next_index_nonneg d : registry_inv d → 0 ≤ next_index d.
Proof.
  intros Hinv. unfold next_index, max_index.
  assert (H : ∀ a, a ∈ rows (wallet_addresses d) → 0 ≤ wa_derivation_index a).
  { intros a (k & Hk)%elem_of_rows. apply (ri_row d Hinv) in Hk as (_ & Hch & _).
    unfold address_checks in Hch. bool_to_prop. lia. }
  enough (match foldr (λ a m, Some (match m with Some m => Z.max (wa_derivation_index a) m
      | None => wa_derivation_index a end)) None (rows (wallet_addresses d)) with
      Some m => 0 ≤ m | None => True end) by (case_match; lia).
  induction (rows (wallet_addresses d)) as [|a l IH]; simpl; [done|].
  assert (0 ≤ wa_derivation_index a) by (apply H; by left).
  destruct (foldr _ _ _); lia.
Qed.

Lemma allocate_new_run i chain e w :
  WALLET_HD_MNEMONIC (settings e) = mnemonic → registry_inv (db w) → aborted w = false →
  ids_fresh w → next_index (db w) < limit → active_address (wid_id i) chain (db w) = None →
  ∃ a w', _allocate_new from_mnemonic i chain e w = (Ok a, w') ∧ ids_fresh w'.
Proof.
  intros Hm Hinv Hw Hfresh Hmax Hno. pose proof (next_index_nonneg _ Hinv) as H0.
  destruct (derivable (next_index (db w))) as [addr Hder]; [lia|].
  destruct (Hfresh (next_uuid w)) as [Hfi Hfa]; [lia|].
  set (a := mkWalletAddress (next_uuid w) (wid_id i) chain addr (next_index (db w)) WA_ACTIVE
    (clock e (tick w)) None).
  assert (Hv : address_verdict (db w) a = None).
  { unfold address_verdict, address_checks. simpl.
    rewrite (proj2 (Z.leb_le _ _)), (proj2 (Z.leb_le 0 _)) by lia. simpl.
    rewrite (proj2 (qexists_false _ _)); [done|]. intros k b Hb. apply andb_false_iff. left.
    apply not_true_iff_false. rewrite address_clash_spec. simpl.
    pose proof (next_index_fresh _ _ _ Hb) as Hlt.
    pose proof (active_address_None _ _ _ _ _ Hno Hb) as Hact.
    destruct (ri_row _ Hinv _ _ Hb) as (_ & Hch & _ & Hderb).
    unfold address_checks in Hch. bool_to_prop.
    intros [Heq|(Hi & Hc & [Hadr|[Hs _]])]; [lia| |].
    - rewrite <- Hadr in Hder. enough (next_index (db w) = wa_derivation_index b) by lia.
      eapply distinct; [| |exact Hder|exact Hderb]; lia.
    - rewrite (proj2 (is_active_true _ _ _)) in Hact; done. }
  exists a. eexists. split.
  - unfold _allocate_new, _next_derivation_index. rewrite bind_bind.
    erewrite bind_step by (by apply query_run). do 2 erewrite bind_step by done. rewrite Hm.
    change (match max_index (db w) with Some m => m + 1 | None => 0 end) with (next_index (db w)).
    rewrite Hder. do 3 erewrite bind_step by done. fold a.
    erewrite bind_step by (by apply create_run). done.
  - intros k Hk. simpl in *. destruct (Hfresh k) as [H1 H2]; [lia|].
    rewrite lookup_insert_ne by lia. done.
Qed.

Lemma ensure_block_run account chain e w :
  WALLET_HD_MNEMONIC (settings e) = mnemonic → registry_inv (db w) → aborted w = false →
  depth w ≠ 0%nat → ids_fresh w → next_index (db w) < limit →
  ∃ a w', ensure_block from_mnemonic account chain e w = (Ok a, w') ∧ ids_fresh w' ∧
    aborted w' = false.
Proof.
  intros Hm Hinv Hw Hdep Hfresh Hmax.
  destruct (lock_identity_run account e w) as (i & w1 & H1 & Hf1); [done..|].
  pose proof (lock_identity_Ok _ _ _ _ _ Hinv Hw H1) as (Hid & Hc). unfold same_context in Hc.
  assert (Hw1 : aborted w1 = false) by (destruct_and?; congruence).
  apply registry_identified in Hid as (Hinv1 & Hi & Hsame); [|done].
  assert (Hmax1 : next_index (db w1) < limit) by (unfold next_index, max_index in *; by rewrite Hsame).
  unfold ensure_block. erewrite bind_step by done. erewrite bind_step by (by apply query_run).
  destruct (active_address (wid_id i) chain (db w1)) as [a|] eqn:Ha; [by exists a, w1|].
  destruct (allocate_new_run i chain e w1) as (a & w2 & H2 & Hf2); [done..|].
  exists a, w2. split_and!; [done..|].
  apply allocate_new_Ok in H2 as (_ & _ & Hc2); [|done]. unfold same_context in Hc2.
  destruct_and?; congruence.
Qed.

Lemma ensure_run account chain e w :
  WALLET_HD_MNEMONIC (settings e) = mnemonic → registry_inv (db w) → aborted w = false →
  ids_fresh w → next_index (db w) < limit →
  ∃ a w', ensure_active_address from_mnemonic account chain e w = (Ok a, w') ∧ ids_fresh w'.
Proof.
  intros Hm Hinv Hw Hfresh Hmax.
  destruct (ensure_block_run account chain e (enter w)) as (a & w1 & H1 & Hf & Ha); [done..|].
  exists a, (w1 <| depth := depth w |>). split; [|done].
  by apply try_run, atomic_run.
Qed.

(** The active address of an identity, when there is one. *)
Lemma active_unique d k i chain a :
  registry_inv d → wallet_addresses d !! k = Some a → is_active i chain a = true →
  active_address i chain d = Some a.
Proof.
  intros Hinv Hk Ha. destruct (active_address i chain d) as [b|] eqn:E.
  - apply active_address_Some in E as (k' & Hk' & Hb).
    apply is_active_true in Ha as (? & ? & ?), Hb as (? & ? & ?).
    assert (k' = k) as ->; [|congruence]. apply (ri_clash d Hinv k' k b a Hk' Hk).
    apply address_clash_spec. right. intuition congruence.
  - by rewrite (active_address_None _ _ _ _ _ E Hk) in Ha.
Qed.

Lemma identity_unique d k i :
  registry_inv d → wallet_identities d !! k = Some i → identity_of (wid_account i) d = Some i.
Proof.
  intros Hinv Hk. apply (qfirst_unique _ _ k i); [done|by apply N.eqb_refl|].
  intros k' j Hk' Hj. bool_to_prop. assert (k' = k) as -> by by eapply (ri_account d Hinv).
  congruence.
Qed.

(** After a call the address it returned is the active one. *)
Definition holds (account : pk) (chain : string) (d : Db) (a : WalletAddress) : Prop :=
  ∃ i, identity_of account d = Some i ∧ active_address (wid_id i) chain d = Some a.

Lemma ensured_holds account chain d d' a :
  registry_inv d → ensured account chain d d' a → holds account chain d' a.
Proof.
  intros Hinv He. pose proof (registry_ensured _ _ _ _ _ Hinv He) as Hinv'.
  destruct He as [i Hi Ha ->|i d1 Hid _ Hf Hd]; [by exists i|].
  assert (Hi : identity_of account d1 = Some i ∧ wallet_identities d1 !! wid_id i = Some i).
  { pose proof (registry_identified _ _ _ _ Hinv Hid) as (Hinv1 & _ & _).
    destruct Hid as [Hi ->|_ Hacc _ Hd1].
    - split; [done|]. by apply identity_of_Some in Hi as [? _].
    - assert (Hrow : wallet_identities d1 !! wid_id i = Some i) by (rewrite Hd1; simpl; by rewrite lookup_insert_eq).
      split; [|done]. rewrite <- Hacc. by eapply identity_unique. }
  exists i. split.
  - rewrite Hd. unfold identity_of. simpl. apply Hi.
  - destruct Hf as (Hw & Hc & Hs & _). apply (active_unique d' (wa_id a)); [done| |].
    + rewrite Hd. simpl. by rewrite lookup_insert_eq.
    + by apply is_active_true.
Qed.

Lemma holds_run account chain e w a :
  registry_inv (db w) → aborted w = false → holds account chain (db w) a →
  ensure_active_address from_mnemonic account chain e w = (Ok a, w).
Proof.
  intros Hinv Hw (i & Hi & Ha).
  assert (H : ensure_block from_mnemonic account chain e (enter w) = (Ok a, enter w)).
  { unfold ensure_block, _lock_identity. rewrite bind_bind.
    erewrite bind_step by (by apply query_run). simpl. rewrite Hi.
    apply identity_of_Some in Hi as [Hi _]; [|done].
    erewrite bind_step.
    2: { erewrite bind_step by done. by apply get_locked_run. }
    erewrite bind_step by (by apply query_run). simpl. by rewrite Ha. }
  etransitivity; [by apply try_run, atomic_run|]. by destruct w.
Qed.

(** ** Backfill *)

Lemma has_active_true chain d account :
  has_active_address chain d account = true ↔
  ∃ k a i, wallet_addresses d !! k = Some a ∧ wa_chain a = chain ∧ wa_status a = WA_ACTIVE ∧
    wallet_identities d !! wa_wallet_identity a = Some i ∧ wid_account i = account.
Proof.
  unfold has_active_address, account_of_address. rewrite qexists_true. split.
  - intros (k & a & Hk & H). bool_to_prop.
    destruct (wallet_identities d !! wa_wallet_identity a) as [i|] eqn:Hi; simplify_eq/=.
    by exists k, a, i.
  - intros (k & a & i & Hk & Hc & Hs & Hi & Ha). exists k, a. split; [done|].
    rewrite Hi. simpl. rewrite !bool_decide_true by congruence. done.
Qed.

Lemma holds_has_active account chain d a :
  registry_inv d → holds account chain d a → has_active_address chain d account = true.
Proof.
  intros Hinv (i & Hi & (k & Hk & (? & ? & ?)%is_active_true)%active_address_Some).
  apply identity_of_Some in Hi as [Hi Hacc]; [|done].
  apply has_active_true. exists k, a, i. split_and!; congruence.
Qed.

(** A call only adds rows and touches nothing but the wallet tables. *)
Definition adds (d d' : Db) : Prop :=
  wallet_identities d ⊆ wallet_identities d' ∧ wallet_addresses d ⊆ wallet_addresses d' ∧
  d' <| wallet_identities := wallet_identities d |> <| wallet_addresses := wallet_addresses d |> = d.

Lemma adds_refl d : adds d d.
Proof. by destruct d. Qed.

Lemma adds_trans d1 d2 d3 : adds d1 d2 → adds d2 d3 → adds d1 d3.
Proof.
  intros (H1 & H2 & H3) (H1' & H2' & H3'). split_and!; [by etransitivity..|].
  etransitivity; [|exact H3]. by rewrite <- H3' at 1.
Qed.

Lemma ensured_adds account chain d d' a : ensured account chain d d' a → adds d d'.
Proof.
  intros [i _ _ ->|i d1 Hid _ Hf ->]; [apply adds_refl|].
  destruct Hf as (_ & _ & _ & _ & _ & _ & Hfree & _).
  destruct Hid as [_ ->|_ _ Hi ->]; (split_and!; [|by apply insert_subseteq|by destruct d]);
    [done|by apply insert_subseteq].
Qed.

Lemma has_active_adds chain d d' account :
  adds d d' → has_active_address chain d account = true → has_active_address chain d' account = true.
Proof.
  intros (H1 & H2 & _). rewrite !has_active_true. intros (k & a & i & Hk & ? & ? & Hi & ?).
  exists k, a, i. split_and!; [|done|done| |done]; by eapply lookup_weaken.
Qed.

Lemma next_index_step account chain d d' a :
  registry_inv d → ensured account chain d d' a → next_index d' ≤ next_index d + 1.
Proof.
  intros Hinv [i _ _ ->|i d1 Hid _ Hf ->]; [lia|].
  pose proof (registry_identified _ _ _ _ Hinv Hid) as (Hinv1 & _ & Hsame).
  assert (Hn : next_index d1 = next_index d) by (unfold next_index, max_index; by rewrite Hsame).
  destruct Hf as (_ & _ & _ & _ & Hidx & _ & Hfree & _). rewrite <- Hn.
  assert (Hall : ∀ b, b ∈ rows (wallet_addresses (put wallet_addresses (wa_id a) a d1)) →
    wa_derivation_index b ≤ next_index d1).
  { intros b (k & Hk)%elem_of_rows. simpl in Hk.
    apply lookup_insert_Some in Hk as [[_ <-]|[_ Hk]]; [lia|].
    pose proof (next_index_fresh _ _ _ Hk). lia. }
  unfold next_index at 1, max_index. pose proof (next_index_nonneg _ Hinv1).
  induction (rows _) as [|b l IH]; csimpl; [lia|].
  assert (wa_derivation_index b ≤ next_index d1) by (apply Hall; by left).
  assert (Hl : ∀ b, b ∈ l → wa_derivation_index b ≤ next_index d1) by (intros; apply Hall; by right).
  specialize (IH Hl). destruct (foldr _ _ _); lia.
Qed.

(** The state of the loop: the invariants, and room for [n] more indices. *)
Record backfillable (n : nat) (e : Env) (w : World) : Prop := {
  bk_seed : WALLET_HD_MNEMONIC (settings e) = mnemonic;
  bk_inv : registry_inv (db w);
  bk_populated : populated (db w);
  bk_alive : aborted w = false;
  bk_fresh : ids_fresh w;
  bk_room : next_index (db w) + Z.of_nat n ≤ limit;
}.

Lemma backfill_step n account chain e w :
  backfillable (S n) e w →
  ∃ a w', ensure_active_address from_mnemonic account chain e w = (Ok a, w') ∧
    backfillable n e w' ∧ adds (db w) (db w') ∧ holds account chain (db w') a.
Proof.
  intros [Hm Hinv Hpop Hw Hfresh Hroom].
  destruct (ensure_run account chain e w) as (a & w' & H & Hf); [done..|lia|].
  destruct (ensure_address_Ok _ _ _ _ _ _ Hm Hinv Hw H) as [He Hw'].
  exists a, w'. split_and!; [done| |by eapply ensured_adds|by eapply ensured_holds].
  pose proof (next_index_step _ _ _ _ _ Hinv He). split; [done|by eapply registry_ensured
    |by eapply populated_ensured|done|done|lia].
Qed.

Lemma backfill_loop chain e targets : ∀ w n errors,
  backfillable (length targets) e w →
  ∃ w', fold_each targets (n, errors) (backfill_one from_mnemonic chain) e w =
          (Ok ((n + length targets)%nat, errors), w') ∧
    backfillable 0 e w' ∧ adds (db w) (db w') ∧
    ∀ account, account ∈ targets → has_active_address chain (db w') (acc_id account) = true.
Proof.
  induction targets as [|account targets IH]; intros w n errors Hb.
  - exists w. simpl. rewrite Nat.add_0_r. split_and!; [done|done|apply adds_refl|].
    by intros ? ?%not_elem_of_nil.
  - destruct (backfill_step _ (acc_id account) chain e w Hb) as (a & w1 & H1 & Hb1 & Hadd & Hh).
    destruct (IH w1 (S n) errors Hb1) as (w2 & H2 & Hb2 & Hadd2 & Hall).
    exists w2. split_and!; [|done|by eapply adds_trans|].
    + simpl. erewrite bind_step; [|apply try_run; by erewrite bind_step].
      etransitivity; [exact H2|]. do 3 f_equal. lia.
    + intros b [->|Hb']%elem_of_cons; [|auto].
      eapply has_active_adds; [done|]. eapply holds_has_active, Hh. apply Hb1.
Qed.

(** ** Properties *)

Lemma refuses_ensure account chain : refuses (ensure_active_address from_mnemonic account chain).
Proof. apply refuses_retry, refuses_atomic. Qed.
Lemma refuses_rotate account chain : refuses (rotate_active_address from_mnemonic account chain).
Proof. apply refuses_retry, refuses_atomic. Qed.

Lemma rotated_holds account chain d d' a :
  registry_inv d → rotated account chain d d' a → holds account chain d' a.
Proof.
  intros Hinv Hr. pose proof (registry_rotated _ _ _ _ _ Hinv Hr) as Hinv'.
  destruct Hr as [i old t d1 Hi _ _ _ Hd1 Hf Hd]. exists i. split.
  - rewrite Hd, Hd1. unfold identity_of in *. simpl. done.
  - destruct Hf as (Hw & Hc & Hs & _). apply (active_unique d' (wa_id a)); [done| |].
    + rewrite Hd. simpl. by rewrite lookup_insert_eq.
    + by apply is_active_true.
Qed.

(** C10: The index registry is safe under allocation and rotation: however a
    call ends, the registry keeps its invariant (one identity per account, one
    active address per identity and chain, every index used once and every
    address the one derived from its index), no row disappears and a row only
    ever changes by being retired, a new row takes an index above all indices
    reserved before, and a call that raises has written nothing. *)
Theorem index_registry_safe account chain e w r w' :
  WALLET_HD_MNEMONIC (settings e) = mnemonic → registry_inv (db w) → populated (db w) →
  aborted w = false →
  ensure_active_address from_mnemonic account chain e w = (r, w') ∨
  rotate_active_address from_mnemonic account chain e w = (r, w') →
  registry_inv (db w') ∧ populated (db w') ∧ registry_grows (db w) (db w') ∧
  match r with
  | Ok a => holds account chain (db w') a
  | Raise _ => db w' = db w
  end.
Proof.
  intros Hm Hinv Hpop Hw [H|H]; destruct r as [a|x].
  - apply ensure_address_Ok in H as [H _]; [|done..]. split_and!.
    + by eapply registry_ensured. + by eapply populated_ensured.
    + by eapply grows_ensured. + by eapply ensured_holds.
  - apply refuses_ensure in H. rewrite H. by split_and!.
  - apply rotate_Ok in H as [H _]; [|done..]. split_and!.
    + by eapply registry_rotated. + by eapply populated_rotated.
    + by eapply grows_rotated. + by eapply rotated_holds.
  - apply refuses_rotate in H. rewrite H. by split_and!.
Qed.

(** Asking for the active address succeeds whenever the next index can be
    derived, whatever the account already has, and is idempotent: from then on
    every further call returns the same row and changes nothing at all. *)
Theorem ensure_address_idempotent account chain e w :
  backfillable 1 e w →
  ∃ a w', ensure_active_address from_mnemonic account chain e w = (Ok a, w') ∧
    ensured account chain (db w) (db w') a ∧
    ∀ e' w2, db w2 = db w' → aborted w2 = false →
      ensure_active_address from_mnemonic account chain e' w2 = (Ok a, w2).
Proof.
  intros [Hm Hinv Hpop Hw Hfresh Hroom].
  destruct (ensure_run account chain e w) as (a & w' & H & _); [done..|lia|].
  exists a, w'. destruct (ensure_address_Ok _ _ _ _ _ _ Hm Hinv Hw H) as [He _]. split_and!; [done..|].
  intros e' w2 Hd Hw2. apply holds_run; [|done|].
  - rewrite Hd. by eapply registry_ensured.
  - rewrite Hd. by eapply ensured_holds.
Qed.

(** ** Validation after a backfill *)

Lemma filter_none {V} (P : V → bool) (l : list V) :
  (∀ v, v ∈ l → P v = false) → List.filter P l = [].
Proof.
  induction l as [|v l IH]; intros H; simpl; [done|].
  rewrite (H v) by (by left). apply IH. intros u Hu. apply H. by right.
Qed.

Lemma needing_spec chain d a :
  a ∈ rows (accounts d) → has_active_address chain d (acc_id a) = true ∨
  a ∈ accounts_needing_backfill chain d.
Proof.
  intros Ha. destruct (has_active_address chain d (acc_id a)) eqn:E; [by left|right].
  apply list_elem_of_In, List.filter_In. rewrite E. split; [|done].
  apply list_elem_of_In, elem_of_rows_by_pk. by apply elem_of_rows.
Qed.

Definition all_active (chain : string) (d : Db) : Prop :=
  ∀ k a, accounts d !! k = Some a → has_active_address chain d (acc_id a) = true.

Lemma backfilled_all chain d d' :
  adds d d' →
  (∀ a, a ∈ accounts_needing_backfill chain d → has_active_address chain d' (acc_id a) = true) →
  all_active chain d'.
Proof.
  intros Hadd Hall k a Hk.
  assert (Hk' : accounts d !! k = Some a).
  { destruct Hadd as (_ & _ & <-). done. }
  destruct (needing_spec chain d a) as [H|H]; [apply elem_of_rows; eauto| |auto].
  by eapply has_active_adds.
Qed.

Lemma identity_of_active chain d account :
  registry_inv d → has_active_address chain d account = true → identity_of account d ≠ None.
Proof.
  intros Hinv (k & a & i & _ & _ & _ & Hi & <-)%has_active_true. by erewrite identity_unique.
Qed.

Lemma one_active chain d i : registry_inv d → (qcount (is_active i chain) (wallet_addresses d) ≤ 1)%nat.
Proof.
  intros Hinv. destruct (active_address i chain d) as [a|] eqn:E.
  - apply active_address_Some in E as (k & Hk & Ha).
    rewrite <- (insert_delete_id _ _ _ Hk), qcount_insert_fresh by apply lookup_delete_eq.
    rewrite Ha, qcount_zero; [lia|]. intros k' b [Hne Hb]%lookup_delete_Some.
    apply not_true_iff_false. intros Hact. apply Hne.
    apply is_active_true in Ha as (? & ? & ?), Hact as (? & ? & ?).
    apply (ri_clash d Hinv k k' a b Hk Hb), address_clash_spec. right. intuition congruence.
  - rewrite qcount_zero; [lia|]. intros k a Hk. by eapply active_address_None.
Qed.

Lemma normalize_evm_nonempty s : normalize_evm_address s ≠ "".
Proof. unfold normalize_evm_address. by case_bool_decide. Qed.

Lemma sample_matches d k a :
  registry_inv d → wallet_addresses d !! k = Some a →
  sample_mismatch from_mnemonic (strip mnemonic) a = false.
Proof.
  intros Hinv (_ & _ & _ & Hder)%(ri_row d Hinv). unfold sample_mismatch.
  unfold derive_evm_address in *. rewrite strip_idem. case_bool_decide; [done|]. rewrite Hder.
  by rewrite bool_decide_true.
Qed.

Lemma validate_passes chain n e w :
  WALLET_HD_MNEMONIC (settings e) = mnemonic → registry_inv (db w) → populated (db w) →
  aborted w = false → all_active chain (db w) →
  ∃ r, validate_wallet_migration from_mnemonic chain n e w = (Ok r, w) ∧ passed r = true.
Proof.
  intros Hm Hinv Hpop Hw Hall. eexists. split.
  { unfold validate_wallet_migration. do 6 erewrite bind_step by (by apply query_run).
    erewrite bind_step by done. erewrite bind_step by (by apply query_run). done. }
  unfold passed. cbn [mv_accounts_missing_identity mv_accounts_missing_active_address
    mv_orphan_identities mv_duplicate_active_addresses mv_missing_index_registry_fields
    mv_sample_mismatches].
  unfold accounts_needing_backfill, duplicate_active. rewrite Hm.
  rewrite !qcount_zero, !filter_none; [done|..].
  - intros v Hv. apply elem_of_take in Hv as (i & Hv & _). apply list_elem_of_lookup_2 in Hv.
    rewrite merge_sort_Permutation in Hv.
    apply list_elem_of_In, List.filter_In in Hv as [Hv _].
    apply list_elem_of_In, elem_of_rows in Hv as [k Hk]. by eapply sample_matches.
  - intros i _. apply Nat.ltb_ge. by apply one_active.
  - intros a [k Hk]%elem_of_rows_by_pk. apply negb_false_iff. by eapply Hall.
  - intros k a Hk. apply bool_decide_eq_false. apply (ri_row _ Hinv) in Hk as (_ & _ & _ & Hder).
    unfold derive_evm_address in Hder. split_cases. rewrite <- Hder. apply normalize_evm_nonempty.
  - intros k i Hi. apply negb_false_iff, qexists_true. destruct (Hpop k i Hi) as (k' & a & Ha & Hw').
    exists k', a. split; [done|]. rewrite (ri_identity _ Hinv k i Hi). by apply N.eqb_eq.
  - intros k a Hk. apply bool_decide_eq_false. eapply identity_of_active; [done|by eapply Hall].
Qed.

(** The backfill does its job: when the seed derives enough addresses, a
    run over all accounts without a limit reports no error and one allocation
    per account that lacked an active address, and the migration validation
    that follows passes, whatever the size of its sample. *)
Theorem backfill_then_validates chain sample_size e w :
  backfillable (length (accounts_needing_backfill chain (db w))) e w →
  ∃ report w', run_wallet_backfill from_mnemonic true None chain e w = (Ok report, w') ∧
    bf_errors report = 0%nat ∧
    bf_allocated report = length (accounts_needing_backfill chain (db w)) ∧
    adds (db w) (db w') ∧
    ∃ r, validate_wallet_migration from_mnemonic chain sample_size e w' = (Ok r, w') ∧
      passed r = true.
Proof.
  intros Hb. set (targets := accounts_needing_backfill chain (db w)) in *.
  pose proof (bk_alive _ _ _ Hb) as Hw.
  destruct (backfill_loop chain e targets w 0 0 Hb) as (w' & H & Hb' & Hadd & Hall).
  do 2 eexists. split.
  { unfold run_wallet_backfill. do 2 erewrite bind_step by (by apply query_run). simpl.
    by erewrite bind_step. }
  split_and!; [done|done|done|].
  destruct Hb' as [Hm Hinv Hpop Ha _ _]. apply validate_passes; [done..|].
  by eapply backfilled_all.
Qed.
End Registry.

(** ** A concrete registry *)

(** A derivation whose address is the path itself. *)
Definition path_address (seed path : string) : Res string := Ok path.
Definition wallet_env : Env :=
  mkEnv (sample_settings <| WALLET_HD_MNEMONIC := "seed" |>) (λ n, Z.of_nat n) 100
    (λ n, pretty (N.of_nat n)).
Definition wallet_world : World := sample_world.

Lemma path_derivable i : 0 ≤ i < 2 → ∃ a, derive_evm_address path_address "seed" i = Ok a.
Proof. intros Hi. assert (i = 0 ∨ i = 1) as [-> | ->] by lia; eexists; vm_compute; reflexivity. Qed.

Lemma path_distinct i j a :
  0 ≤ i < 2 → 0 ≤ j < 2 → derive_evm_address path_address "seed" i = Ok a →
  derive_evm_address path_address "seed" j = Ok a → i = j.
Proof.
  intros Hi Hj. assert (i = 0 ∨ i = 1) as [-> | ->] by lia;
    assert (j = 0 ∨ j = 1) as [-> | ->] by lia; vm_compute; congruence.
Qed.

Lemma empty_registry : registry_inv path_address "seed" (db wallet_world).
Proof. by split. Qed.

Lemma wallet_backfillable n : Z.of_nat n ≤ 2 → backfillable path_address "seed" 2 n wallet_env wallet_world.
Proof. intros Hn. split; [done|apply empty_registry|done|done|done|]. rewrite (eq_refl : next_index (db wallet_world) = 0). lia. Qed.

Lemma index_registry_safe_witness :
  ∃ a w', ensure_active_address path_address 1 POLYGON wallet_env wallet_world = (Ok a, w') ∧
    registry_inv path_address "seed" (db w') ∧ wa_derivation_index a = 0.
Proof.
  eexists _, _. split; [vm_compute; reflexivity|].
  split; [|reflexivity].
  eapply (index_registry_safe path_address "seed" 1 POLYGON wallet_env wallet_world);
    [reflexivity|apply empty_registry|done|reflexivity|left; vm_compute; reflexivity].
Defined.

Lemma ensure_address_idempotent_witness :
  ∃ a w', ensure_active_address path_address 1 POLYGON wallet_env wallet_world = (Ok a, w') ∧
    ensure_active_address path_address 1 POLYGON wallet_env w' = (Ok a, w').
Proof.
  destruct (ensure_address_idempotent path_address "seed" 2 ltac:(done) path_derivable path_distinct
    1 POLYGON wallet_env wallet_world) as (a & w' & H & _ & Hi).
  - by apply wallet_backfillable.
  - exists a, w'. split; [exact H|]. apply Hi; [done|].
    revert H. vm_compute. by intros [= _ <-].
Defined.

Lemma backfill_then_validates_witness :
  ∃ report w' r,
    run_wallet_backfill path_address true None POLYGON wallet_env wallet_world = (Ok report, w') ∧
    bf_allocated report = 1%nat ∧
    validate_wallet_migration path_address POLYGON 10 wallet_env w' = (Ok r, w') ∧ passed r = true.
Proof.
  destruct (backfill_then_validates path_address "seed" 2 ltac:(done) path_derivable path_distinct
    POLYGON 10 wallet_env wallet_world) as (report & w' & H & _ & Hn & _ & r & Hr & Hp).
  - apply wallet_backfillable. vm_compute. discriminate.
  - exists report, w', r. split_and!; [exact H| |exact Hr|exact Hp]. rewrite Hn. reflexivity.
Defined.
