(* ===== verification/Polygon.v ===== *)
(** * The blockchain provider: Polygon JSON-RPC

    [shared/providers/blockchain.py], [apps/integrations/polygon/client.py]
    and [providers.py].  The HTTP exchange is a parameter: [exchange t method
    params] is what the request made at time [t] meets, its body already
    decoded by [json.loads]; [str_json] is Python's [str] of a decoded value
    that is not text.  The pause between two attempts has no effect. *)

From S2P Require Import Prelude Strings Tables Money Models JsonValues EsimModels World Effects Credit.
From S2P Require Import Addresses.
#[local] Open Scope Z_scope.

(** ** The protocol *)

Record TransferResult := mkTransfer {
  tr_tx_hash : string;
  tr_from_address : string;
  tr_to_address : string;
  tr_amount : money;
  tr_confirmations : Z;
  tr_block_number : Z;
  tr_token_contract : string;
  tr_status : string;
  tr_raw_rpc_response : Json;
}.

(** [BlockchainProvider]: what services rely on is that fetching neither
    touches the database nor the transaction, and publishes nothing. *)
Class BlockchainProvider := {
  fetch_usdt_transfer : string → option string → M TransferResult;
  fetch_reads e w h to r w' : fetch_usdt_transfer h to e w = (r, w') →
    db w' = db w ∧ depth w' = depth w ∧ aborted w' = aborted w ∧ events w' = events w ∧
    next_uuid w' = next_uuid w;
}.

(** ** The client *)

(** What one HTTP request meets: a timeout, an error status with its body, a
    connection that cannot be opened, one that is lost while the body is read, a
    body that is not UTF-8, or a response: empty, not JSON, or a decoded value. *)
Inductive HttpReply :=
  | HttpTimeout
  | HttpError (code : Z) (detail : string)
  | HttpUnreachable (reason : string)
  | HttpReset
  | HttpUndecodable
  | HttpEmpty
  | HttpNotJson
  | HttpBody (parsed : Json).

(** A retryable failure is kept apart from the errors a caller sees. *)
Inductive Attempt :=
  | Answered (result : Json)
  | Retryable (msg : string)
  | Failed (x : Exn).

Definition retryable_codes : list Z := [-32000; -32005; -32016].

Section Client.
Context (exchange : instant → string → list Json → HttpReply) (str_json : Json → string).

#[local] Abbreviation text_of := (text_of str_json).

(** The body of [_request_once] from the reply on. *)
Definition read_reply (reply : HttpReply) : Attempt :=
  match reply with
  | HttpTimeout => Retryable "timeout"
  | HttpError code detail =>
      if (500 <=? code) || (code =? 429) then Retryable ("HTTP: " +:+ detail)
      else Failed (BlockchainRPCError ("Polygon RPC HTTP " +:+ pretty code +:+ ": " +:+ stake 200 detail))
  | HttpUnreachable reason => Retryable ("connection error: " +:+ reason)
  | HttpReset => Failed ConnectionError
  | HttpUndecodable => Failed (ValueError "invalid UTF-8 in RPC response")
  | HttpEmpty => Retryable "empty RPC response"
  | HttpNotJson => Retryable "invalid JSON in RPC response"
  | HttpBody (JObj parsed) =>
      match jget "error" parsed with
      | None | Some JNull =>
          Answered (match jget "result" parsed with Some j => j | None => JNull end)
      | Some error =>
          let message := match error with
                         | JObj fields => match jget "message" fields with
                                          | Some m => m | None => JStr (str_json error) end
                         | _ => JStr (text_of error) end in
          let code := match error with JObj fields => jget "code" fields | _ => None end in
          let known := match code with
                       | Some (JInt c) => bool_decide (c ∈ retryable_codes) | _ => false end in
          if known then Retryable (text_of message)
          else match message with
               | JStr m => if contains "rate limit" (lower m) then Retryable m
                           else Failed (BlockchainRPCError ("JSON-RPC error: " +:+ m))
               | _ => Failed AttributeError
               end
      end
  | HttpBody _ => Failed (BlockchainRPCError "unexpected JSON-RPC payload type")
  end.

(** [PolygonRpcClient._request_once] *)
Definition _request_once (method : string) (params : list Json) : M Attempt :=
  let! t := now in ret (read_reply (exchange t method params)).

(** The loop of [call]: [n] attempts are left. *)
Fixpoint attempts_left (n : nat) (method : string) (params : list Json) : M (option Json) :=
  match n with
  | O => ret None
  | S n =>
      let! a := _request_once method params in
      match a with
      | Answered j => ret (Some j)
      | Failed x => raise x
      | Retryable _ => attempts_left n method params
      end
  end.

(** [PolygonRpcClient.call]; [rpc_url] and [retries] are its attributes. *)
Definition call (rpc_url : string) (retries : Z) (method : string) (params : list Json) : M Json :=
  raise_if (bool_decide (rpc_url = "")) (BlockchainRPCError "POLYGON_RPC_URL is not configured");;;
  let attempts := retries + 1 in
  let! r := attempts_left (Z.to_nat attempts) method params in
  match r with
  | Some j => ret j
  | None => raise (BlockchainRPCError ("Polygon RPC " +:+ method +:+ " failed after " +:+
                                       pretty attempts +:+ " attempts"))
  end.

(** ** The provider *)

(** [PolygonProvider]: its client and the attributes [__init__] sets. *)
Record PolygonProvider := mkPolygon {
  pp_rpc_url : string;
  pp_retries : Z;
  pp_usdt_contract : string;
  pp_platform_wallet : string;
  pp_chain_id : Z;
  pp_token_decimals : Z;
}.

(** [PolygonProvider.__init__] on the settings it reads. *)
Definition init_provider (rpc_url : string) (retries : Z) (contract wallet : string)
    (chain_id token_decimals : Z) : Res PolygonProvider :=
  let usdt_contract := normalize_evm_address contract in
  let platform_wallet := normalize_evm_address wallet in
  if bool_decide (usdt_contract = "0x")
  then Raise (BlockchainProviderError "POLYGON_USDT_CONTRACT is not configured")
  else if bool_decide (platform_wallet = "0x")
  then Raise (BlockchainProviderError "POLYGON_PLATFORM_WALLET is not configured")
  else Ok (mkPolygon rpc_url retries usdt_contract platform_wallet chain_id token_decimals).

(** keccak256("Transfer(address,address,uint256)") *)
Definition _ERC20_TRANSFER_TOPIC : string :=
  "0xddf252ad1be2c89b69c2b068fc378daa952ba7f163c4a11628f55a4df523b3ef".

Definition hex_text (text : string) : Res Z :=
  let text := lower (strip text) in
  match (if startswith "0x" text then int_base16 text else int_base10 text) with
  | Some n => Ok n
  | None => Raise (ValueError "invalid literal for int()")
  end.

Definition _hex_to_int (value : Json) : Res Z :=
  match value with
  | JNull => Raise (BlockchainRPCError "missing hex integer in RPC response")
  | JInt n => Ok n
  | JBool b => Ok (Z.b2z b)
  | JStr s => hex_text s
  | _ => Raise (ValueError "invalid literal for int()")
  end.

Definition _receipt_status (value : Json) : Res string :=
  match value with
  | JNull => Ok "unknown"
  | _ => match _hex_to_int value with
         | Raise x => Raise x
         | Ok status => Ok (if status =? 1 then "success"
                            else if status =? 0 then "reverted" else "unknown")
         end
  end.

Definition _topic_to_address (topic : string) : string :=
  let text := lower topic in
  let text := if startswith "0x" text then sdrop 2 text else text in
  "0x" +:+ slast 40 text.

(** The number of digits of a coefficient. *)
Definition digit_count (c : Z) : Z := Z.of_nat (String.length (pretty (Z.abs_N c))).

(** A coefficient rounded half-even to the digits of the context, with the
    power of ten dropped. *)
Definition round_context (c : Z) : Z * Z :=
  let k := digit_count c - context_prec in
  if k <=? 0 then (c, 0)
  else
    let p := 10 ^ k in
    let q := c / p in
    let r := c mod p in
    (if (p <? 2 * r) || ((2 * r =? p) && Z.odd q) then q + 1 else q, k).

(** [(Decimal(raw) / Decimal(10) ** decimals).quantize(MONEY_QUANT,
    rounding=ROUND_DOWN)] for a non-negative [raw]. *)
Definition token_amount (raw decimals : Z) : option money :=
  let '(c, k) := round_context raw in
  let e := k - decimals + 6 in
  let r := if 0 <=? e then c * 10 ^ e else Z.quot c (10 ^ (- e)) in
  if Z.abs r <? 10 ^ context_prec then Some r else None.

Definition _amount_from_data (p : PolygonProvider) (data : string) : Res money :=
  match hex_text data with
  | Raise x => Raise x
  | Ok raw => match token_amount raw (pp_token_decimals p) with
              | Some m => Ok m
              | None => Raise InvalidOperation
              end
  end.

(** [str(log.get(k) or default)] *)
Definition log_text (k default : string) (log : list (string * Json)) : string :=
  match jget k log with
  | Some j => if truthy j then text_of j else default
  | None => default
  end.

(** [log.get("topics") or []] as the texts of its items; a value without
    [len] raises, and so does indexing an object. *)
Definition log_topics (log : list (string * Json)) : Res (list string) :=
  match jget "topics" log with
  | None => Ok []
  | Some (JArr items) => Ok (text_of <$> items)
  | Some (JStr s) => Ok ((λ c, String c "") <$> String.list_ascii_of_string s)
  | Some (JObj items) => if (length items <? 3)%nat then Ok [] else Raise (LookupError "0")
  | Some j => if truthy j then Raise TypeError else Ok []
  end.

(** A log as the loop sees it: skipped, or the transfer it describes. *)
Definition match_log (p : PolygonProvider) (expected_to : string) (log : Json)
    : Res (option (string * string * money * Json)) :=
  match log with
  | JObj fields =>
      if negb (bool_decide (normalize_evm_address (log_text "address" "" fields) =
                            pp_usdt_contract p)) then Ok None
      else
        match log_topics fields with
        | Raise x => Raise x
        | Ok (t0 :: t1 :: t2 :: _) =>
            if negb (bool_decide (lower t0 = _ERC20_TRANSFER_TOPIC)) then Ok None
            else
              let to_address := _topic_to_address t2 in
              if negb (bool_decide (to_address = expected_to)) then Ok None
              else
                match _amount_from_data p (log_text "data" "0x0" fields) with
                | Raise x => Raise x
                | Ok amount => Ok (Some (_topic_to_address t1, to_address, amount, log))
                end
        | Ok _ => Ok None
        end
  | _ => Ok None
  end.

(** [_find_usdt_transfer_log] *)
Fixpoint _find_usdt_transfer_log (p : PolygonProvider) (expected_to : string) (logs : list Json)
    : Res (option (string * string * money * Json)) :=
  match logs with
  | [] => Ok None
  | log :: logs =>
      match match_log p expected_to log with
      | Raise x => Raise x
      | Ok (Some found) => Ok (Some found)
      | Ok None => _find_usdt_transfer_log p expected_to logs
      end
  end.

(** [receipt.get("logs") or []]: iterating an object or a text yields keys and
    characters, which the loop skips. *)
Definition receipt_logs (receipt : list (string * Json)) : Res (list Json) :=
  match jget "logs" receipt with
  | None => Ok []
  | Some (JArr items) => Ok items
  | Some (JStr _ | JObj _) => Ok []
  | Some j => if truthy j then Raise TypeError else Ok []
  end.

Definition field (k : string) (fields : list (string * Json)) : Json :=
  match jget k fields with Some j => j | None => JNull end.

Definition _assert_chain_id (p : PolygonProvider) : M unit :=
  let! remote_hex := call (pp_rpc_url p) (pp_retries p) "eth_chainId" [] in
  let! remote_id := lift (_hex_to_int remote_hex) in
  raise_if (negb (remote_id =? pp_chain_id p)) (BlockchainProviderError "Unexpected chain_id").

(** [PolygonProvider.fetch_usdt_transfer] *)
Definition polygon_fetch (p : PolygonProvider) (tx_hash : string) (to_address : option string)
    : M TransferResult :=
  let! normalized_hash :=
    match tx_hash_text tx_hash with
    | Some text => ret text
    | None => raise (TransferNotFoundError "Invalid transaction hash")
    end in
  _assert_chain_id p;;;
  let expected_to := normalize_evm_address
    (match to_address with Some (String _ _ as a) => a | _ => pp_platform_wallet p end) in
  raise_if (bool_decide (expected_to = "0x"))
    (BlockchainProviderError "expected deposit to_address is empty");;;
  let! receipt := call (pp_rpc_url p) (pp_retries p) "eth_getTransactionReceipt"
    [JStr normalized_hash] in
  match receipt with
  | JNull => raise (TransferNotFoundError ("Transaction receipt not found for " +:+ normalized_hash))
  | JObj fields =>
      let! head_hex := call (pp_rpc_url p) (pp_retries p) "eth_blockNumber" [] in
      let! head_block := lift (_hex_to_int head_hex) in
      let! tx_block := lift (_hex_to_int (field "blockNumber" fields)) in
      let confirmations := Z.max (head_block - tx_block + 1) 0 in
      let! logs := lift (receipt_logs fields) in
      let! matched := lift (_find_usdt_transfer_log p expected_to logs) in
      match matched with
      | None => raise (TransferNotFoundError
                  ("No USDT transfer to expected wallet in " +:+ normalized_hash))
      | Some (from_address, to_addr, amount, log) =>
          let! tx_status := lift (_receipt_status (field "status" fields)) in
          let raw_rpc_response := JObj [("tx_hash", JStr normalized_hash);
            ("receipt", receipt); ("block_number", head_hex); ("chain_id", JInt (pp_chain_id p));
            ("matched_log", log); ("expected_to", JStr expected_to)] in
          ret (mkTransfer normalized_hash from_address to_addr amount confirmations tx_block
                 (pp_usdt_contract p) tx_status raw_rpc_response)
      end
  | _ => raise (BlockchainRPCError "eth_getTransactionReceipt returned invalid type")
  end.

(** ** Reading only *)

Lemma only_reads_lift {A} (r : Res A) : only_reads (lift r).
Proof. destruct r; [apply only_reads_ret|apply only_reads_raise]. Qed.
#[local] Hint Resolve only_reads_lift : effects.
Ltac solve_reads :=
  repeat first [by auto with effects | apply only_reads_bind; [|intros ?] | case_match].

Lemma only_reads_attempts n method params : only_reads (attempts_left n method params).
Proof. induction n as [|n IH]; simpl; unfold _request_once; solve_reads. Qed.
#[local] Hint Resolve only_reads_attempts : effects.

Lemma only_reads_call url retries method params : only_reads (call url retries method params).
Proof. unfold call. solve_reads. Qed.
#[local] Hint Resolve only_reads_call : effects.

Lemma only_reads_polygon p h to : only_reads (polygon_fetch p h to).
Proof. unfold polygon_fetch, _assert_chain_id. solve_reads. Qed.

(** The Polygon provider keeps the promises of the protocol. *)
#[export] Instance polygon_blockchain (p : PolygonProvider) : BlockchainProvider := {
  fetch_usdt_transfer := polygon_fetch p;
  fetch_reads := λ e w h to r w', only_reads_polygon p h to e w r w';
}.

(** ** Properties *)

(** The [k]-th of the attempts made from [w] on. *)
Definition attempt (e : Env) (w : World) (method : string) (params : list Json) (k : nat) : Attempt :=
  read_reply (exchange (clock e (tick w + k)) method params).

Definition retryable (a : Attempt) : Prop := ∃ msg, a = Retryable msg.

Lemma attempts_spec n method params e w r w' :
  attempts_left n method params e w = (r, w') →
  ∃ k, (k ≤ n)%nat ∧ tick w' = (tick w + k)%nat ∧
    (∀ i, (S i < k)%nat → retryable (attempt e w method params i)) ∧
    match r with
    | Ok None => k = n ∧ ∀ i, (i < n)%nat → retryable (attempt e w method params i)
    | Ok (Some j) => ∃ i, k = S i ∧ attempt e w method params i = Answered j
    | Raise x => ∃ i, k = S i ∧ attempt e w method params i = Failed x
    end.
Proof.
  revert w. induction n as [|n IH]; intros w H; simpl in H.
  { injection H as <- <-. exists 0%nat. rewrite Nat.add_0_r. split_and!; [lia|done|lia|done|lia]. }
  assert (H0 : attempt e w method params 0 = read_reply (exchange (clock e (tick w)) method params)).
  { unfold attempt. by rewrite Nat.add_0_r. }
  unfold _request_once, bind in H. simpl in H. rewrite <- H0 in H.
  set (w1 := w <| tick := S (tick w) |>) in H.
  assert (Hs : ∀ i, attempt e w1 method params i = attempt e w method params (S i)).
  { intros i. unfold attempt. simpl. do 2 f_equal. by rewrite Nat.add_succ_r. }
  destruct (attempt e w method params 0) as [j|msg|x] eqn:E.
  - injection H as <- <-. exists 1%nat. simpl. split_and!; [lia|lia|lia|eauto].
  - apply IH in H as (k & Hk & Ht & Hr & Hout). exists (S k). simpl in Ht.
    split_and!; [lia|lia| |].
    + intros [|i] Hi; [by exists msg|]. rewrite <- Hs. apply Hr. lia.
    + destruct r as [[j|]|x]; simpl.
      * destruct Hout as (i & -> & Hi). exists (S i). by rewrite <- Hs.
      * destruct Hout as [-> Hall]. split; [done|]. intros [|i] Hi; [by exists msg|].
        rewrite <- Hs. apply Hall. lia.
      * destruct Hout as (i & -> & Hi). exists (S i). by rewrite <- Hs.
  - injection H as <- <-. exists 1%nat. simpl. split_and!; [lia|lia|lia|eauto].
Qed.

(** C11: A JSON-RPC call ends after at most [retries + 1] requests: it returns
    the first answer, raises the first error that is not worth retrying, and
    gives up with [BlockchainRPCError] exactly when every one of the
    [retries + 1] attempts failed in a retryable way. *)
Theorem rpc_call_bounded url retries method params e w r w' :
  url ≠ "" → 0 ≤ retries → call url retries method params e w = (r, w') →
  ∃ k, Z.of_nat k ≤ retries + 1 ∧ tick w' = (tick w + k)%nat ∧ db w' = db w ∧
    (∀ i, (S i < k)%nat → retryable (attempt e w method params i)) ∧
    ((∃ j i, k = S i ∧ attempt e w method params i = Answered j ∧ r = Ok j) ∨
     (∃ x i, k = S i ∧ attempt e w method params i = Failed x ∧ r = Raise x) ∨
     Z.of_nat k = retries + 1 ∧ (∀ i, (i < k)%nat → retryable (attempt e w method params i)) ∧
       r = Raise (BlockchainRPCError ("Polygon RPC " +:+ method +:+ " failed after " +:+
             pretty (retries + 1) +:+ " attempts"))).
Proof.
  intros Hu Hr H. pose proof (only_reads_call _ _ _ _ _ _ _ _ H) as (Hd & _).
  unfold call in H. rewrite bool_decide_false in H by done. rewrite bind_run in H. simpl in H.
  rewrite bind_run in H.
  destruct (attempts_left _ _ _ e w) as [[o|x] w1] eqn:E;
    apply attempts_spec in E as (k & Hk & Ht & Hs & Hout).
  - exists k. destruct o as [j|]; injection H as <- <-.
    + destruct Hout as (i & -> & Hi). split_and!; [lia|done|done|done|]. left. eauto 6.
    + destruct Hout as [-> Hall]. split_and!; [lia|done|done|done|]. right; right.
      split_and!; [lia|done|done].
  - injection H as <- <-. destruct Hout as (i & -> & Hi). exists (S i).
    split_and!; [lia|done|done|done|]. right; left. eauto 6.
Qed.

(** The logs before the one found do not match. *)
Lemma find_first p to logs found :
  _find_usdt_transfer_log p to logs = Ok (Some found) →
  ∃ pre log post, logs = pre ++ log :: post ∧ match_log p to log = Ok (Some found) ∧
    Forall (λ l, match_log p to l = Ok None) pre.
Proof.
  induction logs as [|log logs IH]; simpl; [done|].
  destruct (match_log p to log) as [[f|]|x] eqn:E; [|intros H|done].
  - intros [= ->]. by exists [], log, logs.
  - destruct (IH H) as (pre & l & post & -> & Hl & Hpre).
    exists (log :: pre), l, post. split_and!; [done|done|by constructor].
Qed.

Lemma match_log_found p to log from addr amount l :
  match_log p to log = Ok (Some (from, addr, amount, l)) →
  addr = to ∧ l = log ∧ ∃ fields, log = JObj fields ∧
    normalize_evm_address (log_text "address" "" fields) = pp_usdt_contract p ∧
    _amount_from_data p (log_text "data" "0x0" fields) = Ok amount.
Proof.
  unfold match_log. intros H. split_cases. bool_to_prop. split_and!; [done|done|]. eauto.
Qed.

(** What the provider reports as the transfer of a transaction is the
    first log of its receipt that is a transfer of the configured token to the
    expected recipient (the given address, or the platform wallet): every
    earlier log is something else, the recipient and the token are the expected
    ones, and the reported confirmations are never negative. *)
Theorem fetch_returns_first_transfer p h to e w t w' :
  polygon_fetch p h to e w = (Ok t, w') →
  let expected := normalize_evm_address
    (match to with Some (String _ _ as a) => a | _ => pp_platform_wallet p end) in
  tx_hash_text h = Some (tr_tx_hash t) ∧
  tr_to_address t = expected ∧ tr_token_contract t = pp_usdt_contract p ∧
  0 ≤ tr_confirmations t ∧
  ∃ raw receipt pre log post,
    tr_raw_rpc_response t = JObj raw ∧ jget "receipt" raw = Some (JObj receipt) ∧
    jget "matched_log" raw = Some log ∧ receipt_logs receipt = Ok (pre ++ log :: post) ∧
    match_log p expected log = Ok (Some (tr_from_address t, expected, tr_amount t, log)) ∧
    Forall (λ l, match_log p expected l = Ok None) pre.
Proof.
  intros H expected. unfold polygon_fetch in H.
  apply bind_Ok in H as (hash & w1 & Hh & H).
  destruct (tx_hash_text h) as [text|]; [|done]. apply ret_Ok in Hh as [-> ->].
  apply bind_Ok in H as (u & w2 & _ & H). apply bind_Ok in H as (u' & w3 & [_ ->]%raise_if_Ok & H).
  apply bind_Ok in H as (receipt & w4 & _ & H). destruct receipt as [| | | | |fields]; try done.
  apply bind_Ok in H as (head & w5 & _ & H). apply bind_Ok in H as (hb & w6 & _ & H).
  apply bind_Ok in H as (tb & w7 & _ & H).
  apply bind_Ok in H as (logs & w8 & [Hlogs ->]%lift_Ok & H).
  apply bind_Ok in H as (m & w9 & [Hm ->]%lift_Ok & H).
  destruct m as [[[[from addr] amount] log]|]; [|done].
  apply bind_Ok in H as (st & w10 & _ & [-> ->]%ret_Ok).
  apply find_first in Hm as (pre & log' & post & -> & Hlog & Hpre).
  pose proof (match_log_found _ _ _ _ _ _ _ Hlog) as (-> & -> & _).
  split_and!; [done|done|done|simpl; lia|].
  eexists _, fields, pre, log', post. split_and!; done.
Qed.
End Client.

(** ** A concrete chain *)

(** The node is unreachable at even times; the receipt holds two logs of the
    token, the first one to someone else. *)
Definition sample_usdt : string := "0xc2132d05d31c914a87c6611c10748aeb04b58e8f".
Definition sample_wallet : string := "0x00000000000000000000000000000000000000aa".
Definition sample_topic (tail : string) : Json :=
  JStr ("0x0000000000000000000000000000000000000000000000000000000000000" +:+ tail).
Definition sample_log (to data : string) : Json :=
  JObj [("address", JStr sample_usdt); ("logIndex", JStr "0x3");
        ("topics", JArr [JStr _ERC20_TRANSFER_TOPIC; sample_topic "0bb"; sample_topic to]);
        ("data", JStr data)].
Definition sample_receipt : list (string * Json) :=
  [("status", JStr "0x1"); ("blockNumber", JStr "0x10");
   ("logs", JArr [sample_log "0cc" "0x1"; sample_log "0aa" "0x4c4b40"])].
Definition sample_exchange (t : instant) (method : string) (params : list Json) : HttpReply :=
  if Z.even t then HttpTimeout
  else HttpBody (JObj [("result",
    if bool_decide (method = "eth_chainId") then JStr "0x89"
    else if bool_decide (method = "eth_blockNumber") then JStr "0x30"
    else JObj sample_receipt)]).
Definition sample_str_json (j : Json) : string := "".
Definition sample_polygon : PolygonProvider :=
  mkPolygon "https://polygon" 3 sample_usdt sample_wallet 137 6.
Definition sample_hash : string :=
  "0x00000000000000000000000000000000000000000000000000000000000000ff".

Lemma rpc_call_bounded_witness :
  ∃ w', call sample_exchange sample_str_json "https://polygon" 3 "eth_chainId" [] sample_env sample_world
    = (Ok (JStr "0x89"), w') ∧ tick w' = 2%nat ∧ db w' = db sample_world.
Proof.
  destruct (call sample_exchange sample_str_json "https://polygon" 3 "eth_chainId" [] sample_env
    sample_world) as [r w'] eqn:E.
  destruct (rpc_call_bounded sample_exchange sample_str_json "https://polygon" 3 "eth_chainId" []
    sample_env sample_world r w') as (k & _ & _ & Hd & _); [discriminate|lia|exact E|].
  exists w'. split; [|split; [|exact Hd]]; revert E; vm_compute; by intros [= <- <-].
Defined.

Lemma fetch_returns_first_transfer_witness :
  ∃ t w', polygon_fetch sample_exchange sample_str_json sample_polygon sample_hash None sample_env
      sample_world = (Ok t, w') ∧
    tr_amount t = 5000000 ∧ tr_confirmations t = 33 ∧ tr_to_address t = sample_wallet ∧
    tr_token_contract t = sample_usdt.
Proof.
  eexists _, _. split; [vm_compute; reflexivity|].
  split; [reflexivity|]. split; [reflexivity|].
  destruct (fetch_returns_first_transfer sample_exchange sample_str_json sample_polygon sample_hash
    None sample_env sample_world _ _ ltac:(vm_compute; reflexivity)) as (_ & Hto & Htok & _).
  split; [exact Hto|exact Htok].
Defined.
