(* ===== verification/Observations.v ===== *)
(** * Deposit observations: ingest, confirmation and conversion to credits

    [apps/wallet/services/flags.py], [confirmation.py], [observation.py],
    [conversion.py] and [ops.py].  An observation is keyed by its identity
    (chain, transaction hash, log index); on-chain amounts are whole
    micro-units of the token. *)

From S2P Require Import Prelude Strings Tables Money Models EsimModels World Effects Credit.
From S2P Require Import Addresses.
#[local] Open Scope Z_scope.

(** ** Cutover flags *)

(** [is_in_cutover_cohort]: membership in the parsed allowlist. *)
Definition is_in_cutover_cohort (account : pk) : M bool :=
  asks (λ s, bool_decide (account ∈ COHORT_ACCOUNT_IDS s)).

Definition should_expose_wallet_address (account : pk) : M bool :=
  let! flag := asks WALLET_ADDRESS_ENABLED in
  let! cohort := is_in_cutover_cohort account in
  ret (flag && cohort).

Definition should_use_credit_conversion_v2 (account : pk) : M bool :=
  let! flag := asks CREDIT_CONVERSION_V2 in
  let! cohort := is_in_cutover_cohort account in
  ret (flag && cohort).

Definition should_use_wallet_money_path (account : pk) : M bool :=
  let! address_flag := asks WALLET_ADDRESS_ENABLED in
  let! observation_flag := asks OBSERVATION_ENABLED in
  let! conversion_flag := asks CREDIT_CONVERSION_V2 in
  let! cohort := is_in_cutover_cohort account in
  ret (address_flag && observation_flag && conversion_flag && cohort).

(** ** Transaction hashes *)

Definition normalize_tx_hash (value : string) : Res string :=
  match tx_hash_text value with
  | Some text => Ok text
  | None => Raise (ValueError "invalid tx_hash")
  end.

(** ** Chain and confirmation policy *)

Definition min_confirmations (chain : string) : M Z :=
  if bool_decide (chain = POLYGON) then asks POLYGON_MIN_CONFIRMATIONS
  else raise (ValueError "unsupported chain for ChainPolicy").

Definition accepted_token_contract (chain : string) : M string :=
  if bool_decide (chain = POLYGON)
  then let! c := asks POLYGON_USDT_CONTRACT in ret (normalize_evm_address c)
  else raise (ValueError "unsupported chain for ChainPolicy").

(** [ConfirmationResult]: the outcome with its reason. *)
Inductive ConfirmationOutcome :=
  | CONFIRM_PENDING (reason : StatusReason)
  | CONFIRM_REJECTED (reason : StatusReason)
  | CONFIRM_CONFIRMED.

Definition evaluate (o : DepositObservation) : M ConfirmationOutcome :=
  let! accepted := accepted_token_contract (obs_chain o) in
  let token := normalize_evm_address (obs_token_contract o) in
  if negb (bool_decide (token = accepted)) then ret (CONFIRM_REJECTED SR_unaccepted_asset)
  else
    let! required := min_confirmations (obs_chain o) in
    if obs_confirmations o <? required
    then ret (CONFIRM_PENDING (SR_insufficient_confirmations (obs_confirmations o) required))
    else ret CONFIRM_CONFIRMED.

(** ** The observation service *)

Definition same_identity (chain tx_hash : string) (log_index : Z) (o : DepositObservation) : bool :=
  bool_decide (obs_chain o = chain) && bool_decide (obs_tx_hash o = tx_hash) &&
  (obs_log_index o =? log_index).

Definition observation_fits (o : DepositObservation) : bool :=
  fits_numeric (obs_amount o) && (obs_log_index o <=? max_int32) &&
  (obs_confirmations o <=? max_int32).

Definition observation_verdict (d : Db) (o : DepositObservation) : option Exn :=
  if negb (observation_fits o) then Some DataError
  else if negb (observation_checks o) then Some IntegrityError
  else if qexists (λ p, same_identity (obs_chain o) (obs_tx_hash o) (obs_log_index o) p &&
                        negb (obs_id p =? obs_id o)%N) (observations d)
  then Some IntegrityError else None.

(** [observation.<fields> = ...; observation.save(update_fields=...)] *)
Definition save_observation (o : DepositObservation)
    (f : DepositObservation → DepositObservation) : M DepositObservation :=
  save_fields observations observation_verdict (obs_id o) f;;;
  ret (f o).

Definition terminal (s : ObservationStatus) : bool :=
  match s with
  | CONFIRMED | CONVERSION_STARTED | CREDITED | REJECTED | EXPIRED => true
  | OBSERVED | PENDING_CONFIRMATION => false
  end.

Definition _apply_policy (o : DepositObservation) : M DepositObservation :=
  if terminal (obs_status o) then ret o
  else
    let! result := evaluate o in
    match result with
    | CONFIRM_PENDING reason =>
        if bool_decide (obs_status o = PENDING_CONFIRMATION) then
          save_observation o (λ p, p <| obs_status_reason := reason |>)
        else
          let! pending_at := match obs_pending_at o with Some t => ret t | None => now end in
          save_observation o (λ p, p <| obs_status := PENDING_CONFIRMATION |>
            <| obs_pending_at := Some pending_at |> <| obs_status_reason := reason |>)
    | CONFIRM_REJECTED reason =>
        let! t := now in
        save_observation o (λ p, p <| obs_status := REJECTED |> <| obs_rejected_at := Some t |>
          <| obs_status_reason := reason |>)
    | CONFIRM_CONFIRMED =>
        let! t := now in
        save_observation o (λ p, p <| obs_status := CONFIRMED |> <| obs_confirmed_at := Some t |>
          <| obs_status_reason := SR_none |>)
    end.

(** [status = PENDING_CONFIRMATION; pending_at = now; save]. *)
Definition mark_pending (o : DepositObservation) : M DepositObservation :=
  let! t := now in
  save_observation o (λ p, p <| obs_status := PENDING_CONFIRMATION |>
    <| obs_pending_at := Some t |>).

Definition _refresh_locked (o : DepositObservation) (confirmations : Z) : M DepositObservation :=
  if terminal (obs_status o) then ret o
  else
    let! o := if obs_confirmations o <? confirmations
              then save_observation o (λ p, p <| obs_confirmations := confirmations |>)
              else ret o in
    let! o := if bool_decide (obs_status o = OBSERVED) then mark_pending o else ret o in
    _apply_policy o.

Record ObservationSignal := mkSignal {
  sig_chain : string;
  sig_tx_hash : string;
  sig_log_index : Z;
  sig_to_address : string;
  sig_amount : money;
  sig_token_contract : string;
  sig_confirmations : Z;
  sig_from_address : string;
  sig_block_number : option Z;
}.

Definition find_observation (chain tx_hash : string) (log_index : Z) (d : Db)
    : option DepositObservation :=
  qfirst (same_identity chain tx_hash log_index) (observations d).

Definition _ingest_once (wallet_address : pk) (chain tx_hash : string) (token from : string)
    (signal : ObservationSignal) (shadow_only : bool) : M DepositObservation :=
  let! existing := locked_query (find_observation chain tx_hash (sig_log_index signal)) in
  match existing with
  | Some o => _refresh_locked o (sig_confirmations signal)
  | None =>
      let! id := uuid4 in
      let! observed_at := now in
      let o := mkObservation id wallet_address chain tx_hash (sig_log_index signal) OBSERVED
                 (sig_amount signal) token from (sig_confirmations signal)
                 (sig_block_number signal) SR_none shadow_only None None None None None None
                 observed_at in
      create observations observation_verdict id o;;;
      let! o := mark_pending o in
      _apply_policy o
  end.

(** [.filter(chain=..., address=...).order_by("-created_at").first()] *)
Definition latest_address (chain address : string) (d : Db) : option WalletAddress :=
  first_by (λ a, - wa_created_at a)
    (qall (λ a, bool_decide (wa_chain a = chain) && bool_decide (wa_address a = address))
      (wallet_addresses d)).

Definition _INGEST_ATTEMPTS : nat := 5.

Definition ingest (signal : ObservationSignal) (shadow_only : bool) : M DepositObservation :=
  let chain := if bool_decide (sig_chain signal = "") then POLYGON else sig_chain signal in
  let! tx_hash := lift (normalize_tx_hash (sig_tx_hash signal)) in
  let to_address := normalize_evm_address (sig_to_address signal) in
  let token := normalize_evm_address (sig_token_contract signal) in
  let from := if bool_decide (sig_from_address signal = "") then ""
              else normalize_evm_address (sig_from_address signal) in
  let! wallet_address := query (latest_address chain to_address) in
  match wallet_address with
  | None => raise ObservationAttributionError
  | Some wallet_address =>
      retry_else _INGEST_ATTEMPTS
        (atomic (_ingest_once (wa_id wallet_address) chain tx_hash token from signal shadow_only))
        (let! existing := query (find_observation chain tx_hash (sig_log_index signal)) in
         let! existing := found existing in
         _refresh_locked existing (sig_confirmations signal))
  end.

Definition advance_confirmation (observation : pk) : M DepositObservation :=
  atomic (
    let! locked := get_locked observations observation in
    _apply_policy locked).

Definition expire (observation : pk) : M DepositObservation :=
  atomic (
    let! locked := get_locked observations observation in
    if terminal (obs_status locked) then
      if bool_decide (obs_status locked = EXPIRED) then ret locked
      else raise ObservationTransitionError
    else
      let! t := now in
      let reason := match obs_status_reason locked with
                    | SR_none => SR_window_timeout | r => r end in
      save_observation locked (λ p, p <| obs_status := EXPIRED |> <| obs_expired_at := Some t |>
        <| obs_status_reason := reason |>)).

(** ** Conversion *)

Definition identity_key (chain tx_hash : string) (log_index : Z) : string :=
  "wallet-obs:" +:+ chain +:+ ":" +:+ tx_hash +:+ ":" +:+ pretty log_index.

Definition observation_idempotency_key (o : DepositObservation) : string :=
  identity_key (obs_chain o) (obs_tx_hash o) (obs_log_index o).

(** [observation.wallet_address.wallet_identity.account] *)
Definition observation_account (o : DepositObservation) : M pk :=
  let! a := get wallet_addresses (obs_wallet_address o) in
  let! i := get wallet_identities (wa_wallet_identity a) in
  ret (wid_account i).

Definition _credit_and_finish (o : DepositObservation) : M CreditLedgerEntry :=
  let! account := observation_account o in
  let! entry := credit account (AMoney (obs_amount o)) (RefEnum DEPOSIT) (str (obs_id o))
                  (observation_idempotency_key o) in
  (if negb (bool_decide (obs_status o = CREDITED)) then
     let! t := now in
     let! _ := save_observation o (λ p, p <| obs_status := CREDITED |>
       <| obs_credited_at := Some t |> <| obs_status_reason := SR_none |>) in
     ret tt
   else ret tt);;;
  ret entry.

Definition convert (observation : pk) : M CreditLedgerEntry :=
  atomic (
    let! locked := get_locked observations observation in
    if bool_decide (obs_status locked = CREDITED) then
      let! entry := query (λ d, find_entry (observation_idempotency_key locked) (ledger d)) in
      match entry with
      | None => raise ObservationTransitionError
      | Some entry => ret entry
      end
    else
      raise_if (obs_shadow_only locked) ObservationTransitionError;;;
      if bool_decide (obs_status locked = CONVERSION_STARTED) then _credit_and_finish locked
      else
        raise_if (negb (bool_decide (obs_status locked = CONFIRMED))) ObservationTransitionError;;;
        let! t := now in
        let! locked := save_observation locked (λ p, p <| obs_status := CONVERSION_STARTED |>
          <| obs_conversion_started_at := Some t |>) in
        _credit_and_finish locked).

(** ** Operations: resuming conversions *)

(** [order_by("confirmed_at", "observed_at")], a null coming last. *)
Definition confirmed_le (a b : DepositObservation) : Prop :=
  match obs_confirmed_at a, obs_confirmed_at b with
  | Some s, Some t => s < t ∨ s = t ∧ obs_observed_at a ≤ obs_observed_at b
  | Some _, None => True
  | None, Some _ => False
  | None, None => obs_observed_at a ≤ obs_observed_at b
  end.
#[local] Instance confirmed_le_dec : RelDecision confirmed_le.
Proof. intros a b. unfold confirmed_le. repeat case_match; apply _. Defined.

Definition convertible (o : DepositObservation) : bool :=
  (bool_decide (obs_status o = CONFIRMED) || bool_decide (obs_status o = CONVERSION_STARTED)) &&
  negb (obs_shadow_only o).

Definition iter_convertible_observations (limit : option nat) (d : Db)
    : list DepositObservation :=
  let qs := merge_sort confirmed_le (qall convertible (observations d)) in
  match limit with Some n => take n qs | None => qs end.

Inductive ConvertAction :=
  | skipped_not_in_cohort | would_convert | credited (entry : pk) | action_error.

Record ResumeReport := mkResume {
  rr_credited : nat;
  rr_errors : nat;
  rr_skipped : nat;
  rr_results : list (pk * ConvertAction);
}.

Definition report_action (r : ResumeReport) (o : pk) (a : ConvertAction) : ResumeReport :=
  mkResume (match a with credited _ => S (rr_credited r) | _ => rr_credited r end)
    (match a with action_error => S (rr_errors r) | _ => rr_errors r end)
    (match a with skipped_not_in_cohort => S (rr_skipped r) | _ => rr_skipped r end)
    (rr_results r ++ [(o, a)]).

Definition resume_one (apply_ : bool) (r : ResumeReport) (o : DepositObservation)
    : M ResumeReport :=
  let! account := observation_account o in
  let! allowed := should_use_credit_conversion_v2 account in
  if negb allowed then ret (report_action r (obs_id o) skipped_not_in_cohort)
  else if negb apply_ then ret (report_action r (obs_id o) would_convert)
  else
    try_except
      (let! entry := convert (obs_id o) in
       ret (report_action r (obs_id o) (credited (le_id entry))))
      (λ _, Some (ret (report_action r (obs_id o) action_error))).

Definition resume_converts (apply_ : bool) (limit : option nat) : M ResumeReport :=
  let! candidates := query (iter_convertible_observations limit) in
  fold_each candidates (mkResume 0 0 0 []) (resume_one apply_).

(** ** The specification

    What a deposit observation may go through, as a relation between two
    databases: it is observed, it obs_settles, or it is converted into one ledger
    entry. *)

(** The transitions of RFC 006. *)
Inductive obs_step : relation ObservationStatus :=
  | step_pending : obs_step OBSERVED PENDING_CONFIRMATION
  | step_confirm : obs_step PENDING_CONFIRMATION CONFIRMED
  | step_reject : obs_step PENDING_CONFIRMATION REJECTED
  | step_expire : obs_step PENDING_CONFIRMATION EXPIRED
  | step_start : obs_step CONFIRMED CONVERSION_STARTED
  | step_credit : obs_step CONVERSION_STARTED CREDITED.
#[local] Hint Constructors obs_step rtc : roamkit.

(** What an observation is, as opposed to how far it has come. *)
Definition same_core (o o' : DepositObservation) : Prop :=
  obs_id o' = obs_id o ∧ obs_wallet_address o' = obs_wallet_address o ∧
  obs_chain o' = obs_chain o ∧ obs_tx_hash o' = obs_tx_hash o ∧
  obs_log_index o' = obs_log_index o ∧ obs_amount o' = obs_amount o ∧
  obs_token_contract o' = obs_token_contract o ∧ obs_from_address o' = obs_from_address o ∧
  obs_shadow_only o' = obs_shadow_only o.

#[export] Instance same_core_preorder : PreOrder same_core.
Proof. split; [done|]. intros a b c. unfold same_core. intuition congruence. Qed.

(** A row at rest: no transaction leaves it in between two transitions. *)
Definition at_rest (s : ObservationStatus) : Prop := s ≠ OBSERVED ∧ s ≠ CONVERSION_STARTED.

(** A pending observation is confirmed, rejected or expires; nothing else
    moves without a conversion. *)
Definition obs_settles (o o' : DepositObservation) : Prop :=
  same_core o o' ∧
  (obs_status o' = obs_status o ∨
   obs_status o = PENDING_CONFIRMATION ∧ obs_status o' ∈ [CONFIRMED; REJECTED; EXPIRED]).

#[export] Instance obs_settles_preorder : PreOrder obs_settles.
Proof.
  split; [intros o; split; [done|by left]|]. intros a b c [H1 H2] [H3 H4].
  split; [by etransitivity|]. destruct H2 as [E|[E1 E2]], H4 as [E'|[E3 E4]].
  - left. congruence. - right. by rewrite <- E. - right. by rewrite E'.
  - rewrite E3, !elem_of_cons, elem_of_nil in E2. intuition discriminate.
Qed.

Definition observation_owner (d : Db) (o : DepositObservation) : option pk :=
  a ← wallet_addresses d !! obs_wallet_address o;
  i ← wallet_identities d !! wa_wallet_identity a;
  Some (wid_account i).

(** Rows of the same transfer. *)
Definition same_transfer (o o' : DepositObservation) : Prop :=
  obs_chain o = obs_chain o' ∧ obs_tx_hash o = obs_tx_hash o' ∧
  obs_log_index o = obs_log_index o'.

Inductive wallet_step (d d' : Db) : Prop :=
  | deposit_observed (k : pk) (o : DepositObservation) :
      observations d !! k = None → obs_id o = k →
      obs_status o = PENDING_CONFIRMATION →
      obs_chain o = POLYGON → no_colon (obs_tx_hash o) →
      (∀ k' o', observations d !! k' = Some o' → ¬ same_transfer o' o) →
      d' = put observations k o d → wallet_step d d'
  | deposit_settled (k : pk) (o o' : DepositObservation) :
      observations d !! k = Some o → obs_settles o o' →
      d' = put observations k o' d → wallet_step d d'
  | deposit_converted (k account : pk) (o o' : DepositObservation) (en : CreditLedgerEntry) d1 :
      observations d !! k = Some o → obs_status o = CONFIRMED → obs_shadow_only o = false →
      observation_owner d o = Some account →
      applied account (obs_amount o) DEPOSIT (str (obs_id o)) (observation_idempotency_key o)
        d d1 en →
      same_core o o' → obs_status o' = CREDITED →
      d' = put observations k o' d1 → wallet_step d d'.

(** ** The invariant *)

(** The ledger entry an observation was converted into. *)
Definition credited_by (d : Db) (o : DepositObservation) : Prop :=
  obs_shadow_only o = false ∧
  ∃ en, find_entry (observation_idempotency_key o) (ledger d) = Some en ∧
    le_delta en = obs_amount o ∧ observation_owner d o = Some (le_account en).

Record wallet_inv (d : Db) : Prop := {
  wi_row : ∀ k o, observations d !! k = Some o →
    obs_id o = k ∧ at_rest (obs_status o) ∧ obs_chain o = POLYGON ∧ no_colon (obs_tx_hash o);
  wi_unique : ∀ k k' o o', observations d !! k = Some o → observations d !! k' = Some o' →
    same_transfer o o' → k = k';
  wi_credited : ∀ k o, observations d !! k = Some o → obs_status o = CREDITED → credited_by d o;
  wi_entries : ∀ en, en ∈ ledger d → startswith "wallet-obs:" (le_idempotency_key en) = true →
    ∃ k o, observations d !! k = Some o ∧ obs_status o = CREDITED ∧
      observation_idempotency_key o = le_idempotency_key en;
}.

Lemma key_wallet chain tx i : startswith "wallet-obs:" (identity_key chain tx i) = true.
Proof. unfold identity_key, startswith. simpl. by destruct (_ +:+ _). Qed.

Lemma key_nonempty o : observation_idempotency_key o ≠ "".
Proof. done. Qed.

(** The key determines the transfer. *)
Lemma key_inj o o' :
  obs_chain o = POLYGON → obs_chain o' = POLYGON →
  no_colon (obs_tx_hash o) → no_colon (obs_tx_hash o') →
  observation_idempotency_key o = observation_idempotency_key o' → same_transfer o o'.
Proof.
  unfold observation_idempotency_key, identity_key, same_transfer. intros -> -> H1 H2 E.
  injection E as E. apply colon_split in E as [Ht Hi]; [|done..].
  apply (inj pretty) in Hi. done.
Qed.

Lemma key_same_transfer o o' :
  same_transfer o o' → observation_idempotency_key o = observation_idempotency_key o'.
Proof. unfold observation_idempotency_key. by intros (-> & -> & ->). Qed.

Lemma core_transfer o o' : same_core o o' → same_transfer o o'.
Proof. unfold same_core, same_transfer. intuition congruence. Qed.

Lemma core_key o o' :
  same_core o o' → observation_idempotency_key o' = observation_idempotency_key o.
Proof. intros H. symmetry. by apply key_same_transfer, core_transfer. Qed.

Lemma core_owner d o o' : same_core o o' → observation_owner d o' = observation_owner d o.
Proof. unfold observation_owner. by intros (_ & -> & _). Qed.

(** An uncredited transfer has no entry. *)
Lemma uncredited_unfiled d o :
  wallet_inv d → obs_chain o = POLYGON → no_colon (obs_tx_hash o) →
  (∀ k o', observations d !! k = Some o' → same_transfer o' o → obs_status o' ≠ CREDITED) →
  find_entry (observation_idempotency_key o) (ledger d) = None.
Proof.
  intros Hinv Hc Ht Hno. destruct (find_entry _ _) as [en|] eqn:E; [|done]. exfalso.
  apply find_entry_Some in E as [Hin Hk].
  destruct (wi_entries d Hinv en Hin) as (k & o' & Ho & Hs & Hk'); [rewrite Hk; apply key_wallet|].
  destruct (wi_row d Hinv k o' Ho) as (_ & _ & Hc' & Ht').
  apply (Hno k o' Ho); [|done]. apply key_inj; congruence.
Qed.

(** ** The specification keeps the invariant *)

Lemma settled_rest o o' : obs_settles o o' → at_rest (obs_status o) → at_rest (obs_status o').
Proof.
  intros [_ [-> |[_ H]]] Hr; [done|].
  rewrite !elem_of_cons, elem_of_nil in H. destruct H as [-> |[-> |[-> |[]]]]; done.
Qed.

Lemma settled_credited o o' :
  obs_settles o o' → obs_status o' = CREDITED ↔ obs_status o = CREDITED.
Proof.
  intros [_ [-> |[-> H]]]; [done|]. split; intros E; [|done].
  rewrite E, !elem_of_cons, elem_of_nil in H. intuition discriminate.
Qed.

(** [wi_unique] when row [k] is replaced by one of the same transfer. *)
Lemma unique_put (m : gmap pk DepositObservation) k o o' :
  (∀ k k' o o', m !! k = Some o → m !! k' = Some o' → same_transfer o o' → k = k') →
  m !! k = Some o → same_transfer o o' →
  ∀ k1 k2 o1 o2, <[k:=o']> m !! k1 = Some o1 → <[k:=o']> m !! k2 = Some o2 →
    same_transfer o1 o2 → k1 = k2.
Proof.
  intros Hu Hk (E1 & E2 & E3) k1 k2 o1 o2.
  rewrite !lookup_insert_Some. intros [[<- <-]|[N1 H1]] [[<- <-]|[N2 H2]] (F1 & F2 & F3);
    [done|..]; unfold same_transfer in *.
  - apply (Hu k k2 o o2); [done..|]. split_and!; congruence.
  - apply (Hu k1 k o1 o); [done..|]. split_and!; congruence.
  - by apply (Hu k1 k2 o1 o2).
Qed.

Lemma credited_by_mono d d' o o' :
  same_core o o' → ledger_grows d d' →
  wallet_addresses d' = wallet_addresses d → wallet_identities d' = wallet_identities d →
  credited_by d o → credited_by d' o'.
Proof.
  intros Hc [l Hl] Ha Hi (Hs & en & Hf & Hd & Ho).
  split; [destruct Hc; destruct_and?; congruence|]. exists en.
  rewrite (core_key _ _ Hc), Hl. split_and!; [by apply find_entry_app_l| |].
  - destruct Hc; destruct_and?; congruence.
  - unfold observation_owner. rewrite Ha, Hi. destruct Hc as (_ & -> & _). done.
Qed.

Lemma wallet_inv_observed d k o :
  wallet_inv d → observations d !! k = None → obs_id o = k →
  obs_status o = PENDING_CONFIRMATION →
  obs_chain o = POLYGON → no_colon (obs_tx_hash o) →
  (∀ k' o', observations d !! k' = Some o' → ¬ same_transfer o' o) →
  wallet_inv (put observations k o d).
Proof.
  intros Hinv Hk Hid Hs Hc Ht Hnew. split; simpl.
  - intros k1 o1 [[<- <-]|[_ H1]]%lookup_insert_Some; [|by apply (wi_row d Hinv)].
    split_and!; [done| |done..]. by rewrite Hs.
  - intros k1 k2 o1 o2. rewrite !lookup_insert_Some.
    intros [[<- <-]|[N1 H1]] [[<- <-]|[N2 H2]] Hst; [done|..].
    + destruct (Hnew k2 o2 H2). unfold same_transfer in *. intuition congruence.
    + by destruct (Hnew k1 o1 H1).
    + by apply (wi_unique d Hinv k1 k2 o1 o2).
  - intros k1 o1 [[<- <-]|[_ H1]]%lookup_insert_Some E; [congruence|].
    by apply (wi_credited d Hinv k1).
  - intros en Hin Hen. destruct (wi_entries d Hinv en Hin Hen) as (k1 & o1 & H1 & ?).
    exists k1, o1. rewrite lookup_insert_ne by congruence. done.
Qed.

(** Replacing a row by one of the same transfer, the ledger having grown only
    by the entries of newly credited rows. *)
Lemma wallet_inv_replaced d d1 k o o' :
  wallet_inv d → observations d !! k = Some o → same_core o o' → at_rest (obs_status o') →
  observations d1 = observations d → ledger_grows d d1 →
  wallet_addresses d1 = wallet_addresses d → wallet_identities d1 = wallet_identities d →
  (obs_status o' = CREDITED → credited_by d1 o') →
  (obs_status o = CREDITED → obs_status o' = CREDITED) →
  (∀ en, en ∈ ledger d1 → en ∈ ledger d ∨
     obs_status o' = CREDITED ∧ le_idempotency_key en = observation_idempotency_key o) →
  wallet_inv (put observations k o' d1).
Proof.
  intros Hinv Hk Hc Hr Hobs Hg Ha Hi Hcr Hst Hen.
  pose proof (wi_row d Hinv k o Hk) as (Hid & _ & Hch & Ht). split; simpl; rewrite Hobs.
  - intros k1 o1 [[<- <-]|[_ H1]]%lookup_insert_Some; [|by apply (wi_row d Hinv)].
    unfold same_core in Hc. destruct_and?. split_and!; congruence || done.
  - apply (unique_put _ k o); [apply Hinv|done|by apply core_transfer].
  - intros k1 o1 [[<- <-]|[_ H1]]%lookup_insert_Some E.
    + apply (credited_by_mono d1 _ o' o'); [reflexivity|by exists []; rewrite app_nil_r|done..|auto].
    + apply (credited_by_mono d _ o1 o1); [reflexivity|done..|by apply (wi_credited d Hinv k1)].
  - intros en Hin Hw. destruct (Hen en Hin) as [Hin'|[E Ek]].
    + destruct (wi_entries d Hinv en Hin' Hw) as (k1 & o1 & H1 & E1 & Ek).
      destruct (decide (k1 = k)) as [->|Hne].
      * exists k, o'. rewrite lookup_insert_eq, (core_key o o') by done.
        simplify_eq. split_and!; auto.
      * exists k1, o1. by rewrite lookup_insert_ne.
    + exists k, o'. rewrite lookup_insert_eq, (core_key o o') by done. done.
Qed.

Lemma applied_entries account delta t rid key d d' en :
  applied account delta t rid key d d' en →
  ∀ en', en' ∈ ledger d' → en' ∈ ledger d ∨ le_idempotency_key en' = key.
Proof.
  intros [? ->|]; [by left|]. subst. intros en'. simpl.
  rewrite elem_of_app, list_elem_of_singleton. intros [?| ->]; [by left|by right].
Qed.

Lemma wallet_step_inv d d' : wallet_step d d' → wallet_inv d → wallet_inv d'.
Proof.
  intros [k o Hk Hid Hs Hc Ht Hnew ->|k o o' Hk Hset ->
    |k account o o' en d1 Hk Hs Hsh Ho Happ Hc Hs' ->] Hinv.
  - by apply wallet_inv_observed.
  - apply (wallet_inv_replaced d d k o o'); [done|done|apply Hset| |done| |done|done| | |by left].
    + apply (settled_rest o o' Hset). by apply (wi_row d Hinv k o).
    + reflexivity.
    + intros E%(settled_credited _ _ Hset). apply (credited_by_mono d d o);
        [apply Hset|reflexivity|done..|by apply (wi_credited d Hinv k)].
    + by apply (settled_credited _ _ Hset).
  - pose proof (applied_only_money _ _ _ _ _ _ _ _ Happ) as Hom.
    pose proof (wi_row d Hinv k o Hk) as (_ & _ & Hch & Ht).
    apply (wallet_inv_replaced d d1 k o o'); [done|done|done| | | | | | | |]; try by rewrite Hom.
    + by rewrite Hs'.
    + by eapply applied_prefix.
    + intros _. split; [destruct Hc; destruct_and?; congruence|]. exists en.
      pose proof (core_key _ _ Hc) as ->. split_and!; [by eapply applied_filed| |].
      * destruct Happ as [Hf|]; [|unfold same_core in Hc; destruct_and?; congruence].
        exfalso. rewrite uncredited_unfiled in Hf; [done|done..|].
        intros k1 o1 H1 Hst. assert (k1 = k) as -> by (by apply (wi_unique d Hinv k1 k o1 o)).
        congruence.
      * rewrite (core_owner _ _ _ Hc). rewrite Hom. unfold observation_owner in *. simpl.
        destruct Happ as [Hf|]; [|congruence].
        exfalso. rewrite uncredited_unfiled in Hf; [done|done..|].
        intros k1 o1 H1 Hst. assert (k1 = k) as -> by (by apply (wi_unique d Hinv k1 k o1 o)).
        congruence.
    + congruence.
    + intros en' Hin. destruct (applied_entries _ _ _ _ _ _ _ _ Happ en' Hin); auto.
Qed.

(** ** The operations implement the specification *)

Lemma put_observation_same k o d : observations d !! k = Some o → put observations k o d = d.
Proof. intros H. unfold put, update. destruct d; cbn in *. by rewrite insert_id. Qed.

Lemma put_put_observation k o o' d :
  put observations k o' (put observations k o d) = put observations k o' d.
Proof. unfold put, update. cbn. f_equal. apply insert_insert_eq. Qed.

(** [m] started on the row [o] obs_settles it, however it ends. *)
Definition settling (o : DepositObservation) (m : M DepositObservation) : Prop :=
  ∀ e w r w', observations (db w) !! obs_id o = Some o → m e w = (r, w') →
    ∃ o', obs_settles o o' ∧ db w' = put observations (obs_id o) o' (db w) ∧
      ∀ p, r = Ok p → p = o'.

Section Settling.
Context (o : DepositObservation).

Lemma settling_same w w' :
  observations (db w) !! obs_id o = Some o → db w' = db w →
  ∃ o', obs_settles o o' ∧ db w' = put observations (obs_id o) o' (db w) ∧ o' = o.
Proof.
  intros Hk Hd. exists o. rewrite put_observation_same by done. split_and!; [reflexivity|done..].
Qed.

Lemma settling_ret : settling o (ret o).
Proof.
  intros e w r w' Hk [= <- <-]. edestruct (settling_same w w) as (o' & ? & ? & ->); [done..|].
  exists o. split_and!; [done..|]. by intros p [= <-].
Qed.

Lemma settling_raise x : settling o (raise x).
Proof.
  intros e w r w' Hk [= <- <-]. edestruct (settling_same w w) as (o' & ? & ? & ->); [done..|].
  exists o. by split_and!.
Qed.

Lemma settling_read {A} (m : M A) k :
  respects eq m → (∀ a, settling o (k a)) → settling o (bind m k).
Proof.
  intros Hm Hk e w r w' Ho. unfold bind. destruct (m e w) as [[a|x] w1] eqn:E; apply Hm in E.
  - intros H. destruct (Hk a e w1 r w') as (o' & ? & Hd & ?); [by rewrite <- E|done|].
    exists o'. by rewrite E.
  - intros [= <- <-]. destruct (settling_same w w1) as (o' & ? & ? & ->); [done..|].
    exists o. by split_and!.
Qed.

Lemma settling_save f :
  obs_settles o (f o) → settling o (save_observation o f).
Proof.
  intros Hf e w r w' Hk. unfold save_observation, bind.
  destruct (save_fields _ _ _ _ e w) as [[u|x] w1] eqn:E.
  - apply save_fields_Ok in E as (_ & v & Hv & _ & ->). simplify_eq. intros [= <- <-].
    exists (f o). split_and!; [done..|]. by intros p [= <-].
  - intros [= <- <-]. apply write_Raise in E.
    destruct (settling_same w w1) as (o' & ? & ? & ->); [done..|]. exists o. by split_and!.
Qed.

Lemma settling_bind m k :
  settling o m → (∀ o', obs_settles o o' → settling o' (k o')) → settling o (bind m k).
Proof.
  intros Hm Hk e w r w' Ho. unfold bind. destruct (m e w) as [[a|x] w1] eqn:E;
    destruct (Hm _ _ _ _ Ho E) as (o1 & Hs & Hd & Hp); [|intros [= <- <-]; by exists o1].
  rewrite (Hp a eq_refl). intros H.
  assert (Hid : obs_id o1 = obs_id o) by apply Hs.
  destruct (Hk o1 Hs e w1 r w') as (o2 & Hs2 & Hd2 & Hp2); [|done|].
  - rewrite Hd, Hid. simpl. by rewrite lookup_insert_eq.
  - exists o2. split_and!; [by etransitivity| |done]. rewrite Hd2, Hd, Hid.
    apply put_put_observation.
Qed.
End Settling.

Lemma terminal_not_pending s : terminal s = false → at_rest s → s = PENDING_CONFIRMATION.
Proof. destruct s; by intros ? []. Qed.

Lemma reads_evaluate o : respects eq (evaluate o).
Proof. unfold evaluate, accepted_token_contract, min_confirmations. solve_respects. Qed.
#[local] Hint Resolve reads_evaluate : effects.

Lemma settles_same o o' : same_core o o' → obs_status o' = obs_status o → obs_settles o o'.
Proof. by split; [|left]. Qed.
Lemma settles_to o o' :
  same_core o o' → obs_status o = PENDING_CONFIRMATION →
  obs_status o' ∈ [CONFIRMED; REJECTED; EXPIRED] → obs_settles o o'.
Proof. by split; [|right]. Qed.

Lemma settling_policy o : at_rest (obs_status o) → settling o (_apply_policy o).
Proof.
  intros Hr. unfold _apply_policy. destruct (terminal (obs_status o)) eqn:E; [apply settling_ret|].
  apply terminal_not_pending in E; [|done].
  apply settling_read; [apply reads_evaluate|]. intros [reason|reason|].
  - rewrite bool_decide_true by done. by apply settling_save, settles_same.
  - apply settling_read; [apply respects_now; apply _|]. intros t.
    apply settling_save, settles_to; [done..|]. simpl. set_solver.
  - apply settling_read; [apply respects_now; apply _|]. intros t.
    apply settling_save, settles_to; [done..|]. simpl. set_solver.
Qed.

Lemma settling_refresh o n : at_rest (obs_status o) → settling o (_refresh_locked o n).
Proof.
  intros Hr. unfold _refresh_locked. case_match; [apply settling_ret|].
  apply settling_bind.
  { case_match; [by apply settling_save, settles_same|apply settling_ret]. }
  intros o1 Hs. pose proof (settled_rest _ _ Hs Hr) as Hr1. apply settling_bind.
  { rewrite bool_decide_false by apply Hr1. apply settling_ret. }
  intros o2 Hs2. apply settling_policy. by eapply settled_rest.
Qed.

(** [m] only takes steps of the specification. *)
Definition wallet_moves : relation Db := λ d d', wallet_inv d → rtc wallet_step d d'.

Lemma wallet_steps_inv d d' : rtc wallet_step d d' → wallet_inv d → wallet_inv d'.
Proof. induction 1; [done|]. intros. eauto using wallet_step_inv. Qed.

#[export] Instance wallet_moves_preorder : PreOrder wallet_moves.
Proof.
  split; [by intros d _|]. intros d1 d2 d3 H1 H2 Hinv.
  etransitivity; [by apply H1|]. apply H2. eapply wallet_steps_inv; eauto.
Qed.

(** A row read from the table and settled from there. *)
Lemma moves_settling o m e w r w' :
  observations (db w) !! obs_id o = Some o → settling o m → m e w = (r, w') →
  rtc wallet_step (db w) (db w').
Proof.
  intros Hk Hm H. destruct (Hm _ _ _ _ Hk H) as (o' & Hs & Hd & _).
  apply rtc_once. by eapply deposit_settled.
Qed.

Lemma moves_locked id k :
  (∀ o, at_rest (obs_status o) → settling o (k o)) →
  respects wallet_moves (bind (get_locked observations id) k).
Proof.
  intros Hk e w r w' H Hinv. unfold bind in H.
  destruct (get_locked observations id e w) as [[o|x] w1] eqn:E.
  - apply get_locked_Ok in E as (_ & Ho & ->).
    destruct (wi_row _ Hinv _ _ Ho) as (Hid & Hr & _). rewrite <- Hid in Ho.
    by eapply moves_settling, H; auto.
  - apply (respects_get_locked eq) in E. simplify_eq. by rewrite E.
Qed.

Lemma find_observation_Some chain tx i d o :
  wallet_inv d → find_observation chain tx i d = Some o →
  observations d !! obs_id o = Some o ∧ at_rest (obs_status o) ∧
  obs_chain o = chain ∧ obs_tx_hash o = tx ∧ obs_log_index o = i.
Proof.
  intros Hinv (k & Hk & Hs)%qfirst_Some. unfold same_identity in Hs. bool_to_prop.
  destruct (wi_row d Hinv k o Hk) as (<- & Hr & _). done.
Qed.

Lemma policy_chain o e w p w' :
  obs_status o = PENDING_CONFIRMATION → _apply_policy o e w = (Ok p, w') → obs_chain o = POLYGON.
Proof.
  intros Hs H. unfold _apply_policy, evaluate, accepted_token_contract in H.
  rewrite Hs in H. simpl in H. apply bind_Ok in H as (res & w1 & H & _).
  apply bind_Ok in H as (c & w2 & H & _). case_bool_decide; done.
Qed.

Lemma verdict_new d o k :
  wallet_inv d → observations d !! obs_id o = None → observation_verdict d o = None →
  ∀ o', observations d !! k = Some o' → ¬ same_transfer o' o.
Proof.
  intros Hinv Hk Hv o' Ho' (E1 & E2 & E3). unfold observation_verdict in Hv. split_cases.
  rewrite qexists_false in H1. specialize (H1 k o' Ho').
  unfold same_identity in H1. rewrite E1, E2, E3, !bool_decide_true, Z.eqb_refl in H1 by done.
  simpl in H1. bool_to_prop. destruct (wi_row d Hinv k o' Ho') as (Hid & _). congruence.
Qed.

(** What a returning save did. *)
Lemma save_observation_Ok o f e w p w' :
  save_observation o f e w = (Ok p, w') →
  p = f o ∧ ∃ v, observations (db w) !! obs_id o = Some v ∧
    db w' = put observations (obs_id o) (f v) (db w) ∧ aborted w' = false ∧
    depth w' = depth w ∧ events w' = events w ∧ tick w' = tick w ∧ next_uuid w' = next_uuid w.
Proof.
  unfold save_observation. intros H. inv_run H. split; [done|]. eauto 10.
Qed.

Lemma mark_pending_Ok o e w p w' :
  observations (db w) !! obs_id o = Some o → mark_pending o e w = (Ok p, w') →
  same_core o p ∧ obs_status p = PENDING_CONFIRMATION ∧
  db w' = put observations (obs_id o) p (db w).
Proof.
  intros Hk H. unfold mark_pending in H. apply bind_Ok in H as (t & w1 & [= <- <-] & H).
  apply save_observation_Ok in H as (-> & v & Hv & Hd & _). simpl in *. simplify_eq. done.
Qed.

Lemma policy_pending o e w p w' :
  obs_status o = PENDING_CONFIRMATION → observations (db w) !! obs_id o = Some o →
  _apply_policy o e w = (Ok p, w') →
  obs_settles o p ∧ db w' = put observations (obs_id o) p (db w) ∧ obs_chain o = POLYGON.
Proof.
  intros Hs Hk H. pose proof (policy_chain _ _ _ _ _ Hs H) as Hc.
  assert (Hr : at_rest (obs_status o)) by by rewrite Hs.
  destruct (settling_policy o Hr _ _ _ _ Hk H) as (o' & Hset & Hd & Hp).
  by rewrite (Hp p eq_refl).
Qed.

(** A new row: observed, marked pending, settled. *)
Lemma ingest_new wa chain tx token from signal shadow e w p w' :
  _ingest_once wa chain tx token from signal shadow e w = (Ok p, w') →
  find_observation chain tx (sig_log_index signal) (db w) = None →
  wallet_inv (db w) → no_colon tx →
  ∃ o, observations (db w) !! obs_id o = None ∧ obs_status o = PENDING_CONFIRMATION ∧
    obs_tx_hash o = tx ∧
    wallet_step (db w) (put observations (obs_id o) o (db w)) ∧
    obs_settles o p ∧ db w' = put observations (obs_id o) p (db w).
Proof.
  unfold _ingest_once. intros H Hf Hinv Ht.
  apply bind_Ok in H as (ex & w1 & (_ & -> & ->)%locked_query_Ok & H). rewrite Hf in H.
  apply bind_Ok in H as (id & w1 & [= <- <-] & H).
  apply bind_Ok in H as (t & w1 & [= <- <-] & H).
  apply bind_Ok in H as (u & w1 & (_ & Hk & Hv & ->)%create_Ok & H).
  set (o := mkObservation _ _ _ _ _ _ _ _ _ _ _ _ _ _ _ _ _ _ _ _) in *. simpl in Hk, Hv.
  apply bind_Ok in H as (o1 & w1 & H1 & H).
  apply mark_pending_Ok in H1 as (Hc & Hs & Hd); [|apply lookup_insert_eq].
  simpl in Hd. rewrite put_put_observation in Hd.
  assert (Hid : obs_id o1 = obs_id o) by apply Hc.
  apply policy_pending in H as (Hset & Hd' & Hch); [|done|rewrite Hid, Hd; apply lookup_insert_eq].
  exists o1. rewrite Hid. split_and!; [done|done|by destruct Hc as (_ & _ & _ & -> & _)| |done|].
  - apply (deposit_observed _ _ (obs_id o) o1); try done.
    + destruct Hc as (_ & _ & _ & -> & _). done.
    + intros k o' Ho' Hst. apply (verdict_new _ o k Hinv Hk Hv o' Ho').
      apply core_transfer in Hc. unfold same_transfer in *. intuition congruence.
  - rewrite Hd', Hd, Hid. apply put_put_observation.
Qed.

Lemma moves_ingest_once wa chain tx token from signal shadow :
  no_colon tx →
  respects wallet_moves (atomic (_ingest_once wa chain tx token from signal shadow)).
Proof.
  intros Ht. apply respects_atomic_Ok; [apply _|]. intros e w p w' H Hinv.
  destruct (find_observation chain tx (sig_log_index signal) (db w)) as [o|] eqn:Hf.
  - pose proof (find_observation_Some _ _ _ _ _ Hinv Hf) as (Hk & Hr & _).
    unfold _ingest_once in H.
    apply bind_Ok in H as (ex & w1 & (_ & -> & ->)%locked_query_Ok & H). rewrite Hf in H.
    by eapply moves_settling, H; [|apply settling_refresh].
  - destruct (ingest_new _ _ _ _ _ _ _ _ _ _ _ H Hf Hinv Ht) as (o & Hk & _ & _ & Hstep & Hset & Hd).
    eapply rtc_l; [exact Hstep|]. apply rtc_once.
    eapply (deposit_settled _ _ (obs_id o) o p); [apply lookup_insert_eq|done|].
    by rewrite Hd, put_put_observation.
Qed.

Lemma moves_found_observation chain tx i n :
  respects wallet_moves
    (let! existing := query (find_observation chain tx i) in
     let! existing := found existing in
     _refresh_locked existing n).
Proof.
  intros e w r w' H Hinv. rewrite bind_run in H. unfold query in H.
  destruct (aborted w); [by injection H as _ <-|].
  destruct (find_observation chain tx i (db w)) as [o|] eqn:Hf; [|by injection H as _ <-].
  apply find_observation_Some in Hf as (Hk & Hr & _); [|done].
  by eapply moves_settling, H; [|apply settling_refresh].
Qed.

Lemma respects_lift_bind R `{!PreOrder R} {A B} (r : Res A) (k : A → M B) :
  (∀ a, r = Ok a → respects R (k a)) → respects R (bind (lift r) k).
Proof.
  intros Hk. destruct r as [a|x]; [exact (Hk a eq_refl)|].
  intros e w r w' [= <- <-]. reflexivity.
Qed.

Lemma moves_ingest signal shadow : respects wallet_moves (ingest signal shadow).
Proof.
  unfold ingest. apply respects_lift_bind; [apply _|]. intros tx Htx.
  assert (Ht : no_colon tx).
  { unfold normalize_tx_hash in Htx. case_match eqn:E; simplify_eq. by eapply tx_hash_no_colon. }
  apply respects_bind; [apply _|by apply respects_query; apply _|intros [wa|]].
  - apply respects_retry_else; [apply _|by apply moves_ingest_once|apply moves_found_observation].
  - by apply respects_raise; apply _.
Qed.

Lemma moves_advance id : respects wallet_moves (advance_confirmation id).
Proof. apply respects_atomic; [apply _|]. apply moves_locked, settling_policy. Qed.

Lemma moves_expire id : respects wallet_moves (expire id).
Proof.
  apply respects_atomic; [apply _|]. apply moves_locked. intros o Hr.
  destruct (terminal (obs_status o)) eqn:E.
  - case_bool_decide; [apply settling_ret|apply settling_raise].
  - apply terminal_not_pending in E; [|done].
    apply settling_read; [apply respects_now; apply _|]. intros t.
    apply settling_save, settles_to; [done..|]. simpl. set_solver.
Qed.

(** ** Conversion implements its step *)

Lemma observation_account_Ok o e w account w' :
  observation_account o e w = (Ok account, w') →
  observation_owner (db w) o = Some account ∧ w' = w.
Proof.
  unfold observation_account, observation_owner. intros H.
  apply bind_Ok in H as (a & w1 & (_ & Ha & ->)%get_Ok & H).
  apply bind_Ok in H as (i & w1 & (_ & Hi & ->)%get_Ok & [-> ->]%ret_Ok).
  rewrite Ha. simpl. by rewrite Hi.
Qed.

(** The entry of an observation does not depend on the observation rows. *)
Lemma applied_put_observation account delta t rid key k o d d1 en :
  applied account delta t rid key (put observations k o d) d1 en →
  ∃ d2, applied account delta t rid key d d2 en ∧ d1 = put observations k o d2.
Proof.
  intros [Hf ->|a a' Ha Hf Hd H0 Eacc Edelta Ebal Et Erid Ekey -> Hv ->].
  - exists d. split; [by apply applied_replay|done].
  - eexists. split; [by eapply applied_new|]. by destruct d.
Qed.

Lemma finish_Ok o e w en w' d :
  obs_status o ≠ CREDITED → db w = put observations (obs_id o) o d →
  _credit_and_finish o e w = (Ok en, w') →
  ∃ account d1 o', observation_owner d o = Some account ∧
    applied account (obs_amount o) DEPOSIT (str (obs_id o)) (observation_idempotency_key o)
      d d1 en ∧
    same_core o o' ∧ obs_status o' = CREDITED ∧ db w' = put observations (obs_id o) o' d1.
Proof.
  unfold _credit_and_finish. intros Hs Hd H.
  apply bind_Ok in H as (account & w1 & Ho & H). apply observation_account_Ok in Ho as [Ho ->].
  apply bind_Ok in H as (en1 & w1 & Hc & H).
  apply apply_money in Hc as (Happ & _ & _). rewrite Hd in Happ. simpl in Happ.
  apply applied_put_observation in Happ as (d1 & Happ & Hd1).
  rewrite bool_decide_false in H by done. simpl in H.
  apply bind_Ok in H as (u & w2 & H & [-> ->]%ret_Ok).
  apply bind_Ok in H as (t & w3 & [= <- <-] & H).
  apply bind_Ok in H as (o' & w4 & H & [-> ->]%ret_Ok).
  apply save_observation_Ok in H as (-> & v & Hv & Hd' & _). simpl in Hv, Hd'.
  rewrite Hd1 in Hv. simpl in Hv. rewrite lookup_insert_eq in Hv. injection Hv as <-.
  exists account, d1. eexists.
  split_and!; [|exact Happ| | |rewrite Hd', Hd1; apply put_put_observation]; [|done..].
  by rewrite Hd in Ho.
Qed.

Lemma convert_alive id e w en w' : convert id e w = (Ok en, w') → aborted w = false.
Proof.
  intros H. unfold convert in H. apply atomic_Ok in H as (w1 & H & _).
  by apply bind_Ok in H as (o & w2 & (Ha & _)%get_locked_Ok & _).
Qed.

(** What a returning conversion did: a replay, or the conversion step. *)
Lemma convert_Ok id e w en w' :
  wallet_inv (db w) → convert id e w = (Ok en, w') →
  ∃ o, observations (db w) !! id = Some o ∧
    (obs_status o = CREDITED ∧ db w' = db w ∧
       find_entry (observation_idempotency_key o) (ledger (db w)) = Some en ∨
     obs_status o = CONFIRMED ∧ obs_shadow_only o = false ∧
     ∃ account d1 o', observation_owner (db w) o = Some account ∧
       applied account (obs_amount o) DEPOSIT (str id) (observation_idempotency_key o)
         (db w) d1 en ∧
       same_core o o' ∧ obs_status o' = CREDITED ∧ db w' = put observations id o' d1).
Proof.
  intros Hinv H. pose proof (convert_alive _ _ _ _ _ H) as Hw.
  unfold convert in H. apply atomic_clean_Ok in H as (w1 & H & ->); [| |done].
  2:{ unfold _credit_and_finish, save_observation, observation_account. solve_clean. }
  apply bind_Ok in H as (o & w2 & (_ & Ho & ->)%get_locked_Ok & H). simpl in Ho.
  destruct (wi_row _ Hinv _ _ Ho) as (Hid & [_ Hr] & _).
  exists o. split; [done|]. case_bool_decide as Hs.
  - left. inv_run H. done.
  - right. apply bind_Ok in H as (u & w2 & [Hsh ->]%raise_if_Ok & H).
    rewrite bool_decide_false in H by done.
    apply bind_Ok in H as (u' & w2 & [Hc ->]%raise_if_Ok & H). bool_to_prop.
    apply bind_Ok in H as (t & w2 & [= <- <-] & H).
    apply bind_Ok in H as (o1 & w2 & H1 & H).
    apply save_observation_Ok in H1 as (-> & v & Hv & Hd & _). simpl in Hv, Hd.
    rewrite Hid in Hv. simplify_eq.
    apply (finish_Ok _ _ _ _ _ (db w)) in H as (account & d1 & o' & Hacc & Happ & Hcore & Hs' & Hd');
      [|done|exact Hd].
    split_and!; [done|done|]. exists account, d1, o'. split_and!; [done|done|exact Hcore|done|exact Hd'].
Qed.

Lemma moves_convert id : respects wallet_moves (convert id).
Proof.
  intros e w [en|x] w' H Hinv; [|unfold convert in H; by apply atomic_Raise in H as [-> _]].
  apply convert_Ok in H as (o & Ho & [(_ & -> & _)|(Hs & Hsh & account & d1 & o' & Hacc & Happ & Hc & Hs' & Hd)]);
    [done| |done..].
  destruct (wi_row _ Hinv _ _ Ho) as (Hid & _).
  apply rtc_once. eapply deposit_converted; try done. by rewrite Hid.
Qed.

#[export] Hint Resolve moves_ingest moves_advance moves_expire moves_convert : effects.

Lemma moves_resume apply_ limit : respects wallet_moves (resume_converts apply_ limit).
Proof.
  unfold resume_converts, resume_one, should_use_credit_conversion_v2, is_in_cutover_cohort,
    observation_account.
  solve_respects.
Qed.

(** ** Totals *)

Definition credited_amount (o : DepositObservation) : money :=
  if bool_decide (obs_status o = CREDITED) then obs_amount o else 0.

(** What the ledger credited for deposits observed on chain. *)
Definition wallet_credits (l : list CreditLedgerEntry) : money :=
  sumZ (le_delta <$> List.filter (λ en, startswith "wallet-obs:" (le_idempotency_key en)) l).

(** It is what was deposited. *)
Definition deposits_balanced (d : Db) : Prop :=
  wallet_credits (ledger d) = sum_rows credited_amount (observations d).

Lemma wallet_credits_snoc l en :
  wallet_credits (l ++ [en]) = wallet_credits l +
    if startswith "wallet-obs:" (le_idempotency_key en) then le_delta en else 0.
Proof.
  unfold wallet_credits. rewrite List.filter_app, fmap_app, sumZ_app. simpl.
  case_match; simpl; lia.
Qed.

Lemma wallet_step_balanced d d' :
  wallet_step d d' → wallet_inv d → deposits_balanced d → deposits_balanced d'.
Proof.
  unfold deposits_balanced.
  intros [k o Hk _ Hs _ _ _ ->|k o o' Hk Hset ->|k account o o' en d1 Hk Hs _ _ Happ Hc Hs' ->]
    Hinv Hb; simpl.
  - rewrite sum_rows_insert_fresh by done. unfold credited_amount at 1.
    rewrite bool_decide_false by by rewrite Hs. lia.
  - rewrite (sum_rows_insert_old _ _ _ _ o) by done. unfold credited_amount at 2 3.
    rewrite (bool_decide_ext _ _ (settled_credited _ _ Hset)).
    destruct Hset as [(_ & _ & _ & _ & _ & -> & _) _]. case_match; lia.
  - destruct (wi_row d Hinv k o Hk) as (_ & _ & Hch & Ht).
    destruct Happ as [Hf|a a' Ha Hf Hd H0 _ Ed _ _ _ Ek _ _ ->].
    { rewrite uncredited_unfiled in Hf; [done|done..|]. intros k1 o1 H1 Hst.
      assert (k1 = k) as -> by (by apply (wi_unique d Hinv k1 k o1 o)). congruence. }
    simpl. rewrite wallet_credits_snoc, Ek.
    unfold observation_idempotency_key at 1. rewrite key_wallet.
    rewrite (sum_rows_insert_old _ _ _ _ o) by done. unfold credited_amount at 2 3.
    rewrite Hs, Hs', !bool_decide_true, bool_decide_false by done.
    destruct Hc as (_ & _ & _ & _ & _ & -> & _). lia.
Qed.

Lemma wallet_steps_balanced d d' :
  rtc wallet_step d d' → wallet_inv d → deposits_balanced d → deposits_balanced d'.
Proof. induction 1; [done|]. eauto using wallet_step_inv, wallet_step_balanced. Qed.

(** ** Other credits and debits *)

Lemma wallet_inv_applied account delta t rid key d d' en :
  startswith "wallet-obs:" key = false →
  applied account delta t rid key d d' en → wallet_inv d → wallet_inv d'.
Proof.
  intros Hkey Happ Hinv. pose proof (applied_only_money _ _ _ _ _ _ _ _ Happ) as Hom.
  pose proof (applied_prefix _ _ _ _ _ _ _ _ Happ) as Hg.
  split; try (rewrite Hom; simpl; apply Hinv).
  - intros k o Ho Hs. rewrite Hom in Ho. simpl in Ho.
    apply (credited_by_mono d d' o o); [reflexivity|done| | |by apply (wi_credited d Hinv k)];
      by rewrite Hom.
  - intros en' Hin Hw. destruct (applied_entries _ _ _ _ _ _ _ _ Happ en' Hin) as [Hin'|E].
    + destruct (wi_entries d Hinv en' Hin' Hw) as (k & o & Ho & ?).
      exists k, o. split; [|done]. by rewrite Hom.
    + congruence.
Qed.

Lemma balanced_applied account delta t rid key d d' en :
  startswith "wallet-obs:" key = false →
  applied account delta t rid key d d' en → deposits_balanced d → deposits_balanced d'.
Proof.
  intros Hkey [_ ->|a a' _ _ _ _ _ _ _ _ _ Ek _ _ ->]; [done|]. unfold deposits_balanced. simpl.
  rewrite wallet_credits_snoc, Ek, Hkey. intros ->. lia.
Qed.

(** ** Running a deposit forward *)

Lemma save_observation_run o f e w :
  aborted w = false → observations (db w) !! obs_id o = Some o →
  observation_verdict (db w) (f o) = None →
  save_observation o f e w = (Ok (f o), w <| db := put observations (obs_id o) (f o) (db w) |>).
Proof.
  intros Hw Hk Hv. unfold save_observation. by erewrite bind_step by (by eapply save_fields_run).
Qed.

Lemma verdict_put d o o' p :
  same_core o o' → same_core o p → obs_confirmations o' = obs_confirmations o →
  observation_verdict d o = None → observation_verdict (put observations (obs_id o) p d) o' = None.
Proof.
  intros (E1 & _ & E3 & E4 & E5 & E6 & _) (F1 & _) E.
  unfold observation_verdict, observation_fits, observation_checks.
  rewrite E1, E3, E4, E5, E6, E. do 2 (destruct (negb _); [done|]).
  destruct (qexists _ (observations d)) eqn:Hq; [done|]. intros _.
  rewrite qexists_false in Hq. rewrite (proj2 (qexists_false _ _)); [done|].
  intros k v. simpl. intros [[<- <-]|[_ Hk]]%lookup_insert_Some; [|by apply (Hq k)].
  by rewrite F1, N.eqb_refl, andb_false_r.
Qed.

Lemma verdict_same d o o' :
  observations d !! obs_id o = Some o → same_core o o' →
  obs_confirmations o' = obs_confirmations o → observation_verdict d o = None →
  observation_verdict d o' = None.
Proof.
  intros Hk Hc Hn Hv. rewrite <- (put_observation_same _ _ _ Hk). by apply (verdict_put d o o' o).
Qed.

Section Deposit.
Context (signal : ObservationSignal) (tx : string) (wa : WalletAddress) (e : Env).

(** A new transfer of the accepted token to an address of the registry, with
    enough confirmations. *)
Record arrives (w : World) : Prop := {
  ar_alive : aborted w = false;
  ar_chain : sig_chain signal = POLYGON;
  ar_tx : tx_hash_text (sig_tx_hash signal) = Some tx;
  ar_address : latest_address POLYGON (normalize_evm_address (sig_to_address signal)) (db w) = Some wa;
  ar_new : find_observation POLYGON tx (sig_log_index signal) (db w) = None;
  ar_token : normalize_evm_address (sig_token_contract signal) =
             normalize_evm_address (POLYGON_USDT_CONTRACT (settings e));
  ar_confirmed : POLYGON_MIN_CONFIRMATIONS (settings e) ≤ sig_confirmations signal;
  ar_confirmations : 0 ≤ sig_confirmations signal ≤ max_int32;
  ar_amount : 0 < sig_amount signal < money_bound;
  ar_index : 0 ≤ sig_log_index signal ≤ max_int32;
  ar_fresh : observations (db w) !! next_uuid w = None;
}.

Lemma policy_confirms o w :
  aborted w = false → obs_status o = PENDING_CONFIRMATION → obs_chain o = POLYGON →
  normalize_evm_address (obs_token_contract o) =
    normalize_evm_address (POLYGON_USDT_CONTRACT (settings e)) →
  POLYGON_MIN_CONFIRMATIONS (settings e) ≤ obs_confirmations o →
  observations (db w) !! obs_id o = Some o → observation_verdict (db w) o = None →
  ∃ o' w', _apply_policy o e w = (Ok o', w') ∧ same_core o o' ∧ obs_status o' = CONFIRMED ∧
    obs_confirmations o' = obs_confirmations o ∧
    db w' = put observations (obs_id o) o' (db w) ∧ aborted w' = false ∧ depth w' = depth w.
Proof.
  intros Hw Hs Hc Ht Hn Hk Hv. do 2 eexists. split.
  - unfold _apply_policy. rewrite Hs. cbn [terminal].
    erewrite bind_step.
    2:{ unfold evaluate, accepted_token_contract, min_confirmations. rewrite Hc.
        rewrite bool_decide_true by done. erewrite bind_step by done.
        rewrite bool_decide_true by done. cbn [negb].
        erewrite bind_step by done. rewrite (proj2 (Z.ltb_ge _ _)) by done. done. }
    cbv beta iota. erewrite bind_step by done. apply save_observation_run; [done..|].
    by apply (verdict_same (db w) o).
  - by split_and!.
Qed.

Lemma ingest_confirms w :
  arrives w →
  ∃ o w', ingest signal false e w = (Ok o, w') ∧
    obs_status o = CONFIRMED ∧ obs_shadow_only o = false ∧ obs_chain o = POLYGON ∧
    obs_tx_hash o = tx ∧ obs_log_index o = sig_log_index signal ∧
    obs_amount o = sig_amount signal ∧ obs_wallet_address o = wa_id wa ∧
    obs_id o = next_uuid w ∧ observation_verdict (db w') o = None ∧
    db w' = put observations (obs_id o) o (db w) ∧ aborted w' = false ∧ depth w' = depth w.
Proof.
  intros [Hw Hch Htx Hwa Hnew Htok Hconf Hcb Ham Hidx Hfresh].
  set (o := mkObservation (next_uuid w) (wa_id wa) POLYGON tx (sig_log_index signal) OBSERVED
    (sig_amount signal) (normalize_evm_address (sig_token_contract signal))
    (if bool_decide (sig_from_address signal = "") then ""
     else normalize_evm_address (sig_from_address signal)) (sig_confirmations signal)
    (sig_block_number signal) SR_none false None None None None None None (clock e (tick w))).
  assert (Hv : observation_verdict (db w) o = None).
  { unfold observation_verdict, observation_fits, observation_checks. subst o. simpl.
    rewrite (proj2 (fits_numeric_spec _)) by lia.
    rewrite !(proj2 (Z.leb_le _ _)) by lia. rewrite (proj2 (Z.ltb_lt _ _)) by lia. simpl.
    rewrite (proj2 (qexists_false _ _)); [done|]. intros k v Hk.
    unfold find_observation in Hnew. rewrite qfirst_None in Hnew. by rewrite (Hnew k v Hk). }
  set (p := o <| obs_status := PENDING_CONFIRMATION |>
              <| obs_pending_at := Some (clock e (S (tick w))) |>).
  set (w1 := enter w <| next_uuid := N.succ (next_uuid w) |> <| tick := S (S (tick w)) |>
               <| db := put observations (next_uuid w) p (db w) |>).
  destruct (policy_confirms p w1) as (o' & w2 & Hrun & Hc & Hs & Hn & Hd & Hw2 & Hdep);
    [done|done|done| |done|apply lookup_insert_eq| |].
  { by rewrite <- Htok; apply normalize_evm_idem. }
  { by apply (verdict_put (db w) o p p). }
  exists o', (w2 <| depth := depth w |>). split.
  - unfold ingest. rewrite Hch. rewrite bool_decide_false by done.
    unfold normalize_tx_hash. rewrite Htx. simpl lift. erewrite bind_step by done.
    erewrite bind_step by (by apply query_run). rewrite Hwa. simpl retry_else.
    apply try_run, atomic_run; [|done]. unfold _ingest_once.
    erewrite bind_step by (by apply locked_query_run). simpl. rewrite Hnew.
    do 2 erewrite bind_step by done.
    erewrite bind_step by (by apply create_run). fold o.
    erewrite bind_step; [exact Hrun|]. unfold mark_pending. erewrite bind_step by done.
    rewrite (save_observation_run o);
      [|done|apply lookup_insert_eq|by apply (verdict_put (db w) o)].
    f_equal. unfold w1, enter. cbn -[put]. by rewrite put_put_observation.
  - assert (Hco : same_core o o') by exact Hc.
    unfold same_core in Hc. simpl in Hd. rewrite put_put_observation in Hd.
    destruct Hc as (E1 & E2 & E3 & E4 & E5 & E6 & E7 & E8 & E9).
    rewrite E1, E2, E3, E4, E5, E6, E9. split_and!; try done.
    simpl. rewrite Hd. by apply (verdict_put (db w) o o' o').
Qed.
End Deposit.

(** A confirmed deposit that its owner's account can take. *)
Record obs_creditable (o : DepositObservation) (account : pk) (a : Account) (w : World) : Prop := {
  cd_alive : aborted w = false;
  cd_row : observations (db w) !! obs_id o = Some o;
  cd_valid : observation_verdict (db w) o = None;
  cd_status : obs_status o = CONFIRMED;
  cd_shadow : obs_shadow_only o = false;
  cd_owner : observation_owner (db w) o = Some account;
  cd_account : accounts (db w) !! account = Some a;
  cd_checks : account_checks a = true;
  cd_unfiled : find_entry (observation_idempotency_key o) (ledger (db w)) = None;
  cd_amount : 0 < obs_amount o < money_bound;
  cd_balance : acc_balance a + obs_amount o < money_bound;
  cd_version : acc_version a < max_int32;
}.

Definition balance_credited (a : Account) (n : money) : Account :=
  a <| acc_balance := acc_balance a + n |> <| acc_version := acc_version a + 1 |>.

Lemma observation_account_run o account e w :
  aborted w = false → observation_owner (db w) o = Some account →
  observation_account o e w = (Ok account, w).
Proof.
  unfold observation_owner, observation_account. intros Hw H.
  destruct (wallet_addresses (db w) !! _) as [wa|] eqn:Ha; [|done]. simpl in H.
  destruct (wallet_identities (db w) !! _) as [i|] eqn:Hi; [|done]. simpl in H.
  injection H as <-. erewrite bind_step by (by apply get_run).
  by erewrite bind_step by (by apply get_run).
Qed.

Lemma account_checks_nonneg a : account_checks a = true → 0 ≤ acc_balance a.
Proof. unfold account_checks. intros H. bool_to_prop. lia. Qed.

Lemma convert_credits o account a e w :
  obs_creditable o account a w →
  ∃ en o' w', convert (obs_id o) e w = (Ok en, w') ∧
    le_delta en = obs_amount o ∧ le_account en = account ∧ same_core o o' ∧
    obs_status o' = CREDITED ∧
    db w' = put observations (obs_id o) o'
      (put accounts account (balance_credited a (obs_amount o))
        ((db w) <| ledger := ledger (db w) ++ [en] |>)) ∧
    le_idempotency_key en = observation_idempotency_key o ∧ aborted w' = false.
Proof.
  intros [Hw Hk Hv Hs Hsh Hown Hacc Hch Hf Ham Hbal Hver].
  set (o1 := o <| obs_status := CONVERSION_STARTED |>
               <| obs_conversion_started_at := Some (clock e (tick w)) |>).
  set (w1 := enter w <| tick := S (tick w) |> <| db := put observations (obs_id o) o1 (db w) |>).
  assert (Hp : postable account (obs_amount o) (observation_idempotency_key o) 1 w1 a).
  { pose proof (account_checks_nonneg a Hch).
    assert (Hd : posted_delta (obs_amount o) 1 = obs_amount o) by done.
    split; rewrite ?Hd; [lia|done|done|done|done|done|lia|apply fits_numeric_spec; lia|lia]. }
  pose proof (apply_posts _ _ DEPOSIT (str (obs_id o)) _ _ e w1 a Hp) as Hcredit.
  set (w2 := posted_world _ _ _ _ _ _ _ _ _) in Hcredit.
  set (o2 := o1 <| obs_status := CREDITED |> <| obs_credited_at := Some (clock e (tick w2)) |>
                <| obs_status_reason := SR_none |>).
  set (w3 := w2 <| tick := S (tick w2) |> <| db := put observations (obs_id o) o2 (db w2) |>).
  eexists _, o2, (w3 <| depth := depth w |>). split.
  - unfold convert. apply atomic_run; [|done].
    erewrite bind_step by (by apply get_locked_run). rewrite Hs, Hsh.
    rewrite !bool_decide_false, bool_decide_true by done. cbn [negb].
    do 2 erewrite bind_step by done. erewrite bind_step by done.
    erewrite bind_step by (apply save_observation_run; [done..|by apply (verdict_same (db w) o)]).
    fold o1. fold w1. unfold _credit_and_finish.
    erewrite bind_step by (by apply observation_account_run).
    erewrite bind_step by exact Hcredit. rewrite bool_decide_false by done. cbn [negb].
    erewrite bind_step; [done|]. erewrite bind_step by done.
    erewrite bind_step; [done|].
    rewrite (save_observation_run o1); [done|done|apply lookup_insert_eq|].
    apply (verdict_same _ o1); [apply lookup_insert_eq|done|done|].
    by apply (verdict_put (db w) o o1 o1).
  - split_and!; [done|done|done|done| |done|done]. unfold w3. cbn -[put].
    unfold put, update. cbn. by rewrite insert_insert_eq.
Qed.

Lemma convert_replays o en e w :
  aborted w = false → observations (db w) !! obs_id o = Some o → obs_status o = CREDITED →
  find_entry (observation_idempotency_key o) (ledger (db w)) = Some en →
  convert (obs_id o) e w = (Ok en, w).
Proof.
  intros Hw Hk Hs Hf. unfold convert. etransitivity; [apply atomic_run|].
  - erewrite bind_step by (by apply get_locked_run). rewrite bool_decide_true by done.
    erewrite bind_step by (by apply query_run). change (db (enter w)) with (db w).
    by rewrite Hf.
  - done.
  - by destruct w.
Qed.

Lemma ingest_replays signal tx wa o e w :
  aborted w = false → sig_chain signal = POLYGON →
  tx_hash_text (sig_tx_hash signal) = Some tx →
  latest_address POLYGON (normalize_evm_address (sig_to_address signal)) (db w) = Some wa →
  find_observation POLYGON tx (sig_log_index signal) (db w) = Some o →
  terminal (obs_status o) = true →
  ingest signal false e w = (Ok o, w).
Proof.
  intros Hw Hch Htx Hwa Hf Ht. unfold ingest. rewrite Hch, bool_decide_false by done.
  unfold normalize_tx_hash. rewrite Htx. simpl lift. erewrite bind_step by done.
  erewrite bind_step by (by apply query_run). rewrite Hwa. simpl retry_else.
  erewrite try_run; [done|].
  etransitivity; [apply atomic_run|].
  - unfold _ingest_once. erewrite bind_step by (by apply locked_query_run). simpl. rewrite Hf.
    unfold _refresh_locked. by rewrite Ht.
  - done.
  - by destruct w.
Qed.

Lemma find_put_observation chain tx i k o d :
  find_observation chain tx i d = None → same_identity chain tx i o = true →
  find_observation chain tx i (put observations k o d) = Some o.
Proof.
  unfold find_observation. rewrite qfirst_None. intros Hn Ho.
  apply (qfirst_unique _ _ k); [apply lookup_insert_eq|done|].
  intros k' o'. simpl. intros [[_ <-]|[_ Hk]]%lookup_insert_Some Ho'; [done|]. by rewrite (Hn k' o' Hk) in Ho'.
Qed.

(** ** Properties *)

(** The lifecycle of one deposit: it appears as observed, moves along the
    machine, and its metadata may be refreshed in between. *)
Inductive row_step : relation (option DepositObservation) :=
  | row_appears o : obs_status o = OBSERVED → row_step None (Some o)
  | row_moves o o' :
      same_core o o' → obs_step (obs_status o) (obs_status o') → row_step (Some o) (Some o')
  | row_refreshed o o' :
      same_core o o' → obs_status o' = obs_status o → row_step (Some o) (Some o').

Lemma settles_rows o o' : obs_settles o o' → rtc row_step (Some o) (Some o').
Proof.
  intros [Hc [Hs|[Hs Hs']]]; apply rtc_once; [by constructor|].
  apply row_moves; [done|]. rewrite Hs. rewrite !elem_of_cons, elem_of_nil in Hs'.
  destruct Hs' as [-> |[-> |[-> |[]]]]; constructor.
Qed.

Lemma wallet_step_rows d d' k :
  wallet_step d d' → rtc row_step (observations d !! k) (observations d' !! k).
Proof.
  assert (Hput : ∀ (m m' : gmap pk DepositObservation) j (o' : DepositObservation),
    m' = <[j:=o']> m → rtc row_step (m !! j) (Some o') → rtc row_step (m !! k) (m' !! k)).
  { intros m m' j o' -> H. destruct (decide (k = j)) as [->|Hne];
      [by rewrite lookup_insert_eq|by rewrite lookup_insert_ne]. }
  intros [j o Hj _ Hs _ _ _ ->|j o o' Hj Hset ->|j account o o' en d1 Hj Hs _ _ Happ Hc Hs' ->].
  - apply (Hput _ _ j o); [done|]. rewrite Hj.
    apply rtc_l with (Some (o <| obs_status := OBSERVED |>)); [by apply row_appears|].
    apply rtc_once, row_moves; [done|]. rewrite Hs. constructor.
  - apply (Hput _ _ j o'); [done|]. rewrite Hj. by apply settles_rows.
  - apply applied_only_money in Happ. apply (Hput _ _ j o'); [by rewrite Happ|]. rewrite Hj.
    apply rtc_l with (Some (o <| obs_status := CONVERSION_STARTED |>)).
    + apply row_moves; [done|]. rewrite Hs. constructor.
    + apply rtc_once, row_moves; [done|]. rewrite Hs'. constructor.
Qed.

Lemma wallet_steps_rows d d' k :
  rtc wallet_step d d' → rtc row_step (observations d !! k) (observations d' !! k).
Proof. induction 1; [done|]. etransitivity; [by apply wallet_step_rows|done]. Qed.

(** The operations on observations. *)
Inductive observation_op : ∀ A, M A → Prop :=
  | op_ingest signal shadow : observation_op _ (ingest signal shadow)
  | op_advance id : observation_op _ (advance_confirmation id)
  | op_expire id : observation_op _ (expire id)
  | op_convert id : observation_op _ (convert id)
  | op_resume apply_ limit : observation_op _ (resume_converts apply_ limit).

Lemma moves_op A (m : M A) : observation_op A m → respects wallet_moves m.
Proof. intros []; [by auto with effects..|apply moves_resume]. Qed.

(** C12: Every operation on deposit observations refines the state machine of
    RFC 006, however it ends: as seen from outside, each deposit appears as
    observed and then only moves along its transitions, what the deposit is
    (transfer, amount, address, shadow flag) never changes, and no deposit
    disappears or is left between two transitions. *)
Theorem observations_follow_state_machine A (m : M A) e w r w' k :
  observation_op A m → wallet_inv (db w) → m e w = (r, w') →
  rtc row_step (observations (db w) !! k) (observations (db w') !! k) ∧
  ∀ o, observations (db w') !! k = Some o → at_rest (obs_status o).
Proof.
  intros Hop Hinv H. pose proof (moves_op _ _ Hop _ _ _ _ H Hinv) as Hs. split.
  - by apply wallet_steps_rows.
  - intros o Ho. by apply (wi_row _ (wallet_steps_inv _ _ Hs Hinv) k o Ho).
Qed.

(** Everything that touches deposits or the ledger: the operations above, and
    the credits and debits other services post under keys of their own. *)
Inductive balance_op : ∀ A, M A → Prop :=
  | op_observation A m : observation_op A m → balance_op A m
  | op_other account amount rt rid key sign :
      startswith "wallet-obs:" key = false →
      balance_op _ (_apply account amount rt rid key sign).

Definition deposits_inv (d : Db) : Prop := wallet_inv d ∧ deposits_balanced d.

Lemma balance_op_preserves A (m : M A) : balance_op A m → respects (preserves deposits_inv) m.
Proof.
  intros [A' m' Hop|account amount rt rid key sign Hkey] e w r w' H [Hinv Hb].
  - pose proof (moves_op _ _ Hop _ _ _ _ H Hinv) as Hs.
    split; [by eapply wallet_steps_inv|by eapply wallet_steps_balanced].
  - apply apply_run in H as [->|(delta & t & en & H)]; [done|].
    split; [by eapply wallet_inv_applied|by eapply balanced_applied].
Qed.

Lemma credited_iff_filed d k o :
  wallet_inv d → observations d !! k = Some o →
  obs_status o = CREDITED ↔ is_Some (find_entry (observation_idempotency_key o) (ledger d)).
Proof.
  intros Hinv Hk. split.
  - intros Hs. destruct (wi_credited d Hinv k o Hk Hs) as (_ & en & -> & _). eauto.
  - intros [en [Hin Hen]%find_entry_Some].
    destruct (wi_row d Hinv k o Hk) as (_ & _ & Hc & Ht).
    destruct (wi_entries d Hinv en Hin) as (k' & o' & Hk' & Hs & Ho');
      [rewrite Hen; apply key_wallet|].
    destruct (wi_row d Hinv k' o' Hk') as (_ & _ & Hc' & Ht').
    assert (k = k') as -> by (apply (wi_unique d Hinv k k' o o'); [done..|apply key_inj; congruence]).
    congruence.
Qed.

(** C13: A deposit is credited exactly once and for exactly its amount.  Every
    operation on observations, and every credit or debit other services post,
    however it ends, keeps the invariant: an observation is credited exactly
    when the entry of its transfer is in the ledger, that entry has the
    deposited amount and belongs to the owner of the address, and all wallet
    credits of the ledger add up to the credited deposits. *)
Theorem deposits_credited_exactly_once A (m : M A) e w r w' :
  balance_op A m → deposits_inv (db w) → m e w = (r, w') →
  deposits_inv (db w') ∧
  wallet_credits (ledger (db w')) = sum_rows credited_amount (observations (db w')) ∧
  ∀ k o, observations (db w') !! k = Some o →
    (obs_status o = CREDITED ↔
     is_Some (find_entry (observation_idempotency_key o) (ledger (db w')))) ∧
    (obs_status o = CREDITED → credited_by (db w') o).
Proof.
  intros Hop Hinv H. pose proof (balance_op_preserves _ _ Hop _ _ _ _ H Hinv) as Hinv'.
  destruct Hinv' as [Hw Hb]. split_and!; [done|done|]. intros k o Hk.
  split; [by apply (credited_iff_filed _ k)|by apply (wi_credited _ Hw k)].
Qed.

(** C14: A deposit goes through: a new transfer of the accepted token to an
    address of the registry, with enough confirmations, is confirmed by its
    ingestion, and its conversion credits the owner of the address with exactly
    the deposited amount; ingesting or converting it again returns the credited
    row and the same entry and changes nothing. *)
Theorem confirmed_deposit_credited signal tx wa i a e w :
  wallet_inv (db w) → arrives signal tx wa e w →
  wallet_addresses (db w) !! wa_id wa = Some wa →
  wallet_identities (db w) !! wa_wallet_identity wa = Some i →
  accounts (db w) !! wid_account i = Some a → account_checks a = true →
  acc_balance a + sig_amount signal < money_bound → acc_version a < max_int32 →
  ∃ o w1 en o' w2,
    ingest signal false e w = (Ok o, w1) ∧ convert (obs_id o) e w1 = (Ok en, w2) ∧
    le_delta en = sig_amount signal ∧ le_account en = wid_account i ∧
    accounts (db w2) !! wid_account i = Some (balance_credited a (sig_amount signal)) ∧
    ledger (db w2) = ledger (db w) ++ [en] ∧ obs_status o' = CREDITED ∧
    ingest signal false e w2 = (Ok o', w2) ∧ convert (obs_id o) e w2 = (Ok en, w2).
Proof.
  intros Hinv Har Hwa Hi Ha Hch Hbal Hver.
  destruct (ingest_confirms signal tx wa e w Har) as (o & w1 & Hrun & Hs & Hsh & Hc & Ht & Hx &
    Ham & Hadr & Hid & Hv & Hd & Hw1 & _).
  pose proof (moves_ingest _ _ _ _ _ _ Hrun Hinv) as Hsteps.
  pose proof (wallet_steps_inv _ _ Hsteps Hinv) as Hinv1.
  assert (Hk : observations (db w1) !! obs_id o = Some o) by (rewrite Hd; apply lookup_insert_eq).
  assert (Hnone : find_entry (observation_idempotency_key o) (ledger (db w1)) = None).
  { apply uncredited_unfiled; [done|done|by apply (wi_row _ Hinv1 _ _ Hk)|].
    intros k o'' Hk' Hst. assert (k = obs_id o) as -> by (by apply (wi_unique _ Hinv1 k _ o'' o)).
    congruence. }
  destruct (convert_credits o (wid_account i) a e w1) as (en & o' & w2 & Hcv & Hen & Hacc & Hco &
    Hs' & Hd2 & Hkey & Hw2).
  { split; try done; rewrite ?Ham; try done; [|by rewrite Hd|apply (ar_amount _ _ _ _ _ Har)].
    rewrite Hd. unfold observation_owner. simpl. rewrite Hadr, Hwa. simpl. by rewrite Hi. }
  assert (Hid' : obs_id o' = obs_id o) by apply Hco.
  assert (Hl : ledger (db w2) = ledger (db w1) ++ [en]) by by rewrite Hd2.
  assert (Ho2 : observations (db w2) = observations (put observations (obs_id o) o' (db w)))
    by (rewrite Hd2, Hd; apply insert_insert_eq).
  exists o, w1, en, o', w2. rewrite Ham in *. split_and!; try done.
  - rewrite Hd2. apply lookup_insert_eq.
  - by rewrite Hl, Hd.
  - apply (ingest_replays signal tx wa); [done|apply Har|apply Har| | |by rewrite Hs'].
    + rewrite Hd2, Hd. apply Har.
    + unfold find_observation. rewrite Ho2. apply find_put_observation; [apply Har|].
      apply core_transfer in Hco as (E1 & E2 & E3). unfold same_identity.
      rewrite <- E1, <- E2, <- E3, Hc, Ht, Hx, !bool_decide_true, Z.eqb_refl by done. done.
  - rewrite <- Hid'. apply convert_replays; [done|by rewrite Ho2, Hid'; apply lookup_insert_eq|done|].
    rewrite Hl, (core_key _ _ Hco). by apply find_entry_snoc.
Qed.

(** ** A concrete deposit *)

Definition deposit_env : Env :=
  mkEnv (sample_settings <| POLYGON_USDT_CONTRACT := "0xc2132d05d31c914a87c6611c10748aeb04b58e8f" |>
           <| POLYGON_MIN_CONFIRMATIONS := 12 |>) (λ n, Z.of_nat n) 100 (λ n, pretty (N.of_nat n)).
Definition deposit_address : WalletAddress :=
  mkWalletAddress 20 10 POLYGON "0x00000000000000000000000000000000000000aa" 0 WA_ACTIVE 0 None.
Definition deposit_db : Db :=
  sample_db <| wallet_identities := {[ 10%N := mkIdentity 10 1 ]} |>
            <| wallet_addresses := {[ 20%N := deposit_address ]} |>.
Definition deposit_hash : string :=
  "0x00000000000000000000000000000000000000000000000000000000000000ff".
Definition deposit_signal : ObservationSignal :=
  mkSignal POLYGON deposit_hash 3 "0xAA" 5000000 "0xC2132D05D31C914A87C6611C10748AEB04B58E8F" 12 ""
    None.
Definition deposit_world : World := world_of deposit_db.

Lemma deposit_world_inv : deposits_inv (db deposit_world).
Proof.
  split; [|done]. split; simpl; try done. by intros en ?%not_elem_of_nil.
Qed.

Lemma deposit_arrives : arrives deposit_signal deposit_hash deposit_address deposit_env deposit_world.
Proof. split; vm_compute; repeat first [reflexivity|discriminate|split]. Qed.

Lemma observations_follow_state_machine_witness :
  ∃ o w', ingest deposit_signal false deposit_env deposit_world = (Ok o, w') ∧
    rtc row_step None (Some o) ∧ obs_status o = CONFIRMED.
Proof.
  destruct (ingest deposit_signal false deposit_env deposit_world) as [r w'] eqn:E.
  destruct (observations_follow_state_machine _ (ingest deposit_signal false) deposit_env
    deposit_world r w' 1000) as [H _]; [constructor|apply deposit_world_inv|exact E|].
  revert E H. vm_compute. intros [= <- <-] H. eexists _, _.
  split; [reflexivity|split; [exact H|reflexivity]].
Defined.

Lemma deposits_credited_exactly_once_witness :
  let w1 := (ingest deposit_signal false deposit_env deposit_world).2 in
  let w2 := (convert 1000 deposit_env w1).2 in
  wallet_credits (ledger (db w2)) = 5000000 ∧ deposits_inv (db w2).
Proof.
  intros w1 w2. split; [vm_compute; reflexivity|].
  apply (deposits_credited_exactly_once _ (convert 1000) deposit_env w1
    (convert 1000 deposit_env w1).1 w2); [apply op_observation, op_convert| |apply surjective_pairing].
  apply (deposits_credited_exactly_once _ (ingest deposit_signal false) deposit_env deposit_world
    (ingest deposit_signal false deposit_env deposit_world).1 w1);
    [apply op_observation, op_ingest|apply deposit_world_inv|apply surjective_pairing].
Defined.

Lemma confirmed_deposit_credited_witness :
  ∃ o w1 en w2,
    ingest deposit_signal false deposit_env deposit_world = (Ok o, w1) ∧
    convert (obs_id o) deposit_env w1 = (Ok en, w2) ∧ le_delta en = 5000000 ∧
    convert (obs_id o) deposit_env w2 = (Ok en, w2).
Proof.
  destruct (confirmed_deposit_credited deposit_signal deposit_hash deposit_address
    (mkIdentity 10 1) sample_account deposit_env deposit_world) as
    (o & w1 & en & o' & w2 & H1 & H2 & H3 & _ & _ & _ & _ & _ & H4);
    [apply deposit_world_inv|apply deposit_arrives|reflexivity..|].
  exists o, w1, en, w2. split_and!; [exact H1|exact H2|exact H3|exact H4].
Defined.
