(* ===== verification/Shadow.v ===== *)
(** * The shadow comparison of the two deposit paths

    [apps/wallet/services/shadow.py]: after a legacy deposit has completed, the
    wallet pipeline is run on the same transfer without crediting, and the
    comparison is recorded.  Latencies are not modelled. *)

From S2P Require Import Prelude Strings Tables Money Models JsonValues EsimModels World Effects Credit.
From S2P Require Import Addresses Polygon Observations.
#[local] Open Scope Z_scope.

(** [_log_index_from_transfer], the same in both services. *)
Definition text_index (raw : string) : Res Z :=
  let text := lower (strip raw) in
  match (if startswith "0x" text then int_base16 text else int_base10 text) with
  | Some n => Ok n
  | None => Raise (ValueError "invalid literal for int()")
  end.

Definition _log_index_from_transfer (transfer : TransferResult) : Res Z :=
  let matched := match tr_raw_rpc_response transfer with
                 | JObj raw => match jget "matched_log" raw with Some j => j | None => JNull end
                 | _ => JNull
                 end in
  if negb (truthy matched) then Ok 0
  else match matched with
       | JObj fields =>
           let raw := match jget "logIndex" fields with
                      | Some j => j
                      | None => match jget "index" fields with Some j => j | None => JInt 0 end
                      end in
           match raw with
           | JStr s => text_index s
           | JInt n => Ok n
           | JBool b => Ok (Z.b2z b)
           | _ => if truthy raw then Raise TypeError else Ok 0
           end
       | _ => Raise AttributeError
       end.

Definition shadow_verdict (d : Db) (s : ShadowDecision) : option Exn :=
  if negb (fits_numeric (shd_legacy_amount s) &&
           match shd_shadow_amount s with Some m => fits_numeric m | None => true end)
  then Some DataError
  else if qexists (λ t, (shd_deposit_request t =? shd_deposit_request s)%N &&
                        negb (shd_id t =? shd_id s)%N) (shadow_decisions d)
  then Some IntegrityError else None.

(** [ShadowDecision.objects.filter(deposit_request=deposit).first()] *)
Definition decision_of (deposit : pk) (d : Db) : option ShadowDecision :=
  qfirst (λ s, (shd_deposit_request s =? deposit)%N) (shadow_decisions d).

(** [.filter(wallet_identity__account=..., chain=..., status=ACTIVE)
     .order_by("derivation_index").first()] *)
Definition _active_wallet_address (account : pk) (chain : string) (d : Db) : option WalletAddress :=
  first_by wa_derivation_index
    (qall (λ a, bool_decide (wa_chain a = chain) && bool_decide (wa_status a = WA_ACTIVE) &&
                bool_decide (account_of_address d a = Some account)) (wallet_addresses d)).

(** [deposit.amount_credited or transfer.amount] *)
Definition legacy_amount (deposit : DepositRequest) (transfer : TransferResult) : money :=
  match dep_amount_credited deposit with
  | Some n => if n =? 0 then tr_amount transfer else n
  | None => tr_amount transfer
  end.

(** [(deposit.tx_hash or transfer.tx_hash or "").lower()] *)
Definition legacy_tx_hash (deposit : DepositRequest) (transfer : TransferResult) : string :=
  lower (match dep_tx_hash deposit with
         | Some (String _ _ as h) => h
         | _ => tr_tx_hash transfer
         end).

Definition create_decision (s : pk → ShadowDecision) : M ShadowDecision :=
  let! id := uuid4 in
  create shadow_decisions shadow_verdict id (s id);;;
  ret (s id).

Definition _classify (legacy_amount : money) (legacy_account : pk) (shadow_amount : money)
    (shadow_account : pk) (o : DepositObservation) (would_credit : bool)
    : ShadowDecisionOutcome * ShadowDecisionSeverity * ShadowReason :=
  match obs_status o with
  | REJECTED => (SHADOW_DIFFERENT, SEVERITY_CRITICAL, SHR_rejected (obs_status_reason o))
  | PENDING_CONFIRMATION | OBSERVED =>
      (SHADOW_DIFFERENT, SEVERITY_WARNING, SHR_pending_confirmation)
  | EXPIRED => (SHADOW_DIFFERENT, SEVERITY_WARNING, SHR_expired)
  | _ =>
      if negb (shadow_account =? legacy_account)%N
      then (SHADOW_DIFFERENT, SEVERITY_CRITICAL, SHR_account_mismatch)
      else if negb (shadow_amount =? legacy_amount)
      then (SHADOW_DIFFERENT, SEVERITY_CRITICAL, SHR_amount_mismatch)
      else if negb would_credit
      then (SHADOW_DIFFERENT, SEVERITY_WARNING, SHR_not_confirmed (obs_status o))
      else (SHADOW_EQUAL, SEVERITY_NONE, SHR_match)
  end.

Definition _compare_once (deposit : DepositRequest) (transfer : TransferResult)
    : M ShadowDecision :=
  let amount := legacy_amount deposit transfer in
  let account := dep_account deposit in
  let tx_hash := legacy_tx_hash deposit transfer in
  let! wallet_address := query (_active_wallet_address account POLYGON) in
  match wallet_address with
  | None =>
      create_decision (λ id, mkShadow id (dep_id deposit) None amount account tx_hash None None None
        false SHADOW_DIFFERENT SEVERITY_CRITICAL SHR_missing_wallet_address)
  | Some wallet_address =>
      let! log_index := lift (_log_index_from_transfer transfer) in
      let signal := mkSignal POLYGON tx_hash log_index (wa_address wallet_address)
        (tr_amount transfer) (tr_token_contract transfer) (tr_confirmations transfer)
        (tr_from_address transfer) (Some (tr_block_number transfer)) in
      let! o := ingest signal true in
      let! shadow_account := observation_account o in
      let would_credit := bool_decide (obs_status o = CONFIRMED) in
      let decide_as := λ outcome severity reason,
        create_decision (λ id, mkShadow id (dep_id deposit) (Some (obs_id o)) amount account tx_hash
          (Some (obs_amount o)) (Some shadow_account) (Some (obs_status o)) would_credit
          outcome severity reason) in
      let! wallet_ledger := query (λ d,
        bool_decide (find_entry (observation_idempotency_key o) (ledger d) ≠ None)) in
      if wallet_ledger then decide_as SHADOW_DIFFERENT SEVERITY_CRITICAL SHR_duplicate_credit
      else
        let '(outcome, severity, reason) :=
          _classify amount account (obs_amount o) shadow_account o would_credit in
        decide_as outcome severity reason
  end.

Definition _persist_error (deposit : DepositRequest) (transfer : TransferResult)
    : M (option ShadowDecision) :=
  try_except
    (atomic (
      let! existing := query (decision_of (dep_id deposit)) in
      match existing with
      | Some s => ret (Some s)
      | None =>
          let! s := create_decision (λ id, mkShadow id (dep_id deposit) None
            (legacy_amount deposit transfer) (dep_account deposit)
            (legacy_tx_hash deposit transfer) None None None false SHADOW_ERROR
            SEVERITY_CRITICAL SHR_pipeline_error) in
          ret (Some s)
      end))
    (λ _, Some (ret None)).

Definition compare_legacy_deposit (deposit : DepositRequest) (transfer : TransferResult)
    : M (option ShadowDecision) :=
  let! shadow_mode := asks SHADOW_MODE in
  if negb shadow_mode then ret None
  else
    let! existing := query (decision_of (dep_id deposit)) in
    match existing with
    | Some s => ret (Some s)
    | None =>
        try_except (let! s := _compare_once deposit transfer in ret (Some s))
          (λ _, Some (_persist_error deposit transfer))
    end.

Definition safe_compare_legacy_deposit (deposit : DepositRequest) (transfer : TransferResult)
    : M unit :=
  try_except (let! _ := compare_legacy_deposit deposit transfer in ret tt)
    (λ _, Some (ret tt)).

(** [shadow_metrics_snapshot], the match rate as a fraction. *)
Record ShadowMetrics := mkShadowMetrics {
  sm_match : nat;
  sm_mismatch : nat;
  sm_error : nat;
  sm_critical : nat;
  sm_warning : nat;
  sm_match_rate : option (nat * nat);
}.

Definition outcome_count (o : ShadowDecisionOutcome) (d : Db) : nat :=
  qcount (λ s, bool_decide (shd_outcome s = o)) (shadow_decisions d).
Definition severity_count (v : ShadowDecisionSeverity) (d : Db) : nat :=
  qcount (λ s, bool_decide (shd_severity s = v)) (shadow_decisions d).

Definition shadow_metrics_snapshot : M ShadowMetrics :=
  let! match_ := query (outcome_count SHADOW_EQUAL) in
  let! mismatch := query (outcome_count SHADOW_DIFFERENT) in
  let! error := query (outcome_count SHADOW_ERROR) in
  let! critical := query (severity_count SEVERITY_CRITICAL) in
  let! warning := query (severity_count SEVERITY_WARNING) in
  let decided := (match_ + mismatch + error)%nat in
  ret (mkShadowMetrics match_ mismatch error critical warning
    (if (decided =? 0)%nat then None else Some (match_, decided))).

(** ** Isolation *)

(** Everything but the observations and the decisions stays. *)
Definition billing_untouched : relation Db := λ d d',
  d' = d <| observations := observations d' |> <| shadow_decisions := shadow_decisions d' |>.

#[export] Instance billing_untouched_preorder : PreOrder billing_untouched.
Proof.
  unfold billing_untouched. split; [by intros []|]. intros d1 d2 d3 H1 H2. rewrite H2, H1.
  by destruct d1.
Qed.

Lemma untouched_put_observation d k o : billing_untouched d (put observations k o d).
Proof. by destruct d. Qed.

Lemma untouched_save o f : respects billing_untouched (save_observation o f).
Proof.
  unfold save_observation. solve_respects.
Qed.
#[local] Hint Resolve untouched_save : effects.

Lemma untouched_policy o : respects billing_untouched (_apply_policy o).
Proof. unfold _apply_policy, evaluate, accepted_token_contract, min_confirmations. solve_respects. Qed.
#[local] Hint Resolve untouched_policy : effects.

Lemma untouched_refresh o n : respects billing_untouched (_refresh_locked o n).
Proof. unfold _refresh_locked, mark_pending. solve_respects. Qed.
#[local] Hint Resolve untouched_refresh : effects.

Lemma untouched_ingest signal shadow : respects billing_untouched (ingest signal shadow).
Proof.
  unfold ingest, _ingest_once, mark_pending. solve_respects.
Qed.
#[local] Hint Resolve untouched_ingest : effects.

Lemma untouched_shadow deposit transfer :
  respects billing_untouched (safe_compare_legacy_deposit deposit transfer).
Proof.
  unfold safe_compare_legacy_deposit, compare_legacy_deposit, _persist_error, _compare_once,
    create_decision, observation_account. solve_respects.
Qed.
#[export] Hint Resolve untouched_shadow : effects.

(** Rows that appear are marked as shadow rows, and the mark stays. *)
Definition only_shadow_rows : relation Db := λ d d', ∀ k o',
  observations d' !! k = Some o' →
  obs_shadow_only o' = true ∨
  ∃ o, observations d !! k = Some o ∧ obs_shadow_only o' = obs_shadow_only o.

#[export] Instance only_shadow_rows_preorder : PreOrder only_shadow_rows.
Proof.
  split; [intros d k o Ho; eauto|]. intros d1 d2 d3 H1 H2 k o3 Ho3.
  destruct (H2 k o3 Ho3) as [?|(o2 & Ho2 & ->)]; [by left|].
  destruct (H1 k o2 Ho2) as [?|(o1 & Ho1 & ->)]; eauto.
Qed.

Lemma shadow_rows_save o f :
  (∀ v, obs_shadow_only (f v) = obs_shadow_only v) →
  respects only_shadow_rows (save_observation o f).
Proof.
  intros Hf. unfold save_observation.
  apply respects_bind; [apply _|apply respects_save_fields; [apply _|]|intros; by apply respects_ret; apply _].
  intros d v Hv _ k o'. simpl. intros [[<- <-]|[_ Hk]]%lookup_insert_Some; [|eauto].
  right. eauto.
Qed.
#[local] Hint Extern 1 (respects _ (save_observation _ _)) =>
  apply shadow_rows_save; reflexivity : effects.

Lemma shadow_rows_policy o : respects only_shadow_rows (_apply_policy o).
Proof. unfold _apply_policy, evaluate, accepted_token_contract, min_confirmations. solve_respects. Qed.
#[local] Hint Resolve shadow_rows_policy : effects.

Lemma shadow_rows_refresh o n : respects only_shadow_rows (_refresh_locked o n).
Proof. unfold _refresh_locked, mark_pending. solve_respects. Qed.
#[local] Hint Resolve shadow_rows_refresh : effects.

Lemma shadow_rows_create id o :
  obs_shadow_only o = true →
  respects only_shadow_rows (create observations observation_verdict id o).
Proof.
  intros Ho. apply respects_create; [apply _|]. intros d Hd _ j o'. simpl.
  intros [[<- <-]|[_ Hk]]%lookup_insert_Some; eauto.
Qed.
#[local] Hint Extern 1 (respects _ (create observations _ _ _)) =>
  apply shadow_rows_create; reflexivity : effects.

Lemma shadow_rows_ingest signal : respects only_shadow_rows (ingest signal true).
Proof.
  unfold ingest, _ingest_once, mark_pending. solve_respects.
Qed.
#[local] Hint Resolve shadow_rows_ingest : effects.

Lemma shadow_rows_decision s : respects only_shadow_rows (create_decision s).
Proof.
  unfold create_decision. solve_respects.
  apply respects_create; [apply _|]. intros d _ _ j o' Ho'. right. eauto.
Qed.
#[local] Hint Resolve shadow_rows_decision : effects.

Lemma shadow_rows_compare deposit transfer :
  respects only_shadow_rows (safe_compare_legacy_deposit deposit transfer).
Proof.
  unfold safe_compare_legacy_deposit, compare_legacy_deposit, _persist_error, _compare_once,
    observation_account. solve_respects.
Qed.

Lemma wallet_inv_decision k s d : wallet_inv d → wallet_inv (put shadow_decisions k s d).
Proof. intros Hinv. by split; apply Hinv. Qed.

(** Creating a decision keeps the wallet invariant. *)
Lemma preserves_moves A (m : M A) : respects wallet_moves m → respects (preserves wallet_inv) m.
Proof. intros Hm e w r w' H Hinv. eapply wallet_steps_inv, Hinv. by eapply Hm. Qed.

Lemma shadow_wallet_inv deposit transfer :
  respects (preserves wallet_inv) (safe_compare_legacy_deposit deposit transfer).
Proof.
  assert (Hi : ∀ signal, respects (preserves wallet_inv) (ingest signal true))
    by (intros; apply preserves_moves, moves_ingest).
  assert (Hc : ∀ s, respects (preserves wallet_inv) (create_decision s)).
  { intros s. unfold create_decision. solve_respects.
    apply respects_create; [apply _|]. intros d _ _ Hd. by apply wallet_inv_decision. }
  unfold safe_compare_legacy_deposit, compare_legacy_deposit, _persist_error, _compare_once,
    observation_account. solve_respects; auto.
Qed.

Lemma quiet_shadow deposit transfer : quiet (safe_compare_legacy_deposit deposit transfer).
Proof.
  unfold safe_compare_legacy_deposit, compare_legacy_deposit, _persist_error, _compare_once,
    create_decision, observation_account, ingest, _ingest_once, mark_pending, _refresh_locked,
    _apply_policy, evaluate, accepted_token_contract, min_confirmations, save_observation.
  solve_quiet.
Qed.

(** The hook always returns. *)
Lemma shadow_total deposit transfer e w :
  ∃ w', safe_compare_legacy_deposit deposit transfer e w = (Ok tt, w').
Proof.
  unfold safe_compare_legacy_deposit, try_except, bind, ret.
  destruct (compare_legacy_deposit _ _ e w) as [[x|x] w1]; eauto.
Qed.

(** ** Properties *)

(** The comparison is an agreement exactly when the shadow path would have
    credited the same amount to the same account. *)
Lemma classify_equal amount account shadow_amount shadow_account o :
  (_classify amount account shadow_amount shadow_account o (bool_decide (obs_status o = CONFIRMED))).1.1
    = SHADOW_EQUAL ↔
  obs_status o = CONFIRMED ∧ shadow_account = account ∧ shadow_amount = amount.
Proof.
  unfold _classify. split.
  - intros H. destruct (obs_status o) eqn:E; simpl in H; try done;
      repeat (case_match; simpl in H; try done); bool_to_prop; by simplify_eq.
  - intros (-> & -> & ->). by rewrite N.eqb_refl, Z.eqb_refl.
Qed.

(** C15: The shadow comparison cannot disturb the production path: whatever
    happens inside, the hook returns normally and publishes nothing; it writes
    observations and decisions only, so no balance, ledger entry or deposit
    changes; every observation it adds is marked shadow-only, which conversion
    refuses; and with the flag off it does nothing at all. *)
Theorem shadow_is_isolated deposit transfer e w :
  ∃ w', safe_compare_legacy_deposit deposit transfer e w = (Ok tt, w') ∧
    billing_untouched (db w) (db w') ∧ only_shadow_rows (db w) (db w') ∧
    (wallet_inv (db w) → wallet_inv (db w')) ∧ events w' = events w ∧
    (SHADOW_MODE (settings e) = false → w' = w) ∧
    ∀ k o e2 w2 en w3, observations (db w') !! k = Some o → observations (db w) !! k = None →
      wallet_inv (db w') → db w2 = db w' → aborted w2 = false → obs_status o ≠ CREDITED →
      convert k e2 w2 ≠ (Ok en, w3).
Proof.
  destruct (shadow_total deposit transfer e w) as [w' E].
  exists w'. split; [done|]. split_and!.
  - by eapply untouched_shadow.
  - by eapply shadow_rows_compare.
  - by eapply shadow_wallet_inv.
  - by apply quiet_shadow in E as (_ & ? & _).
  - intros Hs. revert E. unfold safe_compare_legacy_deposit, compare_legacy_deposit, try_except, bind, asks.
    rewrite Hs. by intros [= <-].
  - intros k o e2 w2 en w3 Hk Hnone Hinv Hd Hw Hne H.
    destruct (shadow_rows_compare deposit transfer _ _ _ _ E k o Hk) as [Hsh|(o1 & Ho1 & _)];
      [|congruence].
    destruct (convert_Ok k e2 w2 en w3) as (o' & Ho' & [(Hs & _)|(_ & Hsh' & _)]);
      [by rewrite Hd|done|congruence..].
Qed.
