(* ===== verification/Deposits.v ===== *)
(** * Deposit verification

    [apps/billing/services/deposit_verification.py], with
    [resolve_deposit_wallet] of [deposit_info.py].  The chain is reached through
    the [BlockchainProvider] interface; [from_mnemonic] is the key derivation of
    the wallet registry.  A [deposit] argument is the in-memory row the caller
    holds. *)

From S2P Require Import Prelude Strings Tables Money Models EsimModels World Effects Credit.
From S2P Require Import Addresses Polygon Observations Shadow.
#[local] Open Scope Z_scope.

(** ** The table *)

Definition deposit_fits (p : DepositRequest) : bool :=
  fits_numeric (dep_amount_requested p) &&
  match dep_amount_credited p with Some n => fits_numeric n | None => true end.

(** The check constraints of [DepositRequest.Meta]. *)
Definition deposit_checks (p : DepositRequest) : bool :=
  (0 <? dep_amount_requested p) &&
  match dep_amount_credited p with Some n => 0 <? n | None => true end.

Definition deposit_clash (p q : DepositRequest) : bool :=
  bool_decide (dep_idempotency_key q = dep_idempotency_key p) ||
  match dep_tx_hash p with Some h => bool_decide (dep_tx_hash q = Some h) | None => false end.

Definition deposit_verdict (d : Db) (p : DepositRequest) : option Exn :=
  if negb (deposit_fits p) then Some DataError
  else if negb (deposit_checks p) then Some IntegrityError
  else if qexists (λ q, deposit_clash p q && negb (dep_id q =? dep_id p)%N) (deposits d)
  then Some IntegrityError else None.

(** [deposit.<fields> = ...; deposit.save(update_fields=...)] *)
Definition save_deposit (p : DepositRequest) (f : DepositRequest → DepositRequest)
    : M DepositRequest :=
  save_fields deposits deposit_verdict (dep_id p) f;;;
  ret (f p).

(** [_normalize_payment_method] *)
Definition _normalize_payment_method (payment_method : string) : Res PaymentMethod :=
  if bool_decide (payment_method = "wallet_connect") then Ok WALLET_CONNECT
  else if bool_decide (payment_method = "cex_manual") then Ok CEX_MANUAL
  else Raise DepositVerificationError.

(** The module's [_normalize_tx_hash]. *)
Definition deposit_tx_hash (value : string) : Res string :=
  match tx_hash_text value with
  | Some text => Ok text
  | None => Raise DepositVerificationError
  end.

(** [not deposit.tx_hash] *)
Definition hash_of (p : DepositRequest) : option string :=
  match dep_tx_hash p with Some (String _ _ as h) => Some h | _ => None end.

Definition is_completed (p : DepositRequest) : bool := bool_decide (dep_status p = DEP_COMPLETED).
Definition is_failed (p : DepositRequest) : bool := bool_decide (dep_status p = DEP_FAILED).

(** ** Lookups *)

Definition deposit_by_key (key : string) (d : Db) : option DepositRequest :=
  qfirst (λ p, bool_decide (dep_idempotency_key p = key)) (deposits d).
Definition deposit_by_hash (tx_hash : string) (d : Db) : option DepositRequest :=
  qfirst (λ p, bool_decide (dep_tx_hash p = Some tx_hash)) (deposits d).
Definition deposit_by_hash_status (tx_hash : string) (s : DepositStatus) (d : Db)
    : option DepositRequest :=
  qfirst (λ p, bool_decide (dep_tx_hash p = Some tx_hash) && bool_decide (dep_status p = s))
    (deposits d).

(** Another completed row with the same hash (a null matching a null). *)
Definition other_completed (p : DepositRequest) (d : Db) : bool :=
  qexists (λ q, bool_decide (dep_tx_hash q = dep_tx_hash p) && is_completed q &&
                negb (dep_id q =? dep_id p)%N) (deposits d).

Section Verification.
Context {provider : BlockchainProvider} (from_mnemonic : string → string → Res string).

(** ** Failing *)

Definition _mark_failed (deposit : DepositRequest) (reason : FailureReason) (raw : option Json)
    : M DepositRequest :=
  atomic (
    let! locked := get_locked deposits (dep_id deposit) in
    if is_completed locked then ret locked
    else
      let response := match raw with
                      | Some r => Some r
                      | None => match dep_raw_rpc_response deposit, dep_raw_rpc_response locked with
                                | Some r, None => Some r
                                | _, stored_raw => stored_raw
                                end
                      end in
      save_deposit locked (λ p, p <| dep_status := DEP_FAILED |> <| dep_failure_reason := reason |>
        <| dep_raw_rpc_response := response |>)).

(** ** Completing *)

Definition completion_events (locked : DepositRequest) (transfer : TransferResult)
    (reference_id : string) (entry : CreditLedgerEntry) (verified_at : instant) : list Event :=
  [DepositVerified (dep_id locked) (dep_account locked) (tr_amount transfer)
     (le_balance_after entry)
     (match hash_of locked with Some h => h | None => tr_tx_hash transfer end)
     (dep_payment_method locked) (le_id entry) verified_at;
   CreditGranted (dep_account locked) (tr_amount transfer) (le_balance_after entry) DEPOSIT
     reference_id (le_id entry) (le_created_at entry)].

(** Another deposit has been completed with this transaction: the row is
    marked failed and the block raises. *)
Definition fail_duplicate (locked : DepositRequest) (transfer : TransferResult) : M unit :=
  let! _ := save_deposit locked (λ p, p <| dep_status := DEP_FAILED |>
    <| dep_failure_reason := FR_already_credited (default "None" (dep_tx_hash locked)) |>
    <| dep_raw_rpc_response := Some (tr_raw_rpc_response transfer) |>) in
  raise DuplicateTransactionError.

Definition save_completed (locked : DepositRequest) (transfer : TransferResult)
    (verified_at : instant) : M DepositRequest :=
  save_deposit locked (λ p, p <| dep_amount_credited := Some (tr_amount transfer) |>
    <| dep_status := DEP_COMPLETED |> <| dep_verified_at := Some verified_at |>
    <| dep_failure_reason := FR_none |>
    <| dep_raw_rpc_response := Some (tr_raw_rpc_response transfer) |>).

(** The locked part of [_complete] and [_complete_wallet_path]; [grant] is the
    way the credit is made.  An already final row is returned as it is. *)
Definition complete_locked (deposit : DepositRequest) (transfer : TransferResult)
    (grant : DepositRequest → M (CreditLedgerEntry * string))
    : M (DepositRequest * option (list Event)) :=
  atomic (
    let! locked := get_locked deposits (dep_id deposit) in
    if is_completed locked then ret (locked, None)
    else if is_failed locked then ret (locked, None)
    else
      let! other := locked_query (other_completed locked) in
      (if other then fail_duplicate locked transfer else ret tt);;;
      let! granted := grant locked in
      let! verified_at := now in
      let! locked := save_completed locked transfer verified_at in
      ret (locked, Some (completion_events locked transfer granted.2 granted.1 verified_at))).

Definition legacy_grant (transfer : TransferResult) (locked : DepositRequest)
    : M (CreditLedgerEntry * string) :=
  let! entry := credit (dep_account locked) (AMoney (tr_amount transfer)) (RefEnum DEPOSIT)
                  (str (dep_id locked)) ("deposit:" +:+ str (dep_id locked)) in
  ret (entry, str (dep_id locked)).

(** [_complete]: the credit, the events, then the shadow hook. *)
Definition _complete (deposit : DepositRequest) (transfer : TransferResult) : M DepositRequest :=
  let! done := complete_locked deposit transfer (legacy_grant transfer) in
  match done.2 with
  | None => ret done.1
  | Some events =>
      for_each events publish;;;
      try_except (safe_compare_legacy_deposit done.1 transfer) (λ _, Some (ret tt));;;
      ret done.1
  end.

Definition wallet_grant (transfer : TransferResult) (wallet_address : WalletAddress)
    (locked : DepositRequest) : M (CreditLedgerEntry * string) :=
  let! log_index := lift (_log_index_from_transfer transfer) in
  let signal := mkSignal POLYGON
    (match hash_of locked with Some h => h | None => tr_tx_hash transfer end) log_index
    (wa_address wallet_address) (tr_amount transfer) (tr_token_contract transfer)
    (tr_confirmations transfer) (tr_from_address transfer) (Some (tr_block_number transfer)) in
  let! observation := ingest signal false in
  raise_if (negb (bool_decide (obs_status observation = CONFIRMED))) DepositVerificationFailedError;;;
  let! entry := convert (obs_id observation) in
  ret (entry, str (obs_id observation)).

(** [_complete_wallet_path]: credited through the observation only. *)
Definition _complete_wallet_path (wallet_address : WalletAddress) (deposit : DepositRequest)
    (transfer : TransferResult) : M DepositRequest :=
  let! done := complete_locked deposit transfer (wallet_grant transfer wallet_address) in
  match done.2 with
  | None => ret done.1
  | Some events => for_each events publish;;; ret done.1
  end.

(** ** The gates *)

Definition _apply_transfer_gates (deposit : DepositRequest) (transfer : TransferResult)
    (complete : DepositRequest → TransferResult → M DepositRequest) : M DepositRequest :=
  let raw := tr_raw_rpc_response transfer in
  let! deposit := save_deposit deposit (λ p, p <| dep_raw_rpc_response := Some raw |>) in
  if negb (bool_decide (tr_status transfer = "success")) then
    (let! _ := _mark_failed deposit (FR_tx_status (tr_status transfer)) (Some raw) in
     raise DepositVerificationFailedError)
  else
    let! required := asks POLYGON_MIN_CONFIRMATIONS in
    raise_if (tr_confirmations transfer <? required)
      (InsufficientConfirmationsError (tr_confirmations transfer) required);;;
    if negb (tr_amount transfer =? dep_amount_requested deposit) then
      (let! _ := _mark_failed deposit
         (FR_amount_mismatch (tr_amount transfer) (dep_amount_requested deposit)) (Some raw) in
       raise (AmountMismatchError (tr_amount transfer) (dep_amount_requested deposit)))
    else complete deposit transfer.

(** [except] clauses around [fetch_usdt_transfer]. *)
Definition on_fetch_error (deposit : DepositRequest) (x : Exn) : option (M TransferResult) :=
  match x with
  | TransferNotFoundError msg | BlockchainProviderError msg => Some (
      let! _ := _mark_failed deposit (FR_provider msg) None in
      raise DepositVerificationFailedError)
  | BlockchainRPCError msg => Some (
      let! _ := _mark_failed deposit (FR_rpc msg) None in
      raise (BlockchainRPCError msg))
  | _ => None
  end.

Definition fail_missing_hash (deposit : DepositRequest) : M DepositRequest :=
  let! _ := _mark_failed deposit FR_missing_tx_hash None in
  raise DepositVerificationFailedError.

Definition _verify_pending_legacy (deposit : DepositRequest) : M DepositRequest :=
  match hash_of deposit with
  | None => fail_missing_hash deposit
  | Some tx_hash =>
      let! transfer := try_except (fetch_usdt_transfer tx_hash None) (on_fetch_error deposit) in
      _apply_transfer_gates deposit transfer _complete
  end.

Definition _verify_pending_wallet_path (deposit : DepositRequest) : M DepositRequest :=
  match hash_of deposit with
  | None => fail_missing_hash deposit
  | Some tx_hash =>
      let! wallet_address := ensure_active_address from_mnemonic (dep_account deposit) POLYGON in
      let! transfer := try_except (fetch_usdt_transfer tx_hash (Some (wa_address wallet_address)))
                         (on_fetch_error deposit) in
      _apply_transfer_gates deposit transfer (_complete_wallet_path wallet_address)
  end.

Definition _verify_pending (deposit : DepositRequest) : M DepositRequest :=
  let! wallet_path := should_use_wallet_money_path (dep_account deposit) in
  if wallet_path then _verify_pending_wallet_path deposit else _verify_pending_legacy deposit.

(** ** Entry points *)

Definition _create_pending_deposit (account : pk) (tx_hash : string)
    (payment_method : PaymentMethod) (amount_requested : money) (idempotency_key : string)
    : M DepositRequest :=
  let! completed := query (deposit_by_hash_status tx_hash DEP_COMPLETED) in
  raise_if (bool_decide (completed ≠ None)) DuplicateTransactionError;;;
  try_except
    (atomic (
      let! id := uuid4 in
      let p := mkDeposit id account amount_requested None payment_method (Some tx_hash)
                 idempotency_key DEP_PENDING FR_none None None in
      create deposits deposit_verdict id p;;;
      ret p))
    (on_integrity_error (
      let! raced := query (deposit_by_key idempotency_key) in
      match raced with
      | Some p => ret p
      | None =>
          let! other := query (deposit_by_hash tx_hash) in
          match other with
          | Some _ => raise DuplicateTransactionError
          | None => raise IntegrityError
          end
      end)).

Definition _recover_failed_deposit (deposit : DepositRequest) (account : pk)
    (amount_requested : money) (idempotency_key : string) : M DepositRequest :=
  raise_if (negb (dep_account deposit =? account)%N) DuplicateTransactionError;;;
  raise_if (bool_decide (hash_of deposit = None)) DepositVerificationError;;;
  atomic (
    let! locked := get_locked deposits (dep_id deposit) in
    if is_completed locked then ret locked
    else if negb (is_failed locked) then ret locked
    else
      raise_if (negb (dep_account locked =? account)%N) DuplicateTransactionError;;;
      save_deposit locked (λ p, p <| dep_amount_requested := amount_requested |>
        <| dep_status := DEP_PENDING |> <| dep_failure_reason := FR_none |>
        <| dep_idempotency_key := idempotency_key |>)).

(** What [verify] does before verifying: the row to verify, or the one to
    return as it is. *)
Definition admit_deposit (account : pk) (tx_hash : string) (method : PaymentMethod)
    (amount : money) (idempotency_key : string) : M (DepositRequest * bool) :=
  let recover := λ p, let! p := _recover_failed_deposit p account amount idempotency_key in
                      ret (p, true) in
  let! existing := query (deposit_by_key idempotency_key) in
  match existing with
  | Some p =>
      if is_completed p then ret (p, false)
      else if is_failed p then
        if negb (dep_account p =? account)%N then ret (p, false)
        else if dep_amount_requested p =? amount then ret (p, false)
        else recover p
      else ret (p, true)
  | None =>
      let! failed_for_tx := query (deposit_by_hash_status tx_hash DEP_FAILED) in
      match failed_for_tx with
      | Some p =>
          raise_if (negb (dep_account p =? account)%N) DuplicateTransactionError;;;
          if dep_amount_requested p =? amount then ret (p, false) else recover p
      | None =>
          let! p := _create_pending_deposit account tx_hash method amount idempotency_key in
          ret (p, bool_decide (dep_status p = DEP_PENDING))
      end
  end.

(** [DepositVerificationService.verify] *)
Definition verify (account : pk) (tx_hash payment_method : string) (amount_requested : Amount)
    (idempotency_key : string) : M DepositRequest :=
  let! enabled := asks BILLING_ENABLED in
  raise_if (negb enabled) BillingDisabledError;;;
  raise_if (bool_decide (idempotency_key = "")) DepositVerificationError;;;
  let! method := lift (_normalize_payment_method payment_method) in
  let! amount := lift (_normalize_amount amount_requested) in
  let! normalized_hash := lift (deposit_tx_hash tx_hash) in
  let! admitted := admit_deposit account normalized_hash method amount idempotency_key in
  if admitted.2 then _verify_pending admitted.1 else ret admitted.1.

(** [DepositVerificationService.reverify] *)
Definition reverify (deposit : pk) : M DepositRequest :=
  let! enabled := asks BILLING_ENABLED in
  raise_if (negb enabled) BillingDisabledError;;;
  let! opened := atomic (
    let! locked := get_locked deposits deposit in
    if is_completed locked then ret (locked, false)
    else if is_failed locked then
      raise_if (bool_decide (hash_of locked = None)) DepositVerificationError;;;
      let! locked := save_deposit locked (λ p, p <| dep_status := DEP_PENDING |>
        <| dep_failure_reason := FR_none |>) in
      ret (locked, true)
    else ret (locked, true)) in
  if opened.2 then _verify_pending opened.1 else ret opened.1.

(** [resolve_deposit_wallet] *)
Definition resolve_deposit_wallet (account : option pk) : M string :=
  let shared := let! w := asks POLYGON_PLATFORM_WALLET in ret (strip w) in
  match account with
  | None => shared
  | Some a =>
      let! exposed := should_expose_wallet_address a in
      if exposed then
        let! addr := ensure_active_address from_mnemonic a POLYGON in
        ret (strip (wa_address addr))
      else shared
  end.

(** ** The specification *)

(** What a deposit is, as opposed to where it stands. *)
Definition same_deposit (p p' : DepositRequest) : Prop :=
  dep_id p' = dep_id p ∧ dep_account p' = dep_account p ∧ dep_tx_hash p' = dep_tx_hash p ∧
  dep_payment_method p' = dep_payment_method p.

(** A change short of completion: a completed row only changes in its recorded
    response, another row is not completed by it. *)
Definition dep_moves (p p' : DepositRequest) : Prop :=
  same_deposit p p' ∧
  (dep_status p = DEP_COMPLETED →
     dep_status p' = DEP_COMPLETED ∧ dep_amount_credited p' = dep_amount_credited p ∧
     dep_amount_requested p' = dep_amount_requested p) ∧
  (dep_status p ≠ DEP_COMPLETED → dep_status p' ≠ DEP_COMPLETED).

(** The deposit has been credited under its own key. *)
Definition legacy_key (k : pk) : string := "deposit:" +:+ str k.

(** What the other services do meanwhile: no deposit changes, and the ledger
    only grows by wallet conversions. *)
Definition elsewhere : relation Db := λ d d',
  deposits d' = deposits d ∧ ledger_grows d d' ∧
  (∀ en, en ∈ ledger d' → en ∈ ledger d ∨
     startswith "wallet-obs:" (le_idempotency_key en) = true) ∧
  (wallet_inv d → wallet_inv d').

#[export] Instance elsewhere_preorder : PreOrder elsewhere.
Proof.
  split; [intros d; split_and!; [done|reflexivity|by left|done]|].
  intros d1 d2 d3 (H1 & H2 & H3 & H4) (K1 & K2 & K3 & K4).
  split_and!; [congruence|by etransitivity| |auto].
  intros en Hen. destruct (K3 en Hen) as [Hen2|]; [|by right]. by apply H3.
Qed.

(** A conversion of an observation of the transaction pays for the deposit. *)
Definition paid_by_wallet (d : Db) (p : DepositRequest) : Prop :=
  ∃ k o h en, observations d !! k = Some o ∧ obs_status o = CREDITED ∧
    find_entry (observation_idempotency_key o) (ledger d) = Some en ∧
    hash_of p = Some h ∧ tx_hash_text h = Some (obs_tx_hash o).

Definition completes (p p' : DepositRequest) : Prop :=
  same_deposit p p' ∧ dep_status p = DEP_PENDING ∧ dep_status p' = DEP_COMPLETED ∧
  dep_amount_requested p' = dep_amount_requested p ∧
  dep_amount_credited p' = Some (dep_amount_requested p).

Inductive deposit_step (d d' : Db) : Prop :=
  | deposit_created (k : pk) (p : DepositRequest) :
      deposits d !! k = None → dep_id p = k → dep_status p = DEP_PENDING →
      deposit_verdict d p = None → d' = put deposits k p d → deposit_step d d'
  | deposit_moved (k : pk) (p p' : DepositRequest) :
      deposits d !! k = Some p → dep_moves p p' → deposit_verdict d p' = None →
      d' = put deposits k p' d → deposit_step d d'
  | deposit_completed_legacy (k : pk) (p p' : DepositRequest) d1 (en : CreditLedgerEntry) :
      deposits d !! k = Some p → completes p p' → other_completed p d = false →
      applied (dep_account p) (dep_amount_requested p) DEPOSIT (str k) (legacy_key k) d d1 en →
      d' = put deposits k p' d1 → deposit_step d d'
  | deposit_completed_wallet (k : pk) (p p' : DepositRequest) :
      deposits d !! k = Some p → completes p p' → other_completed p d = false →
      paid_by_wallet d p → d' = put deposits k p' d → deposit_step d d'
  | deposit_elsewhere : elsewhere d d' → deposit_step d d'.

(** ** The invariant *)

(** The ledger entry a completed deposit stands for. *)
Definition deposit_paid (d : Db) (k : pk) (p : DepositRequest) : Prop :=
  ∃ en, en ∈ ledger d ∧
    (le_idempotency_key en = legacy_key k ∧ le_delta en = dep_amount_requested p ∧
       le_account en = dep_account p ∨
     startswith "wallet-obs:" (le_idempotency_key en) = true).

Record deposit_inv (d : Db) : Prop := {
  di_wallet : wallet_inv d;
  di_row : ∀ k p, deposits d !! k = Some p → dep_id p = k;
  di_hash : ∀ k k' p p' h, deposits d !! k = Some p → deposits d !! k' = Some p' →
    dep_tx_hash p = Some h → dep_tx_hash p' = Some h → k = k';
  di_completed : ∀ k p, deposits d !! k = Some p → dep_status p = DEP_COMPLETED →
    dep_amount_credited p = Some (dep_amount_requested p) ∧ deposit_paid d k p;
  di_entries : ∀ en k, en ∈ ledger d → le_idempotency_key en = legacy_key k →
    ∃ p, deposits d !! k = Some p ∧ dep_status p = DEP_COMPLETED ∧
      dep_amount_credited p = Some (le_delta en) ∧ dep_account p = le_account en;
}.

Lemma legacy_key_other k : startswith "wallet-obs:" (legacy_key k) = false.
Proof. done. Qed.

Lemma legacy_key_inj k k' : legacy_key k = legacy_key k' → k = k'.
Proof. unfold legacy_key. intros H. injection H as H. by apply (inj str). Qed.

Lemma deposit_paid_grows d d' k p p' :
  ledger_grows d d' → same_deposit p p' → dep_amount_requested p' = dep_amount_requested p →
  deposit_paid d k p → deposit_paid d' k p'.
Proof.
  intros [l Hl] (_ & Ha & _) Hr (en & Hen & H). exists en. rewrite Hl, Ha, Hr.
  split; [|done]. apply elem_of_app. by left.
Qed.

(** The verdict makes transaction hashes unique. *)
Lemma verdict_hash d p k q h :
  deposit_verdict d p = None → deposits d !! k = Some q → dep_id q = k →
  dep_tx_hash p = Some h → dep_tx_hash q = Some h → k = dep_id p.
Proof.
  intros Hv Hk Hid Hp Hq. unfold deposit_verdict in Hv.
  do 2 (destruct (negb _); [done|]). destruct (qexists _ _) eqn:Hx; [done|].
  rewrite qexists_false in Hx. specialize (Hx k q Hk). unfold deposit_clash in Hx.
  rewrite Hp, Hq, (bool_decide_true (Some h = Some h)), orb_true_r in Hx by done. simpl in Hx.
  bool_to_prop. congruence.
Qed.

Lemma hash_put (m : gmap pk DepositRequest) k p :
  (∀ k k' p p' h, m !! k = Some p → m !! k' = Some p' →
     dep_tx_hash p = Some h → dep_tx_hash p' = Some h → k = k') →
  (∀ k' q h, m !! k' = Some q → dep_tx_hash p = Some h → dep_tx_hash q = Some h → k' = k) →
  ∀ k1 k2 p1 p2 h, <[k:=p]> m !! k1 = Some p1 → <[k:=p]> m !! k2 = Some p2 →
    dep_tx_hash p1 = Some h → dep_tx_hash p2 = Some h → k1 = k2.
Proof.
  intros Hu Hp k1 k2 p1 p2 h. rewrite !lookup_insert_Some.
  intros [[<- <-]|[N1 H1]] [[<- <-]|[N2 H2]] E1 E2; [done| | |by eapply Hu].
  - symmetry. by eapply Hp. - by eapply Hp.
Qed.

(** ** The specification keeps the invariant *)

Lemma wallet_inv_put_deposit k p d : wallet_inv d → wallet_inv (put deposits k p d).
Proof. intros Hinv. by split; apply Hinv. Qed.

(** Replacing row [k], the ledger having grown by entries that leave the other
    deposits alone. *)
Lemma deposit_inv_put d d1 k p :
  deposit_inv d → wallet_inv d1 → deposits d1 = deposits d → ledger_grows d d1 → dep_id p = k →
  (∀ k' q h, deposits d !! k' = Some q → dep_tx_hash p = Some h → dep_tx_hash q = Some h → k' = k) →
  (dep_status p = DEP_COMPLETED →
     dep_amount_credited p = Some (dep_amount_requested p) ∧ deposit_paid d1 k p) →
  (∀ en, en ∈ ledger d1 → le_idempotency_key en = legacy_key k →
     dep_status p = DEP_COMPLETED ∧ dep_amount_credited p = Some (le_delta en) ∧
     dep_account p = le_account en) →
  (∀ en k', en ∈ ledger d1 → k' ≠ k → le_idempotency_key en = legacy_key k' → en ∈ ledger d) →
  deposit_inv (put deposits k p d1).
Proof.
  intros Hinv Hw Hd Hg Hid Hh Hc He Ho. split; simpl; rewrite ?Hd.
  - by apply wallet_inv_put_deposit.
  - intros k' q [[<- <-]|[_ Hk]]%lookup_insert_Some; [done|by apply (di_row d Hinv)].
  - apply hash_put; [apply Hinv|done].
  - intros k' q [[<- <-]|[_ Hk]]%lookup_insert_Some Hs; [by apply Hc|].
    destruct (di_completed d Hinv k' q Hk Hs) as [? Hp]. split; [done|].
    by eapply (deposit_paid_grows d _ k' q q).
  - intros en k' Hen Hkey. destruct (decide (k' = k)) as [->|Hne].
    + exists p. rewrite lookup_insert_eq. split; [done|by apply He].
    + rewrite lookup_insert_ne by done. apply (di_entries d Hinv); [by eapply Ho|done].
Qed.

Lemma entry_of_key d k p en :
  deposit_inv d → deposits d !! k = Some p → en ∈ ledger d → le_idempotency_key en = legacy_key k →
  dep_status p = DEP_COMPLETED ∧ dep_amount_credited p = Some (le_delta en) ∧
  dep_account p = le_account en.
Proof.
  intros Hinv Hk Hen Hkey. destruct (di_entries d Hinv en k Hen Hkey) as (q & Hq & ?). by simplify_eq.
Qed.

Lemma no_entry_unfinished d k p :
  deposit_inv d → deposits d !! k = Some p → dep_status p ≠ DEP_COMPLETED →
  find_entry (legacy_key k) (ledger d) = None.
Proof.
  intros Hinv Hk Hs. destruct (find_entry _ _) as [en|] eqn:E; [|done].
  apply find_entry_Some in E as [Hen Hkey].
  by destruct (entry_of_key d k p en Hinv Hk Hen Hkey) as [? _].
Qed.

Lemma same_hash_row d k p p' k' q h :
  deposit_inv d → deposits d !! k = Some p → same_deposit p p' →
  deposits d !! k' = Some q → dep_tx_hash p' = Some h → dep_tx_hash q = Some h → k' = k.
Proof.
  intros Hinv Hk (_ & _ & Hh & _) Hq. rewrite Hh. intros H1 H2.
  symmetry. by apply (di_hash d Hinv k k' p q h).
Qed.

Lemma deposit_step_inv d d' : deposit_step d d' → deposit_inv d → deposit_inv d'.
Proof.
  intros [k p Hk Hid Hs Hv ->|k p p' Hk (Hsame & Hc & Hn) Hv ->
    |k p p' d1 en Hk (Hsame & Hs & Hs' & Hr & Ha) _ Happ ->
    |k p p' Hk (Hsame & Hs & Hs' & Hr & Ha) _ (k0 & o & h & en & Ho & Hos & Hf & _) ->
    |(Hd & Hg & He & Hw)] Hinv.
  - apply (deposit_inv_put d); [done|apply Hinv|done|reflexivity|done| |congruence| |done].
    + intros k' q h Hq H1 H2. subst k.
      eapply verdict_hash; [done|done| |done|done]. by apply (di_row d Hinv).
    + intros en Hen Hkey. destruct (di_entries d Hinv en k Hen Hkey) as (q & Hq & _). congruence.
  - assert (Hid : dep_id p' = k) by (destruct Hsame as [-> _]; by apply (di_row d Hinv)).
    apply (deposit_inv_put d); [done|apply Hinv|done|reflexivity|done| | | |done].
    + intros k' q h' ???. by apply (same_hash_row d k p p' k' q h').
    + intros Hs'. destruct (decide (dep_status p = DEP_COMPLETED)) as [Hs|Hs]; [|by destruct (Hn Hs)].
      destruct (Hc Hs) as (_ & -> & Er). destruct (di_completed d Hinv k p Hk Hs) as [Ha Hp].
      rewrite Er. split; [done|]. by eapply (deposit_paid_grows d d k p p').
    + intros en Hen Hkey. destruct (entry_of_key d k p en Hinv Hk Hen Hkey) as (Hs & Ha & Hacc).
      destruct (Hc Hs) as (? & -> & _). destruct Hsame as (_ & -> & _). done.
  - assert (Hid : dep_id p' = k) by (destruct Hsame as [-> _]; by apply (di_row d Hinv)).
    pose proof (no_entry_unfinished d k p Hinv Hk ltac:(by rewrite Hs)) as Hnone.
    pose proof Happ as [Hf|a a' Hacc _ Hne H0 Eacc Ed _ _ _ Ek -> Hva Hd1]; [congruence|].
    apply (deposit_inv_put d); try done.
    + eapply wallet_inv_applied; [by apply (legacy_key_other k)|exact Happ|apply Hinv].
    + by rewrite Hd1.
    + by eapply applied_prefix.
    + intros k' q h' ???. by apply (same_hash_row d k p p' k' q h').
    + intros _. rewrite Ha, Hr. split; [done|]. exists en. rewrite Hd1. simpl.
      split; [apply elem_of_app; right; by left|]. left. destruct Hsame as (_ & -> & _). by rewrite Hr.
    + intros en'. rewrite Hd1. simpl. rewrite elem_of_app, list_elem_of_singleton.
      intros [Hen| ->] Hkey.
      * destruct (entry_of_key d k p en' Hinv Hk Hen Hkey). congruence.
      * destruct Hsame as (_ & -> & _). by rewrite Ha, Ed, Eacc.
    + intros en' k'. rewrite Hd1. simpl. rewrite elem_of_app, list_elem_of_singleton.
      intros [Hen| ->] Hne' Hkey; [done|]. rewrite Ek in Hkey. by apply legacy_key_inj in Hkey.
  - assert (Hid : dep_id p' = k) by (destruct Hsame as [-> _]; by apply (di_row d Hinv)).
    apply (deposit_inv_put d); [done|apply Hinv|done|reflexivity|done| | | |done].
    + intros k' q h' ???. by apply (same_hash_row d k p p' k' q h').
    + intros _. rewrite Ha, Hr. split; [done|]. apply find_entry_Some in Hf as [Hen Hkey].
      exists en. split; [done|]. right. rewrite Hkey. apply key_wallet.
    + intros en' Hen Hkey. destruct (entry_of_key d k p en' Hinv Hk Hen Hkey). congruence.
  - split; rewrite ?Hd; [apply Hw, Hinv|apply Hinv|apply Hinv| |].
    + intros k p Hk Hs. destruct (di_completed d Hinv k p Hk Hs) as [? Hp]. split; [done|].
      by eapply (deposit_paid_grows d d' k p p).
    + intros en k Hen Hkey. destruct (He en Hen) as [Hin|Hwk]; [by apply (di_entries d Hinv)|].
      rewrite Hkey in Hwk. done.
Qed.

(** ** The operations implement the specification *)

Definition dep_refines : relation Db := λ d d', deposit_inv d → rtc deposit_step d d'.

Lemma deposit_steps_inv d d' : rtc deposit_step d d' → deposit_inv d → deposit_inv d'.
Proof. induction 1; [done|]. eauto using deposit_step_inv. Qed.

#[export] Instance dep_refines_preorder : PreOrder dep_refines.
Proof.
  split; [by intros d _|]. intros d1 d2 d3 H1 H2 Hinv.
  etransitivity; [by apply H1|]. apply H2. by eapply deposit_steps_inv; [apply H1|].
Qed.

Lemma elsewhere_refines d d' : elsewhere d d' → dep_refines d d'.
Proof. intros H _. by apply rtc_once, deposit_elsewhere. Qed.

(** ** What happens elsewhere *)

Lemma eq_elsewhere A (m : M A) : respects eq m → respects elsewhere m.
Proof. intros Hm e w r w' H. rewrite (Hm _ _ _ _ H). reflexivity. Qed.

Lemma grows_same d d' : ledger d' = ledger d → ledger_grows d d'.
Proof. unfold ledger_grows. by intros ->. Qed.

Lemma wallet_steps_elsewhere d d' : wallet_inv d → rtc wallet_step d d' → elsewhere d d'.
Proof.
  intros Hinv H. induction H as [|d1 d2 d3 Hs _ IH]; [reflexivity|].
  assert (Hinv2 : wallet_inv d2) by (by eapply wallet_step_inv).
  transitivity d2; [|by apply IH]. clear IH.
  destruct Hs as [k o _ _ _ _ _ _ ->|k o o' _ _ ->|k a o o' en d4 _ _ _ _ Happ _ _ ->].
  1,2: split_and!; [done|by apply grows_same|by left|done].
  pose proof (applied_only_money _ _ _ _ _ _ _ _ Happ) as Hm. split_and!; [by rewrite Hm| | |done].
  - exact (applied_prefix _ _ _ _ _ _ _ _ Happ).
  - intros en' Hin. destruct (applied_entries _ _ _ _ _ _ _ _ Happ en' Hin) as [|E]; [by left|].
    right. rewrite E. apply key_wallet.
Qed.

(** Allocation only adds identities and addresses. *)
Definition registry_extends : relation Db := λ d d',
  d' = d <| wallet_identities := wallet_identities d' |> <| wallet_addresses := wallet_addresses d' |> ∧
  wallet_identities d ⊆ wallet_identities d' ∧ wallet_addresses d ⊆ wallet_addresses d'.

#[export] Instance registry_extends_preorder : PreOrder registry_extends.
Proof.
  split; [intros d; split_and!; [by destruct d|done..]|].
  intros d1 d2 d3 (H1 & H2 & H3) (K1 & K2 & K3). split_and!; [|by etransitivity..].
  rewrite K1, H1. by destruct d1.
Qed.

Lemma extends_ensure account chain :
  respects registry_extends (ensure_active_address from_mnemonic account chain).
Proof.
  apply respects_retry_else; [apply _| |apply respects_raise; apply _].
  unfold _ensure_active_address_once, ensure_block, _lock_identity, _allocate_new,
    _next_derivation_index. solve_respects.
  all: apply respects_create; [apply _|]; intros d Hd _; split_and!; [by destruct d| |];
    simpl; first [done|by apply insert_subseteq].
Qed.

Lemma wallet_inv_extends d d' : registry_extends d d' → wallet_inv d → wallet_inv d'.
Proof.
  intros (Hd & Hi & Ha) Hinv. rewrite Hd. split; simpl; [apply Hinv|apply Hinv| |apply Hinv].
  intros k o Hk Hs. destruct (wi_credited d Hinv k o Hk Hs) as (Hsh & en & Hf & Hdl & Hown).
  split; [done|]. exists en. split_and!; [done|done|].
  unfold observation_owner in *. simpl.
  destruct (wallet_addresses d !! obs_wallet_address o) as [a|] eqn:Ea; [|done]. simpl in Hown.
  destruct (wallet_identities d !! wa_wallet_identity a) as [i|] eqn:Ei; [|done].
  rewrite (lookup_weaken _ _ _ _ Ea Ha). simpl. by rewrite (lookup_weaken _ _ _ _ Ei Hi).
Qed.

Lemma elsewhere_ensure account chain :
  respects elsewhere (ensure_active_address from_mnemonic account chain).
Proof.
  intros e w r w' H. apply extends_ensure in H. pose proof (wallet_inv_extends _ _ H) as Hw.
  destruct H as (Hd & _). split_and!; [by rewrite Hd| | |done];
    [apply grows_same|]; rewrite Hd; [done|by left].
Qed.

Lemma elsewhere_shadow deposit transfer :
  respects elsewhere (safe_compare_legacy_deposit deposit transfer).
Proof.
  intros e w r w' H. pose proof (shadow_wallet_inv _ _ _ _ _ _ H) as Hw.
  apply untouched_shadow in H. split_and!; [by rewrite H| | |done];
    [apply grows_same|]; rewrite H; [done|by left].
Qed.

(** ** Triples on the row at hand *)

(** [m], started with the in-memory row [p] equal to the stored one, implements
    the specification. *)
Definition from_row {A} (p : DepositRequest) (m : M A) : Prop :=
  ∀ e w r w', deposit_inv (db w) → deposits (db w) !! dep_id p = Some p → m e w = (r, w') →
    rtc deposit_step (db w) (db w').

Section Triples.
Context (p : DepositRequest).

Lemma from_row_respects {A} (m : M A) : respects dep_refines m → from_row p m.
Proof. intros Hm e w r w' Hinv _ H. by apply (Hm _ _ _ _ H). Qed.

Lemma from_row_bind {A B} (m : M A) (k : A → M B) :
  (∀ e w r w', deposit_inv (db w) → deposits (db w) !! dep_id p = Some p → m e w = (r, w') →
     dep_refines (db w) (db w') ∧
     ∀ a, r = Ok a → deposits (db w') !! dep_id p = Some p ∧ from_row p (k a)) →
  from_row p (bind m k).
Proof.
  intros Hm e w r w' Hinv Hp. unfold bind. destruct (m e w) as [[a|x] w1] eqn:E.
  - destruct (Hm _ _ _ _ Hinv Hp E) as [Hs Ha]. specialize (Hs Hinv).
    destruct (Ha a eq_refl) as [Hp1 Hk]. intros H. etransitivity; [exact Hs|].
    eapply Hk; [by eapply deposit_steps_inv|done|done].
  - intros [= <- <-]. by apply (Hm _ _ _ _ Hinv Hp E).
Qed.

Lemma from_row_elsewhere {A B} (m : M A) (k : A → M B) :
  respects elsewhere m → (∀ a, from_row p (k a)) → from_row p (bind m k).
Proof.
  intros Hm Hk. apply from_row_bind. intros e w r w' Hinv Hp H. apply Hm in H.
  split; [by apply elsewhere_refines|]. intros a _. split; [|done]. destruct H as [-> _]. done.
Qed.

Lemma from_row_save {B} f (k : DepositRequest → M B) :
  dep_moves p (f p) → from_row (f p) (k (f p)) → from_row p (bind (save_deposit p f) k).
Proof.
  intros Hf Hk e w r w' Hinv Hp. unfold save_deposit, bind.
  destruct (save_fields _ _ _ _ e w) as [[u|x] w1] eqn:E.
  - apply save_fields_Ok in E as (_ & v & Hv & Hver & ->). simplify_eq. intros H.
    assert (Hs : deposit_step (db w) (put deposits (dep_id p) (f p) (db w)))
      by (by eapply deposit_moved).
    eapply rtc_l; [exact Hs|].
    refine (Hk e (w <| db := put deposits (dep_id p) (f p) (db w) |>) r w'
      (deposit_step_inv _ _ Hs Hinv) _ H).
    simpl. assert (dep_id (f p) = dep_id p) as -> by apply Hf. apply lookup_insert_eq.
  - intros [= <- <-]. apply write_Raise in E. by rewrite E.
Qed.

Lemma from_row_if {A} (c : bool) (m m' : M A) :
  (c = true → from_row p m) → (c = false → from_row p m') → from_row p (if c then m else m').
Proof. destruct c; auto. Qed.

Lemma from_row_ret {A} (a : A) : from_row p (ret a).
Proof. apply from_row_respects, respects_ret. apply _. Qed.
Lemma from_row_raise {A} x : from_row p (@raise A x).
Proof. apply from_row_respects, respects_raise. apply _. Qed.

End Triples.

Lemma from_row_last p f : dep_moves p (f p) → from_row p (save_deposit p f).
Proof.
  intros Hf e w r w' Hinv Hp H.
  assert (H' : bind (save_deposit p f) ret e w = (r, w')).
  { revert H. unfold bind, ret. destruct (save_deposit p f e w) as [[a|x] w1]; done. }
  exact (from_row_save p f ret Hf (from_row_ret (f p) (f p)) e w r w' Hinv Hp H').
Qed.

(** A transaction on a locked row. *)
Lemma locked_refines {A} id (k : DepositRequest → M A) :
  (∀ p, from_row p (k p)) → respects dep_refines (atomic (bind (get_locked deposits id) k)).
Proof.
  intros Hk. apply respects_atomic; [apply _|]. intros e w r w' H Hinv. unfold bind in H.
  destruct (get_locked deposits id e w) as [[p|x] w1] eqn:E.
  - apply get_locked_Ok in E as (_ & Hp & ->). eapply Hk, H; [done|].
    by rewrite (di_row _ Hinv _ _ Hp).
  - apply (respects_get_locked eq) in E. injection H as _ <-. by rewrite E.
Qed.

Lemma moves_unfinished p p' :
  same_deposit p p' → dep_status p ≠ DEP_COMPLETED → dep_status p' ≠ DEP_COMPLETED → dep_moves p p'.
Proof. intros H1 H2 H3. by split_and!. Qed.

Lemma mark_failed_refines deposit reason raw : respects dep_refines (_mark_failed deposit reason raw).
Proof.
  apply locked_refines. intros p. apply from_row_if; [intros _; apply from_row_ret|].
  intros Hc. apply from_row_last. unfold is_completed in Hc. bool_to_prop.
  by apply moves_unfinished.
Qed.
#[local] Hint Resolve mark_failed_refines : effects.

(** ** Completion *)

(** A grant pays for the deposit: with its own entry, or through a conversion
    of its transaction. *)
Definition pays (p : DepositRequest) (n : money) (grant : DepositRequest → M (CreditLedgerEntry * string))
    : Prop :=
  ∀ e w g w', deposit_inv (db w) → deposits (db w) !! dep_id p = Some p → grant p e w = (Ok g, w') →
    (∃ en, applied (dep_account p) n DEPOSIT (str (dep_id p)) (legacy_key (dep_id p))
       (db w) (db w') en) ∨
    elsewhere (db w) (db w') ∧ paid_by_wallet (db w') p.

Lemma complete_locked_Ok p transfer grant e w g w' :
  deposit_inv (db w) → deposits (db w) !! dep_id p = Some p →
  tr_amount transfer = dep_amount_requested p → pays p (tr_amount transfer) grant →
  complete_locked p transfer grant e w = (Ok g, w') →
  rtc deposit_step (db w) (db w').
Proof.
  intros Hinv Hp Ham Hpay H. apply atomic_Ok in H as (w1 & H & [(_ & -> & _)|[_ ->]]); [done|].
  apply bind_Ok in H as (q & w2 & (_ & Hq & ->)%get_locked_Ok & H). simpl in Hq. simplify_eq.
  destruct (is_completed p) eqn:Hc; [by apply ret_Ok in H as [_ ->]|].
  destruct (is_failed p) eqn:Hf; [by apply ret_Ok in H as [_ ->]|].
  apply bind_Ok in H as (other & w2 & (_ & -> & ->)%locked_query_Ok & H).
  apply bind_Ok in H as (u & w2 & Hu & H). simpl in Hu.
  destruct (other_completed p (db w)) eqn:Ho.
  { unfold fail_duplicate in Hu. by apply bind_Ok in Hu as (? & ? & _ & ?). }
  apply ret_Ok in Hu as [_ ->].
  apply bind_Ok in H as (gr & w2 & Hg & H). apply bind_Ok in H as (t & w3 & [= <- <-] & H).
  apply bind_Ok in H as (q' & w4 & Hs & [_ ->]%ret_Ok).
  apply bind_Ok in Hs as (u' & w5 & (_ & v & Hv & Hver & ->)%save_fields_Ok & [_ ->]%ret_Ok).
  simpl in Hv. simpl. unfold is_completed, is_failed in Hc, Hf. bool_to_prop.
  assert (Hpend : dep_status p = DEP_PENDING) by by destruct (dep_status p).
  destruct (Hpay e (enter w) gr w2 Hinv Hp Hg) as [[en Happ]|[He Hpaid]].
  - simpl in Happ. pose proof (applied_only_money _ _ _ _ _ _ _ _ Happ) as Hm.
    rewrite Hm in Hv. simpl in Hv. simplify_eq. apply rtc_once.
    eapply (deposit_completed_legacy _ _ (dep_id p)); [done| |done|by rewrite <- Ham|done].
    split_and!; simpl; congruence || done.
  - pose proof He as [Hd _]. simpl in Hd. rewrite Hd in Hv. simplify_eq.
    eapply rtc_l; [by apply deposit_elsewhere|]. apply rtc_once.
    eapply (deposit_completed_wallet _ _ (dep_id p)); [by rewrite Hd| | |done|done].
    + split_and!; simpl; congruence || done.
    + unfold other_completed in *. by rewrite Hd.
Qed.

Lemma pays_legacy p transfer : pays p (tr_amount transfer) (legacy_grant transfer).
Proof.
  intros e w g w' Hinv Hp H. unfold legacy_grant in H.
  apply bind_Ok in H as (en & w1 & (Happ & _ & _)%apply_money & [_ ->]%ret_Ok). left. eauto.
Qed.

Lemma clean_save_observation o f : clean (save_observation o f).
Proof. unfold save_observation. solve_clean. Qed.
#[local] Hint Resolve clean_save_observation : effects.

Lemma clean_refresh o n : clean (_refresh_locked o n).
Proof.
  unfold _refresh_locked, mark_pending, _apply_policy, evaluate, accepted_token_contract,
    min_confirmations. solve_clean.
Qed.
#[local] Hint Resolve clean_refresh : effects.

Lemma clean_ingest_once wa chain tx token from signal shadow :
  clean (_ingest_once wa chain tx token from signal shadow).
Proof.
  unfold _ingest_once, mark_pending, _apply_policy, evaluate, accepted_token_contract,
    min_confirmations. solve_clean.
Qed.

Lemma settled_row q n e w o w' :
  at_rest (obs_status q) → observations (db w) !! obs_id q = Some q →
  _refresh_locked q n e w = (Ok o, w') →
  observations (db w') !! obs_id o = Some o ∧ obs_tx_hash o = obs_tx_hash q.
Proof.
  intros Hr Hk H. destruct (settling_refresh q n Hr _ _ _ _ Hk H) as (o' & [Hc _] & Hd & Ho).
  rewrite (Ho o eq_refl), Hd. destruct Hc as (-> & _ & _ & -> & _). split; [|done].
  apply lookup_insert_eq.
Qed.

(** What ingestion returned is in the table. *)
Lemma ingest_row signal shadow e w o w' :
  wallet_inv (db w) → ingest signal shadow e w = (Ok o, w') →
  observations (db w') !! obs_id o = Some o ∧ tx_hash_text (sig_tx_hash signal) = Some (obs_tx_hash o).
Proof.
  intros Hinv H. unfold ingest in H.
  set (chain := if bool_decide (sig_chain signal = "") then _ else _) in H.
  apply bind_Ok in H as (tx & w1 & [Htx ->]%lift_Ok & H).
  assert (Ht : tx_hash_text (sig_tx_hash signal) = Some tx).
  { unfold normalize_tx_hash in Htx. destruct (tx_hash_text _); congruence. }
  pose proof (tx_hash_no_colon _ _ Ht) as Hnc. rewrite Ht.
  apply bind_Ok in H as (wa & w1 & (Hw & -> & ->)%query_Ok & H).
  destruct (latest_address _ _ _) as [wa|]; [|done].
  apply retry_else_Ok in H as (w1 & Hd1 & Ha1 & [H|H]).
  - apply atomic_clean_Ok in H as (w2 & H & ->); [|by apply clean_ingest_once|congruence].
    rewrite <- Hd1 in Hinv. clear Hd1. simpl.
    destruct (find_observation chain tx (sig_log_index signal) (db w1)) as [q|] eqn:Hf.
    + pose proof (find_observation_Some _ _ _ _ _ Hinv Hf) as (Hk & Hr & _ & Hq & _).
      unfold _ingest_once in H. apply bind_Ok in H as (ex & w3 & (_ & -> & ->)%locked_query_Ok & H).
      simpl in H. rewrite Hf in H. apply (settled_row q) in H as [Hrow Eq]; [|done..].
      split; [exact Hrow|congruence].
    + destruct (ingest_new _ _ _ _ _ _ _ _ _ _ _ H Hf Hinv Hnc) as (q & _ & _ & Hq & _ & Hs & Hd).
      assert (obs_id o = obs_id q) as -> by apply Hs. simpl in Hd. rewrite Hd.
      split; [apply lookup_insert_eq|]. destruct Hs as [(_ & _ & _ & -> & _) _]. by rewrite Hq.
  - rewrite <- Hd1 in Hinv. apply bind_Ok in H as (ex & w3 & (_ & -> & ->)%query_Ok & H).
    apply bind_Ok in H as (q & w3 & [Hf ->]%found_Ok & H).
    pose proof (find_observation_Some _ _ _ _ _ Hinv Hf) as (Hk & Hr & _ & Hq & _).
    apply (settled_row q) in H as [Hrow Eq]; [|done..].
      split; [exact Hrow|congruence].
Qed.

Lemma pays_wallet p h transfer wallet_address :
  hash_of p = Some h → pays p (tr_amount transfer) (wallet_grant transfer wallet_address).
Proof.
  intros Hh e w g w' Hinv Hp H. right. unfold wallet_grant in H. rewrite Hh in H.
  apply bind_Ok in H as (i & w1 & [_ ->]%lift_Ok & H).
  apply bind_Ok in H as (o & w1 & Hi & H).
  pose proof (moves_ingest _ _ _ _ _ _ Hi (di_wallet _ Hinv)) as Hs1.
  pose proof (wallet_steps_inv _ _ Hs1 (di_wallet _ Hinv)) as Hinv1.
  apply ingest_row in Hi as [Ho Ht]; [|apply Hinv]. simpl in Ht.
  apply bind_Ok in H as (u & w2 & [Hc ->]%raise_if_Ok & H). bool_to_prop.
  apply bind_Ok in H as (en & w2 & Hcv & [_ ->]%ret_Ok).
  pose proof (moves_convert _ _ _ _ _ Hcv Hinv1) as Hs2. split.
  { transitivity (db w1); [by apply wallet_steps_elsewhere; [apply Hinv|]|].
    by apply wallet_steps_elsewhere. }
  destruct (convert_Ok _ _ _ _ _ Hinv1 Hcv) as (o1 & Ho1 & [(Hs & _)|(_ & _ & Hcr)]);
    simplify_eq; [congruence|].
  destruct Hcr as (account & d1 & o' & _ & Happ & Hco & Hs' & Hd).
  exists (obs_id o), o', h, en. rewrite Hd. split_and!; [apply lookup_insert_eq|done| |done|].
  - rewrite (core_key _ _ Hco). exact (applied_filed _ _ _ _ _ _ _ _ Happ).
  - destruct Hco as (_ & _ & _ & -> & _). done.
Qed.

Lemma complete_refines p transfer grant :
  tr_amount transfer = dep_amount_requested p → pays p (tr_amount transfer) grant →
  from_row p (complete_locked p transfer grant).
Proof.
  intros Ham Hpay e w [g|x] w' Hinv Hp H.
  - by eapply complete_locked_Ok.
  - unfold complete_locked in H. by apply atomic_Raise in H as [-> _].
Qed.

Lemma eq_publish l : respects elsewhere (for_each l publish).
Proof. apply eq_elsewhere. solve_respects. Qed.

(** After a step the rest only reads, publishes, or happens elsewhere. *)
Lemma from_row_then {A B} p (m : M A) (k : A → M B) :
  from_row p m → (∀ a, respects elsewhere (k a)) → from_row p (bind m k).
Proof.
  intros Hm Hk e w r w' Hinv Hp. unfold bind. destruct (m e w) as [[a|x] w1] eqn:E;
    pose proof (Hm _ _ _ _ Hinv Hp E) as Hs.
  - intros H%Hk. etransitivity; [exact Hs|]. by apply rtc_once, deposit_elsewhere.
  - by intros [= _ <-].
Qed.

Lemma from_row_complete p transfer :
  tr_amount transfer = dep_amount_requested p → from_row p (_complete p transfer).
Proof.
  intros Ham. apply from_row_then; [apply complete_refines; [done|apply pays_legacy]|].
  intros [q [evs|]]; simpl; [|solve_respects].
  apply respects_bind; [apply _|apply eq_publish|intros _].
  apply respects_bind; [apply _| |intros _; solve_respects].
  apply respects_try; [apply _|apply elsewhere_shadow|]. intros x k [= <-]. solve_respects.
Qed.

Lemma from_row_complete_wallet p h transfer wallet_address :
  hash_of p = Some h → tr_amount transfer = dep_amount_requested p →
  from_row p (_complete_wallet_path wallet_address p transfer).
Proof.
  intros Hh Ham. apply from_row_then; [apply complete_refines; [done|by eapply pays_wallet]|].
  intros [q [evs|]]; simpl; [|solve_respects].
  apply respects_bind; [apply _|apply eq_publish|intros _; solve_respects].
Qed.

Lemma moves_same p p' :
  same_deposit p p' → dep_status p' = dep_status p →
  dep_amount_credited p' = dep_amount_credited p →
  dep_amount_requested p' = dep_amount_requested p → dep_moves p p'.
Proof. intros H1 H2 H3 H4. split_and!; [done| |congruence]. intros. by rewrite H2. Qed.

Lemma from_row_fail {A} p q reason raw x :
  from_row p (let! _ := _mark_failed q reason raw in @raise A x).
Proof. apply from_row_respects. solve_respects. Qed.

(** The gates, around any completion that needs the exact amount. *)
Lemma from_row_gates p transfer complete :
  (∀ q, hash_of q = hash_of p → tr_amount transfer = dep_amount_requested q →
     from_row q (complete q transfer)) →
  from_row p (_apply_transfer_gates p transfer complete).
Proof.
  intros Hk. unfold _apply_transfer_gates. apply from_row_save; [by apply moves_same|].
  set (q := p <| dep_raw_rpc_response := _ |>).
  apply from_row_if; intros _; [apply from_row_fail|].
  apply from_row_elsewhere; [apply eq_elsewhere; solve_respects|]. intros required.
  apply from_row_elsewhere; [apply eq_elsewhere; solve_respects|]. intros _.
  apply from_row_if; intros Ham; [apply from_row_fail|].
  apply Hk; [done|]. by bool_to_prop.
Qed.

(** Fetching reads; its handler fails the deposit and raises. *)
Lemma from_row_fetch {B} p h to (k : TransferResult → M B) :
  (∀ t, from_row p (k t)) →
  from_row p (bind (try_except (fetch_usdt_transfer h to) (on_fetch_error p)) k).
Proof.
  intros Hk. apply from_row_bind. intros e w r w' Hinv Hp. unfold try_except.
  destruct (fetch_usdt_transfer h to e w) as [[t|x] w1] eqn:E;
    apply fetch_reads in E as (Hd & _).
  - intros [= <- <-]. rewrite Hd. split; [reflexivity|]. intros a [= <-]. done.
  - destruct (on_fetch_error p x) as [m|] eqn:Em.
    + intros H. assert (Hm : respects dep_refines m ∧ ∀ e w a w', m e w ≠ (Ok a, w')).
      { destruct x; simplify_eq/=; (split; [solve_respects|]);
          by intros ????(? & ? & _ & ?)%bind_Ok. }
      split; [rewrite <- Hd; by eapply Hm|]. intros a ->.
      destruct Hm as [_ Hm]. by destruct (Hm _ _ _ _ H).
    + intros [= <- <-]. rewrite Hd. split; [reflexivity|done].
Qed.

Lemma from_row_missing p : from_row p (fail_missing_hash p).
Proof. apply from_row_fail. Qed.

Lemma from_row_pending p : from_row p (_verify_pending p).
Proof.
  apply from_row_elsewhere.
  { apply eq_elsewhere. unfold should_use_wallet_money_path, is_in_cutover_cohort. solve_respects. }
  intros wallet. apply from_row_if; intros _.
  - unfold _verify_pending_wallet_path. destruct (hash_of p) as [h|] eqn:Hh; [|apply from_row_missing].
    apply from_row_elsewhere; [apply elsewhere_ensure|]. intros a.
    apply from_row_fetch. intros t. apply from_row_gates. intros q Hq Ham.
    apply (from_row_complete_wallet q h); [congruence|done].
  - unfold _verify_pending_legacy. destruct (hash_of p) as [h|] eqn:Hh; [|apply from_row_missing].
    apply from_row_fetch. intros t. apply from_row_gates. intros q _ Ham.
    by apply from_row_complete.
Qed.

(** ** Admission *)

(** A returned row is the stored one. *)
Definition gives_row (m : M DepositRequest) : Prop :=
  ∀ e w p w', aborted w = false → deposit_inv (db w) → m e w = (Ok p, w') →
    deposits (db w') !! dep_id p = Some p ∧ dep_refines (db w) (db w').

Lemma row_of_query P d p :
  deposit_inv d → qfirst P (deposits d) = Some p → deposits d !! dep_id p = Some p.
Proof. intros Hinv (k & Hk & _)%qfirst_Some. by rewrite (di_row d Hinv k p Hk). Qed.

Lemma recover_refines p account amount key :
  respects dep_refines (_recover_failed_deposit p account amount key).
Proof.
  unfold _recover_failed_deposit.
  do 2 (apply respects_bind; [apply _|apply respects_raise_if; apply _|intros _]).
  apply locked_refines. intros q. apply from_row_if; [intros; apply from_row_ret|intros Hc].
  apply from_row_if; [intros; apply from_row_ret|intros Hf].
  apply from_row_elsewhere; [apply eq_elsewhere; solve_respects|]. intros _.
  apply from_row_last. unfold is_completed in Hc. bool_to_prop. by apply moves_unfinished.
Qed.

Lemma clean_save_deposit p f : clean (save_deposit p f).
Proof. unfold save_deposit. solve_clean. Qed.
#[local] Hint Resolve clean_save_deposit recover_refines : effects.

(** What a locked block returns is the stored row. *)
Lemma saved_row p f e w q w' :
  dep_id (f p) = dep_id p → deposits (db w) !! dep_id p = Some p →
  save_deposit p f e w = (Ok q, w') → deposits (db w') !! dep_id q = Some q.
Proof.
  intros Hid Hp H. apply bind_Ok in H as (u & w1 & (_ & v & Hv & _ & ->)%save_fields_Ok & [-> ->]%ret_Ok).
  simplify_eq. simpl. rewrite Hid. apply lookup_insert_eq.
Qed.

Lemma recover_gives_row p account amount key : gives_row (_recover_failed_deposit p account amount key).
Proof.
  intros e w q w' Hw Hinv H. split; [|by eapply recover_refines].
  apply bind_Ok in H as (u & w1 & [_ ->]%raise_if_Ok & H).
  apply bind_Ok in H as (u' & w1 & [_ ->]%raise_if_Ok & H).
  apply atomic_clean_Ok in H as (w1 & H & ->); [|solve_clean|done].
  apply bind_Ok in H as (v & w2 & (_ & Hv & ->)%get_locked_Ok & H). simpl in Hv.
  assert (Hid : dep_id v = dep_id p) by (by apply (di_row _ Hinv)). rewrite <- Hid in Hv.
  destruct (is_completed v); [by apply ret_Ok in H as [-> ->]|].
  destruct (negb _); [by apply ret_Ok in H as [-> ->]|].
  apply bind_Ok in H as (u2 & w2 & [_ ->]%raise_if_Ok & H). by apply saved_row in H.
Qed.

Lemma refines_create id p :
  dep_id p = id → dep_status p = DEP_PENDING →
  respects dep_refines (create deposits deposit_verdict id p).
Proof.
  intros Hid Hs. apply respects_create; [apply _|]. intros d Hk Hv _.
  by apply rtc_once, (deposit_created _ _ id p).
Qed.

Lemma create_pending_refines account h m n key :
  respects dep_refines (_create_pending_deposit account h m n key).
Proof.
  unfold _create_pending_deposit. solve_respects. by apply refines_create.
Qed.

#[local] Hint Resolve create_pending_refines : effects.

Lemma create_pending_gives_row account h m n key :
  gives_row (_create_pending_deposit account h m n key).
Proof.
  intros e w p w' Hw Hinv H. split; [|by eapply create_pending_refines].
  apply bind_Ok in H as (c & w1 & (_ & _ & ->)%query_Ok & H).
  apply bind_Ok in H as (u & w1 & [_ ->]%raise_if_Ok & H).
  apply try_Ok in H as [H|(x & k & w1 & H1 & Hk & H)].
  - apply atomic_clean_Ok in H as (w1 & H & ->); [|solve_clean|done]. inv_run H.
    apply lookup_insert_eq.
  - apply atomic_Raise in H1 as [Hd _]. destruct x; simplify_eq/=. rewrite <- Hd in Hinv.
    apply bind_Ok in H as (o & w2 & (_ & Ho & ->)%query_Ok & H).
    destruct o as [q|].
    + apply ret_Ok in H as [-> ->]. by eapply row_of_query.
    + by apply bind_Ok in H as (o & w2 & _ & H); destruct o.
Qed.

Lemma admit_row account h m n key e w p w' :
  deposit_inv (db w) →
  admit_deposit account h m n key e w = (Ok (p, true), w') →
  deposits (db w') !! dep_id p = Some p ∧ dep_refines (db w) (db w').
Proof.
  intros Hinv H. unfold admit_deposit in H.
  apply bind_Ok in H as (o & w1 & (Hw & Ho & ->)%query_Ok & H). destruct o as [q|].
  - assert (Hq : deposits (db w) !! dep_id q = Some q) by (by eapply row_of_query).
    repeat match type of H with (if ?c then _ else _) _ _ = _ => destruct c end;
      try (by apply ret_Ok in H as [[= -> ] ->]; split; [done|reflexivity]); try done.
    apply bind_Ok in H as (v & w1 & H & [[= ->] ->]%ret_Ok). by eapply recover_gives_row.
  - apply bind_Ok in H as (o & w1 & (_ & Hof & ->)%query_Ok & H). destruct o as [q|].
    + apply bind_Ok in H as (u & w1 & [_ ->]%raise_if_Ok & H). case_match; [done|].
      apply bind_Ok in H as (v & w1 & H & [[= ->] ->]%ret_Ok). by eapply recover_gives_row.
    + apply bind_Ok in H as (v & w1 & H & [[= -> _] ->]%ret_Ok). by eapply create_pending_gives_row.
Qed.

Lemma admit_refines account h m n key : respects dep_refines (admit_deposit account h m n key).
Proof.
  unfold admit_deposit. solve_respects.
Qed.

(** An admission followed by the verification of the admitted row. *)
Lemma refines_verified (m : M (DepositRequest * bool)) :
  respects dep_refines m →
  (∀ e w p w', deposit_inv (db w) → m e w = (Ok (p, true), w') →
     deposits (db w') !! dep_id p = Some p) →
  respects dep_refines (let! a := m in if a.2 then _verify_pending a.1 else ret a.1).
Proof.
  intros Hm Hrow e w r w' H Hinv. unfold bind in H.
  destruct (m e w) as [[[p b]|x] w1] eqn:E; pose proof (Hm _ _ _ _ E Hinv) as Hs.
  - destruct b; simpl in H; [|by injection H as _ <-]. etransitivity; [exact Hs|].
    eapply from_row_pending, H; [by eapply deposit_steps_inv|by eapply Hrow].
  - by injection H as _ <-.
Qed.

Lemma verify_refines account h m n key : respects dep_refines (verify account h m n key).
Proof.
  unfold verify. do 6 (apply respects_bind; [apply _|solve_respects|intros ?]).
  apply refines_verified; [apply admit_refines|]. intros. by eapply admit_row.
Qed.

Lemma reverify_refines id : respects dep_refines (reverify id).
Proof.
  unfold reverify. do 2 (apply respects_bind; [apply _|solve_respects|intros ?]).
  apply refines_verified.
  - apply locked_refines. intros p. apply from_row_if; intros Hc; [apply from_row_ret|].
    apply from_row_if; intros Hf; [|apply from_row_ret].
    apply from_row_elsewhere; [apply eq_elsewhere; solve_respects|]. intros _.
    apply from_row_save; [|apply from_row_ret].
    unfold is_completed in Hc. bool_to_prop. by apply moves_unfinished.
  - intros e w p w' Hinv H.
    apply atomic_Ok in H as (w1 & H & Hw').
    apply bind_Ok in H as (v & w2 & (Hw & Hv & ->)%get_locked_Ok & H). simpl in Hw, Hv.
    assert (Hid : dep_id v = id) by (by apply (di_row _ Hinv)). rewrite <- Hid in Hv.
    assert (Hcl : aborted w1 = false ∧ deposits (db w1) !! dep_id p = Some p).
    { destruct (is_completed v); [by apply ret_Ok in H as [[=] _]|].
      destruct (is_failed v) eqn:Hf.
      2:{ by apply ret_Ok in H as [[= ->] ->]. }
      apply bind_Ok in H as (u2 & w2 & [_ ->]%raise_if_Ok & H).
      apply bind_Ok in H as (q & w2 & H & [[= ->] ->]%ret_Ok).
      split; [by apply clean_save_deposit in H|by apply saved_row in H]. }
    destruct Hcl as [Hcl Hrow], Hw' as [(Hab & _)|[_ ->]]; [congruence|done].
Qed.

(** ** Running forward *)

(** What the verdict looks at. *)
Definition same_columns (p p' : DepositRequest) : Prop :=
  dep_id p' = dep_id p ∧ dep_idempotency_key p' = dep_idempotency_key p ∧
  dep_tx_hash p' = dep_tx_hash p ∧ dep_amount_requested p' = dep_amount_requested p ∧
  dep_amount_credited p' = dep_amount_credited p.

Lemma deposit_verdict_same d p p' :
  same_columns p p' → deposit_verdict d p = None → deposit_verdict d p' = None.
Proof.
  intros (E1 & E2 & E3 & E4 & E5). unfold deposit_verdict, deposit_fits, deposit_checks, deposit_clash.
  by rewrite E1, E2, E3, E4, E5.
Qed.

Lemma deposit_verdict_put d p p' q :
  same_columns p p' → dep_id q = dep_id p → deposit_verdict d p = None →
  deposit_verdict (put deposits (dep_id p) q d) p' = None.
Proof.
  intros Hc Hq Hv. apply (deposit_verdict_same d p p' Hc) in Hv. revert Hv.
  assert (dep_id p' = dep_id p) as <- by apply Hc. assert (dep_id q = dep_id p') as Hq' by (rewrite Hq; symmetry; apply Hc).
  unfold deposit_verdict. do 2 (destruct (negb _); [done|]).
  destruct (qexists _ (deposits d)) eqn:Hx; [done|]. intros _. rewrite qexists_false in Hx.
  rewrite (proj2 (qexists_false _ _)); [done|]. intros k v. simpl.
  intros [[<- <-]|[_ Hk]]%lookup_insert_Some; [|by apply (Hx k)].
  by rewrite Hq', N.eqb_refl, andb_false_r.
Qed.

(** A stored row that satisfies its table's constraints. *)
Definition deposit_stored (p : DepositRequest) (w : World) : Prop :=
  aborted w = false ∧ deposits (db w) !! dep_id p = Some p ∧ deposit_verdict (db w) p = None.

Definition put_deposit (p : DepositRequest) (w : World) : World :=
  w <| db := put deposits (dep_id p) p (db w) |>.

Lemma stored_put p q w : deposit_stored p w → same_columns p q → deposit_stored q (put_deposit q w).
Proof.
  intros (Hw & Hp & Hv) Hc. split_and!; [done|apply lookup_insert_eq|].
  assert (dep_id q = dep_id p) as Hid by apply Hc. unfold put_deposit. simpl. rewrite Hid.
  by apply deposit_verdict_put.
Qed.

Lemma save_deposit_run p f e w :
  deposit_stored p w → same_columns p (f p) → save_deposit p f e w = (Ok (f p), put_deposit (f p) w).
Proof.
  intros (Hw & Hp & Hv) Hc. unfold save_deposit, put_deposit.
  assert (dep_id (f p) = dep_id p) as -> by apply Hc.
  by erewrite bind_step by (eapply save_fields_run; [done|done|by eapply deposit_verdict_same]).
Qed.

Lemma atomic_put (w : World) d : (enter w <| db := d |>) <| depth := depth w |> = w <| db := d |>.
Proof. by destruct w. Qed.

Definition failed_row (p : DepositRequest) (reason : FailureReason) (raw : option Json) : DepositRequest :=
  p <| dep_status := DEP_FAILED |> <| dep_failure_reason := reason |> <| dep_raw_rpc_response := raw |>.

Lemma mark_failed_run p reason raw e w :
  deposit_stored p w → is_completed p = false →
  _mark_failed p reason raw e w =
    (Ok (failed_row p reason (match raw with Some r => Some r | None => dep_raw_rpc_response p end)),
     put_deposit (failed_row p reason (match raw with Some r => Some r | None => dep_raw_rpc_response p end)) w).
Proof.
  intros Hst Hc. pose proof Hst as (Hw & Hp & Hv). unfold _mark_failed.
  etransitivity; [apply atomic_run|unfold put_deposit; by rewrite <- atomic_put].
  - erewrite bind_step by (by apply get_locked_run). rewrite Hc.
    rewrite (save_deposit_run p); [|by split_and!|by split_and!].
    unfold failed_row. by destruct raw, (dep_raw_rpc_response p).
  - done.
Qed.

(** ** What a verification that does not credit does *)

(** The row of a deposit is all that changes. *)
Definition with_row (q : DepositRequest) (d : Db) : Db := put deposits (dep_id q) q d.

(** What the provider's reply makes of a verification: [None] when the transfer
    passes every gate, else the answer and the database left behind. *)
Definition refused (required : Z) (p : DepositRequest) (d : Db) (reply : Res TransferResult)
    : option (Res DepositRequest * Db) :=
  match reply with
  | Raise (TransferNotFoundError msg | BlockchainProviderError msg) =>
      Some (Raise DepositVerificationFailedError,
            with_row (failed_row p (FR_provider msg) (dep_raw_rpc_response p)) d)
  | Raise (BlockchainRPCError msg) =>
      Some (Raise (BlockchainRPCError msg),
            with_row (failed_row p (FR_rpc msg) (dep_raw_rpc_response p)) d)
  | Raise x => Some (Raise x, d)
  | Ok t =>
      let raw := Some (tr_raw_rpc_response t) in
      if negb (bool_decide (tr_status t = "success")) then
        Some (Raise DepositVerificationFailedError,
              with_row (failed_row p (FR_tx_status (tr_status t)) raw) d)
      else if tr_confirmations t <? required then
        Some (Raise (InsufficientConfirmationsError (tr_confirmations t) required),
              with_row (p <| dep_raw_rpc_response := raw |>) d)
      else if negb (tr_amount t =? dep_amount_requested p) then
        Some (Raise (AmountMismatchError (tr_amount t) (dep_amount_requested p)),
              with_row (failed_row p (FR_amount_mismatch (tr_amount t) (dep_amount_requested p)) raw) d)
      else None
  end.

(** The recipient a verification watches: any on the legacy path, the
    account's active address on the wallet path. *)
Definition watched_address (p : DepositRequest) : M (option string) :=
  let! wallet_path := should_use_wallet_money_path (dep_account p) in
  if wallet_path then
    let! a := ensure_active_address from_mnemonic (dep_account p) POLYGON in
    ret (Some (wa_address a))
  else ret None.

Lemma put_put_deposit q r w :
  put deposits (dep_id q) r (db (put_deposit q w)) = put deposits (dep_id q) r (db w).
Proof. unfold put_deposit, put, update. cbn. f_equal. apply insert_insert_eq. Qed.

Lemma stored_same p w w' :
  deposit_stored p w → db w' = db w → aborted w' = aborted w → deposit_stored p w'.
Proof. intros (? & ? & ?) Hd Ha. unfold deposit_stored. by rewrite Hd, Ha. Qed.

Lemma other_completed_put p q d :
  same_columns p q → deposits d !! dep_id p = Some p →
  other_completed q (put deposits (dep_id p) q d) = other_completed p d.
Proof.
  intros (E1 & _ & E3 & _) Hp. unfold other_completed. rewrite E1, E3.
  apply eq_true_iff_eq. rewrite !qexists_true. split; intros (k & v & Hk & Hv); simpl in Hk.
  - apply lookup_insert_Some in Hk as [[<- <-]|[_ Hk]]; [|eauto].
    by rewrite E1, N.eqb_refl, andb_false_r in Hv.
  - destruct (decide (dep_id p = k)) as [<-|Hne].
    + simplify_eq. by rewrite N.eqb_refl, andb_false_r in Hv.
    + exists k, v. simpl. by rewrite lookup_insert_ne.
Qed.

Lemma atomic_raise_run {A} (m : M A) e w x w1 :
  m e (enter w) = (Raise x, w1) →
  atomic m e w = (Raise x, w1 <| db := db w |> <| depth := depth w |> <| aborted := aborted w |>).
Proof. unfold atomic, enter. by intros ->. Qed.

Lemma run_bind_raise {A B} (m : M A) (k : A → M B) e w x d :
  run m e w = (Raise x, d) → run (bind m k) e w = (Raise x, d).
Proof. unfold run, bind. by destruct (m e w) as [[a|y] w1]; intros [= -> ->]. Qed.

Lemma fail_run {A} p reason raw x e w :
  deposit_stored p w → is_completed p = false →
  run (let! _ := _mark_failed p reason raw in @raise A x) e w =
    (Raise x, put deposits (dep_id p)
      (failed_row p reason (match raw with Some r => Some r | None => dep_raw_rpc_response p end)) (db w)).
Proof.
  intros Hst Hc. unfold run.
  by erewrite bind_step by (by apply mark_failed_run).
Qed.

Lemma publish_run l e w : for_each l publish e w = (Ok tt, w <| events := events w ++ l |>).
Proof.
  revert w. induction l as [|x l IH]; intros w; simpl.
  - rewrite app_nil_r. by destruct w.
  - erewrite bind_step by done. rewrite IH. simpl. by rewrite <- app_assoc.
Qed.

(** A verification that asked the provider and got [t], on either path: it
    credited, or everything done after the gates is undone. *)
Definition completed_or_undone (w : World) (out : Res DepositRequest * Db) : Prop :=
  match out with
  | (Ok q, _) => dep_status q = DEP_COMPLETED
  | (Raise _, d) => d = db w
  end.

Lemma complete_locked_ends p t grant e w :
  deposits (db w) !! dep_id p = Some p → dep_status p = DEP_PENDING →
  match complete_locked p t grant e w with
  | (Ok g, _) => dep_status g.1 = DEP_COMPLETED
  | (Raise _, w') => db w' = db w
  end.
Proof.
  intros Hp Hs. destruct (complete_locked p t grant e w) as [[g|x] w'] eqn:H.
  2: by apply atomic_Raise in H as [H _].
  apply atomic_Ok in H as (w1 & H & _).
  apply bind_Ok in H as (q & w2 & (_ & Hq & ->)%get_locked_Ok & H). simpl in Hq. simplify_eq.
  unfold is_completed, is_failed in H. rewrite Hs, !bool_decide_false in H by done.
  apply bind_Ok in H as (other & w2 & _ & H). apply bind_Ok in H as (u & w3 & _ & H).
  apply bind_Ok in H as (gr & w4 & _ & H). apply bind_Ok in H as (at_ & w5 & _ & H).
  apply bind_Ok in H as (q' & w6 & Hq' & [-> _]%ret_Ok).
  by apply bind_Ok in Hq' as (u' & w7 & _ & [-> _]%ret_Ok).
Qed.

Lemma complete_ends p t e w :
  deposits (db w) !! dep_id p = Some p → dep_status p = DEP_PENDING →
  completed_or_undone w (run (_complete p t) e w).
Proof.
  intros Hp Hs. pose proof (complete_locked_ends p t (legacy_grant t) e w Hp Hs) as H.
  unfold run, _complete. rewrite bind_run.
  destruct (complete_locked _ _ _ e w) as [[[q [evs|]]|x] w1]; simpl in *; [|done..].
  erewrite bind_step by apply publish_run. rewrite bind_run. unfold try_except.
  by destruct (safe_compare_legacy_deposit _ _ e _) as [[u|x] w2].
Qed.

Lemma complete_wallet_ends a p t e w :
  deposits (db w) !! dep_id p = Some p → dep_status p = DEP_PENDING →
  completed_or_undone w (run (_complete_wallet_path a p t) e w).
Proof.
  intros Hp Hs. pose proof (complete_locked_ends p t (wallet_grant t a) e w Hp Hs) as H.
  unfold run, _complete_wallet_path. rewrite bind_run.
  destruct (complete_locked _ _ _ e w) as [[[q [evs|]]|x] w1]; simpl in *; [|done..].
  by erewrite bind_step by apply publish_run.
Qed.

(** How asking the provider and applying the gates ends. *)
Definition verification_ends (required : Z) (p : DepositRequest) (w : World)
    (reply : Res TransferResult) (out : Res DepositRequest * Db) : Prop :=
  match refused required p (db w) reply, reply with
  | Some expected, _ => out = expected
  | None, Ok t =>
      completed_or_undone
        (w <| db := with_row (p <| dep_raw_rpc_response := Some (tr_raw_rpc_response t) |>) (db w) |>) out
  | None, Raise _ => False
  end.

Lemma gates_end p t complete e w :
  deposit_stored p w → dep_status p = DEP_PENDING →
  (∀ q w, deposits (db w) !! dep_id q = Some q → dep_status q = DEP_PENDING →
     completed_or_undone w (run (complete q t) e w)) →
  verification_ends (POLYGON_MIN_CONFIRMATIONS (settings e)) p w (Ok t)
    (run (_apply_transfer_gates p t complete) e w).
Proof.
  intros Hst Hs Hk. assert (Hc : is_completed p = false) by (unfold is_completed; by rewrite Hs).
  unfold verification_ends, refused, _apply_transfer_gates. unfold run at 1 2.
  erewrite bind_step by (apply save_deposit_run; [done|by split_and!]).
  set (q := p <| dep_raw_rpc_response := Some (tr_raw_rpc_response t) |>).
  assert (Hq : same_columns p q) by by split_and!.
  pose proof (stored_put p q w Hst Hq) as Hst2.
  destruct (negb (bool_decide (tr_status t = "success"))).
  { etransitivity; [by apply fail_run|]. by rewrite put_put_deposit. }
  erewrite bind_step by done. destruct (tr_confirmations t <? _); [done|].
  erewrite bind_step by done.
  change (dep_amount_requested q) with (dep_amount_requested p).
  destruct (negb (tr_amount t =? dep_amount_requested p)).
  { etransitivity; [by apply fail_run|]. by rewrite put_put_deposit. }
  exact (Hk q (put_deposit q w) (proj1 (proj2 Hst2)) Hs).
Qed.

(** Asking the provider, its errors included. *)
Lemma asking_ends p h to complete e w :
  deposit_stored p w → dep_status p = DEP_PENDING →
  (∀ t q w, deposits (db w) !! dep_id q = Some q → dep_status q = DEP_PENDING →
     completed_or_undone w (run (complete q t) e w)) →
  verification_ends (POLYGON_MIN_CONFIRMATIONS (settings e)) p w (fetch_usdt_transfer h to e w).1
    (run (let! t := try_except (fetch_usdt_transfer h to) (on_fetch_error p) in
          _apply_transfer_gates p t complete) e w).
Proof.
  intros Hst Hs Hk. assert (Hc : is_completed p = false) by (unfold is_completed; by rewrite Hs).
  destruct (fetch_usdt_transfer h to e w) as [[t|x] w1] eqn:Hf; simpl;
    pose proof (fetch_reads _ _ _ _ _ _ Hf) as (Hd & _ & Ha & _);
    assert (Hst1 : deposit_stored p w1) by (by eapply stored_same).
  - unfold run. erewrite bind_step by (by apply try_run).
    pose proof (gates_end p t complete e w1 Hst1 Hs (Hk t)) as H.
    unfold verification_ends in *. rewrite Hd in H. exact H.
  - unfold verification_ends.
    assert (Hr : ∃ y d, refused (POLYGON_MIN_CONFIRMATIONS (settings e)) p (db w) (Raise x) = Some (Raise y, d) ∧
      run (try_except (fetch_usdt_transfer h to) (on_fetch_error p)) e w = (Raise y, d)).
    { unfold refused. destruct (on_fetch_error p x) as [m|] eqn:Hm.
      - assert (Hr : run (try_except (fetch_usdt_transfer h to) (on_fetch_error p)) e w = run m e w1)
          by (unfold run; by erewrite try_catch).
        rewrite Hr. destruct x; simplify_eq/=; do 2 eexists; (split; [done|]);
          (etransitivity; [by apply fail_run|]); by rewrite Hd.
      - do 2 eexists. unfold run, try_except. rewrite Hf, Hm, Hd.
        split; [by destruct x; simplify_eq/=|done]. }
    destruct Hr as (y & d & -> & Hr). by apply run_bind_raise.
Qed.

Lemma refused_unpaid required p d reply out :
  refused required p d reply = Some out → ledger (out.2) = ledger d ∧ accounts (out.2) = accounts d.
Proof. intros H. unfold refused in H. repeat case_match; by simplify_eq/=. Qed.

(** Finding the address creates at most wallet rows. *)
Lemma watched_Ok p e w to w1 :
  watched_address p e w = (Ok to, w1) → deposit_stored p w →
  deposit_stored p w1 ∧ ledger (db w1) = ledger (db w) ∧ accounts (db w1) = accounts (db w).
Proof.
  unfold watched_address. intros H Hst. apply bind_Ok in H as (b & w2 & [= _ <-] & H).
  destruct b; [|by apply ret_Ok in H as [_ ->]].
  apply bind_Ok in H as (a & w2 & Ha & [_ ->]%ret_Ok). destruct Hst as (Hw & Hp & Hv).
  pose proof (extends_ensure _ _ _ _ _ _ Ha) as (Hd & _).
  apply clean_retry in Ha; [|done]. unfold deposit_stored.
  split_and!; [done|rewrite Hd; exact Hp|rewrite Hd; exact Hv|by rewrite Hd|by rewrite Hd].
Qed.

(** Whether the account's deposits take the wallet path. *)
Definition wallet_flag (p : DepositRequest) (e : Env) : bool :=
  let s := settings e in
  WALLET_ADDRESS_ENABLED s && OBSERVATION_ENABLED s && CREDIT_CONVERSION_V2 s &&
  bool_decide (dep_account p ∈ COHORT_ACCOUNT_IDS s).

Lemma wallet_flag_run p e w :
  should_use_wallet_money_path (dep_account p) e w = (Ok (wallet_flag p e), w).
Proof. done. Qed.

Lemma pending_asks p h e w to w1 :
  hash_of p = Some h → dep_status p = DEP_PENDING → watched_address p e w = (Ok to, w1) →
  deposit_stored p w1 →
  verification_ends (POLYGON_MIN_CONFIRMATIONS (settings e)) p w1 (fetch_usdt_transfer h to e w1).1
    (run (_verify_pending p) e w).
Proof.
  intros Hh Hs Hwa Hst. unfold run, _verify_pending. unfold watched_address in Hwa.
  rewrite bind_run, wallet_flag_run in Hwa. rewrite bind_run, wallet_flag_run. destruct (wallet_flag p e).
  - unfold _verify_pending_wallet_path. rewrite Hh.
    apply bind_Ok in Hwa as (a & w2 & Ha & [-> ->]%ret_Ok). erewrite bind_step by exact Ha.
    apply (asking_ends p h _ (_complete_wallet_path a)); [done..|]. intros. by apply complete_wallet_ends.
  - apply ret_Ok in Hwa as [-> ->]. unfold _verify_pending_legacy. rewrite Hh.
    apply (asking_ends p h _ _complete); [done..|]. intros. by apply complete_ends.
Qed.

Lemma pending_without_address p h e w x w1 :
  hash_of p = Some h → watched_address p e w = (Raise x, w1) →
  run (_verify_pending p) e w = (Raise x, db w).
Proof.
  intros Hh Hwa. unfold run, _verify_pending. unfold watched_address in Hwa.
  rewrite bind_run, wallet_flag_run in Hwa. rewrite bind_run, wallet_flag_run. destruct (wallet_flag p e); [|done].
  unfold _verify_pending_wallet_path. rewrite Hh. rewrite bind_run in Hwa. rewrite bind_run.
  destruct (ensure_active_address _ _ _ e w) as [[a|y] w2] eqn:Ha; [done|].
  injection Hwa as -> ->. f_equal. by eapply refuses_ensure.
Qed.

(** C16: How every verification of a pending deposit that does not credit ends,
    on the legacy path and on the wallet path.  Without a transaction hash the
    deposit is marked failed.  When the wallet path finds no address, nothing
    changes.  Otherwise the provider is asked once for that hash (and that
    address), and its reply decides: a provider error, an RPC error, a
    transaction that is not successful or a wrong amount marks the deposit
    failed with its reason and raises the matching exception; too few
    confirmations leave it pending, with the response recorded, for a retry; any
    other exception changes nothing.  None of these touches the ledger or a
    balance.  A transfer that passes the gates completes the deposit, or the
    call raises and the deposit is left pending with the response recorded,
    everything the completion did being rolled back. *)
Theorem refused_verification_outcome p e w :
  deposit_stored p w → dep_status p = DEP_PENDING →
  let out := run (_verify_pending p) e w in
  match hash_of p with
  | None => out = (Raise DepositVerificationFailedError,
      with_row (failed_row p FR_missing_tx_hash (dep_raw_rpc_response p)) (db w))
  | Some h =>
      match watched_address p e w with
      | (Raise x, _) => out = (Raise x, db w)
      | (Ok to, w1) =>
          let required := POLYGON_MIN_CONFIRMATIONS (settings e) in
          let reply := (fetch_usdt_transfer h to e w1).1 in
          verification_ends required p w1 reply out ∧
          (refused required p (db w1) reply ≠ None →
           ledger (out.2) = ledger (db w) ∧ accounts (out.2) = accounts (db w))
      end
  end.
Proof.
  intros Hst Hs out. assert (Hc : is_completed p = false) by (unfold is_completed; by rewrite Hs).
  destruct (hash_of p) as [h|] eqn:Hh.
  - destruct (watched_address p e w) as [[to|x] w1] eqn:Hwa.
    + pose proof (watched_Ok _ _ _ _ _ Hwa Hst) as (Hst1 & Hl & Ha).
      assert (Hends := pending_asks p h e w to w1 Hh Hs Hwa Hst1). split; [exact Hends|].
      intros Hr. unfold verification_ends in Hends.
      destruct (refused _ _ _ _) as [expected|] eqn:He; [|done].
      fold out in Hends. rewrite Hends. by apply refused_unpaid in He as [-> ->].
    + by eapply pending_without_address.
  - unfold out, run, _verify_pending. rewrite bind_run, wallet_flag_run.
    unfold _verify_pending_wallet_path, _verify_pending_legacy. rewrite Hh.
    destruct (wallet_flag p e); by apply fail_run.
Qed.

(** ** A verification that credits *)

Definition completed_row (p : DepositRequest) (t : TransferResult) (at_ : instant) : DepositRequest :=
  p <| dep_amount_credited := Some (tr_amount t) |> <| dep_status := DEP_COMPLETED |>
    <| dep_verified_at := Some at_ |> <| dep_failure_reason := FR_none |>
    <| dep_raw_rpc_response := Some (tr_raw_rpc_response t) |>.

Lemma verdict_completed d p t at_ :
  tr_amount t = dep_amount_requested p → deposit_verdict d p = None →
  deposit_verdict d (completed_row p t at_) = None.
Proof.
  intros Ht. unfold deposit_verdict, deposit_fits, deposit_checks, deposit_clash, completed_row. simpl.
  rewrite Ht. destruct (fits_numeric (dep_amount_requested p)); [|done]. simpl.
  destruct (0 <? dep_amount_requested p); [|by case_match].
  simpl. destruct (match dep_amount_credited p with Some n => fits_numeric n | None => true end); [|done].
  simpl. by destruct (match dep_amount_credited p with Some n => 0 <? n | None => true end).
Qed.

(** A stored pending deposit, a transfer that passes the gates, and an account
    that can take the amount. *)
Record deposit_payable (p : DepositRequest) (t : TransferResult) (a : Account) (e : Env) (w : World) : Prop := {
  py_inv : deposit_inv (db w);
  py_stored : deposit_stored p w;
  py_status : dep_status p = DEP_PENDING;
  py_success : tr_status t = "success";
  py_confirmed : POLYGON_MIN_CONFIRMATIONS (settings e) ≤ tr_confirmations t;
  py_amount : tr_amount t = dep_amount_requested p;
  py_other : other_completed p (db w) = false;
  py_account : accounts (db w) !! dep_account p = Some a;
  py_checks : account_checks a = true;
  py_balance : acc_balance a + tr_amount t < money_bound;
  py_version : acc_version a < max_int32;
}.

Lemma complete_locked_pays p t a e w :
  deposit_payable p t a e w →
  ∃ en at_ w', complete_locked p t (legacy_grant t) e w =
      (Ok (completed_row p t at_,
           Some (completion_events p t (str (dep_id p)) en at_)), w') ∧
    le_delta en = tr_amount t ∧ le_account en = dep_account p ∧
    le_idempotency_key en = legacy_key (dep_id p) ∧ events w' = events w ∧ aborted w' = false ∧
    db w' = put deposits (dep_id p) (completed_row p t at_)
      (put accounts (dep_account p) (balance_credited a (tr_amount t))
        ((db w) <| ledger := ledger (db w) ++ [en] |>)).
Proof.
  intros [Hinv Hst Hs Hsu Hco Ham Hot Hacc Hch Hbal Hver]. pose proof Hst as (Hw & Hp & Hv).
  assert (Hb : 0 < tr_amount t < money_bound).
  { rewrite Ham. revert Hv. unfold deposit_verdict, deposit_fits, deposit_checks.
    destruct (fits_numeric (dep_amount_requested p)) eqn:Hf; [|done].
    apply fits_numeric_spec in Hf. destruct (0 <? dep_amount_requested p) eqn:H0; [lia|].
    simpl. by case_match. }
  assert (Hpo : postable (dep_account p) (tr_amount t) (legacy_key (dep_id p)) 1 (enter w) a).
  { pose proof (account_checks_nonneg a Hch).
    assert (Hd : posted_delta (tr_amount t) 1 = tr_amount t) by done.
    split; rewrite ?Hd; [lia|done|done|done|done| |lia|apply fits_numeric_spec; lia|lia].
    apply (no_entry_unfinished _ (dep_id p) p); [done|done|by rewrite Hs]. }
  pose proof (apply_posts _ _ DEPOSIT (str (dep_id p)) _ _ e (enter w) a Hpo) as Hcredit.
  set (en := posted_entry _ _ _ _ _ _ _ _ _) in Hcredit.
  set (w1 := posted_world _ _ _ _ _ _ _ _ _) in Hcredit.
  set (at_ := clock e (tick w1)). set (w2 := w1 <| tick := S (tick w1) |>).
  assert (Hsave : save_completed p t at_ e w2 =
    (Ok (completed_row p t at_), put_deposit (completed_row p t at_) w2)).
  { unfold save_completed, save_deposit.
    erewrite bind_step by (eapply save_fields_run;
      [done|done|exact (verdict_completed (db w) p t at_ Ham Hv)]). done. }
  exists en, at_. eexists. split.
  - unfold complete_locked. apply atomic_run.
    + erewrite bind_step by (by apply get_locked_run).
      unfold is_completed, is_failed. rewrite Hs, !bool_decide_false by done.
      erewrite bind_step by (by apply locked_query_run). change (db (enter w)) with (db w).
      rewrite Hot. erewrite bind_step by done.
      erewrite bind_step by (unfold legacy_grant; by erewrite bind_step by exact Hcredit).
      erewrite bind_step by done.
      erewrite bind_step by exact Hsave. reflexivity.
    + done.
  - by split_and!.
Qed.

(** C17: A matching transfer completes its deposit: when the transaction was
    successful, has enough confirmations and carries exactly the requested
    amount, the verification returns the deposit as completed, the ledger has
    grown by one entry of that amount under the deposit's own key, the balance
    of the account has grown by it, and the two events are published; the
    shadow comparison that follows cannot prevent any of it. *)
Theorem matching_transfer_completes p h t a e w w1 :
  hash_of p = Some h → deposit_payable p t a e w → fetch_usdt_transfer h None e w = (Ok t, w1) →
  ∃ p' en at_ w', _verify_pending_legacy p e w = (Ok p', w') ∧
    p' = completed_row p t at_ ∧ deposits (db w') !! dep_id p = Some p' ∧
    ledger (db w') = ledger (db w) ++ [en] ∧
    le_delta en = dep_amount_requested p ∧ le_account en = dep_account p ∧
    le_idempotency_key en = legacy_key (dep_id p) ∧
    accounts (db w') !! dep_account p = Some (balance_credited a (dep_amount_requested p)) ∧
    events w' = events w ++ completion_events p t (str (dep_id p)) en at_.
Proof.
  intros Hh Hpay Hfetch. pose proof Hpay as [Hinv Hst Hs Hsu Hco Ham Hot Hacc Hch Hbal Hver].
  pose proof (fetch_reads _ _ _ _ _ _ Hfetch) as (Hd & _ & Ha & Hev & _).
  assert (Hst1 : deposit_stored p w1) by (by eapply stored_same).
  set (q := p <| dep_raw_rpc_response := Some (tr_raw_rpc_response t) |>).
  assert (Hq : same_columns p q) by by split_and!.
  set (w2 := put_deposit q w1).
  assert (Hpay2 : deposit_payable q t a e w2).
  { split; try done.
    - eapply deposit_step_inv; [|exact Hinv]. apply (deposit_moved _ _ (dep_id p) p q);
        [apply Hst|by apply moves_same|by apply (deposit_verdict_same _ p); [|apply Hst]|].
      unfold w2, put_deposit. simpl. by rewrite Hd.
    - by apply (stored_put p).
    - unfold w2, put_deposit. simpl. rewrite other_completed_put by (done || apply Hst1). by rewrite Hd.
    - unfold w2, put_deposit. simpl. by rewrite Hd. }
  destruct (complete_locked_pays q t a e w2 Hpay2) as (en & at_ & w3 & Hrun & Hen & Hac & Hkey & Hev3 & Hw3 & Hd3).
  set (w4 := w3 <| events := events w3 ++ completion_events q t (str (dep_id q)) en at_ |>).
  destruct (shadow_total (completed_row q t at_) t e w4) as [w5 Hsh].
  pose proof (untouched_shadow _ _ _ _ _ _ Hsh) as Hun.
  apply quiet_shadow in Hsh as Hqu. destruct Hqu as (_ & Hev5 & _).
  exists (completed_row q t at_), en, at_, w5. split.
  { unfold _verify_pending_legacy. rewrite Hh. erewrite bind_step by (by apply try_run).
    unfold _apply_transfer_gates.
    erewrite bind_step by (apply save_deposit_run; [done|by split_and!]). fold q w2.
    rewrite Hsu, bool_decide_true by done. cbn [negb]. erewrite bind_step by done.
    rewrite (proj2 (Z.ltb_ge _ _)) by done. erewrite bind_step by done.
    change (dep_amount_requested q) with (dep_amount_requested p). rewrite Ham, Z.eqb_refl. cbn [negb].
    unfold _complete. erewrite bind_step by exact Hrun. cbn [fst snd].
    erewrite bind_step by apply publish_run. fold w4. by erewrite bind_step by (by apply try_run). }
  rewrite Hun, Hev5. unfold w4. cbn [db events]. simpl. rewrite Hd3, Hev3. simpl.
  unfold w2, put_deposit. simpl. rewrite Hd, Hev, <- Ham. split_and!; try done.
  - apply lookup_insert_eq.
  - apply lookup_insert_eq.
Qed.

Lemma step_keeps_deposits d d' k p :
  deposit_step d d' → deposits d !! k = Some p →
  ∃ p', deposits d' !! k = Some p' ∧ same_deposit p p' ∧
    (dep_status p = DEP_COMPLETED → dep_status p' = DEP_COMPLETED ∧
       dep_amount_credited p' = dep_amount_credited p).
Proof.
  assert (Hrefl : deposits d !! k = Some p → ∃ p', deposits d !! k = Some p' ∧ same_deposit p p' ∧
    (dep_status p = DEP_COMPLETED → dep_status p' = DEP_COMPLETED ∧
       dep_amount_credited p' = dep_amount_credited p)) by (intros; exists p; by split_and!).
  assert (Hput : ∀ (m : gmap pk DepositRequest) j q q', m = deposits d → deposits d !! j = Some q →
    same_deposit q q' →
    (dep_status q = DEP_COMPLETED → dep_status q' = DEP_COMPLETED ∧
       dep_amount_credited q' = dep_amount_credited q) →
    deposits d !! k = Some p →
    ∃ p', <[j:=q']> m !! k = Some p' ∧ same_deposit p p' ∧
      (dep_status p = DEP_COMPLETED → dep_status p' = DEP_COMPLETED ∧
         dep_amount_credited p' = dep_amount_credited p)).
  { intros m j q q' -> Hj Hq Hc Hk. destruct (decide (j = k)) as [->|Hne].
    - exists q'. rewrite lookup_insert_eq. by simplify_eq.
    - rewrite lookup_insert_ne by done. auto. }
  intros [j q Hj _ _ _ ->|j q q' Hj (Hq & Hc & _) _ ->|j q q' d1 en Hj (Hq & Hs & _) _ Happ ->
    |j q q' Hj (Hq & Hs & _) _ _ ->|[Hd _]] Hk; simpl.
  - rewrite lookup_insert_ne by congruence. auto.
  - apply (Hput _ j q q'); try done. intros Hs. by destruct (Hc Hs) as (? & ? & _).
  - apply (Hput _ j q q'); try done; [|congruence].
    by rewrite (applied_only_money _ _ _ _ _ _ _ _ Happ).
  - apply (Hput _ j q q'); try done. congruence.
  - rewrite Hd. auto.
Qed.

Lemma steps_keep_deposits d d' k p :
  rtc deposit_step d d' → deposits d !! k = Some p →
  ∃ p', deposits d' !! k = Some p' ∧ same_deposit p p' ∧
    (dep_status p = DEP_COMPLETED → dep_status p' = DEP_COMPLETED ∧
       dep_amount_credited p' = dep_amount_credited p).
Proof.
  intros H. revert p. induction H as [|d1 d2 d3 Hs _ IH]; intros p Hk; [exists p; by split_and!|].
  destruct (step_keeps_deposits _ _ _ _ Hs Hk) as (p2 & Hk2 & H2 & Hc2).
  destruct (IH _ Hk2) as (p3 & Hk3 & H3 & Hc3). exists p3. split_and!; [done| |].
  - unfold same_deposit in *. intuition congruence.
  - intros Hs2. destruct (Hc2 Hs2) as [Hs3 E]. destruct (Hc3 Hs3) as [? E']. split; congruence.
Qed.

(** C18: Verifying and re-verifying deposits, on either path and however a call
    ends, only takes the steps of the specification and keeps its invariant:
    a transaction hash belongs to one deposit, a completed deposit was credited
    with exactly the requested amount and is backed by its ledger entry (its
    own, or a wallet conversion), a ledger entry under a deposit's key belongs
    to a completed deposit of that account and amount, and a completed deposit
    stays completed and credited as it was. *)
Theorem deposit_verification_refines account tx method amount key id e w r w' :
  deposit_inv (db w) →
  verify account tx method amount key e w = (r, w') ∨ reverify id e w = (r, w') →
  rtc deposit_step (db w) (db w') ∧ deposit_inv (db w') ∧
  ∀ k p, deposits (db w) !! k = Some p →
    ∃ p', deposits (db w') !! k = Some p' ∧ same_deposit p p' ∧
      (dep_status p = DEP_COMPLETED → dep_status p' = DEP_COMPLETED ∧
         dep_amount_credited p' = dep_amount_credited p).
Proof.
  intros Hinv Hrun.
  assert (Hs : rtc deposit_step (db w) (db w'))
    by (destruct Hrun as [H|H]; [by apply verify_refines in H; auto|by apply reverify_refines in H; auto]).
  split_and!; [done|by eapply deposit_steps_inv|]. intros k p Hk. by eapply steps_keep_deposits.
Qed.
End Verification.

(** ** A concrete verification *)

#[local] Instance sample_provider : BlockchainProvider :=
  polygon_blockchain sample_exchange sample_str_json sample_polygon.

Definition pending_deposit (amount : money) : DepositRequest :=
  mkDeposit 5 1 amount None WALLET_CONNECT (Some sample_hash) "key" DEP_PENDING FR_none None None.
Definition pending_world (amount : money) : World :=
  world_of (sample_db <| deposits := {[ 5%N := pending_deposit amount ]} |>).

Lemma pending_inv amount : deposit_inv (db (pending_world amount)).
Proof.
  split; simpl.
  - split; simpl; try done. by intros en ?%not_elem_of_nil.
  - by intros k p [<- <-]%lookup_singleton_Some.
  - by intros k k' p p' h [<- <-]%lookup_singleton_Some [<- <-]%lookup_singleton_Some.
  - by intros k p [<- <-]%lookup_singleton_Some.
  - by intros en k ?%not_elem_of_nil.
Qed.

Lemma pending_stored amount : 0 < amount < money_bound →
  deposit_stored (pending_deposit amount) (pending_world amount).
Proof.
  intros Hn. split_and!; [done|apply lookup_singleton_eq|].
  unfold deposit_verdict, deposit_fits, deposit_checks. simpl.
  rewrite (proj2 (fits_numeric_spec _)), (proj2 (Z.ltb_lt _ _)) by lia. done.
Qed.

(** The transfer the sample chain holds. *)
Lemma pending_fetch amount :
  ∃ t w1, fetch_usdt_transfer sample_hash None sample_env (pending_world amount) = (Ok t, w1) ∧
    tr_status t = "success" ∧ tr_confirmations t = 33 ∧ tr_amount t = 5000000.
Proof. eexists _, _. split; [vm_compute; reflexivity|]. by split_and!. Qed.

(** A transfer of five dollars does not pay a deposit of seven micro-units. *)
Lemma refused_verification_outcome_witness :
  (run (_verify_pending path_address (pending_deposit 7)) sample_env (pending_world 7)).1 =
    Raise (AmountMismatchError 5000000 7).
Proof.
  destruct (pending_fetch 7) as (t & w1 & Hf & Hs & Hc & Ha).
  pose proof (refused_verification_outcome path_address (pending_deposit 7) sample_env (pending_world 7)
    ltac:(apply pending_stored; split; reflexivity) eq_refl) as H.
  assert (Hends : verification_ends (POLYGON_MIN_CONFIRMATIONS (settings sample_env)) (pending_deposit 7)
    (pending_world 7) (fetch_usdt_transfer sample_hash None sample_env (pending_world 7)).1
    (run (_verify_pending path_address (pending_deposit 7)) sample_env (pending_world 7)))
    by exact (proj1 H).
  rewrite Hf in Hends. unfold verification_ends, refused in Hends. cbn [fst] in Hends.
  rewrite Hs, Hc, Ha in Hends. rewrite Hends. reflexivity.
Defined.

(** On the wallet path the same transaction, which paid the shared wallet and
    not the account's own address, is refused and the deposit marked failed. *)
Definition wallet_path_env : Env :=
  mkEnv (sample_settings <| WALLET_HD_MNEMONIC := "seed" |> <| WALLET_ADDRESS_ENABLED := true |>
           <| OBSERVATION_ENABLED := true |> <| CREDIT_CONVERSION_V2 := true |>
           <| COHORT_ACCOUNT_IDS := [1%N] |>) (λ n, Z.of_nat n) 100 (λ n, pretty (N.of_nat n)).

Example wallet_path_refusal :
  let out := run (_verify_pending path_address (pending_deposit 7)) wallet_path_env (pending_world 7) in
  out.1 = Raise DepositVerificationFailedError ∧
  dep_status <$> (deposits out.2 !! 5%N) = Some DEP_FAILED.
Proof. split; vm_compute; reflexivity. Qed.

Lemma matching_transfer_completes_witness :
  ∃ p' w', _verify_pending_legacy (pending_deposit 5000000) sample_env (pending_world 5000000)
      = (Ok p', w') ∧ dep_status p' = DEP_COMPLETED.
Proof.
  destruct (pending_fetch 5000000) as (t & w1 & Hf & Hs & Hc & Ha).
  destruct (matching_transfer_completes (pending_deposit 5000000) sample_hash t sample_account
    sample_env (pending_world 5000000) w1) as (p' & en & at_ & w' & H & -> & _).
  - reflexivity.
  - split; rewrite ?Hc, ?Ha; [apply pending_inv|apply pending_stored; split; reflexivity|reflexivity
      |exact Hs|discriminate|reflexivity..].
  - exact Hf.
  - eexists _, w'. split; [exact H|reflexivity].
Defined.

Lemma deposit_verification_refines_witness :
  deposit_inv (db (verify path_address 1 sample_hash "wallet_connect" (AInt 5) "key2" sample_env
    sample_world).2).
Proof.
  eapply (deposit_verification_refines path_address 1 sample_hash "wallet_connect" (AInt 5) "key2" 9
    sample_env sample_world); [|left; apply surjective_pairing].
  split; simpl; try done; try (by intros ? ? ?%not_elem_of_nil).
  split; simpl; try done. by intros en ?%not_elem_of_nil.
Defined.
